(* ===== verification/_CoqProject ===== *)
-Q . S2P
Prelude.v
Crypto.v
Encoding.v
Float.v
Json.v
Indent.v
Cli.v
Timeline.v
TimelineTheory.v
TimelineFile.v
Graph.v
TrustState.v
Watchdog.v
Merkle.v
Gossip.v
Modular.v
Curve.v
Edwards.v
EdwardsTheory.v
EdwardsCodec.v
Shamir.v
Frost.v
FrostTheory.v
FrostSpec.v
Dkg.v
DkgTheory.v
DkgNet.v
Reshare.v
BlindFrost.v
Identity.v
Council.v
CouncilTheory.v
Recovery.v
Pq.v
Vault.v
Auth.v
Ratelimit.v
Transport.v
CouncilNet.v
CouncilNetTheory.v
CouncilWire.v
Fleet.v
FleetPeer.v
Dns.v
Store.v
StoreTheory.v
Webhooks.v
Compliance.v
Gateway.v
GatewayTheory.v
GatewayFlaws.v
Operator.v
IdentityTool.v
ShareFiles.v
CouncilTool.v
KeyTool.v
Client.v
