(* ===== verification/Prelude.v ===== *)
(** * Trust Orchestrator: a verification development

    Trust Orchestrator keeps an organisation's trust history - certificates
    issued and revoked, keys rotated, intrusions detected - as a signed chain
    of events, watches that chain and the network with an ensemble of
    watchdogs, and, when the ensemble detects a compromise, lets a council of
    share holders roll the chain back under a threshold signature.  This
    library models the Go package src/*.go and the commands of its programs under
    src/cmd/ (tests, benchmarks and sockets apart) and proves what makes it
    correct, or shows where it is not.

    ** The parts, and where they are

    The chain.  Timeline.v is timeline.go and hash.go: events, their signed
    bytes, append, key rotation, council handoffs, the verifier
    ([walkVerify], [LocateBadEvent]) and forks.  TimelineTheory.v proves that
    the head commits to the history and that every chain the engine builds
    verifies.  TimelineFile.v is the file format.  Graph.v is graph.go, with
    reachability for every order of a map's iteration.  TrustState.v derives the
    state of the certificates from the chain (Timeline.Fold) and rolls it back
    (rollback.go, consumer.go).

    The log.  Merkle.v is the Merkle tree of ctlog.go and both RFC 9162
    verifier loops, sound and complete; Gossip.v its signed heads and the
    observers that compare them.

    Detection.  Watchdog.v is detect.go, watchdogs.go, ensemble.go, audit.go:
    the scores, the fusion of their votes, the auditor; Fleet.v and
    Transport.v (fleet.go, transport.go) are the server that collects scores
    from the wire; Ratelimit.v (ratelimit.go) the token buckets of both.
    FleetPeer.v is the watchdog's end of the wire, with what a cut connection
    loses.  Float.v is binary64 as Go uses it, on the Standard Library's
    specification of it.

    The council.  Modular.v, Curve.v, Edwards.v, EdwardsTheory.v and
    EdwardsCodec.v are the arithmetic of frost.go: the field, the curve as a
    group, scalars and encodings.  Shamir.v is shamir.go.  Frost.v is the
    dealer, the signers and the aggregator of frost.go, with the proofs in
    FrostTheory.v and the claims in FrostSpec.v; Dkg.v and DkgTheory.v are key
    generation without a dealer (dkg.go and frost.go), DkgNet.v the same over a
    network of participants that dial each other in any order, Reshare.v membership
    changes (reshare.go), BlindFrost.v blind signatures (blindfrost.go).
    Council.v is council.go: handoffs, the canonical fork, the recovery;
    CouncilTheory.v and Recovery.v prove what a recovery restores.
    CouncilNet.v is councilnet.go: the server that holds one member's share, the
    initiator that collects votes and signatures, and a network of members;
    CouncilNetTheory.v proves what the two rounds promise and shows what they
    leave open.  CouncilWire.v is the wire below: the JSON of a message, frames,
    hybrid sessions; over it the network behaves as CouncilNet.v has it.

    The gateway.  Store.v is store.go: the tenants in memory and in the
    directory, sealing, vault sessions, backup and restore; StoreTheory.v
    relates the two.  Vault.v, Auth.v, Webhooks.v, Compliance.v are the files
    of those names; Identity.v is identity.go and mtls.go, Pq.v is pq.go with
    the AES-GCM boxes of vault.go.  Gateway.v is api.go: the route table, the
    middleware in its order, the handlers and the watcher of an organisation;
    GatewayTheory.v proves what a request can do, GatewayFlaws.v what it can do
    that it should not, with the concrete runs both files' claims are tried on.

    Client.v is client.go: every method of the Go client, over a network that
    ends at Gateway.v.

    The programs.  Cli.v holds what they share: the files as a map from paths,
    the loops over the arguments, numbers, paths and key files.  Operator.v is
    the offline commands of cmd/orchestrator, with cmd/pdp, cmd/auditor and the
    replay of a watchdog of cmd/to; IdentityTool.v is cmd/identity, CouncilTool.v
    cmd/council over the files of ShareFiles.v (the JSON of share files of
    frost.go and shamir.go), KeyTool.v the key commands of cmd/to and the reading
    of keys by cmd/gateway, Dns.v the codec of cmd/dnsprobe.  A command is a
    function from its arguments and the files to the files after it.

    Prelude.v (this file) holds outcomes, slices, maps and the shared lemmas
    and tactics; Crypto.v the interfaces of hashes and signatures; Encoding.v
    and Json.v Go's encoding/hex, encoding/base64, strconv and encoding/json as
    far as the program uses them, parser and printer, Indent.v the printer of
    several lines.

    ** How Go is modelled

    A call that can fail or panic returns an [outcome]: a value, an error (its
    format string) or [Panic].  Methods with a pointer receiver return the new
    value of the receiver.  A [[]byte] that may be nil is a [slice]; an int or
    int64 is a Z whose wrap-around is written where the code can reach it; a
    map is a gmap, and wherever the code ranges over one, the order is an
    argument and the theorems hold for every permutation.  math/big is Z.  Time
    and randomness are arguments; a draw may fail.  The store is a monad over a
    world - memory, directory, the directory's past states, mutex - so that a
    crash is the choice of a past state and a forgotten unlock a request that
    blocks.  Requests are served one after the other: each handler holds the
    store's mutex for the accesses that matter, and the interleavings modelled
    are those of whole requests, frames, verdicts and crashes.

    What is not under src/ is an interface: SHA-256, SHA3-256 and SHA-512 as
    functions of fixed length ([Hashes]); Ed25519 with its documented laws
    ([Ed25519], [Ed25519Std]: verification is the equation of RFC 8032);
    crypto/x509, AES-GCM, HKDF, ML-KEM, ML-DSA, X25519, net/url, the text of a
    float and of gateway.json with their round trips.  Each has a concrete
    instance in a module named Toy..., on which the witnesses run.  Collision
    resistance is never assumed: a theorem that needs it says which finite
    list of inputs has no collision ([collision_free]).

    ** What is proved

    History: [chain_commits], [reachable_verifies], [LocateBadEvent_first_bad].
    Rollback: [InvalidationSet_spec], [rollback_report], [Rollback_restores],
    [Reachable_closure].  Log: [Root_tree_hash], soundness and
    completeness of both proofs, [observe_all_append_only],
    [Observe_detects_fork].  Detection: [Detect_byzantine], [W2_detects],
    [fleet_verdict], [watcher_edges], [burst_exact].
    Threshold signing: [threshold_signature_verifies], [dkg_network_signs],
    [reshare_signs], [blind_unlinkable], [Shamir_secrecy].  Recovery:
    [Recover_restores], [RemoteRecover_restores], [member_signs_once],
    [wire_refines], [recover_adopts].  Gateway: [requests_guarded],
    [replay_once], [report_tallies]; from the client through the gateway to its
    store and back: [issue_then_state].  Storage: [restart_restores].  Programs:
    [ceremony_recovers] (from the ceremony's files to a fork the gateway adopts),
    [kek_boots], [revocations_stick], [dry_run_previews], [query_answered];
    [peer_delivers].  Defects: [recover_hijack], [deferred_deadlock], and, as
    lemmas beside the code they concern, [rotate_crash_loses],
    [every_voter_signs], [audit_unscoped], [Recover_index_panics],
    [one_peer_detects], [expired_list_stuck], [shard_other_key], [enroll_copy],
    [download_cut] and others.

    ** Fuel

    A loop that is not structural runs on fuel that is a bound of the code's
    own: the length of the list for [bfs] (each node enters the queue once;
    [Reachable_closure] proves the result is the closure), the range's length
    for the Merkle recursions ([mth_go], [path_go], [consPath_go]), the length
    of the input for the JSON parser and for [serve]; the walk over a DNS answer
    is bounded by the datagram.  The scalar and inverse
    loops run over the bits of a 32-byte scalar.  No theorem is about what
    happens when fuel runs out.

    ** Not modelled

    bench.go, and of cmd/to bench, calibrate and the action log, which run it:
    measurements that nothing calls in a running system.  Of cmd/gateway the
    process itself (flags, HTTP server, leader lock, dashboard); of
    cmd/orchestrator serve, --live and the compliance report; of cmd/council and
    cmd/dnsprobe the sockets; of every program the dispatch on its first
    argument (but cmd/orchestrator's), the usage texts and the printed lines.
    Of the modelled files: the file wrappers of the timeline, accept loops, TLS
    (dialCouncil), dial retries, tickers and goroutines of dkg.go, fleet.go and webhooks.go (a
    run is a sequence of frames or turns), the HTTP request of a webhook
    delivery, handleMetrics and DialWire.  SDKs, Helm, Terraform, specs/ and research/ hold no code of the
    engine. *)
From Stdlib Require Export ZArith Lia List.
From Stdlib.Strings Require Export String Byte.
From stdpp Require Export prelude gmap strings list fin_maps.
Export ListNotations.

#[global] Open Scope Z_scope.
#[global] Open Scope list_scope.

(** ** Outcomes: Go's (value, error) results, and panics *)

(** An [error] is the error's message with the formatted arguments left out:
    its format string. *)
Abbreviation error := string (only parsing).

Inductive outcome (A : Type) : Type :=
| Ret (a : A)
| Err (e : error)
| Panic.
Arguments Ret {A} a.
Arguments Err {A} e.
Arguments Panic {A}.

#[global] Instance outcome_ret : MRet outcome := @Ret.
#[global] Instance outcome_bind : MBind outcome := fun A B f m =>
  match m with
  | Ret a => f a
  | Err e => Err e
  | Panic => Panic
  end.

(** [guard c e k]: the early return [if c { return e }]. *)
Definition guard {A} (c : bool) (e : error) (k : outcome A) : outcome A :=
  if c then Err e else k.

Definition is_ret {A} (m : outcome A) : bool :=
  match m with Ret _ => true | _ => false end.

Definition of_option {A} (e : error) (o : option A) : outcome A :=
  match o with Some a => Ret a | None => Err e end.

Lemma bind_ret {A B} (m : outcome A) (f : A -> outcome B) b :
  m ≫= f = Ret b -> exists a, m = Ret a /\ f a = Ret b.
Proof. destruct m; naive_solver. Qed.

Lemma bind_panic {A B} (m : outcome A) (f : A -> outcome B) :
  m ≫= f = Panic -> m = Panic \/ exists a, m = Ret a /\ f a = Panic.
Proof. destruct m; naive_solver. Qed.

Lemma guard_ret {A} c e (k : outcome A) a :
  guard c e k = Ret a <-> c = false /\ k = Ret a.
Proof. destruct c; naive_solver. Qed.

Lemma of_option_ret {A} e (o : option A) a : of_option e o = Ret a <-> o = Some a.
Proof. destruct o; naive_solver. Qed.

(** Invert every successful bind and guard of the context. *)
Ltac inv_outcome :=
  repeat match goal with
  | H : mbind _ _ = Ret _ |- _ => apply bind_ret in H as (? & ? & H)
  | H : guard _ _ _ = Ret _ |- _ => apply guard_ret in H as [? H]
  | H : of_option _ _ = Ret _ |- _ => apply of_option_ret in H
  | H : Ret _ = Ret _ |- _ => injection H as H; try subst
  | H : Err _ = Ret _ |- _ => discriminate H
  | H : Panic = Ret _ |- _ => discriminate H
  | x : (_ * _)%type |- _ => destruct x; cbn [fst snd] in *
  end.

(** Split the next [if] of a hypothesis or of the goal. *)
Ltac case_if :=
  match goal with
  | |- context [if ?b then _ else _] => destruct b eqn:?
  | H : context [if ?b then _ else _] |- _ => destruct b eqn:?
  end.

(** Inclusion between lists written with [++] and [::], as sets. *)
Ltac sub_app := clear; let z := fresh "z" in intros z; repeat (rewrite elem_of_app || rewrite elem_of_cons); tauto.

(** [lia] with division and modulo by literals. *)
Ltac div_lia := Z.to_euclidean_division_equations; lia.

(** ** Machine integers *)

(** Go's [int] and [int64]: two's complement wrap-around at 64 bits. *)
Definition wrap64 (z : Z) : Z := (z + 2 ^ 63) mod 2 ^ 64 - 2 ^ 63.

Definition in_int64 (z : Z) : Prop := - 2 ^ 63 <= z < 2 ^ 63.

#[global] Instance in_int64_dec z : Decision (in_int64 z).
Proof. unfold in_int64. apply _. Defined.

Lemma wrap64_id z : in_int64 z -> wrap64 z = z.
Proof. unfold wrap64, in_int64. intros H. rewrite Z.mod_small; lia. Qed.

Lemma wrap64_range z : in_int64 (wrap64 z).
Proof. unfold wrap64, in_int64. pose proof (Z.mod_pos_bound (z + 2 ^ 63) (2 ^ 64)). lia. Qed.

(** ** Bytes and slices *)

Abbreviation byte := Byte.byte.
Abbreviation bytes := (list Byte.byte).
(** A Go [[]byte] whose nil-ness the code observes: [None] is nil. *)
Abbreviation slice := (option (list Byte.byte)).

#[global] Instance byte_eq_dec : EqDecision byte := Byte.byte_eq_dec.

Definition byte_Z (b : byte) : Z := Z.of_N (Byte.to_N b).
(** Go's conversion [byte(z)]: truncation to the low eight bits. *)
Definition Z_byte (z : Z) : byte :=
  match Byte.of_N (Z.to_N (z mod 256)) with Some b => b | None => Byte.x00 end.

Lemma byte_Z_range b : 0 <= byte_Z b < 256.
Proof. unfold byte_Z. pose proof (Byte.to_N_bounded b). lia. Qed.

Lemma Z_byte_Z b : Z_byte (byte_Z b) = b.
Proof.
  unfold Z_byte. pose proof (byte_Z_range b). rewrite Z.mod_small by lia.
  unfold byte_Z. rewrite N2Z.id, Byte.of_to_N. done.
Qed.

Lemma byte_Z_byte z : byte_Z (Z_byte z) = z mod 256.
Proof.
  unfold Z_byte, byte_Z. pose proof (Z.mod_pos_bound z 256).
  destruct (Byte.of_N _) as [b|] eqn:E.
  - apply Byte.to_of_N in E. rewrite E. lia.
  - apply Byte.of_N_None_iff in E. lia.
Qed.

#[global] Instance byte_Z_inj : Inj (=) (=) byte_Z.
Proof. intros x y E. by rewrite <- (Z_byte_Z x), E, Z_byte_Z. Qed.

(** [len] of a slice, with nil of length zero; [append] and [bytes.Equal] see
    only the contents. *)
Definition sb (s : slice) : bytes := default [] s.
Definition bytes_equal (a b : bytes) : bool := bool_decide (a = b).

Lemma bytes_equal_true a b : bytes_equal a b = true <-> a = b.
Proof. apply bool_decide_eq_true. Qed.

Lemma bytes_equal_refl a : bytes_equal a a = true.
Proof. by apply bytes_equal_true. Qed.

Definition zlen {A} (l : list A) : Z := Z.of_nat (length l).

(** Go strings are byte sequences: [string] with its byte view. *)
Abbreviation to_bytes := String.list_byte_of_string.
Abbreviation of_bytes := String.string_of_list_byte.

Lemma of_to_bytes s : of_bytes (to_bytes s) = s.
Proof. apply String.string_of_list_byte_of_string. Qed.
Lemma to_of_bytes b : to_bytes (of_bytes b) = b.
Proof. apply String.list_byte_of_string_of_list_byte. Qed.

#[global] Instance to_bytes_inj : Inj (=) (=) to_bytes.
Proof. intros x y E. by rewrite <- (of_to_bytes x), E, of_to_bytes. Qed.

Lemma to_bytes_app s t : to_bytes (s ++ t)%string = to_bytes s ++ to_bytes t.
Proof.
  induction s as [|a s IH]; [done|].
  change (to_bytes (String a s ++ t)%string) with
    (Ascii.byte_of_ascii a :: to_bytes (s ++ t)%string).
  by rewrite IH.
Qed.

(** [strings.HasPrefix] and [strings.TrimPrefix] in one: the rest after [p]. *)
Fixpoint strip_prefix (p s : string) : option string :=
  match p, s with
  | EmptyString, _ => Some s
  | String a p, String b s => if Ascii.eqb a b then strip_prefix p s else None
  | _, _ => None
  end.

Lemma strip_prefix_app p s : strip_prefix p (p ++ s)%string = Some s.
Proof. induction p as [|a p IH]; [done|]. 
  change (String a p ++ s)%string with (String a (p ++ s)%string). cbn [strip_prefix].
  destruct (Ascii.eqb_spec a a); done.
Qed.

Lemma strip_prefix_some p s r : strip_prefix p s = Some r -> s = (p ++ r)%string.
Proof.
  revert s. induction p as [|a p IH]; intros s; cbn [strip_prefix String.append]; [by intros [= ->]|].
  destruct s as [|b s]; [done|]. destruct (Ascii.eqb_spec a b) as [->|]; [|done].
  intros E. by rewrite (IH _ E).
Qed.

Lemma string_app_inj p s s' : (p ++ s)%string = (p ++ s')%string -> s = s'.
Proof. intros E. apply (f_equal (strip_prefix p)) in E. rewrite !strip_prefix_app in E. by injection E. Qed.

Create Rewrite HintDb bytes.
#[export] Hint Rewrite of_to_bytes to_of_bytes Z_byte_Z byte_Z_byte to_bytes_app : bytes.

(** ** Integers as big-endian bytes *)

(** [binary.BigEndian.PutUintN]: the low [8*n] bits of [z], high byte first. *)
Fixpoint be_bytes (n : nat) (z : Z) : bytes :=
  match n with
  | O => []
  | S n => Z_byte (z / 256 ^ Z.of_nat n) :: be_bytes n z
  end.

(** [big.Int.SetBytes], [binary.BigEndian.UintN]. *)
Definition be_Z (b : bytes) : Z := foldl (fun acc x => acc * 256 + byte_Z x) 0 b.

Lemma be_bytes_length n z : length (be_bytes n z) = n.
Proof. induction n; cbn; auto. Qed.

Lemma be_Z_acc b acc :
  foldl (fun acc x => acc * 256 + byte_Z x) acc b = acc * 256 ^ zlen b + be_Z b.
Proof.
  unfold be_Z, zlen. revert acc. induction b as [|x b IH]; intros acc; cbn [foldl length].
  { rewrite Z.mul_1_r. lia. }
  rewrite IH, (IH (0 * 256 + byte_Z x)), Nat2Z.inj_succ, Z.pow_succ_r by lia. ring.
Qed.

Lemma be_Z_cons x b : be_Z (x :: b) = byte_Z x * 256 ^ zlen b + be_Z b.
Proof. unfold be_Z at 1. cbn [foldl]. rewrite be_Z_acc. ring. Qed.

Lemma be_Z_app a b : be_Z (a ++ b) = be_Z a * 256 ^ zlen b + be_Z b.
Proof. unfold be_Z at 1. rewrite foldl_app. apply be_Z_acc. Qed.

Lemma be_Z_range b : 0 <= be_Z b < 256 ^ zlen b.
Proof.
  induction b as [|x b IH]; [by vm_compute|]. rewrite be_Z_cons. unfold zlen in *. cbn [length].
  rewrite Nat2Z.inj_succ, Z.pow_succ_r by lia. pose proof (byte_Z_range x).
  assert (byte_Z x * 256 ^ Z.of_nat (length b) <= 255 * 256 ^ Z.of_nat (length b))
    by (apply Z.mul_le_mono_nonneg_r; lia).
  pose proof (Z.mul_nonneg_nonneg (byte_Z x) (256 ^ Z.of_nat (length b))). lia.
Qed.

Lemma be_Z_bytes n z : be_Z (be_bytes n z) = z mod 256 ^ Z.of_nat n.
Proof.
  induction n as [|n IH]; [cbn; by rewrite Z.mod_1_r|]. cbn [be_bytes].
  rewrite be_Z_cons, IH, byte_Z_byte. unfold zlen.
  rewrite be_bytes_length, Nat2Z.inj_succ, Z.pow_succ_r by lia.
  assert (0 < 256 ^ Z.of_nat n) by (apply Z.pow_pos_nonneg; lia).
  rewrite (Z.mul_comm 256), Z.rem_mul_r by lia. ring.
Qed.

Lemma be_bytes_inj n x y :
  0 <= x < 256 ^ Z.of_nat n -> 0 <= y < 256 ^ Z.of_nat n ->
  be_bytes n x = be_bytes n y -> x = y.
Proof.
  intros Hx Hy E. apply (f_equal be_Z) in E. rewrite !be_Z_bytes, !Z.mod_small in E by lia. done.
Qed.

Lemma be_bytes_Z b : be_bytes (length b) (be_Z b) = b.
Proof.
  induction b as [|x b IH]; [done|]. cbn [length be_bytes]. rewrite be_Z_cons.
  assert (0 < 256 ^ zlen b) by (apply Z.pow_pos_nonneg; unfold zlen; lia).
  pose proof (be_Z_range b). f_equal.
  - fold (zlen b). rewrite Z.div_add_l, Z.div_small by lia. by rewrite Z.add_0_r, Z_byte_Z.
  - etransitivity; [|exact IH]. clear IH. unfold zlen in *. remember (length b) as n eqn:En.
    assert (Hc : forall m, (m <= n)%nat ->
      be_bytes m (byte_Z x * 256 ^ Z.of_nat n + be_Z b) = be_bytes m (be_Z b)).
    { induction m as [|m IHm]; intros Hm; [done|]. cbn [be_bytes]. rewrite IHm by lia. f_equal.
      replace (Z.of_nat n) with (Z.of_nat (n - S m) + 1 + Z.of_nat m) by lia.
      rewrite Z.pow_add_r, Z.mul_assoc, Z.div_add_l by (try lia; apply Z.pow_nonzero; lia).
      rewrite Z.pow_add_r, Z.pow_1_r, Z.mul_assoc by lia. unfold Z_byte.
      by rewrite Z.add_comm, Z_mod_plus_full. }
    by apply Hc.
Qed.

(** Go's conversion [uint64(z)]. *)
Definition u64 (z : Z) : Z := z mod 2 ^ 64.

Lemma u64_inj x y : in_int64 x -> in_int64 y -> u64 x = u64 y -> x = y.
Proof.
  unfold u64, in_int64. intros Hx Hy E.
  assert (wrap64 (x mod 2 ^ 64) = wrap64 (y mod 2 ^ 64)) as Hw by by rewrite E.
  unfold wrap64 in Hw. rewrite !Zplus_mod_idemp_l, !Z.mod_small in Hw by lia. lia.
Qed.

Lemma u64_range z : 0 <= u64 z < 2 ^ 64.
Proof. unfold u64. pose proof (Z.mod_pos_bound z (2 ^ 64)). lia. Qed.

(** ** Lists *)

Section lists.
Context {A : Type}.
Implicit Types l : list A.

Lemma app_inj_len_l (a b c d : list A) :
  length a = length c -> a ++ b = c ++ d -> a = c /\ b = d.
Proof. intros Hl E. by apply app_inj_1. Qed.

Lemma app_inj_len_r (a b c d : list A) :
  length b = length d -> a ++ b = c ++ d -> a = c /\ b = d.
Proof. intros Hl E. by apply app_inj_2. Qed.

End lists.

Create HintDb go.
#[export] Hint Resolve wrap64_id wrap64_range byte_Z_range bytes_equal_refl : go.
