(* ===== verification/Crypto.v ===== *)
(** * The primitives of the Go standard library the engine is built on

    [crypto/sha256], [crypto/sha3], [crypto/sha512] and [crypto/ed25519] are
    interfaces: a class of operations, and a class of the documented laws the
    engine relies on.  Every theorem of the development is proved against the
    interface.  The functions that wrap a primitive ([ed25519_Sign],
    [ed25519_Verify], [ed25519_Public]) carry the length checks whose failure
    is a panic in Go.  The module [Toy] is a concrete instance satisfying all
    the laws; the witnesses evaluate on it. *)
From S2P Require Export Prelude.

(** ** Hashes *)

Class Hashes := {
  sha256 : bytes -> bytes;
  sha3_256 : bytes -> bytes;
  sha512 : bytes -> bytes;
}.

Class HashLaws `{H : Hashes} : Prop := {
  sha256_length b : length (sha256 b) = 32%nat;
  sha3_256_length b : length (sha3_256 b) = 32%nat;
  sha512_length b : length (sha512 b) = 64%nat;
}.

(** [collision_free h L]: no two different strings of [L] collide under [h].
    Security statements name the finite list of strings the parties hash, so
    that the hypothesis is satisfiable by a real hash function. *)
Definition collision_free (h : bytes -> bytes) (L : list bytes) : Prop :=
  forall x y, x ∈ L -> y ∈ L -> h x = h y -> x = y.

Lemma collision_free_mono h L L' :
  L' ⊆ L -> collision_free h L -> collision_free h L'.
Proof. intros Hs HL x y Hx Hy. apply HL; by apply Hs. Qed.

(** Decided on the list of the hashes, each computed once. *)
Definition collision_free_b (h : bytes -> bytes) (L : list bytes) : bool :=
  let P := map (fun x => (h x, x)) L in
  forallb (fun p => forallb (fun q => negb (bool_decide (p.1 = q.1)) || bool_decide (p.2 = q.2)) P) P.

Lemma collision_free_b_spec h L : collision_free_b h L = true -> collision_free h L.
Proof.
  unfold collision_free_b. intros HF x y Hx Hy E. rewrite forallb_forall in HF.
  specialize (HF (h x, x)). rewrite forallb_forall in HF.
  assert (HP : forall z, z ∈ L -> In (h z, z) (map (fun x => (h x, x)) L)).
  { intros z Hz. apply in_map_iff. exists z. split; [done|]. by apply list_elem_of_In. }
  specialize (HF (HP x Hx) (h y, y) (HP y Hy)). cbn [fst snd] in HF.
  rewrite (bool_decide_eq_true_2 _ E) in HF. by apply bool_decide_eq_true in HF.
Qed.

(** ** Ed25519 *)

Class Ed25519 := {
  (** [ed25519.NewKeyFromSeed]: the 64-byte private key of a 32-byte seed *)
  ed_keygen : bytes -> bytes;
  ed_sign : bytes -> bytes -> bytes;
  ed_verify : bytes -> bytes -> bytes -> bool;
}.

Definition PublicKeySize : nat := 32.
Definition PrivateKeySize : nat := 64.
Definition SeedSize : nat := 32.
Definition SignatureSize : nat := 64.

(** [PrivateKey.Public] copies [priv[32:]] into a fresh 32-byte array: it
    panics on a key shorter than 32 bytes. *)
Definition pub_of (priv : bytes) : bytes :=
  take 32 (drop 32 priv ++ replicate 32 Byte.x00).

Definition ed25519_Public (priv : slice) : outcome bytes :=
  if (length (sb priv) <? 32)%nat then Panic else Ret (pub_of (sb priv)).

(** [ed25519.Sign] and [ed25519.Verify] panic on keys of the wrong length. *)
Definition ed25519_Sign `{Ed25519} (priv : slice) (m : bytes) : outcome bytes :=
  if (length (sb priv) =? PrivateKeySize)%nat then Ret (ed_sign (sb priv) m) else Panic.

Definition ed25519_Verify `{Ed25519} (pub m sig : bytes) : outcome bool :=
  if (length pub =? PublicKeySize)%nat then Ret (ed_verify pub m sig) else Panic.

(** A key [NewKeyFromSeed] or [GenerateKey] can return. *)
Definition real_key `{Ed25519} (priv : bytes) : Prop :=
  exists seed, length seed = SeedSize /\ priv = ed_keygen seed.

Class Ed25519Laws `{E : Ed25519} : Prop := {
  ed_keygen_length seed : length seed = SeedSize -> length (ed_keygen seed) = PrivateKeySize;
  ed_sign_verify priv m : real_key priv -> ed_verify (pub_of priv) m (ed_sign priv m) = true;
  ed_verify_length pub m sig : ed_verify pub m sig = true -> length sig = SignatureSize;
}.

Section ed25519.
Context `{Ed25519Laws}.

Lemma pub_of_length priv : length (pub_of priv) = PublicKeySize.
Proof.
  unfold pub_of. rewrite length_take, length_app, length_replicate.
  unfold PublicKeySize. lia.
Qed.

Lemma real_key_length priv : real_key priv -> length priv = PrivateKeySize.
Proof. intros (seed & Hs & ->). by apply ed_keygen_length. Qed.

Lemma Public_real priv : real_key priv -> ed25519_Public (Some priv) = Ret (pub_of priv).
Proof.
  intros Hk. unfold ed25519_Public. cbn [sb default from_option id].
  by rewrite (real_key_length _ Hk).
Qed.

Lemma Sign_real priv m : real_key priv -> ed25519_Sign (Some priv) m = Ret (ed_sign priv m).
Proof.
  intros Hk. unfold ed25519_Sign. cbn [sb default from_option id].
  by rewrite (real_key_length _ Hk).
Qed.

Lemma Verify_len pub m sig :
  length pub = PublicKeySize -> ed25519_Verify pub m sig = Ret (ed_verify pub m sig).
Proof. intros Hl. unfold ed25519_Verify. by rewrite Hl. Qed.

Lemma Verify_no_panic pub m sig :
  length pub = PublicKeySize -> ed25519_Verify pub m sig <> Panic.
Proof. intros Hl. by rewrite (Verify_len _ _ _ Hl). Qed.

Lemma Verify_true pub m sig :
  ed25519_Verify pub m sig = Ret true ->
  length pub = PublicKeySize /\ ed_verify pub m sig = true.
Proof. unfold ed25519_Verify. destruct (Nat.eqb_spec (length pub) PublicKeySize); naive_solver. Qed.

Lemma signed_verifies priv m :
  real_key priv -> ed25519_Verify (pub_of priv) m (ed_sign priv m) = Ret true.
Proof. intros Hk. by rewrite Verify_len, ed_sign_verify by auto using pub_of_length. Qed.

Lemma ed_sign_length priv m : real_key priv -> length (ed_sign priv m) = SignatureSize.
Proof. intros Hk. eapply ed_verify_length, ed_sign_verify, Hk. Qed.

End ed25519.

#[export] Hint Resolve pub_of_length real_key_length Verify_no_panic signed_verifies : go.

(** ** A concrete instance *)

Module Toy.

(** A checksum of the string read as a number, spread over [n] bytes. *)
Definition checksum (seed : Z) (b : bytes) : Z :=
  (foldl (fun acc x => 256 * acc + byte_Z x) (seed + 1) b) mod (2 ^ 31 - 1).

Fixpoint spread (n : nat) (z : Z) : bytes :=
  match n with
  | O => []
  | S n => Z_byte z :: spread n ((z / 256) + 7)
  end.

Lemma spread_length n z : length (spread n z) = n.
Proof. revert z. induction n; cbn; auto. Qed.

Definition sha256 (b : bytes) : bytes := spread 32 (checksum 1469598103 b).
Definition sha3_256 (b : bytes) : bytes := spread 32 (checksum 7 b).
Definition sha512 (b : bytes) : bytes := spread 64 (checksum 11 b).

Definition keygen (seed : bytes) : bytes := seed ++ sha256 (Byte.x2a :: seed).
Definition sign (priv m : bytes) : bytes := sha512 (pub_of priv ++ m).
Definition verify (pub m sig : bytes) : bool := bytes_equal sig (sha512 (pub ++ m)).

#[global] Instance hashes : Hashes :=
  {| Crypto.sha256 := sha256; Crypto.sha3_256 := sha3_256; Crypto.sha512 := sha512 |}.
#[global] Instance hash_laws : HashLaws.
Proof. split; intros; apply spread_length. Qed.

#[global] Instance ed25519 : Ed25519 :=
  {| ed_keygen := keygen; ed_sign := sign; ed_verify := verify |}.
#[global] Instance ed25519_laws : Ed25519Laws.
Proof.
  split; cbn.
  - intros seed Hs. unfold keygen, sha256.
    by rewrite length_app, spread_length, Hs.
  - intros priv m _. apply bytes_equal_refl.
  - intros pub m sig E. apply bytes_equal_true in E as ->. apply spread_length.
Qed.

Definition seed (n : Z) : bytes := Z_byte n :: replicate 31 Byte.x01.
Definition key (n : Z) : bytes := keygen (seed n).

Lemma real_toy_key n : real_key (key n).
Proof. by exists (seed n). Qed.

End Toy.
