(* ===== verification/Encoding.v ===== *)
(** * Text encodings of the Go standard library the engine uses

    [encoding/hex], base64 [StdEncoding] (as [encoding/json] uses it for
    [[]byte] fields), decimal integers ([strconv]) and UTF-8 runes
    ([unicode/utf8]), each with its round trip. *)
From S2P Require Import Prelude.

(** ** Characters *)

Definition ch (s : string) : byte := match to_bytes s with b :: _ => b | [] => Byte.x00 end.
Definition in_range (b : byte) (lo hi : Z) : bool := (lo <=? byte_Z b) && (byte_Z b <=? hi).

Ltac all_bytes b := destruct b; try reflexivity; try discriminate; try done.

(** ** Hexadecimal *)

Definition hex_digit (n : Z) : byte := Z_byte (if n <? 10 then 48 + n else 87 + n).
Definition hex_val (b : byte) : option Z :=
  let z := byte_Z b in
  if (48 <=? z) && (z <=? 57) then Some (z - 48)
  else if (97 <=? z) && (z <=? 102) then Some (z - 87)
  else if (65 <=? z) && (z <=? 70) then Some (z - 55)
  else None.

Definition hex_byte (b : byte) : bytes := [hex_digit (byte_Z b / 16); hex_digit (byte_Z b mod 16)].

(** [hex.EncodeToString], the [%x] verb on bytes. *)
Definition hex_encode (b : bytes) : bytes := concat (map hex_byte b).

(** [hex.DecodeString]: either case; an odd length or another digit is an error. *)
Fixpoint hex_decode (s : bytes) : option bytes :=
  match s with
  | [] => Some []
  | [_] => None
  | a :: b :: s =>
      match hex_val a, hex_val b, hex_decode s with
      | Some x, Some y, Some r => Some (Z_byte (16 * x + y) :: r)
      | _, _, _ => None
      end
  end.

Lemma hex_byte_vals b :
  exists x y, hex_byte b = [x; y] /\ hex_val x = Some (byte_Z b / 16) /\
    hex_val y = Some (byte_Z b mod 16).
Proof. do 2 eexists. split; [done|]. by destruct b. Qed.

Lemma hex_decode_encode b : hex_decode (hex_encode b) = Some b.
Proof.
  induction b as [|x b IH]; [done|]. unfold hex_encode in *. cbn [map concat].
  destruct (hex_byte_vals x) as (p & q & -> & Hp & Hq). cbn [app hex_decode].
  by rewrite Hp, Hq, IH, <- Z_div_mod_eq_full, Z_byte_Z.
Qed.

#[global] Instance hex_encode_inj : Inj (=) (=) hex_encode.
Proof. intros x y E. apply (f_equal hex_decode) in E. rewrite !hex_decode_encode in E. by injection E. Qed.

Lemma hex_encode_length b : length (hex_encode b) = (2 * length b)%nat.
Proof. induction b as [|x b IH]; [done|]. unfold hex_encode in *. cbn in *. lia. Qed.

(** ** Base64, standard alphabet with padding *)

Definition b64_alphabet : bytes :=
  to_bytes "ABCDEFGHIJKLMNOPQRSTUVWXYZabcdefghijklmnopqrstuvwxyz0123456789+/".
Definition b64_char (n : Z) : byte := nth (Z.to_nat n) b64_alphabet Byte.x00.
Definition b64_val (b : byte) : option Z :=
  let z := byte_Z b in
  if (65 <=? z) && (z <=? 90) then Some (z - 65)
  else if (97 <=? z) && (z <=? 122) then Some (z - 71)
  else if (48 <=? z) && (z <=? 57) then Some (z + 4)
  else if z =? 43 then Some 62
  else if z =? 47 then Some 63
  else None.

Definition pad : byte := Byte.x3d.

Fixpoint b64_encode (b : bytes) : bytes :=
  match b with
  | [] => []
  | [x] =>
      let n := byte_Z x * 16 in
      [b64_char (n / 64); b64_char (n mod 64); pad; pad]
  | [x; y] =>
      let n := (byte_Z x * 256 + byte_Z y) * 4 in
      [b64_char (n / 4096); b64_char (n / 64 mod 64); b64_char (n mod 64); pad]
  | x :: y :: z :: b =>
      let n := (byte_Z x * 256 + byte_Z y) * 256 + byte_Z z in
      b64_char (n / 262144) :: b64_char (n / 4096 mod 64) :: b64_char (n / 64 mod 64)
        :: b64_char (n mod 64) :: b64_encode b
  end.

Fixpoint b64_quads (s : bytes) : option bytes :=
  match s with
  | [] => Some []
  | a :: b :: c :: d :: s =>
      match b64_val a, b64_val b with
      | Some a, Some b =>
          if decide (c = pad) then
            if decide (d = pad /\ s = []) then Some [Z_byte ((a * 64 + b) / 16)] else None
          else
            match b64_val c with
            | None => None
            | Some c =>
                if decide (d = pad) then
                  if decide (s = []) then
                    let n := ((a * 64 + b) * 64 + c) / 4 in
                    Some [Z_byte (n / 256); Z_byte n]
                  else None
                else
                  match b64_val d, b64_quads s with
                  | Some d, Some r =>
                      let n := ((a * 64 + b) * 64 + c) * 64 + d in
                      Some (Z_byte (n / 65536) :: Z_byte (n / 256) :: Z_byte n :: r)
                  | _, _ => None
                  end
            end
      | _, _ => None
      end
  | _ => None
  end.

(** [StdEncoding.Decode]: carriage returns and newlines are skipped. *)
Definition b64_decode (s : bytes) : option bytes :=
  b64_quads (List.filter (fun b => negb (bool_decide (b = Byte.x0a) || bool_decide (b = Byte.x0d))) s).

Definition b64_safe (b : byte) : bool :=
  match b64_val b with Some _ => true | None => bool_decide (b = pad) end.

Lemma b64_char_ok n :
  0 <= n < 64 -> b64_val (b64_char n) = Some n /\ b64_char n <> pad /\ b64_safe (b64_char n) = true.
Proof.
  intros Hn.
  assert (HF : Forall (fun k => b64_val (b64_char (Z.of_nat k)) = Some (Z.of_nat k) /\
    b64_char (Z.of_nat k) <> pad /\ b64_safe (b64_char (Z.of_nat k)) = true) (seq 0 64))
    by (apply (bool_decide_unpack _); vm_compute; exact I).
  rewrite Forall_forall in HF. specialize (HF (Z.to_nat n)).
  rewrite Z2Nat.id in HF by lia. apply HF, elem_of_seq. lia.
Qed.

Lemma b64_safe_val c x : b64_val c = Some x -> b64_safe c = true.
Proof. unfold b64_safe. by intros ->. Qed.

Lemma Z_byte_mod z b : z mod 256 = byte_Z b -> Z_byte z = b.
Proof. intros E. rewrite <- (Z_byte_Z b), <- E. unfold Z_byte. by rewrite Z.mod_mod. Qed.

(** Induction three bytes at a time. *)
Lemma bytes_ind3 (P : bytes -> Prop) :
  P [] -> (forall x, P [x]) -> (forall x y, P [x; y]) ->
  (forall x y z b, P b -> P (x :: y :: z :: b)) -> forall b, P b.
Proof.
  intros H0 H1 H2 H3.
  assert (forall b, P b /\ (forall x, P (x :: b)) /\ (forall x y, P (x :: y :: b))) as Hall.
  { induction b as [|z b (IH & IH1 & IH2)]; [auto|]. auto. }
  intros b. apply Hall.
Qed.

Lemma b64_char_safe n : 0 <= n < 64 -> b64_safe (b64_char n) = true.
Proof. intros Hn. by apply b64_char_ok. Qed.

Lemma b64_encode_safe b : forallb b64_safe (b64_encode b) = true.
Proof.
  induction b as [|x|x y|x y z b IH] using bytes_ind3; [done|..]; cbn [b64_encode forallb];
    cbv zeta; pose proof (byte_Z_range x); try pose proof (byte_Z_range y);
    try pose proof (byte_Z_range z); rewrite !b64_char_safe by div_lia; [done..|exact IH].
Qed.

Lemma b64_quads_encode b : b64_quads (b64_encode b) = Some b.
Proof.
  induction b as [|x|x y|x y z b IH] using bytes_ind3; [done|..]; cbn [b64_encode b64_quads];
    cbv zeta; pose proof (byte_Z_range x); try pose proof (byte_Z_range y);
    try pose proof (byte_Z_range z).
  all: rewrite !(fun n Hn => proj1 (b64_char_ok n Hn)) by div_lia.
  - rewrite !decide_True by done. do 2 f_equal. apply Z_byte_mod. div_lia.
  - rewrite decide_False by (apply b64_char_ok; div_lia). rewrite !decide_True by done.
    f_equal. f_equal; [|f_equal]; apply Z_byte_mod; div_lia.
  - rewrite !decide_False by (apply b64_char_ok; div_lia). rewrite IH.
    f_equal. f_equal; [|f_equal; [|f_equal]]; apply Z_byte_mod; div_lia.
Qed.

Lemma b64_decode_encode b : b64_decode (b64_encode b) = Some b.
Proof.
  unfold b64_decode. rewrite forallb_filter_id; [apply b64_quads_encode|].
  apply forallb_forall. intros c Hc.
  pose proof (proj1 (forallb_forall _ _) (b64_encode_safe b) c Hc) as Hs.
  revert Hs. clear. by destruct c.
Qed.

(** ** Decimal integers *)

Definition digit (n : Z) : byte := Z_byte (48 + n).
Definition is_digit (b : byte) : bool := in_range b 48 57.
Definition digit_val (b : byte) : Z := byte_Z b - 48.

Fixpoint digits_go (fuel : nat) (n : Z) : bytes :=
  match fuel with
  | O => []
  | S fuel => (if n <? 10 then [] else digits_go fuel (n / 10)) ++ [digit (n mod 10)]
  end.
(** [strconv.FormatInt(z, 10)]; the fuel is the number of bits. *)
Definition nat_digits (n : Z) : bytes := digits_go (S (Z.to_nat (Z.log2 n))) n.
Definition dec_Z (z : Z) : bytes :=
  if z <? 0 then ch "-" :: nat_digits (- z) else nat_digits z.

Definition digits_Z (s : bytes) : Z := foldl (fun acc d => acc * 10 + digit_val d) 0 s.
(** The value of [-?digits+], without a range. *)
Definition parse_Z (s : bytes) : option Z :=
  match s with
  | [] => None
  | b :: r =>
      if decide (b = ch "-") then
        if negb (length r =? 0)%nat && forallb is_digit r then Some (- digits_Z r) else None
      else if forallb is_digit s then Some (digits_Z s) else None
  end.
(** [strconv.ParseInt(s, 10, 64)] on a JSON number literal. *)
Definition parse_int64 (s : bytes) : option Z :=
  match parse_Z s with
  | Some z => if decide (in_int64 z) then Some z else None
  | None => None
  end.

Lemma digit_ok n : 0 <= n < 10 ->
  is_digit (digit n) = true /\ digit_val (digit n) = n /\ (0 < n -> digit n <> ch "0") /\ digit n <> ch "-".
Proof.
  intros Hn.
  assert (HF : Forall (fun k => is_digit (digit (Z.of_nat k)) = true /\
    digit_val (digit (Z.of_nat k)) = Z.of_nat k /\
    (0 < Z.of_nat k -> digit (Z.of_nat k) <> ch "0") /\ digit (Z.of_nat k) <> ch "-")
    (seq 0 10)) by (apply (bool_decide_unpack _); vm_compute; exact I).
  rewrite Forall_forall in HF. specialize (HF (Z.to_nat n)).
  rewrite Z2Nat.id in HF by lia. apply HF, elem_of_seq. lia.
Qed.

(** A decimal literal: digits without a leading zero, and its value. *)
Lemma digits_go_small f n :
  0 <= n < 10 -> exists d r, digits_go (S f) n = d :: r /\ forallb is_digit (d :: r) = true /\
    digits_Z (d :: r) = n /\ (d = ch "0" -> r = []) /\ d <> ch "-".
Proof.
  intros Hn. destruct (digit_ok n) as (H1 & H2 & H3 & H4); [lia|]. cbn [digits_go].
  destruct (Z.ltb_spec n 10); [|lia]. rewrite Z.mod_small by lia.
  exists (digit n), []. cbn. by rewrite H1, H2.
Qed.

Lemma digits_go_spec fuel n :
  0 <= n < 2 ^ Z.of_nat (S fuel) ->
  exists d r, digits_go (S fuel) n = d :: r /\ forallb is_digit (d :: r) = true /\
    digits_Z (d :: r) = n /\ (d = ch "0" -> r = []) /\ d <> ch "-".
Proof.
  revert n. induction fuel as [|fuel IH]; intros n Hn.
  { change (2 ^ Z.of_nat 1) with 2 in Hn. apply digits_go_small. lia. }
  destruct (Z.ltb_spec n 10) as [Hlt|Hge]; [apply digits_go_small; lia|].
  remember (S fuel) as f. cbn [digits_go]. destruct (Z.ltb_spec n 10); [lia|]. subst f.
  destruct (IH (n / 10)) as (d & r & -> & Hd & Hv & Hz & Hm).
  { rewrite Nat2Z.inj_succ, Z.pow_succ_r in Hn by lia. div_lia. }
  destruct (digit_ok (n mod 10)) as (H1 & H2 & H3 & H4); [div_lia|].
  exists d, (r ++ [digit (n mod 10)]). split; [done|]. split_and!; [|..|done].
  + change (d :: r ++ [digit (n mod 10)]) with ((d :: r) ++ [digit (n mod 10)]).
    rewrite forallb_app, Hd. cbn [forallb]. by rewrite H1.
  + change (d :: r ++ [digit (n mod 10)]) with ((d :: r) ++ [digit (n mod 10)]).
    unfold digits_Z in *. rewrite foldl_snoc, Hv, H2. div_lia.
  + intros E. specialize (Hz E). rewrite Hz, E in Hv. change (digits_Z [ch "0"]) with 0 in Hv. div_lia.
Qed.


Lemma nat_digits_spec n :
  0 <= n ->
  exists d r, nat_digits n = d :: r /\ forallb is_digit (d :: r) = true /\
    digits_Z (d :: r) = n /\ (d = ch "0" -> r = []) /\ d <> ch "-".
Proof.
  intros Hn. apply digits_go_spec. split; [done|].
  rewrite Nat2Z.inj_succ, Z2Nat.id by apply Z.log2_nonneg.
  destruct (Z.eq_dec n 0) as [->|]; [by vm_compute|]. apply Z.log2_spec. lia.
Qed.

Lemma parse_dec_Z z : parse_Z (dec_Z z) = Some z.
Proof.
  unfold dec_Z. destruct (Z.ltb_spec z 0).
  - destruct (nat_digits_spec (- z)) as (d & r & -> & Hd & Hv & _); [lia|].
    cbn [parse_Z]. rewrite decide_True by done. cbn [length Nat.eqb negb andb].
    rewrite Hd, Hv. f_equal. lia.
  - destruct (nat_digits_spec z) as (d & r & -> & Hd & Hv & _ & Hm); [lia|].
    cbn [parse_Z]. rewrite decide_False by done. by rewrite Hd, Hv.
Qed.

Lemma parse_int64_dec z : in_int64 z -> parse_int64 (dec_Z z) = Some z.
Proof. intros Hz. unfold parse_int64. rewrite parse_dec_Z. by rewrite decide_True. Qed.

(** ** UTF-8 *)

Definition cont (b : byte) : bool := in_range b 128 191.

(** [utf8.DecodeRune]: the length of the rune at the head of a string, and 0
    where Go answers [RuneError] of size 1. *)
Definition rune_len (s : bytes) : nat :=
  match s with
  | [] => 0
  | b0 :: s =>
      if byte_Z b0 <? 128 then 1
      else
        match s with
        | [] => 0
        | b1 :: s =>
            if in_range b0 194 223 then (if cont b1 then 2 else 0)
            else
              match s with
              | [] => 0
              | b2 :: s =>
                  if in_range b0 224 239 then
                    if in_range b1 (if byte_Z b0 =? 224 then 160 else 128)
                                   (if byte_Z b0 =? 237 then 159 else 191) && cont b2
                    then 3 else 0
                  else
                    match s with
                    | [] => 0
                    | b3 :: _ =>
                        if in_range b0 240 244 then
                          if in_range b1 (if byte_Z b0 =? 240 then 144 else 128)
                                         (if byte_Z b0 =? 244 then 143 else 191)
                             && cont b2 && cont b3
                          then 4 else 0
                        else 0
                    end
              end
        end
  end.

(** A string cut into valid runes ([Some]) and stray bytes ([None]). *)
Fixpoint runes_go (fuel : nat) (s : bytes) : list (option bytes) :=
  match fuel, s with
  | S fuel, _ :: s' =>
      match rune_len s with
      | O => None :: runes_go fuel s'
      | n => Some (take n s) :: runes_go fuel (drop n s)
      end
  | _, _ => []
  end.
Definition runes (s : bytes) : list (option bytes) := runes_go (length s) s.

(** The encoding of U+FFFD. *)
Definition replacement : bytes := [Byte.xef; Byte.xbf; Byte.xbd].

(** [strings.ToValidUTF8] with U+FFFD per stray byte: what a Go string becomes
    when JSON carries it. *)
Definition coerce (s : bytes) : bytes := concat (map (default replacement) (runes s)).

Definition utf8_valid (s : bytes) : bool :=
  forallb (fun r => match r with Some _ => true | None => false end) (runes s).

(** [utf8.AppendRune] for a code point that is not a surrogate. *)
Definition utf8_encode (r : Z) : bytes :=
  if r <? 128 then [Z_byte r]
  else if r <? 2048 then [Z_byte (192 + r / 64); Z_byte (128 + r mod 64)]
  else if r <? 65536 then
    [Z_byte (224 + r / 4096); Z_byte (128 + r / 64 mod 64); Z_byte (128 + r mod 64)]
  else
    [Z_byte (240 + r / 262144); Z_byte (128 + r / 4096 mod 64); Z_byte (128 + r / 64 mod 64);
     Z_byte (128 + r mod 64)].

(** A valid rune decodes the same whatever follows it. *)
Definition is_rune (c : bytes) : Prop :=
  c <> [] /\ forall t, rune_len (c ++ t) = length c.

Lemma rune_len_le s : (rune_len s <= length s)%nat.
Proof.
  unfold rune_len. destruct s as [|b0 [|b1 [|b2 [|b3 s]]]]; cbn [length];
    repeat case_if; lia.
Qed.

Lemma rune_len_take s :
  rune_len s <> 0%nat -> is_rune (take (rune_len s) s).
Proof.
  intros Hn. pose proof (rune_len_le s) as Hl. split.
  - intros E. apply (f_equal length) in E. rewrite length_take in E. cbn in E. lia.
  - intros t. rewrite length_take, Nat.min_l by done. unfold rune_len in *.
    destruct s as [|b0 s]; [done|].
    destruct (byte_Z b0 <? 128) eqn:E0; [by cbn; rewrite E0|].
    destruct s as [|b1 s]; [done|].
    destruct (in_range b0 194 223) eqn:E1.
    { destruct (cont b1) eqn:Ec; [|done]. cbn [take app]. by rewrite E0, E1, Ec. }
    destruct s as [|b2 s]; [done|].
    destruct (in_range b0 224 239) eqn:E2.
    { destruct (_ && _) eqn:Ec; [|done]. cbn [take app]. by rewrite E0, E1, E2, Ec. }
    destruct s as [|b3 s]; [done|].
    destruct (in_range b0 240 244) eqn:E3; [|done].
    destruct (_ && _ && _) eqn:Ec; [|done]. cbn [take app]. by rewrite E0, E1, E2, E3, Ec.
Qed.

(** [runes s] is a partition of [s]: what it says, without the fuel. *)
Inductive Runes : bytes -> list (option bytes) -> Prop :=
| runes_nil : Runes [] []
| runes_bad b s l : rune_len (b :: s) = 0%nat -> Runes s l -> Runes (b :: s) (None :: l)
| runes_good c s l : is_rune c -> Runes s l -> Runes (c ++ s) (Some c :: l).

Lemma runes_go_spec fuel s : (length s <= fuel)%nat -> Runes s (runes_go fuel s).
Proof.
  revert s. induction fuel as [|fuel IH]; intros [|b s] Hl; try constructor; [cbn in Hl; lia|].
  cbn [runes_go]. destruct (rune_len (b :: s)) as [|n] eqn:E.
  - constructor; [done|]. apply IH. cbn in Hl. lia.
  - rewrite <- (take_drop (S n) (b :: s)) at 1. constructor.
    + rewrite <- E. apply rune_len_take. by rewrite E.
    + apply IH. rewrite length_drop. cbn in *. lia.
Qed.

Lemma runes_spec s : Runes s (runes s).
Proof. by apply runes_go_spec. Qed.

Lemma Runes_unique s l l' : Runes s l -> Runes s l' -> l = l'.
Proof.
  intros Hl. revert l'. induction Hl as [|b s l Hb Hl IH|c s l Hc Hl IH]; intros l' Hl'.
  - inversion Hl' as [| |c s l Hc Hs E]; subst; [done|]. destruct Hc as [Hc _].
    by destruct c.
  - inversion Hl' as [|b' s' l0 Hb' Hs E|c s' l0 Hc Hs E]; subst.
    + f_equal. by apply IH.
    + destruct Hc as [Hne Hc]. rewrite <- E, (Hc s') in Hb. by destruct c.
  - inversion Hl' as [Hnil|b' s' l0 Hb' Hs E|c' s' l0 Hc' Hs E]; subst.
    + symmetry in Hnil. apply app_nil in Hnil as [-> _]. by destruct Hc.
    + destruct Hc as [Hne Hc]. rewrite E, Hc in Hb'. by destruct c.
    + assert (length c' = length c) as Hlen.
      { rewrite <- (proj2 Hc s), <- (proj2 Hc' s'). by rewrite E. }
      apply app_inj_1 in E as [-> ->]; [|done]. f_equal. by apply IH.
Qed.

Lemma runes_eq s l : Runes s l -> runes s = l.
Proof. intros Hl. eapply Runes_unique; [apply runes_spec|done]. Qed.

Lemma is_rune_replacement : is_rune replacement.
Proof. split; [done|]. intros t. by vm_compute. Qed.

Lemma Runes_coerce s l :
  Runes s l -> Runes (concat (map (default replacement) l)) (map (fun r => Some (default replacement r)) l).
Proof.
  induction 1 as [|b s l Hb Hl IH|c s l Hc Hl IH]; [constructor|..].
  - by apply (runes_good replacement); [apply is_rune_replacement|].
  - by apply (runes_good c).
Qed.

Lemma coerce_valid s : utf8_valid (coerce s) = true.
Proof.
  unfold utf8_valid, coerce. rewrite (runes_eq _ _ (Runes_coerce _ _ (runes_spec s))).
  by induction (runes s).
Qed.

Lemma Runes_valid s l :
  Runes s l -> forallb (fun r => match r with Some _ => true | None => false end) l = true ->
  concat (map (default replacement) l) = s.
Proof.
  induction 1 as [|b s l Hb Hl IH|c s l Hc Hl IH]; [done..|]. intros Hv. cbn in *.
  by rewrite IH.
Qed.

Lemma coerce_id s : utf8_valid s = true -> coerce s = s.
Proof. apply Runes_valid, runes_spec. Qed.

Lemma coerce_idem s : coerce (coerce s) = coerce s.
Proof. apply coerce_id, coerce_valid. Qed.

(** ASCII strings are valid: a rune for each byte. *)
Lemma ascii_runes s : forallb (fun b => byte_Z b <? 128) s = true -> runes s = map (fun b => Some [b]) s.
Proof.
  intros Ha. apply runes_eq. induction s as [|b s IH]; cbn in *; [constructor|]. apply andb_prop in Ha as [Hb Ha].
  apply (runes_good [b]); [|auto]. split; [done|]. intros t. cbn. by rewrite Hb.
Qed.
Lemma ascii_valid s : forallb (fun b => byte_Z b <? 128) s = true -> utf8_valid s = true.
Proof. intros Ha. unfold utf8_valid. rewrite ascii_runes by done. clear Ha. by induction s. Qed.

#[export] Hint Resolve hex_decode_encode b64_decode_encode parse_dec_Z coerce_valid coerce_idem : go.
