(* ===== verification/Float.v ===== *)
(** * IEEE 754 binary64, as Go's [float64]

    The Standard Library's executable specification of floating point, at 53
    bits of precision.  [NaN] compares false with everything, as in Go.
    [format_f2] is the [%.2f] verb. *)
From Stdlib Require Import SpecFloat FloatClass.
From S2P Require Import Prelude Encoding.

Definition f64 : Type := spec_float.
Definition f64_of_Z (z : Z) : f64 := binary_normalize 53 1024 z 0 false.
Definition fadd : f64 -> f64 -> f64 := SFadd 53 1024.
Definition fsub : f64 -> f64 -> f64 := SFsub 53 1024.
Definition fmul : f64 -> f64 -> f64 := SFmul 53 1024.
Definition fdiv : f64 -> f64 -> f64 := SFdiv 53 1024.
Definition flt : f64 -> f64 -> bool := SFltb.
Definition fle : f64 -> f64 -> bool := SFleb.

#[global] Instance f64_eq_dec : EqDecision f64.
Proof. solve_decision. Defined.

(** The literal [n/10^k] of a Go constant. *)
Definition flit (n k : Z) : f64 := fdiv (f64_of_Z n) (f64_of_Z (10 ^ k)).

Definition is_nan (x : f64) : bool := match x with S754_nan => true | _ => false end.
Definition is_pinf (x : f64) : bool := match x with S754_infinity false => true | _ => false end.

(** [math.Max(0, y)]: +Inf first, then NaN, then [-0] below [+0]. *)
Definition max0 (y : f64) : f64 :=
  match y with
  | S754_infinity false => y
  | S754_nan => S754_nan
  | S754_zero _ => S754_zero false
  | _ => if flt (S754_zero false) y then y else S754_zero false
  end.

(** The sign of a number that is neither NaN nor below zero. *)
Definition nonneg (x : f64) : bool := fle (S754_zero false) x.

Lemma max0_spec y : max0 y = S754_nan \/ nonneg (max0 y) = true.
Proof. destruct y as [[]|[]| |[] m e]; cbn; auto. Qed.

Lemma max0_nan y : max0 y = S754_nan <-> y = S754_nan.
Proof. destruct y as [[]|[]| |[] m e]; cbn; split; done. Qed.

(** [%.2f]: the value times 100, rounded half to even, with two digits. *)
Definition round_half_even (num den : Z) : Z :=
  let q := num / den in
  let r := num mod den in
  if (2 * r <? den) || ((2 * r =? den) && Z.even q) then q else q + 1.

Definition cents (m : positive) (e : Z) : Z :=
  if 0 <=? e then Z.pos m * 100 * 2 ^ e else round_half_even (Z.pos m * 100) (2 ^ (- e)).

Definition two_digits (n : Z) : bytes := [digit (n / 10); digit (n mod 10)].
Definition format_cents (neg : bool) (c : Z) : bytes :=
  (if neg then [ch "-"] else []) ++ nat_digits (c / 100) ++ ch "." :: two_digits (c mod 100).

Definition format_f2 (x : f64) : bytes :=
  match x with
  | S754_zero s => format_cents s 0
  | S754_infinity s => to_bytes (if s then "-Inf" else "+Inf")
  | S754_nan => to_bytes "NaN"
  | S754_finite s m e => format_cents s (cents m e)
  end.
