(* ===== verification/Json.v ===== *)
(** * [encoding/json], as the engine uses it

    [print] is [json.Marshal]'s compact form with Go's escaping, [parse] is
    [json.Unmarshal]'s syntax: the scanner's grammar, its limit of 10000 nested
    arrays and objects, and the decoding of strings with U+FFFD for invalid
    UTF-8.  A struct is encoded by listing its fields in order ([JObj]) and
    decoded by folding over the members of the object: a key selects a field by
    its exact name or else by case folding ([resolve]), [null] leaves scalars
    alone and empties slices, unknown keys are skipped, a repeated key
    overwrites.  Not modelled: a repeated key whose value is an array, where Go
    reuses the elements of the first.

    Theorem [parse_print]: what is printed parses back, with nothing of the
    text that follows, so that printed objects are prefix-free. *)
From S2P Require Import Prelude Encoding.

Inductive json :=
| JNull
| JBool (b : bool)
| JNum (lit : bytes)
| JStr (s : bytes)
| JArr (l : list json)
| JObj (l : list (bytes * json)).

Section json_ind.
  Variable P : json -> Prop.
  Hypothesis HNull : P JNull.
  Hypothesis HBool : forall b, P (JBool b).
  Hypothesis HNum : forall l, P (JNum l).
  Hypothesis HStr : forall s, P (JStr s).
  Hypothesis HArr : forall l, Forall P l -> P (JArr l).
  Hypothesis HObj : forall l, Forall (fun kv => P kv.2) l -> P (JObj l).

Fixpoint json_ind' (v : json) : P v :=
  match v with
  | JNull => HNull
  | JBool b => HBool b
  | JNum l => HNum l
  | JStr s => HStr s
  | JArr l => HArr l ((fix go l : Forall P l :=
      match l with
      | [] => Forall_nil_2 _
      | v :: l => Forall_cons_2 _ _ _ (json_ind' v) (go l)
      end) l)
  | JObj l => HObj l ((fix go l : Forall (fun kv => P kv.2) l :=
      match l with
      | [] => Forall_nil_2 _
      | kv :: l => Forall_cons_2 _ _ _ (json_ind' kv.2) (go l)
      end) l)
  end.
End json_ind.

Definition dquote : byte := Byte.x22.
Definition bslash : byte := Byte.x5c.

(** ** Printing *)

Definition u_escape (a b c d : string) : bytes := [bslash; ch "u"; ch a; ch b; ch c; ch d].

(** The escape of an ASCII byte. *)
Definition esc_byte (b : byte) : bytes :=
  let z := byte_Z b in
  if z =? 34 then [bslash; b]
  else if z =? 92 then [bslash; b]
  else if z =? 8 then [bslash; ch "b"]
  else if z =? 12 then [bslash; ch "f"]
  else if z =? 10 then [bslash; ch "n"]
  else if z =? 13 then [bslash; ch "r"]
  else if z =? 9 then [bslash; ch "t"]
  else if (z <? 32) || (z =? 60) || (z =? 62) || (z =? 38)
  then [bslash; ch "u"; ch "0"; ch "0"] ++ hex_byte b
  else [b].

Definition esc_rune (r : option bytes) : bytes :=
  match r with
  | None => u_escape "f" "f" "f" "d"
  | Some [b] => esc_byte b
  | Some c =>
      if decide (c = [Byte.xe2; Byte.x80; Byte.xa8]) then u_escape "2" "0" "2" "8"
      else if decide (c = [Byte.xe2; Byte.x80; Byte.xa9]) then u_escape "2" "0" "2" "9"
      else c
  end.

Definition print_str (s : bytes) : bytes := dquote :: concat (map esc_rune (runes s)) ++ [dquote].

Fixpoint sep_by (sep : byte) (l : list bytes) : bytes :=
  match l with
  | [] => []
  | [x] => x
  | x :: l => x ++ sep :: sep_by sep l
  end.

Fixpoint print (v : json) : bytes :=
  match v with
  | JNull => to_bytes "null"
  | JBool b => to_bytes (if b then "true" else "false")
  | JNum lit => lit
  | JStr s => print_str s
  | JArr l => ch "[" :: sep_by (ch ",") (map print l) ++ [ch "]"]
  | JObj l =>
      ch "{" :: sep_by (ch ",") (map (fun kv => print_str kv.1 ++ ch ":" :: print kv.2) l) ++ [ch "}"]
  end.

(** ** Parsing *)

Definition is_ws (b : byte) : bool :=
  let z := byte_Z b in (z =? 32) || (z =? 9) || (z =? 10) || (z =? 13).

Fixpoint skip_ws (s : bytes) : bytes :=
  match s with
  | b :: s' => if is_ws b then skip_ws s' else s
  | [] => []
  end.

Definition hex4 (s : bytes) : option (Z * bytes) :=
  match s with
  | a :: b :: c :: d :: s =>
      match hex_val a, hex_val b, hex_val c, hex_val d with
      | Some a, Some b, Some c, Some d => Some (((a * 16 + b) * 16 + c) * 16 + d, s)
      | _, _, _, _ => None
      end
  | _ => None
  end.

(** The code unit of a [\uXXXX] at the head of [s]. *)
Definition next_u (s : bytes) : option (Z * bytes) :=
  match s with
  | a :: b :: s => if decide (a = bslash /\ b = ch "u") then hex4 s else None
  | _ => None
  end.

Definition simple_escape (b : byte) : option byte :=
  let z := byte_Z b in
  if (z =? 34) || (z =? 92) || (z =? 47) then Some b
  else if z =? 98 then Some Byte.x08
  else if z =? 102 then Some Byte.x0c
  else if z =? 110 then Some Byte.x0a
  else if z =? 114 then Some Byte.x0d
  else if z =? 116 then Some Byte.x09
  else None.

Definition cons_str (c : bytes) (r : option (bytes * bytes)) : option (bytes * bytes) :=
  match r with Some (s, rest) => Some (c ++ s, rest) | None => None end.

(** The string after its opening quote. *)
Fixpoint parse_str (fuel : nat) (s : bytes) : option (bytes * bytes) :=
  match fuel, s with
  | S fuel, b :: t =>
      if byte_Z b =? 34 then Some ([], t)
      else if byte_Z b =? 92 then
        match t with
        | e :: t' =>
            if byte_Z e =? 117 then
              match hex4 t' with
              | None => None
              | Some (r, t'') =>
                  if (55296 <=? r) && (r <=? 57343) then
                    match next_u t'' with
                    | Some (r1, t3) =>
                        if (r <=? 56319) && (56320 <=? r1) && (r1 <=? 57343)
                        then cons_str (utf8_encode ((r - 55296) * 1024 + (r1 - 56320) + 65536))
                               (parse_str fuel t3)
                        else cons_str replacement (parse_str fuel t'')
                    | None => cons_str replacement (parse_str fuel t'')
                    end
                  else cons_str (utf8_encode r) (parse_str fuel t'')
              end
            else
              match simple_escape e with
              | Some c => cons_str [c] (parse_str fuel t')
              | None => None
              end
        | [] => None
        end
      else if byte_Z b <? 32 then None
      else
        match rune_len s with
        | O => cons_str replacement (parse_str fuel t)
        | n => cons_str (take n s) (parse_str fuel (drop n s))
        end
  | _, _ => None
  end.

Fixpoint span_digits (s : bytes) : bytes * bytes :=
  match s with
  | b :: s' => if is_digit b then let '(d, r) := span_digits s' in (b :: d, r) else ([], s)
  | [] => ([], [])
  end.

(** One or more digits. *)
Definition digits1 (s : bytes) : option (bytes * bytes) :=
  match span_digits s with
  | ([], _) => None
  | (d, r) => Some (d, r)
  end.

Definition scan_int (s : bytes) : option (bytes * bytes) :=
  match s with
  | b :: s' => if decide (b = ch "0") then Some ([b], s') else digits1 s
  | [] => None
  end.

Definition scan_frac (s : bytes) : option (bytes * bytes) :=
  match s with
  | b :: s' =>
      if decide (b = ch ".") then
        match digits1 s' with Some (d, r) => Some (b :: d, r) | None => None end
      else Some ([], s)
  | [] => Some ([], [])
  end.

Definition scan_exp (s : bytes) : option (bytes * bytes) :=
  match s with
  | b :: s' =>
      if decide (b = ch "e" \/ b = ch "E") then
        match s' with
        | g :: s'' =>
            if decide (g = ch "+" \/ g = ch "-") then
              match digits1 s'' with Some (d, r) => Some (b :: g :: d, r) | None => None end
            else match digits1 s' with Some (d, r) => Some (b :: d, r) | None => None end
        | [] => None
        end
      else Some ([], s)
  | [] => Some ([], [])
  end.

Definition scan_num (s : bytes) : option (bytes * bytes) :=
  let '(sign, s) :=
    match s with
    | b :: s' => if decide (b = ch "-") then ([b], s') else ([], s)
    | [] => ([], [])
    end in
  '(i, s) ← scan_int s;
  '(f, s) ← scan_frac s;
  '(e, s) ← scan_exp s;
  Some (sign ++ i ++ f ++ e, s).

(** [strip p s]: the rest of [s] after the prefix [p]. *)
Fixpoint strip (p s : bytes) : option bytes :=
  match p, s with
  | [], _ => Some s
  | a :: p, b :: s => if decide (a = b) then strip p s else None
  | _, _ => None
  end.

Definition expect (c : byte) (s : bytes) : option bytes := strip [c] (skip_ws s).

(** [d] is the nesting left, [fuel] the length of the text. *)
Fixpoint parse_value (fuel d : nat) (s : bytes) : option (json * bytes) :=
  match fuel with
  | O => None
  | S fuel =>
      match skip_ws s with
      | [] => None
      | b :: t =>
          if decide (b = ch "{") then
            match d with
            | O => None
            | S d =>
                match expect (ch "}") t with
                | Some r => Some (JObj [], r)
                | None => '(l, r) ← parse_members fuel d t; Some (JObj l, r)
                end
            end
          else if decide (b = ch "[") then
            match d with
            | O => None
            | S d =>
                match expect (ch "]") t with
                | Some r => Some (JArr [], r)
                | None => '(l, r) ← parse_elems fuel d t; Some (JArr l, r)
                end
            end
          else if decide (b = dquote) then
            '(x, r) ← parse_str (S (length t)) t; Some (JStr x, r)
          else if decide (b = ch "n") then r ← strip (to_bytes "ull") t; Some (JNull, r)
          else if decide (b = ch "t") then r ← strip (to_bytes "rue") t; Some (JBool true, r)
          else if decide (b = ch "f") then r ← strip (to_bytes "alse") t; Some (JBool false, r)
          else '(lit, r) ← scan_num (b :: t); Some (JNum lit, r)
      end
  end
with parse_elems (fuel d : nat) (s : bytes) : option (list json * bytes) :=
  match fuel with
  | O => None
  | S fuel =>
      '(v, r) ← parse_value fuel d s;
      match expect (ch "]") r with
      | Some r => Some ([v], r)
      | None =>
          r ← expect (ch ",") r;
          '(l, r) ← parse_elems fuel d r;
          Some (v :: l, r)
      end
  end
with parse_members (fuel d : nat) (s : bytes) : option (list (bytes * json) * bytes) :=
  match fuel with
  | O => None
  | S fuel =>
      q ← expect dquote s;
      '(k, r) ← parse_str (S (length q)) q;
      r ← expect (ch ":") r;
      '(v, r) ← parse_value fuel d r;
      match expect (ch "}") r with
      | Some r => Some ([(k, v)], r)
      | None =>
          r ← expect (ch ",") r;
          '(l, r) ← parse_members fuel d r;
          Some ((k, v) :: l, r)
      end
  end.

(** The scanner's [maxNestingDepth]. *)
Definition maxNestingDepth : nat := 10000.

Lemma nesting_room : (100 <= maxNestingDepth)%nat.
Proof. apply Nat.leb_le. by vm_compute. Qed.

Definition parse (s : bytes) : option json :=
  '(v, r) ← parse_value (S (length s)) maxNestingDepth s;
  match skip_ws r with [] => Some v | _ => None end.

(** ** Strings parse back *)

Lemma cons_str_some c r s rest : r = Some (s, rest) -> cons_str c r = Some (c ++ s, rest).
Proof. by intros ->. Qed.

(** One step of the parser over the escape of one rune. *)
Lemma parse_esc_byte b f t :
  byte_Z b < 128 -> parse_str (S f) (esc_byte b ++ t) = cons_str [b] (parse_str f t).
Proof. intros Hb. destruct b; try reflexivity; vm_compute in Hb; discriminate. Qed.

Lemma rune_byte c : is_rune c -> (length c = 1)%nat -> exists b, c = [b] /\ byte_Z b < 128.
Proof.
  intros [_ Hr] Hl. destruct c as [|b [|]]; try done. exists b. split; [done|].
  specialize (Hr []). cbn in Hr. destruct (byte_Z b <? 128) eqn:E; [lia|done].
Qed.

Lemma rune_first b c : is_rune (b :: c) -> c <> [] -> 128 <= byte_Z b.
Proof.
  intros [_ Hr] Hc. specialize (Hr []). cbn in Hr.
  destruct (Z.ltb_spec (byte_Z b) 128); [|lia]. destruct c; done.
Qed.

Lemma parse_raw_rune b c f t :
  is_rune (b :: c) -> 128 <= byte_Z b ->
  parse_str (S f) ((b :: c) ++ t) = cons_str (b :: c) (parse_str f t).
Proof.
  intros [_ Hr] Hb. cbn [app parse_str].
  destruct (Z.eqb_spec (byte_Z b) 34); [lia|]. destruct (Z.eqb_spec (byte_Z b) 92); [lia|].
  destruct (Z.ltb_spec (byte_Z b) 32); [lia|].
  change (b :: c ++ t) with ((b :: c) ++ t). rewrite Hr. cbn [length].
  by rewrite (take_app_length (b :: c) t : take (S (length c)) _ = _),
    (drop_app_length (b :: c) t : drop (S (length c)) _ = _).
Qed.

Lemma parse_esc_rune r f t :
  (forall c, r = Some c -> is_rune c) ->
  parse_str (S f) (esc_rune r ++ t) = cons_str (default replacement r) (parse_str f t).
Proof.
  intros Hr. destruct r as [c|]; [|reflexivity]. specialize (Hr c eq_refl).
  destruct c as [|b [|b' c]]; [by destruct Hr| |].
  - destruct (rune_byte [b] Hr eq_refl) as (? & [= <-] & Hb). by apply parse_esc_byte.
  - cbn [esc_rune]. destruct (decide _) as [E|_]; [rewrite E; reflexivity|].
    destruct (decide _) as [E|_]; [rewrite E; reflexivity|].
    apply parse_raw_rune; [done|]. by apply (rune_first _ _ Hr).
Qed.

Lemma esc_rune_length r : (forall c, r = Some c -> is_rune c) -> (1 <= length (esc_rune r))%nat.
Proof.
  intros Hr. destruct r as [[|b [|b' c]]|]; cbn.
  - by destruct (Hr [] eq_refl).
  - unfold esc_byte. repeat case_if; cbn; lia.
  - repeat case_decide; cbn; lia.
  - lia.
Qed.

Lemma Runes_is_rune s l : Runes s l -> Forall (fun r => forall c, r = Some c -> is_rune c) l.
Proof. induction 1; constructor; auto; [done|]. by intros ? [= <-]. Qed.

Lemma parse_str_runes l f t :
  Forall (fun r => forall c, r = Some c -> is_rune c) l ->
  (length (concat (map esc_rune l)) < f)%nat ->
  parse_str f (concat (map esc_rune l) ++ dquote :: t)
    = Some (concat (map (default replacement) l), t).
Proof.
  intros Hl. revert f. induction Hl as [|r l Hr Hl IH]; intros f Hf; cbn [map concat] in *.
  { destruct f; [cbn in Hf; lia|done]. }
  pose proof (esc_rune_length r Hr). rewrite length_app in Hf.
  destruct f as [|f]; [lia|]. rewrite <- app_assoc, parse_esc_rune by done.
  apply cons_str_some. apply IH. lia.
Qed.

Lemma parse_print_str s t :
  let q := concat (map esc_rune (runes s)) ++ dquote :: t in
  parse_str (S (length q)) q = Some (coerce s, t).
Proof.
  intros q. apply parse_str_runes; [eapply Runes_is_rune, runes_spec|].
  unfold q. rewrite length_app. lia.
Qed.

Lemma print_str_app s t : print_str s ++ t = dquote :: concat (map esc_rune (runes s)) ++ dquote :: t.
Proof. unfold print_str. cbn. by rewrite <- app_assoc. Qed.

(** ** Numbers parse back *)

(** What may follow a number literal: nothing that continues it. *)
Definition num_stop (rest : bytes) : Prop :=
  match rest with
  | [] => True
  | b :: _ => is_digit b = false /\ b <> ch "." /\ b <> ch "e" /\ b <> ch "E"
  end.

(** A literal the scanner reads whole; it starts like a number. *)
Definition num_ok (lit : bytes) : Prop :=
  (exists b t, lit = b :: t /\ (is_digit b = true \/ b = ch "-")) /\
  forall rest, num_stop rest -> scan_num (lit ++ rest) = Some (lit, rest).

Lemma span_digits_app d rest :
  forallb is_digit d = true -> num_stop rest -> span_digits (d ++ rest) = (d, rest).
Proof.
  intros Hd Hs. induction d as [|b d IH]; cbn in *.
  - destruct rest as [|b rest]; [done|]. cbn. destruct Hs as [-> _]. done.
  - apply andb_prop in Hd as [-> Hd]. by rewrite IH.
Qed.

Lemma scan_int_app d r rest :
  forallb is_digit (d :: r) = true -> (d = ch "0" -> r = []) -> num_stop rest ->
  scan_int ((d :: r) ++ rest) = Some (d :: r, rest).
Proof.
  intros Hd H0 Hs. cbn [app scan_int]. destruct (decide (d = ch "0")) as [E|E].
  - by rewrite (H0 E).
  - change (d :: r ++ rest) with ((d :: r) ++ rest). unfold digits1.
    by rewrite span_digits_app.
Qed.

Lemma scan_tail rest : num_stop rest -> scan_frac rest = Some ([], rest) /\ scan_exp rest = Some ([], rest).
Proof.
  destruct rest as [|b rest]; [done|]. intros (_ & H1 & H2 & H3). cbn.
  by rewrite !decide_False by naive_solver.
Qed.

Lemma dec_num_ok z : num_ok (dec_Z z).
Proof.
  assert (Hpos : forall n, 0 <= n -> exists d r, nat_digits n = d :: r /\ is_digit d = true /\
    d <> ch "-" /\ forall rest, num_stop rest -> scan_int (nat_digits n ++ rest) = Some (nat_digits n, rest)).
  { intros n Hn. destruct (nat_digits_spec n Hn) as (d & r & -> & Hd & _ & H0 & Hm).
    exists d, r. split_and!; try done; [by apply andb_prop in Hd as [-> _]|].
    intros rest Hs. by apply scan_int_app. }
  unfold dec_Z. destruct (Z.ltb_spec z 0).
  - destruct (Hpos (- z)) as (d & r & E & Hd & Hm & Hs); [lia|]. split; [eauto 6|].
    intros rest Hr. unfold scan_num. cbn [app]. rewrite decide_True by done.
    rewrite Hs by done. cbn. destruct (scan_tail rest Hr) as [-> H2]. cbn. rewrite H2. cbn.
    by rewrite app_nil_r.
  - destruct (Hpos z) as (d & r & E & Hd & Hm & Hs); [lia|]. split; [eauto 6|].
    intros rest Hr. unfold scan_num. rewrite E in *. cbn [app] in *. rewrite decide_False by done.
    rewrite Hs by done. cbn. destruct (scan_tail rest Hr) as [-> H2]. cbn. rewrite H2. cbn.
    by rewrite app_nil_r.
Qed.

(** ** Values parse back *)

Definition all_of {A} (P : A -> Prop) : list A -> Prop :=
  fix go l := match l with [] => True | x :: l => P x /\ go l end.

Lemma all_of_Forall {A} (P : A -> Prop) l : all_of P l <-> Forall P l.
Proof.
  induction l as [|x l IH]; cbn; [done|]. by rewrite Forall_cons, IH.
Qed.

Fixpoint wf (v : json) : Prop :=
  match v with
  | JNum lit => num_ok lit
  | JArr l => all_of wf l
  | JObj l => all_of (fun kv => wf kv.2) l
  | _ => True
  end.

(** What a value becomes on the wire: strings and keys with U+FFFD. *)
Fixpoint norm (v : json) : json :=
  match v with
  | JStr s => JStr (coerce s)
  | JArr l => JArr (map norm l)
  | JObj l => JObj (map (fun kv => (coerce kv.1, norm kv.2)) l)
  | _ => v
  end.

Fixpoint depth (v : json) : nat :=
  match v with
  | JArr l => S (list_max (map depth l))
  | JObj l => S (list_max (map (fun kv => depth kv.2) l))
  | _ => 0
  end.

Definition stops (v : json) (rest : bytes) : Prop :=
  match v with JNum _ => num_stop rest | _ => True end.

Definition parses (v : json) : Prop :=
  forall f d rest, wf v -> (depth v <= d)%nat -> (length (print v) <= f)%nat -> stops v rest ->
  parse_value f d (print v ++ rest) = Some (norm v, rest).

(** The first character of a printed value: no white space, no closing bracket. *)
Definition starts_value (b : byte) : bool :=
  negb (is_ws b) && negb (bool_decide (b = ch "]")) && negb (bool_decide (b = ch "}")).

Lemma print_starts v : wf v -> exists b t, print v = b :: t /\ starts_value b = true.
Proof.
  destruct v as [|[]|lit|s|l|l]; cbn; intros Hw; try by do 2 eexists.
  destruct Hw as [(b & t & -> & Hb) _]. exists b, t. split; [done|]. clear t.
  destruct b, Hb; done.
Qed.

Lemma skip_ws_starts b t : starts_value b = true -> skip_ws (b :: t) = b :: t.
Proof.
  intros Hb. apply andb_prop in Hb as [[Hb _]%andb_prop _]. cbn. by destruct (is_ws b).
Qed.

Lemma expect_hit c t : is_ws c = false -> expect c (c :: t) = Some t.
Proof. intros Hc. unfold expect. cbn. rewrite Hc. cbn. by rewrite decide_True. Qed.

Lemma expect_miss c b t : is_ws b = false -> c <> b -> expect c (b :: t) = None.
Proof. intros Hb Hc. unfold expect. cbn. rewrite Hb. cbn. by rewrite decide_False. Qed.

Lemma expect_starts c b t :
  starts_value b = true -> c = ch "]" \/ c = ch "}" -> expect c (b :: t) = None.
Proof.
  intros [[Hw H1]%andb_prop H2]%andb_prop Hc. apply expect_miss; [by destruct (is_ws b)|].
  intros <-. by destruct Hc as [-> | ->].
Qed.

Lemma skip_ws_print v rest : wf v -> skip_ws (print v ++ rest) = print v ++ rest.
Proof. intros Hw. destruct (print_starts v Hw) as (b & t & -> & Hb). by apply skip_ws_starts. Qed.

Lemma expect_print c v rest :
  wf v -> c = ch "]" \/ c = ch "}" -> expect c (print v ++ rest) = None.
Proof. intros Hw Hc. destruct (print_starts v Hw) as (b & t & -> & Hb). by apply expect_starts. Qed.

Lemma stops_punct v c rest :
  c = ch "," \/ c = ch "]" \/ c = ch "}" -> stops v (c :: rest).
Proof. destruct v; try done. cbn. by intros [-> |[-> | ->]]. Qed.

Lemma expect_print_str c s rest : c <> dquote -> expect c (print_str s ++ rest) = None.
Proof. intros Hc. rewrite print_str_app. by apply expect_miss. Qed.

Lemma list_max_cons x l d : (list_max (x :: l) <= d)%nat -> (x <= d)%nat /\ (list_max l <= d)%nat.
Proof. change (list_max (x :: l)) with (Nat.max x (list_max l)). lia. Qed.

Lemma parse_elems_print l v f d rest :
  Forall parses (v :: l) -> Forall wf (v :: l) ->
  (list_max (map depth (v :: l)) <= d)%nat ->
  (length (sep_by (ch ",") (map print (v :: l))) < f)%nat ->
  parse_elems f d (sep_by (ch ",") (map print (v :: l)) ++ ch "]" :: rest)
    = Some (map norm (v :: l), rest).
Proof.
  revert v f.
  induction l as [|v' l IH]; intros v f HP Hw [Hdv Hdl]%list_max_cons Hf;
    apply Forall_cons in HP as [Hp HP]; apply Forall_cons in Hw as [Hv Hw];
    (destruct f as [|f]; [lia|]); cbn [parse_elems].
  - cbn [map sep_by] in *. rewrite Hp; [|done..|lia|apply stops_punct; auto].
    cbn [mbind option_bind]. by rewrite expect_hit.
  - change (sep_by (ch ",") (map print (v :: v' :: l))) with
      (print v ++ ch "," :: sep_by (ch ",") (map print (v' :: l))) in *.
    rewrite length_app in Hf. cbn [length] in Hf. rewrite <- app_assoc. cbn [app].
    rewrite Hp; [|done..|lia|apply stops_punct; auto].
    cbn [mbind option_bind]. rewrite expect_miss, expect_hit by done.
    cbn [mbind option_bind]. rewrite IH; [done|done..|lia].
Qed.

Definition print_member (kv : bytes * json) : bytes := print_str kv.1 ++ ch ":" :: print kv.2.
Definition norm_member (kv : bytes * json) : bytes * json := (coerce kv.1, norm kv.2).

Lemma parse_members_print l kv f d rest :
  Forall (fun kv => parses kv.2) (kv :: l) -> Forall (fun kv => wf kv.2) (kv :: l) ->
  (list_max (map (fun kv => depth kv.2) (kv :: l)) <= d)%nat ->
  (length (sep_by (ch ",") (map print_member (kv :: l))) < f)%nat ->
  parse_members f d (sep_by (ch ",") (map print_member (kv :: l)) ++ ch "}" :: rest)
    = Some (map norm_member (kv :: l), rest).
Proof.
  revert kv f.
  induction l as [|kv' l IH]; intros [k v] f HP Hw [Hdv Hdl]%list_max_cons Hf;
    apply Forall_cons in HP as [Hp HP]; apply Forall_cons in Hw as [Hv Hw]; cbn [fst snd] in *;
    (destruct f as [|f]; [lia|]); cbn [parse_members].
  - cbn [map sep_by] in *. unfold print_member in *. cbn [fst snd] in *.
    rewrite length_app in Hf. cbn [length] in Hf.
    rewrite <- app_assoc, print_str_app, expect_hit by done. cbn [mbind option_bind].
    rewrite parse_print_str. cbn [mbind option_bind app]. rewrite expect_hit by done.
    cbn [mbind option_bind]. rewrite Hp; [|done..|lia|apply stops_punct; auto].
    cbn [mbind option_bind]. by rewrite expect_hit.
  - change (sep_by (ch ",") (map print_member ((k, v) :: kv' :: l))) with
      (print_member (k, v) ++ ch "," :: sep_by (ch ",") (map print_member (kv' :: l))) in *.
    unfold print_member at 1. unfold print_member at 1 in Hf. cbn [fst snd] in *.
    rewrite !length_app in Hf. cbn [length] in Hf.
    rewrite <- !app_assoc, print_str_app, expect_hit by done. cbn [mbind option_bind].
    rewrite parse_print_str. cbn [mbind option_bind app]. rewrite expect_hit by done.
    cbn [mbind option_bind]. rewrite Hp; [|done..|lia|apply stops_punct; auto].
    cbn [mbind option_bind]. rewrite expect_miss, expect_hit by done.
    cbn [mbind option_bind]. rewrite IH; [done|done..|lia].
Qed.

Lemma parses_all v : parses v.
Proof.
  induction v as [|b|lit|s|l IH|l IH] using json_ind'; intros f d rest Hw Hd Hf Hs;
    (destruct f as [|f]; [exfalso|]).
  all: try (destruct (print_starts _ Hw) as (? & ? & E & _); rewrite E in Hf; cbn in Hf; lia).
  - reflexivity.
  - by destruct b.
  - cbn [print norm] in *. destruct Hw as [(b & t & E & Hb) Hscan]. specialize (Hscan rest Hs).
    rewrite E in *. cbn [app parse_value] in *.
    assert (skip_ws (b :: t ++ rest) = b :: t ++ rest) as -> by (destruct b, Hb; done).
    rewrite !decide_False by (intros ->; destruct Hb; done). by rewrite Hscan.
  - cbn [print norm] in *. rewrite print_str_app. cbn [parse_value].
    change (skip_ws (dquote :: ?t)) with (dquote :: t). cbv beta iota.
    do 2 rewrite decide_False by done. rewrite decide_True by done.
    by rewrite parse_print_str.
  - cbn [depth] in Hd. destruct d as [|d]; [lia|]. destruct l as [|v l]; [done|].
    cbn [print norm] in *. cbn [length] in Hf. rewrite length_app in Hf. cbn [length] in Hf.
    cbn [app parse_value]. change (skip_ws (ch "[" :: ?t)) with (ch "[" :: t). cbv beta iota.
    rewrite decide_False by done. rewrite decide_True by done. rewrite <- app_assoc.
    assert (expect (ch "]") (sep_by (ch ",") (map print (v :: l)) ++ [ch "]"] ++ rest) = None) as ->.
    { destruct Hw as [Hw _]. cbn [map sep_by].
      destruct (map print l); [|rewrite <- app_assoc]; apply expect_print; auto. }
    cbn [app]. rewrite parse_elems_print; [done|done|by apply all_of_Forall|lia|lia].
  - cbn [depth] in Hd. destruct d as [|d]; [lia|]. destruct l as [|kv l]; [done|].
    cbn [print norm] in *. change (map _ (kv :: l)) with (map print_member (kv :: l)) at 1.
    change (map (fun kv => print_str kv.1 ++ ch ":" :: print kv.2) (kv :: l))
      with (map print_member (kv :: l)) in Hf.
    cbn [length] in Hf. rewrite length_app in Hf. cbn [length] in Hf.
    cbn [app parse_value]. change (skip_ws (ch "{" :: ?t)) with (ch "{" :: t). cbv beta iota.
    rewrite decide_True by done. rewrite <- app_assoc.
    assert (expect (ch "}") (sep_by (ch ",") (map print_member (kv :: l)) ++ [ch "}"] ++ rest) = None) as ->.
    { cbn [map sep_by]. destruct (map print_member l); unfold print_member; rewrite <- ?app_assoc;
      by apply expect_print_str. }
    cbn [app]. rewrite parse_members_print; [done|done|by apply all_of_Forall in Hw|lia|lia].
Qed.

(** A printed value is read back, and nothing after it. *)
Lemma parse_value_print v rest :
  wf v -> (depth v <= maxNestingDepth)%nat -> stops v rest ->
  parse_value (S (length (print v ++ rest))) maxNestingDepth (print v ++ rest) = Some (norm v, rest).
Proof. intros Hw Hd Hs. apply parses_all; try done. rewrite length_app. lia. Qed.

Lemma parse_print v : wf v -> (depth v <= maxNestingDepth)%nat -> parse (print v) = Some (norm v).
Proof.
  intros Hw Hd. unfold parse. pose proof (parse_value_print v [] Hw Hd) as Hp.
  rewrite app_nil_r in Hp. rewrite Hp by (by destruct v). done.
Qed.

(** Two printed objects with any text after them. *)
Lemma print_obj_prefix l l' r r' :
  wf (JObj l) -> wf (JObj l') ->
  (depth (JObj l) <= maxNestingDepth)%nat -> (depth (JObj l') <= maxNestingDepth)%nat ->
  print (JObj l) ++ r = print (JObj l') ++ r' -> norm (JObj l) = norm (JObj l') /\ r = r'.
Proof.
  intros Hw Hw' Hd Hd' E. pose proof (parse_value_print _ r Hw Hd I) as Hp.
  rewrite E, (parse_value_print _ r' Hw' Hd' I) in Hp.
  revert Hp. generalize (norm (JObj l)), (norm (JObj l')). by intros ?? [= -> ->].
Qed.

(** ** Struct fields *)

(** The case folding of field names: ASCII letters, and the two runes whose
    folding is an ASCII letter (U+017F and U+212A). *)
Fixpoint fold_name (s : bytes) : bytes :=
  match s with
  | [] => []
  | b :: t =>
      match t with
      | c :: t' =>
          if decide (b = Byte.xc5 /\ c = Byte.xbf) then ch "S" :: fold_name t'
          else
            match t' with
            | d :: t'' =>
                if decide (b = Byte.xe2 /\ c = Byte.x84 /\ d = Byte.xaa)
                then ch "K" :: fold_name t''
                else (if in_range b 97 122 then Z_byte (byte_Z b - 32) else b) :: fold_name t
            | [] => (if in_range b 97 122 then Z_byte (byte_Z b - 32) else b) :: fold_name t
            end
      | [] => [if in_range b 97 122 then Z_byte (byte_Z b - 32) else b]
      end
  end.

(** The field a key selects: the exact name, else the first that folds alike. *)
Definition resolve (names : list string) (k : bytes) : option string :=
  match List.find (fun n => bool_decide (to_bytes n = k)) names with
  | Some n => Some n
  | None => List.find (fun n => bool_decide (fold_name (to_bytes n) = fold_name k)) names
  end.

(** Decoding an object into a struct: each member in order updates the field it
    selects.  [null] is a struct left alone; any other value is a type error. *)
Definition decode_member {T} (names : list string) (set : string -> json -> T -> option T)
    (acc : option T) (kv : bytes * json) : option T :=
  match acc with
  | None => None
  | Some t =>
      match resolve names kv.1 with
      | Some n => set n kv.2 t
      | None => Some t
      end
  end.
Definition decode_struct {T} (names : list string) (set : string -> json -> T -> option T)
    (zero : T) (v : json) : option T :=
  match v with
  | JNull => Some zero
  | JObj l => foldl (decode_member names set) (Some zero) l
  | _ => None
  end.

Definition decode_string (prev : string) (v : json) : option string :=
  match v with
  | JNull => Some prev
  | JStr s => Some (of_bytes s)
  | _ => None
  end.

Definition decode_int64 (prev : Z) (v : json) : option Z :=
  match v with
  | JNull => Some prev
  | JNum lit => parse_int64 lit
  | _ => None
  end.

Definition decode_bool (prev : bool) (v : json) : option bool :=
  match v with
  | JNull => Some prev
  | JBool b => Some b
  | _ => None
  end.

Definition decode_byte (v : json) : option byte :=
  match v with
  | JNull => Some Byte.x00
  | JNum lit =>
      match parse_Z lit with
      | Some z => if (0 <=? z) && (z <? 256) && negb (bool_decide (head lit = Some (ch "-")))
                  then Some (Z_byte z) else None
      | None => None
      end
  | _ => None
  end.

(** A [[]byte]: base64 text, an array of numbers, or [null] for nil. *)
Definition decode_bytes (v : json) : option slice :=
  match v with
  | JNull => Some None
  | JStr s => b ← b64_decode s; Some (Some b)
  | JArr l => b ← mapM decode_byte l; Some (Some b)
  | _ => None
  end.

Definition decode_list {T} (dec : json -> option T) (v : json) : option (list T) :=
  match v with
  | JNull => Some []
  | JArr l => mapM dec l
  | _ => None
  end.

Definition decode_strings : json -> option (list string) := decode_list (decode_string "").

(** A [*big.Int]: a decimal integer. *)
Definition decode_big (v : json) : option (option Z) :=
  match v with
  | JNull => Some None
  | JNum lit => z ← parse_Z lit; Some (Some z)
  | _ => None
  end.

(** Encoding of the same types. *)
Definition jstring (s : string) : json := JStr (to_bytes s).
Definition jint (z : Z) : json := JNum (dec_Z z).
Definition jbig (z : option Z) : json := match z with Some z => jint z | None => JNull end.
Definition jslice (s : slice) : json :=
  match s with
  | None => JNull
  | Some b => JStr (b64_encode b)
  end.
Definition jfield (n : string) (v : json) : bytes * json := (to_bytes n, v).

Lemma b64_ascii b : forallb (fun c => byte_Z c <? 128) (b64_encode b) = true.
Proof.
  apply forallb_forall. intros c Hc.
  pose proof (proj1 (forallb_forall _ _) (b64_encode_safe b) c Hc) as Hs.
  revert Hs. clear. by destruct c.
Qed.

Lemma coerce_b64 b : coerce (b64_encode b) = b64_encode b.
Proof. apply coerce_id, ascii_valid, b64_ascii. Qed.

Lemma norm_jslice s : norm (jslice s) = jslice s.
Proof. destruct s as [b|]; [|done]. cbn. by rewrite coerce_b64. Qed.

Lemma norm_jint z : norm (jint z) = jint z.
Proof. done. Qed.

Lemma wf_jslice s : wf (jslice s).
Proof. by destruct s. Qed.

Lemma wf_jint z : wf (jint z).
Proof. apply dec_num_ok. Qed.

Lemma decode_jslice s : decode_bytes (jslice s) = Some s.
Proof. destruct s as [b|]; [|done]. cbn. by rewrite b64_decode_encode. Qed.

Lemma decode_jint p z : in_int64 z -> decode_int64 p (jint z) = Some z.
Proof. apply parse_int64_dec. Qed.

Lemma wf_jbig z : wf (jbig z).
Proof. destruct z; [apply wf_jint|done]. Qed.

Lemma norm_jbig z : norm (jbig z) = jbig z.
Proof. by destruct z. Qed.

Lemma decode_jbig z : decode_big (jbig z) = Some z.
Proof. destruct z as [z|]; [|done]. cbn. by rewrite parse_dec_Z. Qed.

#[global] Instance jslice_inj : Inj (=) (=) jslice.
Proof. intros x y E. apply (f_equal decode_bytes) in E. rewrite !decode_jslice in E. by injection E. Qed.

#[global] Instance jint_inj : Inj (=) (=) jint.
Proof. intros x y [= E]. apply (f_equal parse_Z) in E. rewrite !parse_dec_Z in E. by injection E. Qed.

(** A Go string every byte of which belongs to a valid rune. *)
Definition valid_string (s : string) : Prop := utf8_valid (to_bytes s) = true.

Lemma norm_jstring s : valid_string s -> norm (jstring s) = jstring s.
Proof. intros Hs. cbn. by rewrite coerce_id. Qed.

Lemma decode_jstring p s : decode_string p (jstring s) = Some s.
Proof. cbn. by rewrite of_to_bytes. Qed.

#[global] Instance jstring_inj : Inj (=) (=) jstring.
Proof. intros x y [= E]. by apply to_bytes_inj. Qed.

#[export] Hint Resolve wf_jslice wf_jint : go.
#[export] Hint Rewrite norm_jslice norm_jint decode_jslice @decode_jstring : bytes.

(** ** Decoding what was encoded, member by member *)

Lemma resolve_exact n names : n ∈ names -> resolve names (to_bytes n) = Some n.
Proof.
  intros Hn. unfold resolve.
  destruct (List.find _ names) as [m|] eqn:E.
  - apply List.find_some in E as [_ E]. apply bool_decide_eq_true, (inj to_bytes) in E. by subst.
  - eapply List.find_none in E; [|by apply list_elem_of_In].
    by rewrite bool_decide_eq_true_2 in E.
Qed.

Lemma decode_struct_obj {T} names (set : string -> json -> T -> option T) z l :
  decode_struct names set z (JObj l) = foldl (decode_member names set) (Some z) l.
Proof. done. Qed.

Lemma decode_member_cons {T} names (set : string -> json -> T -> option T) acc n v l :
  n ∈ names ->
  foldl (decode_member names set) (Some acc) (jfield n v :: l) =
  foldl (decode_member names set) (set n v acc) l.
Proof.
  intros Hn. cbn [foldl].
  assert (decode_member names set (Some acc) (jfield n v) = set n v acc) as ->; [|done].
  unfold decode_member, jfield. cbn [fst snd]. by rewrite resolve_exact.
Qed.

(** One member: select the field, evaluate the case analysis of the setter. *)
Ltac struct_step_with set tac :=
  rewrite decode_member_cons by (apply (bool_decide_unpack _); vm_compute; exact I);
  match goal with
  | |- context [foldl _ (set ?n ?v ?acc) _] =>
      let r := eval unfold set in (set n v acc) in
      let r := eval cbv beta iota in r in
      change (set n v acc) with r
  end;
  repeat (rewrite decide_False by done); rewrite ?(decide_True (P := _ = _)) by done;
  tac; cbn [mbind option_bind].
Ltac struct_step set :=
  struct_step_with set ltac:(rewrite ?decode_jstring, ?decode_jslice, ?decode_jint by done).
