(* ===== verification/Indent.v ===== *)
(** * JSON over several lines: [json.MarshalIndent(v, "", "  ")]

    What the REST surface, the store and the tools write.  Theorem: the indented
    text of a value parses to the value, as its compact text does. *)
From S2P Require Import Prelude Encoding Json.

Definition newline (n : nat) : bytes := Byte.x0a :: replicate (2 * n) Byte.x20.
Fixpoint join (sep : bytes) (l : list bytes) : bytes :=
  match l with
  | [] => []
  | [x] => x
  | x :: l => x ++ sep ++ join sep l
  end.
Fixpoint indent (n : nat) (v : json) : bytes :=
  match v with
  | JArr ((_ :: _) as l) =>
      ch "[" :: newline (1 + n) ++ join (ch "," :: newline (1 + n)) (map (indent (1 + n)) l) ++ newline n ++ [ch "]"]
  | JObj ((_ :: _) as l) =>
      ch "{" :: newline (1 + n) ++
      join (ch "," :: newline (1 + n)) (map (fun kv => print_str kv.1 ++ ch ":" :: ch " " :: indent (1 + n) kv.2) l) ++
      newline n ++ [ch "}"]
  | _ => print v
  end.

(** ** White space is skipped *)

Lemma skip_newline n s : skip_ws (newline n ++ s) = skip_ws s.
Proof. unfold newline. cbn [app skip_ws]. change (is_ws Byte.x0a) with true. cbv iota. by induction (2 * n)%nat. Qed.
Lemma expect_newline c n s : expect c (newline n ++ s) = expect c s.
Proof. unfold expect. by rewrite skip_newline. Qed.
Lemma value_newline f d n s : parse_value f d (newline n ++ s) = parse_value f d s.
Proof. destruct f as [|f]; [done|]. cbn [parse_value]. by rewrite skip_newline. Qed.
Lemma value_space f d s : parse_value f d (ch " " :: s) = parse_value f d s.
Proof. by destruct f. Qed.
Lemma elems_newline f d n s : parse_elems f d (newline n ++ s) = parse_elems f d s.
Proof. destruct f as [|f]; [done|]. cbn [parse_elems]. by rewrite value_newline. Qed.
Lemma members_newline f d n s : parse_members f d (newline n ++ s) = parse_members f d s.
Proof. destruct f as [|f]; [done|]. cbn [parse_members]. by rewrite expect_newline. Qed.
Lemma stops_newline v n rest : stops v (newline n ++ rest).
Proof. by destruct v. Qed.

(** ** Values parse back *)

Definition rereads (v : json) : Prop :=
  forall n f d rest, wf v -> (depth v <= d)%nat -> (length (indent n v) <= f)%nat -> stops v rest ->
  parse_value f d (indent n v ++ rest) = Some (norm v, rest).

Definition indent_member (n : nat) (kv : bytes * json) : bytes :=
  print_str kv.1 ++ ch ":" :: ch " " :: indent n kv.2.

Lemma parse_elems_indent n m v l f d rest :
  Forall rereads (v :: l) -> Forall wf (v :: l) -> (list_max (map depth (v :: l)) <= d)%nat ->
  (length (join (ch "," :: newline n) (map (indent n) (v :: l))) < f)%nat ->
  parse_elems f d (join (ch "," :: newline n) (map (indent n) (v :: l)) ++ newline m ++ ch "]" :: rest)
    = Some (map norm (v :: l), rest).
Proof.
  revert v f. induction l as [|v' l IH]; intros v f HP Hw [Hdv Hdl]%list_max_cons Hf;
    apply Forall_cons in HP as [Hp HP]; apply Forall_cons in Hw as [Hv Hw];
    (destruct f as [|f]; [lia|]); cbn [parse_elems].
  - cbn [map join] in *. rewrite Hp; [|done..|lia|apply stops_newline].
    cbn [mbind option_bind]. by rewrite expect_newline, expect_hit.
  - change (join (ch "," :: newline n) (map (indent n) (v :: v' :: l))) with
      (indent n v ++ ch "," :: newline n ++ join (ch "," :: newline n) (map (indent n) (v' :: l))) in *.
    rewrite length_app in Hf. cbn [length] in Hf. rewrite length_app in Hf. rewrite <- !app_assoc. cbn [app]. rewrite <- app_assoc.
    rewrite Hp; [|done..|lia|apply stops_punct; auto]. cbn [mbind option_bind].
    rewrite expect_miss, expect_hit by done. cbn [mbind option_bind].
    rewrite elems_newline, IH; [done|done..|lia].
Qed.

Lemma parse_members_indent n m kv l f d rest :
  Forall (fun kv => rereads kv.2) (kv :: l) -> Forall (fun kv => wf kv.2) (kv :: l) ->
  (list_max (map (fun kv => depth kv.2) (kv :: l)) <= d)%nat ->
  (length (join (ch "," :: newline n) (map (indent_member n) (kv :: l))) < f)%nat ->
  parse_members f d (join (ch "," :: newline n) (map (indent_member n) (kv :: l)) ++ newline m ++ ch "}" :: rest)
    = Some (map norm_member (kv :: l), rest).
Proof.
  revert kv f. induction l as [|kv' l IH]; intros [k v] f HP Hw [Hdv Hdl]%list_max_cons Hf;
    apply Forall_cons in HP as [Hp HP]; apply Forall_cons in Hw as [Hv Hw]; cbn [fst snd] in *;
    (destruct f as [|f]; [lia|]); cbn [parse_members].
  - cbn [map join] in *. unfold indent_member in *. cbn [fst snd] in *.
    rewrite length_app in Hf. cbn [length] in Hf.
    rewrite <- app_assoc, print_str_app, expect_hit by done. cbn [mbind option_bind].
    rewrite parse_print_str. cbn [mbind option_bind app]. rewrite expect_hit by done.
    cbn [mbind option_bind]. rewrite value_space, Hp; [|done..|lia|apply stops_newline].
    cbn [mbind option_bind]. by rewrite expect_newline, expect_hit.
  - change (join (ch "," :: newline n) (map (indent_member n) ((k, v) :: kv' :: l))) with
      (indent_member n (k, v) ++ ch "," :: newline n ++ join (ch "," :: newline n) (map (indent_member n) (kv' :: l))) in *.
    unfold indent_member at 1. unfold indent_member at 1 in Hf. cbn [fst snd] in *.
    rewrite !length_app in Hf. cbn [length] in Hf. rewrite length_app in Hf.
    rewrite <- !app_assoc. cbn [app]. rewrite <- !app_assoc. rewrite print_str_app, expect_hit by done. cbn [mbind option_bind].
    rewrite parse_print_str. cbn [mbind option_bind app]. rewrite expect_hit by done.
    cbn [mbind option_bind]. rewrite value_space, Hp; [|done..|lia|apply stops_punct; auto].
    cbn [mbind option_bind]. rewrite expect_miss, expect_hit by done.
    cbn [mbind option_bind]. rewrite members_newline, IH; [done|done..|lia].
Qed.

Lemma indent_starts n v : wf v -> exists b t, indent n v = b :: t /\ starts_value b = true.
Proof.
  destruct v as [|b|lit|s|[|x l]|[|x l]]; intros Hw; try (by apply print_starts in Hw).
  all: do 2 eexists; split; reflexivity.
Qed.

Lemma expect_join c n xs rest : starts_value (hd Byte.x20 (hd [] xs)) = true -> c = ch "]" \/ c = ch "}" ->
  expect c (newline n ++ join (ch "," :: newline n) xs ++ rest) = None.
Proof.
  intros Hx Hc. rewrite expect_newline. destruct xs as [|[|b x] l]; [done..|]. cbn [hd] in Hx.
  destruct l; cbn [join]; [|rewrite <- app_assoc]; by apply expect_starts.
Qed.

Lemma rereads_all v : rereads v.
Proof.
  induction v as [|b|lit|s|l IH|l IH] using json_ind'; intros n f d rest Hw Hd Hf Hs;
    [by apply (parses_all _ f d rest Hw)..| |].
  - destruct l as [|v l]; [by apply (parses_all _ f d rest Hw)|]. cbn [depth] in Hd. destruct d as [|d]; [lia|].
    cbn [indent] in *. destruct f as [|f]; [cbn in Hf; lia|]. cbn [length] in Hf. rewrite !length_app in Hf. cbn [length] in Hf.
    cbn [app parse_value norm]. change (skip_ws (ch "[" :: ?t)) with (ch "[" :: t). cbv beta iota.
    rewrite decide_False by done. rewrite decide_True by done. rewrite <- !app_assoc. cbn [app].
    rewrite expect_join; [|destruct Hw as [Hv _]; destruct (indent_starts (1 + n) v Hv) as (b & t & E & Hb);
      change (starts_value (hd Byte.x20 (indent (1 + n) v)) = true); by rewrite E|auto].
    rewrite elems_newline, parse_elems_indent; [done|done|by apply all_of_Forall|lia|lia].
  - destruct l as [|kv l]; [by apply (parses_all _ f d rest Hw)|]. cbn [depth] in Hd. destruct d as [|d]; [lia|].
    cbn [indent] in *. destruct f as [|f]; [cbn in Hf; lia|]. cbn [length] in Hf. rewrite !length_app in Hf. cbn [length] in Hf.
    cbn [app parse_value norm]. change (skip_ws (ch "{" :: ?t)) with (ch "{" :: t). cbv beta iota.
    rewrite decide_True by done. rewrite <- !app_assoc. cbn [app].
    change (map (fun kv => print_str kv.1 ++ ch ":" :: ch " " :: indent (1 + n) kv.2) (kv :: l))
      with (map (indent_member (1 + n)) (kv :: l)) in *.
    rewrite expect_join by (auto; done).
    rewrite members_newline, parse_members_indent; [done|done|by apply all_of_Forall|lia|lia].
Qed.

(** What the surface shows is what it sends in compact form. *)
Theorem parse_indent v : wf v -> (depth v <= maxNestingDepth)%nat -> parse (indent 0 v) = Some (norm v).
Proof.
  intros Hw Hd. unfold parse. pose proof (rereads_all v 0%nat (S (length (indent 0 v))) maxNestingDepth [] Hw Hd ltac:(lia)) as Hp.
  rewrite app_nil_r in Hp. by rewrite Hp by (by destruct v).
Qed.
