(* ===== verification/Cli.v ===== *)
(** * What the command line programs share: [cmd/*/main.go]

    The files are a map from paths to contents: reading one that is not there
    is an error, writing replaces it.  Arguments are words; each program's loop
    over them is one of the three below.  White space is that of ASCII. *)
From S2P Require Import Prelude Crypto Encoding Json.

(** ** Files *)

Definition Files := gmap string bytes.
Definition ReadFile (fs : Files) (path : string) : outcome bytes := of_option "open" (fs !! path).
Definition WriteFile (fs : Files) (path : string) (b : bytes) : Files := <[path := b]> fs.

(** ** Arguments *)

(** The loops over the arguments: a known flag followed by a word sets it and
    takes both ([i++]); anything else is passed over. *)
Fixpoint take_flags (names args : list string) : list (string * string) :=
  match args with
  | a :: ((v :: args'') as args') => if decide (a ∈ names) then (a, v) :: take_flags names args'' else take_flags names args'
  | _ => []
  end.
Definition values (f : list (string * string)) (name : string) : list string :=
  omap (fun p => if decide (p.1 = name) then Some p.2 else None) f.
(** The last one counts. *)
Definition flag (f : list (string * string)) (name : string) : string := default ""%string (last (values f name)).

(** The same without [i++]: the word after a flag is looked at again. *)
Fixpoint see_flag (name : string) (args : list string) (v : string) : string :=
  match args with
  | a :: ((w :: _) as args') => see_flag name args' (if decide (a = name) then w else v)
  | _ => v
  end.
(** [fmt.Sscanf(s, "%d", &n)]: the number at the front, if there is one. *)
Fixpoint skip_spaces (s : bytes) : bytes :=
  match s with b :: s' => if bool_decide (b = ch " ") then skip_spaces s' else s | [] => [] end.
Definition sscanf_d (s : string) (n : Z) : Z :=
  let b := skip_spaces (to_bytes s) in
  let '(neg, b) := match b with
                   | c :: b' => if bool_decide (c = ch "-") then (true, b')
                                else if bool_decide (c = ch "+") then (false, b') else (false, b)
                   | [] => (false, [])
                   end in
  match span_digits b with
  | ([], _) => n
  | (ds, _) => let z := if neg then - digits_Z ds else digits_Z ds in if bool_decide (in_int64 z) then z else n
  end.

(** [flags] of cmd/identity and cmd/council: any word that starts with two
    dashes and is longer takes the word after it. *)
Definition flag_name (a : string) : option string :=
  match a with
  | String x (String y (String z r)) =>
      if bool_decide (String x (String y "") = "--"%string) then Some (String z r) else None
  | _ => None
  end.
Fixpoint flags_go (args : list string) (f : gmap string string) : gmap string string :=
  match args with
  | a :: ((v :: args'') as args') =>
      match flag_name a with
      | Some n => flags_go args'' (<[n := v]> f)
      | None => flags_go args' f
      end
  | _ => f
  end.
Definition flags (args : list string) : gmap string string := flags_go args ∅.
(** A flag that is not given is the empty string. *)
Definition get (f : gmap string string) (name : string) : string := default ""%string (f !! name).
Definition absent (f : gmap string string) (name : string) : bool := bool_decide (get f name = ""%string).

(** ** Text *)

(** [strings.Split(s, sep)] at one byte. *)
Fixpoint split_on (sep : byte) (b : bytes) : list bytes :=
  match b with
  | [] => [[]]
  | c :: b =>
      if bool_decide (c = sep) then [] :: split_on sep b
      else match split_on sep b with [] => [[c]] | l :: ls => (c :: l) :: ls end
  end.

(** [strings.TrimSpace]. *)
Definition is_space (b : byte) : bool := bool_decide (b = ch " ") || in_range b 9 13.
Fixpoint trim_left (b : bytes) : bytes :=
  match b with c :: b' => if is_space c then trim_left b' else b | [] => [] end.
Definition TrimSpace (b : bytes) : bytes := rev (trim_left (rev (trim_left b))).

(** [new(big.Int).SetString(s, 10)]: a sign, then digits. *)
Definition set_string10 (b : bytes) : option Z :=
  match b with
  | c :: r => if bool_decide (c = ch "+") then (if bool_decide (head r = Some (ch "-")) then None else parse_Z r) else parse_Z b
  | [] => None
  end.
(** [strconv.ParseInt(s, 10, 64)], and [strconv.Atoi]. *)
Definition parse_int (s : string) : outcome Z :=
  match set_string10 (to_bytes s) with
  | Some z => if bool_decide (in_int64 z) then Ret z else Err "strconv: value out of range"
  | None => Err "strconv: invalid syntax"
  end.

(** [strings.SplitN(s, sep, 2)]: [None] without the separator. *)
Fixpoint cut (sep : byte) (b : bytes) : option (bytes * bytes) :=
  match b with
  | [] => None
  | c :: b => if bool_decide (c = sep) then Some ([], b) else '(l, r) ← cut sep b; Some (c :: l, r)
  end.

(** [filepath.Clean]: the stack of components, the last one first. *)
Definition clean_step (rooted : bool) (stack : list bytes) (c : bytes) : list bytes :=
  if bool_decide (c = [] \/ c = to_bytes ".") then stack
  else if bool_decide (c = to_bytes "..") then
    match stack with
    | [] => if rooted then [] else [c]
    | d :: rest => if bool_decide (d = c) then c :: stack else rest
    end
  else c :: stack.
Definition Clean (b : bytes) : bytes :=
  let rooted := bool_decide (head b = Some (ch "/")) in
  let stack := rev (foldl (clean_step rooted) [] (split_on (ch "/") b)) in
  if rooted then concat (map (fun c => ch "/" :: c) stack) ++ (match stack with [] => [ch "/"] | _ => [] end)
  else match stack with [] => to_bytes "." | c :: cs => c ++ concat (map (fun c => ch "/" :: c) cs) end.
(** [filepath.Join] of a directory and a name. *)
Definition Join (dir name : string) : string :=
  if bool_decide (dir = ""%string) then of_bytes (Clean (to_bytes name))
  else of_bytes (Clean (to_bytes dir ++ ch "/" :: to_bytes name)).

Example join_cleans : map (fun d => Join d "kek-1.json") ["vault"; "./a//b/"; "/x/../y"; "../z"; "/"; ""]%string =
  ["vault/kek-1.json"; "a/b/kek-1.json"; "/y/kek-1.json"; "../z/kek-1.json"; "/kek-1.json"; "kek-1.json"]%string.
Proof. reflexivity. Qed.

(** What splitting and cutting give when the separator is in one place or none. *)
Lemma split_plain sep b : sep ∉ b -> split_on sep b = [b].
Proof.
  induction b as [|c b IH]; intros Hn; cbn [split_on]; [done|]. apply not_elem_of_cons in Hn as [Hc Hn].
  rewrite bool_decide_eq_false_2 by congruence. by rewrite IH.
Qed.

Lemma split_app sep a b : sep ∉ a -> split_on sep (a ++ sep :: b) = a :: split_on sep b.
Proof.
  induction a as [|c a IH]; intros Hn; cbn [app split_on]; [by rewrite bool_decide_eq_true_2|].
  apply not_elem_of_cons in Hn as [Hc Hn]. rewrite bool_decide_eq_false_2 by congruence. by rewrite IH.
Qed.
Lemma cut_none sep b : sep ∉ b -> cut sep b = None.
Proof.
  induction b as [|c b IH]; intros Hn; cbn [cut]; [done|]. apply not_elem_of_cons in Hn as [Hc Hn].
  rewrite bool_decide_eq_false_2 by congruence. by rewrite IH.
Qed.

(** Every error of a call under one text. *)
Definition wrap_err {A} (e : error) (m : outcome A) : outcome A := match m with Err _ => Err e | r => r end.

(** ** Keys *)

Section keys.
Context `{Ed25519}.

(** [keyFromFile]: a private key of 64 bytes, or a seed - of 32 bytes, or
    [NewKeyFromSeed] panics. *)
Definition keyFromFile (b : bytes) : outcome bytes :=
  if (length b =? PrivateKeySize)%nat then Ret b
  else if (length b =? SeedSize)%nat then Ret (ed_keygen b) else Panic.

(** The key in a file, as hexadecimal digits. *)
Definition read_key (fs : Files) (path : string) : outcome bytes :=
  raw ← ReadFile fs path;
  seed ← of_option "hex" (hex_decode raw);
  keyFromFile seed.

End keys.
