(* ===== verification/Timeline.v ===== *)
(** * The trust timeline: [timeline.go], [hash.go]

    [TrustEvent] with its canonical bytes (JSON with the signature blanked) and
    its chaining hash, [Timeline] as a record of the struct's fields (the mutex
    is left out: every exported method holds it for its whole body), and one
    definition per method, from a timeline to an outcome.  [walkVerify] is the
    loop with its early returns; [Chain] is the declarative reading: which
    event may follow which, under which key.  The JSON form of the file is
    in TimelineFile.v, the derived state in TrustState.v. *)
From S2P Require Import Prelude Crypto Encoding Json.

(** ** Data *)

Definition EvKeyGen : string := "KEY_GEN".
Definition EvIssue : string := "ISSUE".
Definition EvRevoke : string := "REVOKE".
Definition EvPolicyChange : string := "POLICY_CHANGE".
Definition EvRecovery : string := "RECOVERY".
Definition EvCommit : string := "COMMIT".
Definition EvShardActivity : string := "SHARD_ACTIVITY".
Definition EvDetected : string := "DETECTED".
Definition EvKeyRotate : string := "KEY_ROTATE".

Record TrustEvent := {
  EType : string;
  ETimestamp : Z;
  EPayload : slice;
  EParentHash : slice;
  ESignature : slice;
}.

#[global] Instance event_eq_dec : EqDecision TrustEvent.
Proof. solve_decision. Defined.

Inductive hashAlgo := algoSHA256 | algoDual.

#[global] Instance algo_eq_dec : EqDecision hashAlgo.
Proof. solve_decision. Defined.

Definition algoNames (a : hashAlgo) : string :=
  match a with algoSHA256 => "" | algoDual => "dual" end.
Definition algoCodes (s : string) : option hashAlgo :=
  if decide (s = ""%string \/ s = "sha256"%string) then Some algoSHA256
  else if decide (s = "dual"%string) then Some algoDual
  else None.

(** The JSON object of an event, fields in order. *)
Definition event_json (e : TrustEvent) : json :=
  JObj [jfield "Type" (jstring (EType e)); jfield "Timestamp" (jint (ETimestamp e));
        jfield "Payload" (jslice (EPayload e)); jfield "ParentHash" (jslice (EParentHash e));
        jfield "Signature" (jslice (ESignature e))].

Definition blank (e : TrustEvent) : TrustEvent :=
  {| EType := EType e; ETimestamp := ETimestamp e; EPayload := EPayload e;
     EParentHash := EParentHash e; ESignature := None |}.

Definition canonical (e : TrustEvent) : bytes := print (event_json (blank e)).

(** The string every digest of an event hashes. *)
Definition signedBytes (e : TrustEvent) : bytes := canonical e ++ sb (ESignature e).

Arguments event_json : simpl never.
Arguments canonical : simpl never.
Arguments signedBytes : simpl never.

Section timeline.
Context `{Hashes} `{Ed25519}.

Definition Hash (e : TrustEvent) : bytes := sha256 (signedBytes e).

Definition hashWith (a : hashAlgo) (b : bytes) : bytes :=
  match a with
  | algoSHA256 => sha256 b
  | algoDual => sha256 b ++ sha3_256 b
  end.

Record rotKey := { rat : Z; rkey : slice }.

Record Timeline := {
  events : list TrustEvent;
  tkey : slice;         (* nil for read-only timelines *)
  tpub : bytes;         (* current verification key *)
  tstart : slice;       (* key that signed event 0; nil = tpub *)
  councilPub : slice;
  rotations : list rotKey;
  algo : hashAlgo;
}.

Definition newTimeline (key : slice) (a : hashAlgo) : outcome Timeline :=
  pub ← ed25519_Public key;
  Ret {| events := []; tkey := key; tpub := pub; tstart := Some pub; councilPub := None;
         rotations := []; algo := a |}.
Definition NewTimeline (key : slice) : outcome Timeline := newTimeline key algoSHA256.
Definition NewDualTimeline (key : slice) : outcome Timeline := newTimeline key algoDual.

Definition HashAlgoName (t : Timeline) : string := algoNames (algo t).
Definition Pub (t : Timeline) : bytes := tpub t.
Definition Events (t : Timeline) : list TrustEvent := events t.

Definition chainDigest (t : Timeline) (b : bytes) : bytes := hashWith (algo t) b.
Definition eventDigest (t : Timeline) (e : TrustEvent) : bytes := hashWith (algo t) (signedBytes e).
Definition digestEvent := eventDigest.

Definition thead (t : Timeline) : slice := eventDigest t <$> last (events t).
Definition Head (t : Timeline) : slice := thead t.

Definition with_events (t : Timeline) (es : list TrustEvent) : Timeline :=
  {| events := es; tkey := tkey t; tpub := tpub t; tstart := tstart t;
     councilPub := councilPub t; rotations := rotations t; algo := algo t |}.

Definition append (t : Timeline) (typ : string) (payload : slice) (ts : Z)
    : outcome (Timeline * bytes) :=
  match tkey t with
  | None => Err "timeline: read-only (loaded from file)"
  | Some _ =>
      let e := {| EType := typ; ETimestamp := ts; EPayload := payload;
                  EParentHash := thead t; ESignature := None |} in
      sig ← ed25519_Sign (tkey t) (canonical e);
      let e := {| EType := typ; ETimestamp := ts; EPayload := payload;
                  EParentHash := thead t; ESignature := Some sig |} in
      Ret (with_events t (events t ++ [e]), Hash e)
  end.
Definition Append := append.

(** [append([]byte(nil), p...)]: a copy, nil when empty. *)
Definition clone (p : bytes) : slice := match p with [] => None | _ => Some p end.

Definition SetCouncilPub (t : Timeline) (pub : bytes) : Timeline :=
  {| events := events t; tkey := tkey t; tpub := tpub t; tstart := tstart t;
     councilPub := clone pub; rotations := rotations t; algo := algo t |}.
Definition CouncilPub (t : Timeline) : slice := clone (sb (councilPub t)).

(** ** Handoffs *)

Record FrostCommit := {
  fcEpoch : Z;
  fcCheckpoint : slice;
  fcPrev : Z;
  fcNewPub : slice;
  fcPayload : slice;
  fcSig : slice;
  fcMembers : list string;
}.

Definition fc_names : list string :=
  ["epoch"; "checkpoint"; "prev"; "new_pub"; "payload"; "sig"; "members"]%string.

Definition fc_zero : FrostCommit :=
  {| fcEpoch := 0; fcCheckpoint := None; fcPrev := 0; fcNewPub := None; fcPayload := None;
     fcSig := None; fcMembers := [] |}.

Definition fc_set (n : string) (v : json) (c : FrostCommit) : option FrostCommit :=
  let '{| fcEpoch := e; fcCheckpoint := k; fcPrev := p; fcNewPub := np; fcPayload := pl;
          fcSig := s; fcMembers := m |} := c in
  let mk e k p np pl s m :=
    Some {| fcEpoch := e; fcCheckpoint := k; fcPrev := p; fcNewPub := np; fcPayload := pl;
            fcSig := s; fcMembers := m |} in
  if decide (n = "epoch"%string) then e ← decode_int64 e v; mk e k p np pl s m
  else if decide (n = "checkpoint"%string) then k ← decode_bytes v; mk e k p np pl s m
  else if decide (n = "prev"%string) then p ← decode_int64 p v; mk e k p np pl s m
  else if decide (n = "new_pub"%string) then np ← decode_bytes v; mk e k p np pl s m
  else if decide (n = "payload"%string) then pl ← decode_bytes v; mk e k p np pl s m
  else if decide (n = "sig"%string) then s ← decode_bytes v; mk e k p np pl s m
  else m ← decode_list (decode_string "") v; mk e k p np pl s m.

(** [json.Unmarshal(b, &fc)]. *)
Definition fc_unmarshal (b : bytes) : option FrostCommit :=
  v ← parse b; decode_struct fc_names fc_set fc_zero v.

Definition fc_json (c : FrostCommit) : json :=
  JObj [jfield "epoch" (jint (fcEpoch c)); jfield "checkpoint" (jslice (fcCheckpoint c));
        jfield "prev" (jint (fcPrev c)); jfield "new_pub" (jslice (fcNewPub c));
        jfield "payload" (jslice (fcPayload c)); jfield "sig" (jslice (fcSig c));
        jfield "members" (JArr (map jstring (fcMembers c)))].

Definition descriptor (c : FrostCommit) : bytes :=
  print (JObj
    [jfield "epoch" (jint (fcEpoch c)); jfield "checkpoint" (jslice (fcCheckpoint c));
     jfield "prev" (jint (fcPrev c)); jfield "new_pub" (jslice (fcNewPub c));
     jfield "payload" (jslice (fcPayload c))]).

Definition Valid (c : FrostCommit) (groupPub : bytes) (min : Z) : outcome bool :=
  if (zlen (fcMembers c) <? min) || negb (length (sb (fcNewPub c)) =? PublicKeySize)%nat
  then Ret false
  else ed25519_Verify groupPub (descriptor c) (sb (fcSig c)).

(** [keyRotatePayload], as decoded. *)
Definition rot_unmarshal (b : bytes) : option slice :=
  v ← parse b; decode_struct ["pub"%string] (fun _ v _ => decode_bytes v) None v.
Definition rot_marshal (pub : bytes) : bytes := print (JObj [jfield "pub" (jslice (Some pub))]).

Definition RotateKey (t : Timeline) (newKey : slice) (ts : Z) : outcome (Timeline * bytes) :=
  match tkey t with
  | None => Err "timeline: read-only (loaded from file)"
  | Some _ =>
      newPub ← ed25519_Public newKey;
      '(t', h) ← append t EvKeyRotate (Some (rot_marshal newPub)) ts;
      Ret ({| events := events t'; tkey := newKey; tpub := newPub; tstart := tstart t';
              councilPub := councilPub t';
              rotations := rotations t' ++ [{| rat := zlen (events t') - 1; rkey := tkey t' |}];
              algo := algo t' |}, h)
  end.

(** ** Verification *)

(** The digest of the event before, and nil at the start of the chain. *)
Definition prevDigest (a : hashAlgo) (prev : option TrustEvent) : bytes :=
  match prev with None => [] | Some p => hashWith a (signedBytes p) end.

(** [ParentHash] links to the event before: nil at index 0, its digest after. *)
Definition linkOk (a : hashAlgo) (prev : option TrustEvent) (e : TrustEvent) : bool :=
  match prev with
  | None => match EParentHash e with None => true | Some _ => false end
  | Some p => bytes_equal (sb (EParentHash e)) (hashWith a (signedBytes p))
  end.

(** The key an event is verified under: the handoff's for a recovery event
    ([None]: the event is refused), the current one otherwise. *)
Definition recoveryKey (council : slice) (a : hashAlgo) (prev : option TrustEvent)
    (e : TrustEvent) (pub : bytes) : outcome (option bytes) :=
  if decide (EType e = EvRecovery) then
    if negb (length (sb council) =? PublicKeySize)%nat then Ret None
    else
      match fc_unmarshal (sb (EPayload e)) with
      | None => Ret None
      | Some fc =>
          ok ← Valid fc (sb council) 1;
          if negb ok then Ret None
          else if negb (bytes_equal (sb (fcCheckpoint fc)) (prevDigest a prev)) then Ret None
          else Ret (Some (sb (fcNewPub fc)))
      end
  else Ret (Some pub).

(** The key after an event: the new one of a rotation ([None]: refused). *)
Definition rotationKey (e : TrustEvent) (pub : bytes) : option bytes :=
  if decide (EType e = EvKeyRotate) then
    match rot_unmarshal (sb (EPayload e)) with
    | None => None
    | Some p => if negb (length (sb p) =? PublicKeySize)%nat then None else Some (sb p)
    end
  else Some pub.

(** One iteration: the key after the event, [None] when the event is bad. *)
Definition stepVerify (council : slice) (a : hashAlgo) (prev : option TrustEvent)
    (e : TrustEvent) (pub : bytes) : outcome (option bytes) :=
  if negb (linkOk a prev e) then Ret None
  else
    k ← recoveryKey council a prev e pub;
    match k with
    | None => Ret None
    | Some pub =>
        ok ← ed25519_Verify pub (canonical e) (sb (ESignature e));
        if negb ok then Ret None else Ret (rotationKey e pub)
    end.

(** The loop from index [i] on: [n] events to go of [es]. *)
Fixpoint walk (council : slice) (a : hashAlgo) (prev : option TrustEvent) (pub : bytes)
    (i : Z) (n : nat) (es : list TrustEvent) : outcome Z :=
  match n with
  | O => Ret (-1)
  | S n =>
      match es with
      | [] => Panic
      | e :: es =>
          k ← stepVerify council a prev e pub;
          match k with
          | None => Ret i
          | Some pub => walk council a (Some e) pub (i + 1) n es
          end
      end
  end.

Definition walkVerify (es : list TrustEvent) (startPub : bytes) (council : slice) (a : hashAlgo)
    (n : Z) : outcome Z := walk council a None startPub 0 (Z.to_nat n) es.

Definition startPub (t : Timeline) : bytes :=
  match tstart t with Some s => s | None => tpub t end.

Definition LocateBadEvent (t : Timeline) : outcome Z :=
  walkVerify (events t) (startPub t) (councilPub t) (algo t) (zlen (events t)).
Definition Verify (t : Timeline) : outcome bool := i ← LocateBadEvent t; Ret (i =? -1).
Definition VerifyPrefix (t : Timeline) (n : Z) : outcome bool :=
  let n := if n >? zlen (events t) then zlen (events t) else n in
  i ← walkVerify (events t) (startPub t) (councilPub t) (algo t) n;
  Ret (i =? -1).

(** ** Forks *)

Definition handoffKey (e : TrustEvent) (pub : bytes) : bytes :=
  if decide (EType e = EvKeyRotate) then
    match rot_unmarshal (sb (EPayload e)) with
    | Some p => if (length (sb p) =? PublicKeySize)%nat then sb p else pub
    | None => pub
    end
  else if decide (EType e = EvRecovery) then
    match fc_unmarshal (sb (EPayload e)) with
    | Some fc => if (length (sb (fcNewPub fc)) =? PublicKeySize)%nat then sb (fcNewPub fc) else pub
    | None => pub
    end
  else pub.

Definition pubForPrefix (es : list TrustEvent) (startPub : bytes) (idx : nat) : bytes :=
  foldl (fun pub e => handoffKey e pub) startPub (take (S idx) es).

(** The last event whose [Hash] is [atHash]. *)
Definition find_last (es : list TrustEvent) (atHash : bytes) : option nat :=
  foldl (fun acc ie => if bytes_equal (Hash ie.2) atHash then Some ie.1 else acc) None
    (zip (seq 0 (length es)) es).

Fixpoint keyAt_go (rs : list rotKey) (idx : Z) (live : slice) : slice :=
  match rs with
  | [] => live
  | r :: rs => if rat r >=? idx then rkey r else keyAt_go rs idx live
  end.
Definition keyAt (t : Timeline) (idx : Z) : slice := keyAt_go (rotations t) idx (tkey t).

Definition Fork (t : Timeline) (atHash : bytes) : outcome Timeline :=
  match find_last (events t) atHash with
  | None => Err "checkpoint %x not in timeline"
  | Some idx =>
      let start := pubForPrefix (events t) (startPub t) idx in
      Ret {| events := take (S idx) (events t); tkey := keyAt t (Z.of_nat idx); tpub := start;
             tstart := Some start; councilPub := councilPub t; rotations := [];
             algo := algo t |}
  end.

(** ** The declarative reading of a chain *)

Definition Linked (a : hashAlgo) (prev : option TrustEvent) (e : TrustEvent) : Prop :=
  match prev with
  | None => EParentHash e = None
  | Some p => sb (EParentHash e) = hashWith a (signedBytes p)
  end.

Definition Signed (pub : bytes) (e : TrustEvent) : Prop :=
  ed_verify pub (canonical e) (sb (ESignature e)) = true.

(** A handoff the council signed, for this position of the chain. *)
Definition Handoff (council : bytes) (a : hashAlgo) (prev : option TrustEvent) (e : TrustEvent)
    (newPub : bytes) : Prop :=
  exists fc, fc_unmarshal (sb (EPayload e)) = Some fc /\
    fcMembers fc <> [] /\ sb (fcNewPub fc) = newPub /\ length newPub = PublicKeySize /\
    length council = PublicKeySize /\
    ed_verify council (descriptor fc) (sb (fcSig fc)) = true /\
    sb (fcCheckpoint fc) = prevDigest a prev.

(** [Accept prev pub e pub']: after [prev], under the key [pub], the event [e]
    is good and leaves the key [pub']. *)
Inductive Accept (council : slice) (a : hashAlgo) (prev : option TrustEvent) (pub : bytes)
    (e : TrustEvent) : bytes -> Prop :=
| accept_plain :
    Linked a prev e -> EType e <> EvRecovery -> EType e <> EvKeyRotate -> Signed pub e ->
    Accept council a prev pub e pub
| accept_rotate newPub :
    Linked a prev e -> EType e = EvKeyRotate -> Signed pub e ->
    rot_unmarshal (sb (EPayload e)) = Some (Some newPub) -> length newPub = PublicKeySize ->
    Accept council a prev pub e newPub
| accept_recover newPub :
    Linked a prev e -> EType e = EvRecovery -> Handoff (sb council) a prev e newPub ->
    Signed newPub e -> Accept council a prev pub e newPub.

(** [Chain prev pub es pub']: the events [es] can follow [prev] under [pub]. *)
Inductive Chain (council : slice) (a : hashAlgo) :
    option TrustEvent -> bytes -> list TrustEvent -> bytes -> Prop :=
| chain_nil prev pub : Chain council a prev pub [] pub
| chain_cons prev pub e pub1 es pub2 :
    Accept council a prev pub e pub1 -> Chain council a (Some e) pub1 es pub2 ->
    Chain council a prev pub (e :: es) pub2.

Lemma linkOk_spec a prev e : linkOk a prev e = true <-> Linked a prev e.
Proof.
  unfold linkOk, Linked. destruct prev; [apply bytes_equal_true|]. by destruct (EParentHash e).
Qed.

Lemma Valid_spec fc council min :
  length council = PublicKeySize ->
  Valid fc council min =
    Ret ((min <=? zlen (fcMembers fc)) && (length (sb (fcNewPub fc)) =? PublicKeySize)%nat &&
         ed_verify council (descriptor fc) (sb (fcSig fc))).
Proof.
  intros Hl. unfold Valid. rewrite Verify_len by done. rewrite Z.ltb_antisym.
  by destruct (min <=? _), (_ =? _)%nat.
Qed.

Lemma Accept_length council a prev pub e pub' :
  length pub = PublicKeySize -> Accept council a prev pub e pub' -> length pub' = PublicKeySize.
Proof. intros Hl [| |newPub ? ? (fc & _ & _ & _ & ? & _) ?]; done. Qed.

Lemma recoveryKey_spec council a prev e pub :
  exists k, recoveryKey council a prev e pub = Ret k /\
    forall pub', k = Some pub' <->
      (EType e <> EvRecovery /\ pub' = pub) \/
      (EType e = EvRecovery /\ Handoff (sb council) a prev e pub').
Proof.
  unfold recoveryKey. destruct (decide _) as [Hr|Hr]; [|eexists; split; [done|naive_solver]].
  destruct (Nat.eqb_spec (length (sb council)) PublicKeySize) as [Hc|Hc]; cbn [negb].
  2:{ eexists; split; [done|]. intros pub'. split; [done|].
      intros [[? _]|[_ (fc & ? & ? & ? & ? & ? & _)]]; done. }
  destruct (fc_unmarshal _) as [fc|] eqn:Hfc.
  2:{ eexists; split; [done|]. intros pub'. split; [done|].
      intros [[? _]|[_ (fc & ? & _)]]; congruence. }
  rewrite Valid_spec by done. cbn [mbind outcome_bind].
  assert (Hm : 1 <=? zlen (fcMembers fc) = true <-> fcMembers fc <> []).
  { unfold zlen. destruct (fcMembers fc); cbn [length]; [done|]. split; [done|]. intros _. apply Z.leb_le. lia. }
  destruct (1 <=? _) eqn:Em; cbn [andb negb].
  2:{ eexists; split; [done|]. intros pub'. split; [done|].
      intros [[? _]|[_ (fc' & E & Hne & _)]]; [done|]. rewrite Hfc in E. injection E as <-.
      by apply Hm in Hne. }
  destruct (Nat.eqb_spec (length (sb (fcNewPub fc))) PublicKeySize) as [Hn|Hn]; cbn [andb negb].
  2:{ eexists; split; [done|]. intros pub'. split; [done|].
      intros [[? _]|[_ (fc' & E & _ & En & Hl & _)]]; congruence. }
  destruct (ed_verify _ _ _) eqn:Hv; cbn [negb].
  2:{ eexists; split; [done|]. intros pub'. split; [done|].
      intros [[? _]|[_ (fc' & E & _ & _ & _ & _ & Hv' & _)]]; congruence. }
  destruct (bytes_equal _ _) eqn:Hb; cbn [negb].
  - apply bytes_equal_true in Hb. eexists; split; [done|]. intros pub'. split.
    + intros [= <-]. right. split; [done|]. exists fc. naive_solver.
    + intros [[? _]|[_ (fc' & E & _ & En & _)]]; congruence.
  - eexists; split; [done|]. intros pub'. split; [done|].
    intros [[? _]|[_ (fc' & E & _ & _ & _ & _ & _ & Hk)]]; [done|].
    rewrite Hfc in E. injection E as <-. rewrite Hk, bytes_equal_refl in Hb. done.
Qed.

Lemma rotationKey_spec e pub pub' :
  rotationKey e pub = Some pub' <->
  (EType e <> EvKeyRotate /\ pub' = pub) \/
  (EType e = EvKeyRotate /\ rot_unmarshal (sb (EPayload e)) = Some (Some pub') /\
   length pub' = PublicKeySize).
Proof.
  unfold rotationKey. destruct (decide _) as [Hr|Hr]; [|naive_solver].
  destruct (rot_unmarshal _) as [p|]; [|naive_solver].
  destruct (Nat.eqb_spec (length (sb p)) PublicKeySize) as [Hl|Hl]; cbn [negb].
  - split; [|naive_solver]. intros [= <-]. right. split_and!; [done| |done].
    destruct p; [done|]. cbn in Hl. done.
  - split; [done|]. intros [[? _]|[_ [[= ->] ?]]]; done.
Qed.

(** One iteration of the loop decides [Accept], and never panics. *)
Lemma stepVerify_spec council a prev e pub :
  length pub = PublicKeySize ->
  exists k, stepVerify council a prev e pub = Ret k /\
    forall pub', k = Some pub' <-> Accept council a prev pub e pub'.
Proof.
  intros Hl. unfold stepVerify.
  destruct (linkOk a prev e) eqn:Hk; cbn [negb].
  2:{ eexists; split; [done|]. intros pub'. split; [done|].
      intros Ha. assert (Linked a prev e) as HL by (by destruct Ha).
      apply linkOk_spec in HL. congruence. }
  apply linkOk_spec in Hk.
  destruct (recoveryKey_spec council a prev e pub) as (k & -> & Hkey). cbn [mbind outcome_bind].
  destruct k as [p|].
  - assert (length p = PublicKeySize) as Hpl.
    { destruct (proj1 (Hkey p) eq_refl) as [[_ ->]|[_ (fc & _ & _ & _ & ? & _)]]; done. }
    rewrite Verify_len by done. cbn [mbind outcome_bind].
    destruct (ed_verify p _ _) eqn:Hv; cbn [negb].
    + eexists; split; [done|]. intros pub'. rewrite rotationKey_spec.
      destruct (proj1 (Hkey p) eq_refl) as [[Hr ->]|[Hr Hh]]; split.
      * intros [[Hn ->]|(Hn & Hd & Hl')]; [by apply accept_plain|by apply accept_rotate].
      * destruct 1; naive_solver.
      * intros [[Hn ->]|(Hn & Hd & Hl')]; [by apply accept_recover|by rewrite Hr in Hn].
      * destruct 1 as [|newPub ? Hrot|newPub ? ? Hh' ?]; [done|by rewrite Hr in Hrot|].
        left. split; [by rewrite Hr|]. apply (inj Some).
        rewrite <- (proj2 (Hkey newPub)); [done|]. by right.
    + eexists; split; [done|]. intros pub'. split; [done|]. intros Ha.
      destruct Ha as [? Hr ? Hs|newPub ? Hr Hs ?|newPub ? Hr Hh Hs].
      * assert (Some p = Some pub) as [= ->] by (apply Hkey; auto). congruence.
      * assert (Some p = Some pub) as [= ->]
          by (apply Hkey; left; split; [by rewrite Hr|done]). congruence.
      * assert (Some p = Some newPub) as [= ->] by (apply Hkey; auto). congruence.
  - eexists; split; [done|]. intros pub'. split; [done|]. intros Ha.
    assert (exists q : bytes, None = Some q) as [? [=]].
    destruct Ha as [? Hr ? Hs|newPub ? Hr Hs ?|newPub ? Hr Hh Hs].
    + exists pub. apply Hkey; auto.
    + exists pub. apply Hkey. left; split; [by rewrite Hr|done].
    + exists newPub. apply Hkey; auto.
Qed.

Lemma Accept_det council a prev e pub p1 p2 :
  length pub = PublicKeySize ->
  Accept council a prev pub e p1 -> Accept council a prev pub e p2 -> p1 = p2.
Proof.
  intros Hl H1 H2. destruct (stepVerify_spec council a prev e pub Hl) as (k & _ & Hk).
  apply Hk in H1, H2. congruence.
Qed.

(** The last event of a list, or the one before it. *)
Definition prev_of (prev : option TrustEvent) (es : list TrustEvent) : option TrustEvent :=
  match last es with Some e => Some e | None => prev end.

Lemma prev_of_cons prev e es : prev_of prev (e :: es) = prev_of (Some e) es.
Proof. unfold prev_of. rewrite last_cons. by destruct (last es). Qed.

Lemma prev_of_snoc prev es e : prev_of prev (es ++ [e]) = Some e.
Proof. unfold prev_of. by rewrite last_snoc. Qed.

Lemma Chain_app council a prev pub es1 es2 pub2 :
  Chain council a prev pub (es1 ++ es2) pub2 <->
  exists pub1, Chain council a prev pub es1 pub1 /\
    Chain council a (prev_of prev es1) pub1 es2 pub2.
Proof.
  revert prev pub. induction es1 as [|e es1 IH]; intros prev pub; cbn [app].
  - split; [|intros (pub1 & Hc & ?); by inversion Hc; subst].
    intros Hc. exists pub. split; [constructor|done].
  - split.
    + inversion 1 as [|? ? ? pub1 ? ? Ha Hc]; subst. apply IH in Hc as (pub3 & Hc1 & Hc2).
      exists pub3. split; [by econstructor|]. by rewrite prev_of_cons.
    + intros (pub1 & Hc & Hc2). inversion Hc as [|? ? ? pub3 ? ? Ha Hc1]; subst.
      econstructor; [done|]. apply IH. exists pub1. by rewrite <- prev_of_cons with (prev := prev).
Qed.

Lemma Chain_snoc council a prev pub es e pub1 pub2 :
  Chain council a prev pub es pub1 -> Accept council a (prev_of prev es) pub1 e pub2 ->
  Chain council a prev pub (es ++ [e]) pub2.
Proof. intros Hc Ha. apply Chain_app. exists pub1. split; [done|]. econstructor; [done|constructor]. Qed.

Lemma Chain_length council a prev pub es pub' :
  Chain council a prev pub es pub' -> length pub = PublicKeySize -> length pub' = PublicKeySize.
Proof. induction 1; [done|]. intros Hl. eauto using Accept_length. Qed.

(** What the loop over the first [n] events answers. *)
Definition BadAt (council : slice) (a : hashAlgo) (prev : option TrustEvent) (pub : bytes)
    (es : list TrustEvent) (k : nat) : Prop :=
  exists pre e post pub1, es = pre ++ e :: post /\ length pre = k /\
    Chain council a prev pub pre pub1 /\
    forall pub2, ~ Accept council a (prev_of prev pre) pub1 e pub2.

Lemma walk_spec council a n es : forall prev pub i,
  length pub = PublicKeySize -> (n <= length es)%nat ->
  (walk council a prev pub i n es = Ret (-1) /\
     exists pub', Chain council a prev pub (take n es) pub') \/
  (exists k, (k < n)%nat /\ walk council a prev pub i n es = Ret (i + Z.of_nat k) /\
     BadAt council a prev pub es k).
Proof.
  revert es. induction n as [|n IH]; intros es prev pub i Hl Hn.
  { left. split; [done|]. exists pub. constructor. }
  destruct es as [|e es]; [cbn in Hn; lia|]. cbn [walk].
  destruct (stepVerify_spec council a prev e pub Hl) as (k & -> & Hk). cbn [mbind outcome_bind].
  destruct k as [pub1|].
  - assert (Accept council a prev pub e pub1) as Ha by by apply Hk.
    pose proof (Accept_length _ _ _ _ _ _ Hl Ha) as Hl1. cbn in Hn.
    destruct (IH es (Some e) pub1 (i + 1) Hl1) as [[-> (pub' & Hc)]|(k & Hkn & -> & Hb)]; [lia|..].
    + left. split; [done|]. exists pub'. by econstructor.
    + right. exists (S k). split; [lia|]. split; [f_equal; lia|].
      destruct Hb as (pre & e' & post & pub2 & -> & <- & Hc & Hno).
      exists (e :: pre), e', post, pub2. split_and!; [done|done|by econstructor|].
      by rewrite prev_of_cons.
  - right. exists 0%nat. split; [lia|]. split; [f_equal; lia|].
    exists [], e, es, pub. split_and!; [done|done|constructor|].
    intros pub2 Ha. by apply Hk in Ha.
Qed.

(** The keys of a timeline have the lengths [crypto/ed25519] accepts. *)
Definition keys_ok (t : Timeline) : Prop := length (startPub t) = PublicKeySize.

(** C3.  [LocateBadEvent] answers on every timeline whose start key has the
    right length, and its answer is exact: [-1] when the whole chain is good,
    each event linked to the one before and signed under the key the rotations
    and council handoffs before it lead to; otherwise the index of the first
    event that no key can make good there. *)
Theorem LocateBadEvent_first_bad t :
  keys_ok t ->
  (LocateBadEvent t = Ret (-1) /\
     exists pub', Chain (councilPub t) (algo t) None (startPub t) (events t) pub') \/
  (exists k, (k < length (events t))%nat /\ LocateBadEvent t = Ret (Z.of_nat k) /\
     BadAt (councilPub t) (algo t) None (startPub t) (events t) k).
Proof.
  intros Hk. unfold LocateBadEvent, walkVerify, zlen. rewrite Nat2Z.id.
  destruct (walk_spec (councilPub t) (algo t) (length (events t)) (events t) None (startPub t) 0 Hk)
    as [[-> Hc]|(k & Hkn & -> & Hb)]; [lia|..].
  - left. by rewrite take_ge in Hc by lia.
  - right. exists k. split_and!; [done|f_equal; lia|done].
Qed.

Lemma walk_total council a n es prev pub i :
  length pub = PublicKeySize -> (n <= length es)%nat ->
  exists z, walk council a prev pub i n es = Ret z.
Proof. intros Hl Hn. destruct (walk_spec council a n es prev pub i Hl Hn); naive_solver. Qed.

Lemma Chain_det council a prev pub es p1 p2 :
  length pub = PublicKeySize ->
  Chain council a prev pub es p1 -> Chain council a prev pub es p2 -> p1 = p2.
Proof.
  intros Hl H1. revert p2. induction H1 as [|prev pub e pub1 es pub2 Ha Hc IH]; intros p2 H2.
  - by inversion H2.
  - inversion H2 as [|? ? ? pub3 ? ? Ha' Hc']; subst. rewrite (Accept_det _ _ _ _ _ _ _ Hl Ha' Ha) in Hc'.
    eauto using Accept_length.
Qed.

Lemma walk_good council a prev pub i es pub' :
  length pub = PublicKeySize -> 0 <= i -> Chain council a prev pub es pub' ->
  walk council a prev pub i (length es) es = Ret (-1).
Proof.
  intros Hl Hi Hc. destruct (walk_spec council a (length es) es prev pub i Hl)
    as [[-> _]|(k & Hkn & _ & Hb)]; [lia|done|].
  destruct Hb as (pre & e & post & pub1 & -> & <- & Hpre & Hno).
  apply Chain_app in Hc as (pub2 & Hc1 & Hc2). inversion Hc2 as [|? ? ? pub3 ? ? Ha _]; subst.
  rewrite (Chain_det _ _ _ _ _ _ _ Hl Hc1 Hpre) in Ha. by apply Hno in Ha.
Qed.

(** [Verify], declaratively. *)
Definition good (t : Timeline) : Prop :=
  exists pub', Chain (councilPub t) (algo t) None (startPub t) (events t) pub'.

Lemma Verify_good t : keys_ok t -> Verify t = Ret true <-> good t.
Proof.
  intros Hk. unfold Verify, LocateBadEvent, walkVerify, zlen. rewrite Nat2Z.id. split.
  - destruct (walk_spec (councilPub t) (algo t) (length (events t)) (events t) None (startPub t) 0 Hk)
      as [[-> Hc]|(k & Hkn & -> & Hb)]; [lia|..]; cbn [mbind outcome_bind].
    + intros _. by rewrite take_ge in Hc by lia.
    + intros [= E]. destruct (Z.eqb_spec (0 + Z.of_nat k) (-1)); [lia|done].
  - intros [pub' Hc]. by rewrite (walk_good (councilPub t) (algo t) None (startPub t) 0 (events t) pub' Hk (Z.le_refl 0) Hc).
Qed.

Lemma LocateBadEvent_total t : keys_ok t -> exists i, LocateBadEvent t = Ret i.
Proof.
  intros Hk. unfold LocateBadEvent, walkVerify, zlen.
  apply (walk_total (councilPub t) (algo t) (Z.to_nat (Z.of_nat (length (events t)))) (events t)
    None (startPub t) 0 Hk). lia.
Qed.

Lemma Verify_total t : keys_ok t -> exists b, Verify t = Ret b.
Proof.
  intros Hk. unfold Verify, LocateBadEvent, walkVerify, zlen.
  destruct (walk_total (councilPub t) (algo t) (Z.to_nat (Z.of_nat (length (events t)))) (events t)
    None (startPub t) 0 Hk) as [z ->]; [lia|]. by eexists.
Qed.

(** The clamp of [VerifyPrefix]. *)
Definition clamp (t : Timeline) (n : Z) : Z := if n >? zlen (events t) then zlen (events t) else n.

Lemma clamp_le t n : (Z.to_nat (clamp t n) <= length (events t))%nat.
Proof. unfold clamp, zlen. destruct (Z.gtb_spec n (Z.of_nat (length (events t)))); lia. Qed.

Lemma VerifyPrefix_total t n : keys_ok t -> exists b, VerifyPrefix t n = Ret b.
Proof.
  intros Hk. unfold VerifyPrefix, walkVerify. fold (clamp t n).
  destruct (walk_total (councilPub t) (algo t) (Z.to_nat (clamp t n)) (events t) None (startPub t) 0
    Hk (clamp_le t n)) as [z ->]. by eexists.
Qed.

(** Rolling back never breaks a chain: every prefix of a timeline that
    verifies verifies, for every prefix length, negative and too long included. *)
Theorem Verify_prefixes t n : keys_ok t -> Verify t = Ret true -> VerifyPrefix t n = Ret true.
Proof.
  intros Hk Hv. apply Verify_good in Hv as [pub' Hc]; [|done]. unfold VerifyPrefix.
  fold (clamp t n). pose proof (clamp_le t n) as Hm. set (m := clamp t n) in *.
  unfold walkVerify.
  destruct (walk_spec (councilPub t) (algo t) (Z.to_nat m) (events t) None (startPub t) 0 Hk Hm)
    as [[-> _]|(k & Hkn & _ & Hb)]; [done|].
  destruct Hb as (pre & e & post & pub1 & E & <- & Hpre & Hno).
  rewrite E in Hc. apply Chain_app in Hc as (pub2 & Hc1 & Hc2).
  inversion Hc2 as [|? ? ? pub3 ? ? Ha _]; subst.
  rewrite (Chain_det _ _ _ _ _ _ _ Hk Hc1 Hpre) in Ha. by apply Hno in Ha.
Qed.

End timeline.
