(* ===== verification/TimelineTheory.v ===== *)
(** * What the timeline promises

    Writable timelines ([NewTimeline], then any appends, rotations and council
    anchors) always verify; the digest of the last event commits to the whole
    chain, under either of the two hash functions in dual mode; forks before
    the first key rotation continue under the key current there, and a fork
    taken after a rotation fails its verification at event 0. *)
From S2P Require Import Prelude Crypto Encoding Json Timeline.

Section theory.
Context `{Hashes} `{Ed25519} {HL : HashLaws} {EL : Ed25519Laws}.

(** ** Canonical bytes determine the event *)

(** Strings JSON carries unchanged, integers in range: every event decoded from
    JSON is like this, and every event the engine appends. *)
Definition event_ok (e : TrustEvent) : Prop := valid_string (EType e) /\ in_int64 (ETimestamp e).

Lemma event_json_wf e : wf (event_json e) /\ (depth (event_json e) <= maxNestingDepth)%nat.
Proof.
  split.
  - unfold event_json. cbn [wf all_of snd jfield].
    split_and!; first [exact I|apply wf_jint|apply wf_jslice].
  - destruct e as [ty ts p h s]; destruct p, h, s; vm_compute; lia.
Qed.

Lemma coerce_ascii s : forallb (fun b => byte_Z b <? 128) (to_bytes s) = true -> coerce (to_bytes s) = to_bytes s.
Proof. intros Ha. by apply coerce_id, ascii_valid. Qed.

Lemma event_json_norm e : event_ok e -> norm (event_json e) = event_json e.
Proof.
  intros [Hs _]. unfold event_json, jfield. cbn [norm map fst snd].
  rewrite !coerce_ascii by done. cbn [jstring norm]. rewrite coerce_id by done.
  by rewrite !norm_jslice, norm_jint.
Qed.

Lemma signedBytes_inj e e' :
  event_ok e -> event_ok e' -> signedBytes e = signedBytes e' ->
  blank e = blank e' /\ sb (ESignature e) = sb (ESignature e').
Proof.
  intros He He' E. unfold signedBytes, canonical in E.
  assert (event_ok (blank e) /\ event_ok (blank e')) as [Hb Hb'] by done.
  apply print_obj_prefix in E as [E Es]; try apply event_json_wf.
  fold (event_json (blank e)) in E. fold (event_json (blank e')) in E.
  split; [|done]. rewrite !event_json_norm in E by done.
  destruct e as [ty ts p h s], e' as [ty' ts' p' h' s'].
  unfold event_json, jfield, blank in E. cbn [EType ETimestamp EPayload EParentHash ESignature] in E.
  injection E as E1 E2 E3 E4. unfold blank. cbn. f_equal.
  - by apply to_bytes_inj.
  - by apply jint_inj; unfold jint; f_equal.
  - by apply jslice_inj.
  - by apply jslice_inj.
Qed.

(** ** The head commits to the history *)

(** No two of the strings [L] have the same link digest: one collision-free
    hash function is enough in dual mode. *)
Definition link_free (a : hashAlgo) (L : list bytes) : Prop :=
  match a with
  | algoSHA256 => collision_free sha256 L
  | algoDual => collision_free sha256 L \/ collision_free sha3_256 L
  end.

Lemma hashWith_inj a L x y :
  link_free a L -> x ∈ L -> y ∈ L -> hashWith a x = hashWith a y -> x = y.
Proof.
  intros Hf Hx Hy. destruct a; cbn in *; [by apply Hf|]. intros E.
  apply app_inj_1 in E as [E1 E2]; [|by rewrite !sha256_length].
  destruct Hf as [Hf|Hf]; by apply Hf.
Qed.

Lemma link_free_mono a L L' : L' ⊆ L -> link_free a L -> link_free a L'.
Proof. destruct a; cbn; intros ?; [|intros [?|?]; [left|right]]; eauto using collision_free_mono. Qed.

Lemma hashWith_nonempty a b : hashWith a b <> [].
Proof.
  intros E. apply (f_equal length) in E.
  destruct a; cbn in E; rewrite ?length_app, sha256_length in E; cbn in E; lia.
Qed.

Lemma Accept_link council a prev pub e pub' : Accept council a prev pub e pub' -> Linked a prev e.
Proof. by destruct 1. Qed.

Lemma Accept_signature council a prev pub e pub' :
  Accept council a prev pub e pub' -> exists s, ESignature e = Some s.
Proof.
  assert (Hs : forall p, Signed p e -> exists s, ESignature e = Some s).
  { intros p Hs. apply ed_verify_length in Hs. destruct (ESignature e); [by eexists|done]. }
  destruct 1; eauto.
Qed.

Lemma Chain_snoc_inv council a pub es e pub' :
  Chain council a None pub (es ++ [e]) pub' ->
  exists pub1, Chain council a None pub es pub1 /\ Accept council a (prev_of None es) pub1 e pub'.
Proof.
  intros Hc. apply Chain_app in Hc as (pub1 & Hc & Hl). exists pub1. split; [done|].
  inversion Hl as [|? ? ? ? ? ? Ha Hn]; subst. by inversion Hn; subst.
Qed.

Lemma event_eq e e' :
  blank e = blank e' -> ESignature e = ESignature e' -> e = e'.
Proof. destruct e, e'. unfold blank. cbn. by intros [= -> -> -> ->] ->. Qed.

Lemma chain_inj a c1 c2 pub1 pub2 es1 es2 e1 e2 p1 p2 :
  Forall event_ok es1 -> Forall event_ok es2 ->
  link_free a (map signedBytes (es1 ++ es2)) ->
  Chain c1 a None pub1 es1 p1 -> Chain c2 a None pub2 es2 p2 ->
  last es1 = Some e1 -> last es2 = Some e2 ->
  hashWith a (signedBytes e1) = hashWith a (signedBytes e2) ->
  es1 = es2.
Proof.
  revert es2 e1 e2 p1 p2. induction es1 as [|x es1 IH] using rev_ind; [done|].
  intros es2 e1 e2 p1 p2 Ho1 Ho2 Hf Hc1 Hc2 Hl1 Hl2 E. rewrite last_snoc in Hl1. injection Hl1 as ->.
  destruct es2 as [|y es2 _] using rev_ind; [done|]. rewrite last_snoc in Hl2. injection Hl2 as ->.
  apply Forall_app in Ho1 as [Ho1 [Hx _]%Forall_cons].
  apply Forall_app in Ho2 as [Ho2 [Hy _]%Forall_cons].
  apply Chain_snoc_inv in Hc1 as (q1 & Hc1 & Ha1). apply Chain_snoc_inv in Hc2 as (q2 & Hc2 & Ha2).
  assert (e1 = e2) as ->.
  { apply (hashWith_inj a _ _ _ Hf) in E; [|rewrite !map_app; set_solver..].
    destruct (signedBytes_inj _ _ Hx Hy E) as [Hb Hs]. apply event_eq; [done|].
    destruct (Accept_signature _ _ _ _ _ _ Ha1) as [s1 Es1].
    destruct (Accept_signature _ _ _ _ _ _ Ha2) as [s2 Es2].
    rewrite Es1, Es2 in *. cbn in Hs. by rewrite Hs. }
  f_equal. apply Accept_link in Ha1, Ha2. revert Ha1 Ha2. unfold prev_of.
  destruct (last es1) as [f1|] eqn:Hf1, (last es2) as [f2|] eqn:Hf2; cbn; intros Ha1 Ha2.
  - apply (IH es2 f1 f2 q1 q2); try done; [|congruence].
    eapply link_free_mono; [|exact Hf]. rewrite !map_app. set_solver.
  - rewrite Ha2 in Ha1. symmetry in Ha1. by apply hashWith_nonempty in Ha1.
  - rewrite Ha1 in Ha2. symmetry in Ha2. by apply hashWith_nonempty in Ha2.
  - apply last_None in Hf1, Hf2. congruence.
Qed.

(** C1.  The digest of the last event commits to the whole history: two chains
    that verify, under whatever start keys and council keys, and whose last
    events have the same link digest are the same list of events, unless the
    link hash collides on the strings it was applied to; in dual mode both
    SHA-256 and SHA3-256 would have to collide. *)
Theorem chain_commits a c1 c2 pub1 pub2 es1 es2 e1 e2 p1 p2 :
  Forall event_ok es1 -> Forall event_ok es2 ->
  link_free a (map signedBytes (es1 ++ es2)) ->
  Chain c1 a None pub1 es1 p1 -> Chain c2 a None pub2 es2 p2 ->
  last es1 = Some e1 -> last es2 = Some e2 ->
  hashWith a (signedBytes e1) = hashWith a (signedBytes e2) ->
  es1 = es2.
Proof. apply chain_inj. Qed.

(** The events of a chain are pairwise different. *)
Lemma chain_distinct a c pub es p i j e :
  Forall event_ok es -> link_free a (map signedBytes es) -> Chain c a None pub es p ->
  es !! i = Some e -> es !! j = Some e -> i = j.
Proof.
  intros Ho Hf Hc Hi Hj.
  assert (Hpre : forall k, es !! k = Some e -> exists q, Chain c a None pub (take (S k) es) q /\
    last (take (S k) es) = Some e /\ Forall event_ok (take (S k) es)).
  { intros k Hk. rewrite <- (take_drop (S k) es) in Hc. apply Chain_app in Hc as (q & Hq & _).
    exists q. split_and!; [done| |by apply Forall_take].
    by rewrite (take_S_r _ _ _ Hk), last_snoc. }
  destruct (Hpre i Hi) as (q1 & H1 & L1 & O1). destruct (Hpre j Hj) as (q2 & H2 & L2 & O2).
  assert (E : take (S i) es = take (S j) es).
  { eapply (chain_inj a); [exact O1|exact O2| |exact H1|exact H2|exact L1|exact L2|done].
    eapply link_free_mono; [|exact Hf]. intros x (y & -> & Hy)%list_elem_of_fmap.
    apply list_elem_of_fmap. exists y. split; [done|].
    apply elem_of_app in Hy as [Hy|Hy]; by eapply subseteq_take. }
  apply (f_equal length) in E. rewrite !length_take in E.
  apply lookup_lt_Some in Hi, Hj. lia.
Qed.

(** ** Writable timelines always verify *)

Definition plain (e : TrustEvent) : Prop := EType e <> EvRecovery.

(** The state of a timeline that holds its signing key. *)
Definition writable (t : Timeline) : Prop :=
  exists priv, tkey t = Some priv /\ real_key priv /\ tpub t = pub_of priv /\
    keys_ok t /\ Forall plain (events t) /\
    Chain (councilPub t) (algo t) None (startPub t) (events t) (tpub t).

Inductive TStep : Timeline -> Timeline -> Prop :=
| append_step t typ payload ts t' h :
    typ <> EvRecovery -> typ <> EvKeyRotate ->
    Append t typ payload ts = Ret (t', h) -> TStep t t'
| rotate_step t newKey ts t' h :
    real_key newKey -> RotateKey t (Some newKey) ts = Ret (t', h) -> TStep t t'
| anchor_step t pub : TStep t (SetCouncilPub t pub).

Lemma newTimeline_writable priv a :
  real_key priv -> exists t, newTimeline (Some priv) a = Ret t /\ writable t /\ events t = [].
Proof.
  intros Hk. unfold newTimeline. rewrite Public_real by done. eexists. split; [done|].
  split; [|done]. exists priv. cbn. split_and!; try done; [apply pub_of_length|constructor].
Qed.

(** The event [append] adds. *)
Lemma append_ret t typ payload ts t' h :
  append t typ payload ts = Ret (t', h) ->
  exists sig priv, tkey t = Some priv /\ length priv = PrivateKeySize /\
    sig = ed_sign priv (canonical {| EType := typ; ETimestamp := ts; EPayload := payload;
                                     EParentHash := thead t; ESignature := None |}) /\
    let e := {| EType := typ; ETimestamp := ts; EPayload := payload;
                EParentHash := thead t; ESignature := Some sig |} in
    t' = with_events t (events t ++ [e]) /\ h = Hash e.
Proof.
  unfold append. destruct (tkey t) as [priv|]; [|done]. unfold ed25519_Sign. cbn [sb default from_option id].
  destruct (Nat.eqb_spec (length priv) PrivateKeySize); [|done]. cbn. intros [= <- <-]. eauto 10.
Qed.

Lemma append_some t priv typ payload ts :
  tkey t = Some priv -> length priv = PrivateKeySize ->
  exists t' h, append t typ payload ts = Ret (t', h).
Proof. intros Hk Hl. unfold append, ed25519_Sign. rewrite Hk. cbn. rewrite Hl. cbn. by do 2 eexists. Qed.

Lemma thead_linked t e : EParentHash e = thead t -> Linked (algo t) (prev_of None (events t)) e.
Proof. unfold thead, prev_of, eventDigest. destruct (last (events t)); cbn; intros ->; done. Qed.

Lemma signed_event priv typ payload ts par :
  real_key priv ->
  let e := {| EType := typ; ETimestamp := ts; EPayload := payload; EParentHash := par;
              ESignature := None |} in
  Signed (pub_of priv) {| EType := typ; ETimestamp := ts; EPayload := payload; EParentHash := par;
                          ESignature := Some (ed_sign priv (canonical e)) |}.
Proof. intros Hk e. unfold Signed. cbn [ESignature sb default from_option id]. by apply ed_sign_verify. Qed.

Lemma rot_roundtrip pub : rot_unmarshal (rot_marshal pub) = Some (Some pub).
Proof.
  unfold rot_unmarshal, rot_marshal. rewrite parse_print.
  - cbn. by rewrite coerce_b64, b64_decode_encode.
  - cbn. auto.
  - vm_compute. lia.
Qed.

Lemma append_writable t typ payload ts t' h :
  writable t -> typ <> EvRecovery -> typ <> EvKeyRotate ->
  append t typ payload ts = Ret (t', h) -> writable t'.
Proof.
  intros (priv & Hk & Hr & Hp & Hok & Hpl & Hc) Hn1 Hn2 E.
  apply append_ret in E as (sig & priv' & Hk' & Hl & -> & -> & _).
  rewrite Hk in Hk'. injection Hk' as <-. exists priv. cbn.
  split_and!; try done; [apply Forall_app; by split; [|constructor]|].
  eapply Chain_snoc; [exact Hc|]. apply accept_plain; try done.
  - by apply thead_linked.
  - rewrite Hp. by apply signed_event.
Qed.

Lemma RotateKey_ret t priv newKey ts :
  tkey t = Some priv -> length priv = PrivateKeySize -> real_key newKey ->
  exists t1 h, append t EvKeyRotate (Some (rot_marshal (pub_of newKey))) ts = Ret (t1, h) /\
    RotateKey t (Some newKey) ts =
      Ret ({| events := events t1; tkey := Some newKey; tpub := pub_of newKey; tstart := tstart t1;
              councilPub := councilPub t1;
              rotations := rotations t1 ++ [{| rat := zlen (events t1) - 1; rkey := tkey t1 |}];
              algo := algo t1 |}, h).
Proof.
  intros Hk Hl Hn. unfold RotateKey. rewrite Hk, Public_real by done. cbn [mbind outcome_bind].
  destruct (append_some t priv EvKeyRotate (Some (rot_marshal (pub_of newKey))) ts Hk Hl)
    as (t1 & h & E). rewrite E. cbn [mbind outcome_bind]. by exists t1, h.
Qed.

Lemma RotateKey_writable t newKey ts t' h :
  writable t -> real_key newKey -> tstart t <> None ->
  RotateKey t (Some newKey) ts = Ret (t', h) -> writable t'.
Proof.
  intros (priv & Hk & Hr & Hp & Hok & Hpl & Hc) Hn Hst E.
  destruct (RotateKey_ret t priv newKey ts Hk (real_key_length _ Hr) Hn) as (t1 & h1 & Ea & Er).
  rewrite E in Er. injection Er as -> ->.
  apply append_ret in Ea as (sig & priv' & Hk' & _ & -> & -> & _).
  rewrite Hk in Hk'. injection Hk' as <-. exists newKey. unfold keys_ok, startPub in *. cbn in *.
  destruct (tstart t) as [s|]; [|done].
  split_and!; try done; [apply Forall_app; by split; [|constructor]|].
  eapply Chain_snoc; [exact Hc|]. apply accept_rotate; try done.
  - by apply thead_linked.
  - rewrite Hp. by apply signed_event.
  - apply rot_roundtrip.
  - apply pub_of_length.
Qed.

(** Without recovery events the council's key does not matter. *)
Lemma Chain_council c c' a prev pub es pub' :
  Forall plain es -> Chain c a prev pub es pub' -> Chain c' a prev pub es pub'.
Proof.
  intros Hpl Hc. induction Hc as [|prev pub e pub1 es pub2 Ha Hc IH]; [constructor|].
  apply Forall_cons in Hpl as [Hp Hpl]. econstructor; [|by apply IH].
  destruct Ha as [Hk Hr Hn Hs|np Hk Hr Hs Hd Hln|? ? Hr ? ?];
    [by apply accept_plain|by apply accept_rotate|done].
Qed.

Lemma TStep_writable t t' : TStep t t' -> writable t /\ tstart t <> None -> writable t' /\ tstart t' <> None.
Proof.
  destruct 1 as [t typ payload ts t' h Hn1 Hn2 E|t newKey ts t' h Hn E|t pub]; intros [Hw Hs].
  - split; [by eapply append_writable|].
    by apply append_ret in E as (? & ? & _ & _ & _ & -> & _).
  - split; [by eapply RotateKey_writable|].
    destruct Hw as (priv & Hk & Hr & _).
    destruct (RotateKey_ret t priv newKey ts Hk (real_key_length _ Hr) Hn) as (t1 & h1 & Ea & Er).
    rewrite E in Er. injection Er as -> ->. by apply append_ret in Ea as (? & ? & _ & _ & _ & -> & _).
  - split; [|done]. destruct Hw as (priv & Hk & Hr & Hp & Hok & Hpl & Hc).
    exists priv. cbn. split_and!; try done. by eapply Chain_council.
Qed.

Lemma steps_writable t t' :
  rtc TStep t t' -> writable t -> tstart t <> None -> writable t' /\ tstart t' <> None.
Proof. induction 1 as [|t t1 t2 Hs _ IH]; intros Hw Hst; [done|]. destruct (TStep_writable _ _ Hs); auto. Qed.

Lemma writable_good t : writable t -> keys_ok t /\ good t.
Proof. intros (priv & _ & _ & _ & Hok & _ & Hc). split; [done|]. by eexists. Qed.


(** ** Forks *)

Lemma find_last_snoc es e h :
  find_last (es ++ [e]) h = if bytes_equal (Hash e) h then Some (length es) else find_last es h.
Proof.
  unfold find_last. rewrite length_app, seq_app. cbn [length seq Nat.add].
  rewrite zip_with_app by apply length_seq. rewrite foldl_app. reflexivity.
Qed.

Lemma find_last_some es h i :
  find_last es h = Some i -> exists e, es !! i = Some e /\ Hash e = h.
Proof.
  induction es as [|e es IH] using rev_ind; [done|]. rewrite find_last_snoc.
  destruct (bytes_equal (Hash e) h) eqn:E.
  - intros [= <-]. exists e. split; [by apply list_lookup_middle|by apply bytes_equal_true].
  - intros Hf. destruct (IH Hf) as (e' & He & ?). exists e'. split; [|done].
    by apply lookup_app_l_Some.
Qed.

Lemma find_last_none es h e : find_last es h = None -> e ∈ es -> Hash e <> h.
Proof.
  induction es as [|x es IH] using rev_ind; [by intros _ Hn%elem_of_nil|]. rewrite find_last_snoc.
  destruct (bytes_equal (Hash x) h) eqn:E; [done|]. intros Hf.
  intros [?|Hx%list_elem_of_singleton]%elem_of_app; [by apply IH|]. intros Hh. subst x.
  apply bytes_equal_true in Hh. congruence.
Qed.

Lemma find_last_unique es h i e :
  es !! i = Some e -> Hash e = h ->
  (forall j e', es !! j = Some e' -> Hash e' = h -> j = i) -> find_last es h = Some i.
Proof.
  intros Hi Hh Hu. destruct (find_last es h) as [j|] eqn:E.
  - apply find_last_some in E as (e' & Hj & He'). f_equal. by eapply Hu.
  - destruct (find_last_none es h e E); [by eapply list_elem_of_lookup_2|done].
Qed.

Definition quiet (e : TrustEvent) : Prop := EType e <> EvRecovery /\ EType e <> EvKeyRotate.

Lemma quiet_prefix es pub : Forall quiet es -> foldl (fun pub e => handoffKey e pub) pub es = pub.
Proof.
  induction 1 as [|e es [H1 H2] _ IH]; [done|]. cbn [foldl]. unfold handoffKey at 2.
  by rewrite !decide_False by done.
Qed.

Lemma quiet_chain c a prev pub es pub' : Forall quiet es -> Chain c a prev pub es pub' -> pub' = pub.
Proof.
  intros Hq Hc. induction Hc as [|prev pub e pub1 es pub2 Ha Hc IH]; [done|].
  apply Forall_cons in Hq as [[H1 H2] Hq]. rewrite (IH Hq). by destruct Ha.
Qed.

(** The key that signed the events up to the first rotation. *)
Definition first_key (t : Timeline) : slice :=
  match rotations t with [] => tkey t | r :: _ => rkey r end.
(** The index of the first rotation, the length of the chain without one. *)
Definition first_rotation (t : Timeline) : Z :=
  match rotations t with [] => zlen (events t) | r :: _ => rat r end.

(** The start key and the events before the first rotation belong together. *)
Definition origin (t : Timeline) : Prop :=
  (exists priv, first_key t = Some priv /\ real_key priv /\ startPub t = pub_of priv) /\
  0 <= first_rotation t <= zlen (events t) /\
  Forall quiet (take (Z.to_nat (first_rotation t)) (events t)).

Lemma take_snoc_le {A} n (l : list A) x : (n <= length l)%nat -> take n (l ++ [x]) = take n l.
Proof. intros Hn. rewrite take_app_le by done. done. Qed.

Lemma TStep_origin t t' :
  TStep t t' -> writable t -> tstart t <> None -> origin t -> origin t'.
Proof.
  intros Hs Hw Hst Ho.
  destruct Hs as [t typ payload ts t' h Hn1 Hn2 E|t newKey ts t' h Hn E|t pub].
  - apply append_ret in E as (sig & p & _ & _ & _ & -> & _). destruct Ho as (Hk & Hr & Hq).
    unfold origin, first_key, first_rotation, zlen, startPub in *. cbn.
    split; [exact Hk|]. rewrite length_app. cbn [length]. destruct (rotations t) as [|r rs].
    + split; [lia|]. rewrite !Nat2Z.id, firstn_all in *.
      rewrite take_ge by (rewrite length_app; cbn; lia). apply Forall_app.
      split; [done|]. by constructor.
    + split; [lia|]. by rewrite take_snoc_le by lia.
  - destruct Hw as (priv & Hk & Hr & Hp & _).
    destruct (RotateKey_ret t priv newKey ts Hk (real_key_length _ Hr) Hn) as (t1 & h1 & Ea & Er).
    rewrite E in Er. injection Er as -> ->.
    apply append_ret in Ea as (sig & p & _ & _ & _ & -> & _). destruct Ho as (Hk' & Hr' & Hq).
    unfold origin, first_key, first_rotation, zlen, startPub in *. cbn.
    destruct (tstart t) as [st|]; [|done]. rewrite length_app. cbn [length].
    destruct (rotations t) as [|r rs]; cbn [app].
    + split; [exact Hk'|]. cbn. split; [lia|].
      replace (Z.to_nat (Z.of_nat (length (events t) + 1) - 1)) with (length (events t)) by lia.
      rewrite Nat2Z.id, firstn_all in Hq. by rewrite take_app_length.
    + split; [exact Hk'|]. cbn. split; [lia|]. by rewrite take_snoc_le by lia.
  - done.
Qed.

Lemma reachable_origin t0 t :
  rtc TStep t0 t -> writable t0 -> tstart t0 <> None -> origin t0 -> origin t.
Proof.
  induction 1 as [|t t1 t2 Hs _ IH]; intros Hw Hst Ho; [done|].
  destruct (TStep_writable _ _ Hs) as [Hw1 Hst1]; [done|].
  apply IH; try done. by eapply TStep_origin.
Qed.

Lemma new_origin priv a t :
  real_key priv -> newTimeline (Some priv) a = Ret t -> writable t /\ tstart t <> None /\ origin t.
Proof.
  intros Hk E. destruct (newTimeline_writable priv a Hk) as (t' & E' & Hw & He).
  rewrite E in E'. injection E' as <-. split; [done|].
  unfold newTimeline in E. rewrite Public_real in E by done. injection E as <-.
  split; [done|]. unfold origin, first_rotation. cbn. split; [eauto|]. by split.
Qed.

Lemma Fork_writable priv a t0 t atHash idx :
  real_key priv -> newTimeline (Some priv) a = Ret t0 -> rtc TStep t0 t ->
  find_last (events t) atHash = Some idx -> Z.of_nat idx < first_rotation t ->
  exists f, Fork t atHash = Ret f /\ events f = take (S idx) (events t) /\ writable f /\
    tstart f <> None /\ startPub f = startPub t /\ councilPub f = councilPub t /\ algo f = algo t.
Proof.
  intros Hk E Hs Hf Hidx. destruct (new_origin _ _ _ Hk E) as (Hw0 & Hst0 & Ho0).
  destruct (steps_writable _ _ Hs Hw0 Hst0) as [Hw Hst].
  pose proof (reachable_origin _ _ Hs Hw0 Hst0 Ho0) as ((p & Hp & Hrp & Hsp) & Hr & Hq).
  unfold Fork. rewrite Hf. eexists. split; [done|]. split; [done|].
  set (f := {| events := _ |}).
  assert (Hqt : Forall quiet (take (S idx) (events t))).
  { replace (take (S idx) (events t)) with
      (take (S idx) (take (Z.to_nat (first_rotation t)) (events t)))
      by (rewrite take_take; f_equal; lia). by apply Forall_take. }
  assert (Hsf : startPub f = pub_of p).
  { unfold startPub, f. cbn [tstart]. unfold pubForPrefix. by rewrite quiet_prefix. }
  assert (writable f) as Hwf.
  { destruct Hw as (q & Hkq & Hrq & Hpq & Hok & Hpl & Hc). exists p.
    split_and!; [|done| |..].
    - unfold f. cbn [tkey]. rewrite <- Hp. unfold keyAt, first_key, first_rotation in *.
      destruct (rotations t) as [|r rs]; [done|]. cbn [keyAt_go].
      destruct (Z.geb_spec (rat r) (Z.of_nat idx)); [done|lia].
    - unfold f. cbn [tpub]. unfold pubForPrefix. by rewrite quiet_prefix.
    - unfold keys_ok. rewrite Hsf. apply pub_of_length.
    - unfold f. cbn [events]. by apply Forall_take.
    - rewrite Hsf. unfold f. cbn [events councilPub algo tpub].
      rewrite <- (take_drop (S idx) (events t)) in Hc. apply Chain_app in Hc as (pub1 & Hc & _).
      unfold pubForPrefix. rewrite quiet_prefix by done. rewrite Hsp in Hc.
      pose proof (quiet_chain _ _ _ _ _ _ Hqt Hc) as ->. by rewrite Hsp. }
  split; [done|]. split; [done|]. by rewrite Hsf, Hsp.
Qed.

Lemma Fork_ok priv a t0 t atHash idx :
  real_key priv -> newTimeline (Some priv) a = Ret t0 -> rtc TStep t0 t ->
  find_last (events t) atHash = Some idx -> Z.of_nat idx < first_rotation t ->
  exists f, Fork t atHash = Ret f /\ events f = take (S idx) (events t) /\
    forall f', rtc TStep f f' -> Verify f' = Ret true.
Proof.
  intros Hk E Hs Hf Hidx. destruct (Fork_writable priv a t0 t atHash idx) as (f & Ef & Hev & Hw & Hst & _); [done..|].
  exists f. split; [done|]. split; [done|]. intros f' Hf'.
  destruct (steps_writable _ _ Hf' Hw) as [Hwf' _]; [done|].
  destruct (writable_good _ Hwf') as [Hok Hg]. by apply Verify_good.
Qed.

(** Forking at a checkpoint before the first key rotation: the fork holds
    exactly the events up to the checkpoint, it verifies, and it continues
    under the key that was current there: whatever is appended, rotated or
    anchored on it later, it keeps verifying. *)
Theorem Fork_before_rotation priv a t0 t atHash idx :
  real_key priv -> newTimeline (Some priv) a = Ret t0 -> rtc TStep t0 t ->
  find_last (events t) atHash = Some idx -> Z.of_nat idx < first_rotation t ->
  exists f, Fork t atHash = Ret f /\ events f = take (S idx) (events t) /\
    forall f', rtc TStep f f' -> Verify f' = Ret true.
Proof. apply Fork_ok. Qed.

Lemma walk_bad_first council a prev pub i n e es :
  length pub = PublicKeySize -> EType e <> EvRecovery ->
  ed_verify pub (canonical e) (sb (ESignature e)) = false ->
  walk council a prev pub i (S n) (e :: es) = Ret i.
Proof.
  intros Hl Hr Hv. cbn [walk].
  destruct (stepVerify_spec council a prev e pub Hl) as (k & -> & Hk). cbn [mbind outcome_bind].
  destruct k as [p|]; [|done]. pose proof (proj1 (Hk p) eq_refl) as Ha.
  destruct Ha as [? ? ? Hs|? ? ? Hs|]; unfold Signed in *; congruence || done.
Qed.

Lemma pubForPrefix_rotation es e s newPub :
  EType e = EvKeyRotate -> EPayload e = Some (rot_marshal newPub) -> length newPub = PublicKeySize ->
  pubForPrefix (es ++ [e]) s (length es) = newPub.
Proof.
  intros Ht Hp Hl. unfold pubForPrefix. rewrite take_ge by (rewrite length_app; cbn; lia).
  rewrite foldl_snoc. unfold handoffKey at 1. rewrite decide_True by done. rewrite Hp.
  cbn [sb default from_option id]. rewrite rot_roundtrip. cbn [sb default from_option id].
  by rewrite Hl.
Qed.

(** Forking after a key rotation does not verify: on a timeline that
    verifies and then rotates its key, the fork at the rotation's own hash
    carries the whole chain but starts it under the NEW key, so that its first
    event, signed under the old one, is reported bad (unless that signature
    also verifies under the new key).  The comment on [RotateKey] says that
    such a fork verifies its full length. *)
Theorem Fork_after_rotation t newKey ts t' h e0 es :
  writable t -> tstart t <> None -> events t = e0 :: es -> real_key newKey ->
  ed_verify (pub_of newKey) (canonical e0) (sb (ESignature e0)) = false ->
  RotateKey t (Some newKey) ts = Ret (t', h) ->
  Verify t' = Ret true /\
  exists f, Fork t' h = Ret f /\ events f = events t' /\ LocateBadEvent f = Ret 0.
Proof.
  intros Hw Hst He Hn Hv E.
  pose proof (RotateKey_writable _ _ _ _ _ Hw Hn Hst E) as Hw'. split.
  { destruct (writable_good _ Hw') as [Hok Hg]. by apply Verify_good. }
  destruct Hw as (priv & Hk & Hr & Hp & Hok & Hpl & Hc).
  destruct (RotateKey_ret t priv newKey ts Hk (real_key_length _ Hr) Hn) as (t1 & h1 & Ea & Er).
  rewrite E in Er. injection Er as -> ->.
  apply append_ret in Ea as (sig & p & _ & _ & _ & -> & ->).
  unfold Fork. cbn [events with_events].
  rewrite find_last_snoc, bytes_equal_refl. eexists. split; [done|]. cbn [events].
  rewrite take_ge by (rewrite length_app; cbn; lia). split; [done|].
  unfold LocateBadEvent, walkVerify, startPub at 1. cbn [tstart events councilPub algo with_events].
  rewrite (pubForPrefix_rotation _ _ _ (pub_of newKey)) by auto using pub_of_length.
  rewrite He in *. cbn [app]. unfold zlen. cbn [length]. rewrite Nat2Z.id.
  apply Forall_cons in Hpl as [Hpl _]. apply walk_bad_first; [apply pub_of_length|exact Hpl|exact Hv].
Qed.

End theory.

(** ** Witnesses *)

Module TimelineWitness.

Definition k1 : bytes := Toy.key 1.
Definition k2 : bytes := Toy.key 2.

Definition get (r : outcome Timeline) (d : Timeline) : Timeline :=
  match r with Ret t => t | _ => d end.
Definition get1 (r : outcome (Timeline * bytes)) (d : Timeline) : Timeline :=
  match r with Ret (t, _) => t | _ => d end.
Definition empty : Timeline :=
  {| events := []; tkey := None; tpub := []; tstart := None; councilPub := None; rotations := [];
     algo := algoDual |}.

Definition issue : slice := Some (to_bytes "{cert}").
Definition t0 : Timeline := get (NewDualTimeline (Some k1)) empty.
Definition t1 : Timeline := get1 (Append t0 EvKeyGen None 5) empty.
Definition t2 : Timeline := get1 (Append t1 EvIssue issue 6) empty.
Definition t3 : Timeline := get1 (RotateKey t2 (Some k2) 7) empty.
Definition t4 : Timeline := get1 (Append t3 EvIssue issue 8) empty.

Definition hash_of (r : outcome (Timeline * bytes)) : bytes :=
  match r with Ret (_, h) => h | _ => [] end.
(** The hash of event 0 of all of them. *)
Definition h0 : bytes := hash_of (Append t0 EvKeyGen None 5).
Definition hrot : bytes := hash_of (RotateKey t2 (Some k2) 7).

(** The chain with the timestamp of event 1 changed. *)
Definition tampered : Timeline :=
  with_events t4 (alter (fun e => {| EType := EType e; ETimestamp := 60; EPayload := EPayload e;
    EParentHash := EParentHash e; ESignature := ESignature e |}) 1%nat (events t4)).

Lemma reach4 : rtc TStep t0 t4.
Proof.
  apply (rtc_l _ _ t1); [eapply (append_step t0 EvKeyGen None 5); [done..|vm_compute; reflexivity]|].
  apply (rtc_l _ _ t2); [eapply (append_step t1 EvIssue issue 6); [done..|vm_compute; reflexivity]|].
  apply (rtc_l _ _ t3).
  { eapply (rotate_step t2 k2 7); [apply Toy.real_toy_key|vm_compute; reflexivity]. }
  apply (rtc_l _ _ t4); [eapply (append_step t3 EvIssue issue 8); [done..|vm_compute; reflexivity]|].
  apply rtc_refl.
Qed.

Lemma writable2 : writable t2 /\ tstart t2 <> None.
Proof.
  destruct (newTimeline_writable k1 algoDual (Toy.real_toy_key 1)) as (t & E & Hw & _).
  assert (t = t0) as -> by (change t0 with (get (newTimeline (Some k1) algoDual) empty); by rewrite E).
  apply (steps_writable t0); [|done|by vm_compute].
  apply (rtc_l _ _ t1); [eapply (append_step t0 EvKeyGen None 5); [done..|vm_compute; reflexivity]|].
  apply (rtc_l _ _ t2); [eapply (append_step t1 EvIssue issue 6); [done..|vm_compute; reflexivity]|].
  apply rtc_refl.
Qed.

Lemma good4 : exists p, Chain None algoDual None (pub_of k1) (events t4) p.
Proof. apply (Verify_good t4); vm_compute; reflexivity. Qed.

End TimelineWitness.

Lemma LocateBadEvent_first_bad_witness :
  (LocateBadEvent TimelineWitness.tampered = Ret (-1) /\ good TimelineWitness.tampered) \/
  (exists k, (k < length (events TimelineWitness.tampered))%nat /\
     LocateBadEvent TimelineWitness.tampered = Ret (Z.of_nat k) /\
     BadAt (councilPub TimelineWitness.tampered) (algo TimelineWitness.tampered) None
       (startPub TimelineWitness.tampered) (events TimelineWitness.tampered) k).
Proof. apply (LocateBadEvent_first_bad TimelineWitness.tampered). vm_compute. reflexivity. Defined.

Lemma Verify_prefixes_witness : VerifyPrefix TimelineWitness.t4 2 = Ret true.
Proof. apply (Verify_prefixes TimelineWitness.t4 2); vm_compute; reflexivity. Defined.

Lemma chain_commits_witness :
  events TimelineWitness.t4 = events TimelineWitness.t4.
Proof.
  destruct TimelineWitness.good4 as [p Hp].
  apply (chain_commits algoDual None None (pub_of TimelineWitness.k1) (pub_of TimelineWitness.k1)
    (events TimelineWitness.t4) (events TimelineWitness.t4)
    (List.last (events TimelineWitness.t4) {| EType := ""; ETimestamp := 0; EPayload := None;
       EParentHash := None; ESignature := None |})
    (List.last (events TimelineWitness.t4) {| EType := ""; ETimestamp := 0; EPayload := None;
       EParentHash := None; ESignature := None |}) p p).
  1-2: repeat constructor; vm_compute; first [reflexivity|discriminate].
  - right. apply collision_free_b_spec. vm_compute. reflexivity.
  - exact Hp.
  - exact Hp.
  - vm_compute. reflexivity.
  - vm_compute. reflexivity.
  - reflexivity.
Defined.


Lemma Fork_before_rotation_witness :
  exists f, Fork TimelineWitness.t4 TimelineWitness.h0 = Ret f /\
    events f = take 1 (events TimelineWitness.t4) /\
    forall f', rtc TStep f f' -> Verify f' = Ret true.
Proof.
  apply (Fork_before_rotation TimelineWitness.k1 algoDual TimelineWitness.t0 TimelineWitness.t4
    TimelineWitness.h0 0);
    [apply Toy.real_toy_key|vm_compute; reflexivity|apply TimelineWitness.reach4
    |vm_compute; reflexivity|vm_compute; reflexivity].
Defined.

Lemma Fork_after_rotation_witness :
  Verify TimelineWitness.t3 = Ret true /\
  exists f, Fork TimelineWitness.t3 TimelineWitness.hrot = Ret f /\
    events f = events TimelineWitness.t3 /\ LocateBadEvent f = Ret 0.
Proof.
  apply (Fork_after_rotation TimelineWitness.t2 TimelineWitness.k2 7 _ _
    (List.hd {| EType := ""; ETimestamp := 0; EPayload := None; EParentHash := None;
                ESignature := None |} (events TimelineWitness.t2))
    (tail (events TimelineWitness.t2)));
    [apply TimelineWitness.writable2|apply TimelineWitness.writable2|vm_compute; reflexivity
    |apply Toy.real_toy_key|vm_compute; reflexivity|vm_compute; reflexivity].
Defined.
