(* ===== verification/TimelineFile.v ===== *)
(** * The JSON form of a timeline: [timeline.go], [Marshal] and [UnmarshalTimeline]

    [timelineFile] is the on-disk struct.  An empty list of events prints as
    [null], the form of a timeline that never held an event.  Theorems: a
    marshalled timeline is read back; whatever bytes are parsed, verifying the
    result answers and never panics; and the one key that slips through. *)
From S2P Require Import Prelude Crypto Encoding Json Timeline TimelineTheory.

Record timelineFile := {
  fEvents : list TrustEvent;
  fPub : slice;
  fStartPub : slice;
  fCouncilPub : slice;
  fKey : slice;
  fHashAlgo : string;
}.

Definition event_zero : TrustEvent :=
  {| EType := ""; ETimestamp := 0; EPayload := None; EParentHash := None; ESignature := None |}.
Definition event_names : list string :=
  ["Type"; "Timestamp"; "Payload"; "ParentHash"; "Signature"]%string.
Definition event_set (n : string) (v : json) (e : TrustEvent) : option TrustEvent :=
  let '{| EType := ty; ETimestamp := ts; EPayload := pl; EParentHash := ph; ESignature := sg |} := e in
  let mk ty ts pl ph sg :=
    Some {| EType := ty; ETimestamp := ts; EPayload := pl; EParentHash := ph; ESignature := sg |} in
  if decide (n = "Type"%string) then ty ← decode_string ty v; mk ty ts pl ph sg
  else if decide (n = "Timestamp"%string) then ts ← decode_int64 ts v; mk ty ts pl ph sg
  else if decide (n = "Payload"%string) then pl ← decode_bytes v; mk ty ts pl ph sg
  else if decide (n = "ParentHash"%string) then ph ← decode_bytes v; mk ty ts pl ph sg
  else sg ← decode_bytes v; mk ty ts pl ph sg.
Definition decode_event (v : json) : option TrustEvent :=
  decode_struct event_names event_set event_zero v.

Definition file_zero : timelineFile :=
  {| fEvents := []; fPub := None; fStartPub := None; fCouncilPub := None; fKey := None;
     fHashAlgo := "" |}.
Definition file_names : list string :=
  ["events"; "public_key"; "start_pub"; "council_pub"; "key"; "hash_algo"]%string.
Definition file_set (n : string) (v : json) (f : timelineFile) : option timelineFile :=
  let '{| fEvents := es; fPub := p; fStartPub := s; fCouncilPub := c; fKey := k; fHashAlgo := h |} := f in
  let mk es p s c k h :=
    Some {| fEvents := es; fPub := p; fStartPub := s; fCouncilPub := c; fKey := k; fHashAlgo := h |} in
  if decide (n = "events"%string) then es ← decode_list decode_event v; mk es p s c k h
  else if decide (n = "public_key"%string) then p ← decode_bytes v; mk es p s c k h
  else if decide (n = "start_pub"%string) then s ← decode_bytes v; mk es p s c k h
  else if decide (n = "council_pub"%string) then c ← decode_bytes v; mk es p s c k h
  else if decide (n = "key"%string) then k ← decode_bytes v; mk es p s c k h
  else h ← decode_string h v; mk es p s c k h.

(** [,omitempty] on a [[]byte] and on a string. *)
Definition omit_bytes (n : string) (s : slice) : list (bytes * json) :=
  if (length (sb s) =? 0)%nat then [] else [jfield n (jslice s)].
Definition omit_string (n s : string) : list (bytes * json) :=
  if decide (s = ""%string) then [] else [jfield n (jstring s)].

Definition events_json (es : list TrustEvent) : json :=
  match es with [] => JNull | _ => JArr (map event_json es) end.

Definition file_json (f : timelineFile) : json :=
  JObj ([jfield "events" (events_json (fEvents f));
         jfield "public_key" (jslice (fPub f))] ++
        omit_bytes "start_pub" (fStartPub f) ++ omit_bytes "council_pub" (fCouncilPub f) ++
        omit_bytes "key" (fKey f) ++ omit_string "hash_algo" (fHashAlgo f)).

Section file.
Context `{Hashes} `{Ed25519}.

Definition to_file (t : Timeline) (includeKey : bool) : timelineFile :=
  {| fEvents := events t; fPub := Some (tpub t); fStartPub := tstart t; fCouncilPub := councilPub t;
     fKey := if includeKey then tkey t else None; fHashAlgo := algoNames (algo t) |}.

Definition Marshal (t : Timeline) (includeKey : bool) : bytes :=
  print (file_json (to_file t includeKey)).

Definition key_len_bad (s : slice) (n : nat) : bool :=
  negb (length (sb s) =? 0)%nat && negb (length (sb s) =? n)%nat.

Definition of_file (f : timelineFile) : outcome Timeline :=
  guard (negb (length (sb (fPub f)) =? PublicKeySize)%nat)
    "timeline: bad public key length %d" (
  guard (key_len_bad (fStartPub f) PublicKeySize)
    "timeline: bad start public key length %d" (
  guard (key_len_bad (fKey f) PrivateKeySize)
    "timeline: bad private key length %d" (
  guard (key_len_bad (fCouncilPub f) PublicKeySize)
    "timeline: bad council pub length %d" (
  let start := if (length (sb (fStartPub f)) =? PublicKeySize)%nat then fStartPub f else fPub f in
  let council := if (length (sb (fCouncilPub f)) =? PublicKeySize)%nat then fCouncilPub f else None in
  match algoCodes (fHashAlgo f) with
  | None => Err "timeline: unknown hash_algo %q"
  | Some a =>
      Ret {| events := fEvents f; tkey := fKey f; tpub := sb (fPub f); tstart := start;
             councilPub := council; rotations := []; algo := a |}
  end)))).

Definition UnmarshalTimeline (b : bytes) : outcome Timeline :=
  match v ← parse b; decode_struct file_names file_set file_zero v with
  | None => Err "json"
  | Some f => of_file f
  end.

(** ** Round trip *)

Lemma decode_event_json e : event_ok e -> decode_event (event_json e) = Some e.
Proof.
  intros [Hs Ht]. unfold decode_event, event_json, event_zero. rewrite decode_struct_obj.
  struct_step event_set.
  struct_step event_set. struct_step event_set. struct_step event_set. struct_step event_set.
  by destruct e.
Qed.

Lemma decode_events_json es :
  Forall event_ok es -> decode_list decode_event (JArr (map event_json es)) = Some es.
Proof.
  intros He. cbn [decode_list]. induction He as [|e es He _ IH]; [done|].
  cbn [map mapM]. by rewrite decode_event_json, IH.
Qed.

(** What the file holds of a timeline it can carry. *)
Definition sized (s : slice) (n : nat) : Prop :=
  match s with None => True | Some b => length b = n end.
Definition storable (t : Timeline) : Prop :=
  length (tpub t) = PublicKeySize /\ sized (tstart t) PublicKeySize /\
  sized (councilPub t) PublicKeySize /\ sized (tkey t) PrivateKeySize /\
  Forall event_ok (events t).

(** The members of the file, as lists of fields present. *)
Definition opt_member (n : string) (s : slice) : list (bytes * json) :=
  match s with None => [] | Some _ => [jfield n (jslice s)] end.

Lemma omit_sized n s k : sized s (S k) -> omit_bytes n s = opt_member n s.
Proof. unfold omit_bytes, sized. destruct s as [b|]; [|done]. cbn. by intros ->. Qed.

Lemma depth_events es : (list_max (map depth (map event_json es)) <= 1)%nat.
Proof.
  induction es as [|e es IH]; [cbn; lia|]. cbn [map].
  change (list_max (?x :: ?l)) with (Nat.max x (list_max l)).
  assert (depth (event_json e) = 1)%nat as ->; [|lia].
  destruct e as [ty ts p h s]; by destruct p, h, s.
Qed.

Lemma events_json_ok es :
  Forall event_ok es ->
  wf (events_json es) /\ norm (events_json es) = events_json es /\
  (depth (events_json es) <= 2)%nat /\ decode_list decode_event (events_json es) = Some es.
Proof.
  intros He. destruct es as [|e es]; [split_and!; [done|done|cbn; lia|done]|].
  unfold events_json. set (l := e :: es) in *. split_and!.
  - cbn [wf]. apply all_of_Forall, Forall_map, Forall_true. intros x. apply event_json_wf.
  - cbn [norm]. f_equal. rewrite map_map. clear -He.
    induction He as [|x l Hx _ IH]; [done|]. cbn [map]. by rewrite event_json_norm, IH.
  - cbn [depth]. pose proof (depth_events l). lia.
  - by apply decode_events_json.
Qed.

Definition member_good (kv : bytes * json) : Prop :=
  (exists n, kv.1 = to_bytes n /\ forallb (fun b => byte_Z b <? 128) (to_bytes n) = true) /\
  wf kv.2 /\ norm kv.2 = kv.2 /\ (depth kv.2 <= 2)%nat.

Lemma member_ok n v :
  forallb (fun b => byte_Z b <? 128) (to_bytes n) = true ->
  wf v -> norm v = v -> (depth v <= 2)%nat -> member_good (jfield n v).
Proof. intros Hn Hw Hv Hd. split_and!; [|done..]. by exists n. Qed.

Lemma jslice_ok n s :
  forallb (fun b => byte_Z b <? 128) (to_bytes n) = true -> member_good (jfield n (jslice s)).
Proof.
  intros Hn. apply member_ok; [done|apply wf_jslice|apply norm_jslice|]. destruct s; cbn; lia.
Qed.

Lemma opt_member_ok n s :
  forallb (fun b => byte_Z b <? 128) (to_bytes n) = true -> Forall member_good (opt_member n s).
Proof. intros Hn. destruct s; [|constructor]. constructor; [by apply jslice_ok|constructor]. Qed.

Lemma members_ok l : Forall member_good l -> parse (print (JObj l)) = Some (JObj l).
Proof.
  intros HF. rewrite parse_print.
  - f_equal. cbn [norm]. f_equal. induction HF as [|[k v] l ((n & Hk & Hn) & _ & Hv & _) _ IH]; [done|].
    cbn [map fst snd] in *. by rewrite Hk, coerce_ascii, Hv, IH by done.
  - cbn [wf]. apply all_of_Forall. eapply Forall_impl; [exact HF|]. intros x Hx. apply Hx.
  - cbn [depth]. assert (list_max (map (fun kv => depth kv.2) l) <= 2)%nat.
    { induction HF as [|kv l (_ & _ & _ & Hd) _ IH]; [cbn; lia|]. cbn [map].
      change (list_max (?x :: ?l)) with (Nat.max x (list_max l)). lia. }
    pose proof nesting_room. lia.
Qed.

(** The members the file of a timeline has. *)
Definition file_members (t : Timeline) (includeKey : bool) : list (bytes * json) :=
  [jfield "events" (events_json (events t)); jfield "public_key" (jslice (Some (tpub t)))] ++
  opt_member "start_pub" (tstart t) ++ opt_member "council_pub" (councilPub t) ++
  opt_member "key" (if includeKey then tkey t else None) ++ omit_string "hash_algo" (algoNames (algo t)).

Lemma file_members_ok t includeKey : storable t ->
  file_json (to_file t includeKey) = JObj (file_members t includeKey) /\ Forall member_good (file_members t includeKey).
Proof.
  intros (Hp & Hs & Hc & Hk & He). destruct (events_json_ok _ He) as (Hw & Hn & Hd & _).
  assert (Hk' : sized (if includeKey then tkey t else None) PrivateKeySize) by (by destruct includeKey).
  split.
  - unfold file_json, to_file, file_members. cbn [fEvents fPub fStartPub fCouncilPub fKey fHashAlgo].
    rewrite (omit_sized _ _ 31), (omit_sized _ _ 31), (omit_sized _ _ 63) by done. reflexivity.
  - unfold file_members. repeat (apply Forall_app; split); repeat apply Forall_cons_2; try apply Forall_nil_2.
    + by apply member_ok.
    + by apply jslice_ok.
    + by apply opt_member_ok.
    + by apply opt_member_ok.
    + by apply opt_member_ok.
    + destruct (algo t); [apply Forall_nil_2|]. apply Forall_cons_2; [|apply Forall_nil_2].
      apply (member_ok "hash_algo" (jstring "dual")); [done|exact I|done|cbn; lia].
Qed.

(** A timeline written to a file is the timeline read back: its events,
    keys, council anchor and hash algorithm, with the signing key exactly when
    it was included; the retired keys of earlier rotations are not kept. *)
Theorem Unmarshal_Marshal t includeKey :
  storable t ->
  UnmarshalTimeline (Marshal t includeKey) =
    Ret {| events := events t; tkey := if includeKey then tkey t else None; tpub := tpub t;
           tstart := Some (startPub t); councilPub := councilPub t; rotations := [];
           algo := algo t |}.
Proof.
  intros Hst. destruct (file_members_ok t includeKey Hst) as [Hl Hgood].
  unfold UnmarshalTimeline, Marshal. rewrite Hl, members_ok by done. clear Hl Hgood. unfold file_members.
  destruct t as [es key pub st co rot al]. unfold storable, startPub in *. cbn [tpub tstart councilPub tkey events algo] in *.
  destruct Hst as (Hp & Hs & Hc & Hk & He). destruct (events_json_ok es He) as (_ & _ & _ & Hdec).
  set (k := if includeKey then key else None).
  assert (Hk' : sized k PrivateKeySize) by (unfold k; by destruct includeKey).
  cbn [mbind option_bind]. rewrite decode_struct_obj. unfold file_zero.
  cbn [app].
  struct_step_with file_set ltac:(rewrite Hdec). struct_step file_set.
  destruct st as [st|], co as [co|], k as [k|], al; cbn [opt_member app algoNames];
    change (omit_string "hash_algo" "") with ([] : list (bytes * json));
    change (omit_string "hash_algo" "dual") with [jfield "hash_algo" (jstring "dual")];
    repeat struct_step file_set; cbn [foldl]; unfold of_file, guard, key_len_bad; cbn in Hp, Hs, Hc, Hk' |- *;
    rewrite ?Hp, ?Hs, ?Hc, ?Hk'; reflexivity.
Qed.

(** ** Crafted files *)

Lemma of_file_keys f t : of_file f = Ret t -> keys_ok t /\ length (tpub t) = PublicKeySize.
Proof.
  unfold of_file. intros E. inv_outcome.
  match goal with H : negb (_ =? _)%nat = false |- _ => rename H into Hp end.
  apply negb_false_iff, Nat.eqb_eq in Hp. destruct (algoCodes _); [|done]. injection E as <-.
  split; [|exact Hp]. unfold keys_ok, startPub. cbn [tstart tpub].
  destruct (Nat.eqb_spec (length (sb (fStartPub f))) PublicKeySize) as [Hs|Hs].
  - by destruct (fStartPub f).
  - by destruct (fPub f).
Qed.

(** A crafted file cannot crash the verifier: parsing any bytes returns a
    timeline or an error, and on a timeline that was parsed [LocateBadEvent],
    [Verify] and every [VerifyPrefix] answer, whatever keys, payloads and
    handoffs the file holds. *)
Theorem Unmarshal_verifier_safe b :
  UnmarshalTimeline b <> Panic /\
  forall t, UnmarshalTimeline b = Ret t ->
    (exists i, LocateBadEvent t = Ret i) /\ (exists v, Verify t = Ret v) /\
    forall n, exists v, VerifyPrefix t n = Ret v.
Proof.
  unfold UnmarshalTimeline. destruct (parse b ≫= _) as [f|]; [|done]. split.
  - unfold of_file, guard. repeat case_if; try done; by destruct (algoCodes _).
  - intros t [Hk _]%of_file_keys. split_and!.
    + destruct (LocateBadEvent_total t Hk) as [i ->]. by eexists.
    + by apply Verify_total.
    + intros n. by apply VerifyPrefix_total.
Qed.

(** The file [{"public_key": <32 zero bytes>, "key": ""}]. *)
Definition empty_key_file : bytes :=
  print (JObj [jfield "public_key" (jslice (Some (replicate 32 Byte.x00))); jfield "key" (JStr [])]).

(** The key check lets the empty key through: there is a file that parses
    into a timeline which is not read-only and whose every [Append] panics in
    [ed25519.Sign], although the comment on [UnmarshalTimeline] says that a
    crafted file must fail cleanly. *)
Theorem Unmarshal_empty_key :
  exists t, UnmarshalTimeline empty_key_file = Ret t /\
    forall typ payload ts, Append t typ payload ts = Panic.
Proof.
  exists {| events := []; tkey := Some []; tpub := replicate 32 Byte.x00;
            tstart := Some (replicate 32 Byte.x00); councilPub := None; rotations := [];
            algo := algoSHA256 |}.
  split; [vm_compute; reflexivity|]. intros typ payload ts. unfold Append, append. cbn [tkey].
  unfold ed25519_Sign. reflexivity.
Qed.

End file.

(** ** Witnesses *)

Lemma Unmarshal_Marshal_witness :
  UnmarshalTimeline (Marshal TimelineWitness.t4 true) =
    Ret {| events := events TimelineWitness.t4; tkey := tkey TimelineWitness.t4;
           tpub := tpub TimelineWitness.t4; tstart := Some (startPub TimelineWitness.t4);
           councilPub := None; rotations := []; algo := algoDual |}.
Proof.
  apply (Unmarshal_Marshal TimelineWitness.t4 true).
  split_and!; [vm_compute; reflexivity..|].
  repeat constructor; vm_compute; first [reflexivity|discriminate].
Defined.
