(* ===== verification/Graph.v ===== *)
(** * The security graph: [graph.go]

    Edges are the source's map of maps.  [Reachable] is the breadth-first loop
    on ([seen], [queue]); Go ranges over a map in an order it does not say, so
    the loop takes that order as an argument: [order n l] is the order in which
    the [n]-th range visits the keys [l].  The result is the set of keys of
    [seen].  Theorem [Reachable_closure]: for every order, the loop ends and the
    result is the reflexive transitive closure of the edges. *)
From S2P Require Import Prelude.

Record SecurityGraph := { edges : gmap string (gmap string string) }.

Definition NewSecurityGraph : SecurityGraph := {| edges := ∅ |}.

(** The keys of [g.edges[src]]; reading a missing key gives the nil map. *)
Definition out_edges (g : SecurityGraph) (src : string) : gmap string string :=
  default ∅ (edges g !! src).

Definition AddEdge (g : SecurityGraph) (src dst via : string) : SecurityGraph :=
  {| edges := <[src := <[dst := via]> (out_edges g src)]> (edges g) |}.

Definition range_order : Type := nat -> list string -> list string.
Definition valid_order (order : range_order) : Prop := forall n l, order n l ≡ₚ l.

(** The body of the inner loop. *)
Definition visit (st : gset string * list string) (dst : string) : gset string * list string :=
  let '(seen, queue) := st in
  if decide (dst ∈ seen) then (seen, queue) else ({[dst]} ∪ seen, queue ++ [dst]).

(** The outer loop; [None] when the fuel runs out. *)
Fixpoint bfs (order : range_order) (g : SecurityGraph) (fuel : nat)
    (seen : gset string) (queue : list string) : option (gset string) :=
  match queue with
  | [] => Some seen
  | cur :: queue =>
      match fuel with
      | O => None
      | S fuel =>
          let '(seen, queue) :=
            foldl visit (seen, queue) (order fuel (map fst (map_to_list (out_edges g cur)))) in
          bfs order g fuel seen queue
      end
  end.

(** All the targets of edges. *)
Definition targets (g : SecurityGraph) : gset string :=
  ⋃ (map (fun kv => dom kv.2) (map_to_list (edges g))).

(** The fuel is the number of nodes the queue can ever hold. *)
Definition Reachable (order : range_order) (g : SecurityGraph) (from : string) : option (gset string) :=
  bfs order g (S (size (targets g))) {[from]} [from].

Definition edge (g : SecurityGraph) (a b : string) : Prop := is_Some (out_edges g a !! b).

(** ** The closure *)

Lemma edge_keys g a b : b ∈ map fst (map_to_list (out_edges g a)) <-> edge g a b.
Proof.
  unfold edge. split.
  - intros ([k v] & -> & Hkv)%list_elem_of_fmap. apply elem_of_map_to_list in Hkv. by eexists.
  - intros [v Hv]. apply list_elem_of_fmap. exists (b, v). split; [done|]. by apply elem_of_map_to_list.
Qed.

Lemma edge_target g a b : edge g a b -> b ∈ targets g.
Proof.
  unfold edge, out_edges. intros [v Hv]. destruct (edges g !! a) as [m|] eqn:Em; [|done].
  apply elem_of_union_list. exists (dom m). split.
  - apply list_elem_of_fmap. exists (a, m). split; [done|]. by apply elem_of_map_to_list.
  - by apply elem_of_dom_2 in Hv.
Qed.

Lemma visit_seen l : forall seen queue seen' queue',
  foldl visit (seen, queue) l = (seen', queue') ->
  seen' = list_to_set l ∪ seen /\ exists new, queue' = queue ++ new /\
    (forall x, x ∈ new -> x ∈ l) /\
    (forall x, x ∈ l -> x ∈ seen \/ x ∈ new).
Proof.
  induction l as [|d l IH]; intros seen queue seen' queue'; cbn [foldl].
  { intros [= <- <-]. split; [set_solver|]. exists []. rewrite app_nil_r. set_solver. }
  cbn [visit]. destruct (decide (d ∈ seen)) as [Hd|Hd]; intros E;
    destruct (IH _ _ _ _ E) as (-> & new & -> & H1 & H2).
  - split; [set_solver|]. exists new. set_solver.
  - split; [set_solver|]. exists (d :: new). rewrite <- app_assoc. split; [done|]. set_solver.
Qed.

(** Every push of the inner loop takes a node off the unseen targets. *)
Lemma visit_measure (T : gset string) l : forall seen queue seen' queue',
  (forall x, x ∈ l -> x ∈ T) ->
  foldl visit (seen, queue) l = (seen', queue') ->
  (size (T ∖ seen') + length queue' = size (T ∖ seen) + length queue)%nat.
Proof.
  induction l as [|d l IH]; intros seen queue seen' queue' Hl; cbn [foldl].
  { by intros [= <- <-]. }
  cbn [visit]. destruct (decide (d ∈ seen)) as [Hd|Hd]; intros E; apply IH in E; [done|set_solver|..].
  2: set_solver.
  rewrite E, length_app. cbn [length].
  assert (Hs : size (T ∖ seen) = S (size (T ∖ ({[d]} ∪ seen)))).
  { assert (d ∈ T) by set_solver.
    replace (T ∖ seen) with ({[d]} ∪ T ∖ ({[d]} ∪ seen)).
    - rewrite size_union by set_solver. by rewrite size_singleton.
    - apply set_eq. intros x. destruct (decide (x = d)); set_solver. }
  lia.
Qed.

Definition bfs_inv (g : SecurityGraph) (from : string) (seen : gset string) (queue : list string) : Prop :=
  from ∈ seen /\ (forall x, x ∈ queue -> x ∈ seen) /\
  (forall x, x ∈ seen -> rtc (edge g) from x) /\
  (forall x, x ∈ seen -> x ∈ queue \/ forall y, edge g x y -> y ∈ seen).

Lemma bfs_closure order g from : valid_order order -> forall fuel seen queue,
  bfs_inv g from seen queue ->
  (size (targets g ∖ seen) + length queue <= fuel)%nat ->
  exists S, bfs order g fuel seen queue = Some S /\ forall x, x ∈ S <-> rtc (edge g) from x.
Proof.
  intros Ho. induction fuel as [|fuel IH]; intros seen [|cur queue] (Hf & Hq & Hr & Hc) Hfuel;
    cbn [length] in Hfuel; [| lia | |].
  1,2: exists seen; split; [done|]; intros x; split; [by apply Hr|];
    revert x; apply rtc_ind_r; [done|]; intros y z _ Hyz Hy;
    destruct (Hc _ Hy) as [Hn|Hn]; [by apply elem_of_nil in Hn|by apply Hn].
  cbn [bfs]. destruct (foldl visit _ _) as [seen' queue'] eqn:E.
  set (l := order fuel _) in *.
  assert (Hl : forall x, x ∈ l <-> edge g cur x).
  { intros x. unfold l. rewrite (Ho fuel _). apply edge_keys. }
  pose proof (visit_measure (targets g) l _ _ _ _ (fun x Hx => edge_target _ _ _ (proj1 (Hl x) Hx)) E) as Hm.
  destruct (visit_seen _ _ _ _ _ E) as (-> & new & -> & Hn1 & Hn2).
  apply IH; [|lia]. split_and!.
  - set_solver.
  - set_solver.
  - intros x [Hx|Hx]%elem_of_union; [|by apply Hr].
    apply elem_of_list_to_set, Hl in Hx. eapply rtc_r; [|exact Hx]. apply Hr, Hq. set_solver.
  - intros x [Hx|Hx]%elem_of_union.
    + apply elem_of_list_to_set in Hx. destruct (Hn2 _ Hx) as [Hs|Hs]; [|set_solver].
      destruct (Hc _ Hs) as [Hin|Hall]; [|set_solver].
      apply elem_of_cons in Hin as [->|Hin]; [|set_solver].
      right. intros y Hy. apply Hl in Hy. set_solver.
    + destruct (Hc _ Hx) as [Hin|Hall]; [|set_solver].
      apply elem_of_cons in Hin as [->|Hin]; [|set_solver].
      right. intros y Hy. apply Hl in Hy. set_solver.
Qed.

Lemma Reachable_total order g from :
  valid_order order ->
  exists S, Reachable order g from = Some S /\ forall x, x ∈ S <-> rtc (edge g) from x.
Proof.
  intros Ho. apply (bfs_closure order g from Ho).
  - split_and!; [set_solver|set_solver| |].
    + intros x ->%elem_of_singleton. apply rtc_refl.
    + intros x ->%elem_of_singleton. left. set_solver.
  - cbn [length]. assert (size (targets g ∖ {[from]}) <= size (targets g))%nat; [|lia].
    apply subseteq_size. set_solver.
Qed.

(** C19.  Reachability is exact and always answers: for every order in which the
    maps are ranged over, the breadth-first loop ends, and its result holds
    exactly the nodes a path of edges leads to from the start, the start
    included. *)
Theorem Reachable_closure order g from :
  valid_order order ->
  exists S, Reachable order g from = Some S /\ forall x, x ∈ S <-> rtc (edge g) from x.
Proof. apply Reachable_total. Qed.

Lemma AddEdge_edge g s d v a b :
  edge (AddEdge g s d v) a b <-> edge g a b \/ (a = s /\ b = d).
Proof.
  unfold edge, AddEdge, out_edges. cbn [edges]. destruct (decide (a = s)) as [->|Ha].
  - rewrite lookup_insert_eq. cbn [default from_option id]. destruct (decide (b = d)) as [->|Hb].
    + rewrite lookup_insert_eq. split; [auto|]. intros _. by eexists.
    + rewrite lookup_insert_ne by done. naive_solver.
  - rewrite lookup_insert_ne by done. naive_solver.
Qed.

Lemma New_edge a b : ~ edge NewSecurityGraph a b.
Proof. unfold edge, out_edges. cbn. rewrite lookup_empty. cbn. rewrite lookup_empty. by intros [? [=]]. Qed.

(** ** Witness *)

Module GraphWitness.
Definition g : SecurityGraph :=
  AddEdge (AddEdge (AddEdge NewSecurityGraph "a" "b" "x") "b" "c" "y") "d" "a" "z".
End GraphWitness.

Lemma Reachable_closure_witness :
  exists S, Reachable (fun _ => @rev string) GraphWitness.g "a" = Some S /\
    forall x, x ∈ S <-> rtc (edge GraphWitness.g) "a"%string x.
Proof.
  apply (Reachable_closure (fun _ => @rev string) GraphWitness.g "a").
  intros n l. apply Permutation_sym, Permutation_rev.
Defined.
