(* ===== verification/TrustState.v ===== *)
(** * Derived trust state, rollback and consumers:
      [timeline.go] ([Fold]), [graph.go] ([BuildGraph]), [rollback.go], [consumer.go]

    [Fold] is a fold of the events over the map of certificates; the payloads
    are decoded with Json.v.  Rollback is a fork, and its blast radius is the
    set of certificates reachable from those the rolled-back events name.

    Theorems: a certificate is revoked exactly when it was issued and revoked
    later, and stays so; the invalidation set is the via-closure of the bad
    window; a rollback never changes a certificate outside that set; a
    consumer that applies the difference holds the new state. *)
From S2P Require Import Prelude Crypto Encoding Json Timeline TimelineTheory Graph.

(** ** The fold *)

Record Cert := { Identity : string; Revoked : bool }.

#[global] Instance cert_eq_dec : EqDecision Cert.
Proof. solve_decision. Defined.

Record State := { Certs : gmap string Cert }.

Record issuePayload := { pCertID : string; pIdentity : string; pVia : string }.

Definition issue_set (n : string) (v : json) (p : issuePayload) : option issuePayload :=
  let '{| pCertID := c; pIdentity := i; pVia := w |} := p in
  let mk c i w := Some {| pCertID := c; pIdentity := i; pVia := w |} in
  if decide (n = "cert_id"%string) then c ← decode_string c v; mk c i w
  else if decide (n = "identity"%string) then i ← decode_string i v; mk c i w
  else w ← decode_string w v; mk c i w.
Definition issue_unmarshal (b : bytes) : option issuePayload :=
  v ← parse b;
  decode_struct ["cert_id"; "identity"; "via"]%string issue_set
    {| pCertID := ""; pIdentity := ""; pVia := "" |} v.

(** The anonymous struct of a revocation. *)
Definition revoke_unmarshal (b : bytes) : option string :=
  v ← parse b; decode_struct ["cert_id"%string] (fun _ v c => decode_string c v) ""%string v.

(** What an event does to the trust state. *)
Definition issued (e : TrustEvent) : option issuePayload :=
  if decide (EType e = EvIssue) then issue_unmarshal (sb (EPayload e)) else None.
Definition revoked (e : TrustEvent) : option string :=
  if decide (EType e = EvRevoke) then revoke_unmarshal (sb (EPayload e)) else None.

Definition fold_event (certs : gmap string Cert) (e : TrustEvent) : gmap string Cert :=
  match issued e with
  | Some p =>
      match certs !! pCertID p with
      | Some c =>
          if Revoked c then certs
          else <[pCertID p := {| Identity := pIdentity p; Revoked := false |}]> certs
      | None => <[pCertID p := {| Identity := pIdentity p; Revoked := false |}]> certs
      end
  | None =>
      match revoked e with
      | Some id =>
          match certs !! id with
          | Some c => <[id := {| Identity := Identity c; Revoked := true |}]> certs
          | None => certs
          end
      | None => certs
      end
  end.

Definition fold_certs (es : list TrustEvent) : gmap string Cert := foldl fold_event ∅ es.
Definition Fold (t : Timeline) : State := {| Certs := fold_certs (events t) |}.

Definition issues (e : TrustEvent) (id : string) : Prop :=
  exists p, issued e = Some p /\ pCertID p = id.
Definition revokes (e : TrustEvent) (id : string) : Prop := revoked e = Some id.

Lemma issued_not_revoked e p : issued e = Some p -> revoked e = None.
Proof.
  unfold issued, revoked. destruct (decide (EType e = EvIssue)) as [Hi|]; [|done].
  intros _. by rewrite decide_False by (by rewrite Hi).
Qed.

(** One event, seen at one certificate. *)
Lemma fold_event_lookup certs e id :
  fold_event certs e !! id =
  match issued e, revoked e with
  | Some p, _ =>
      if decide (pCertID p = id) then
        match certs !! id with
        | Some c => if Revoked c then Some c
                    else Some {| Identity := pIdentity p; Revoked := false |}
        | None => Some {| Identity := pIdentity p; Revoked := false |}
        end
      else certs !! id
  | None, Some r =>
      if decide (r = id) then
        (fun c => {| Identity := Identity c; Revoked := true |}) <$> certs !! id
      else certs !! id
  | None, None => certs !! id
  end.
Proof.
  unfold fold_event. destruct (issued e) as [p|] eqn:Hi.
  - destruct (decide (pCertID p = id)) as [<-|Hne].
    + destruct (certs !! pCertID p) as [c|] eqn:Hc; [destruct (Revoked c) eqn:Hr|].
      * done.
      * by rewrite lookup_insert_eq.
      * by rewrite lookup_insert_eq.
    + destruct (certs !! pCertID p) as [c|]; [destruct (Revoked c)|];
        by rewrite ?lookup_insert_ne.
  - destruct (revoked e) as [r|] eqn:Hrv; [|done]. destruct (decide (r = id)) as [<-|Hne].
    + destruct (certs !! r) as [c|] eqn:Hc; [|by rewrite Hc]. by rewrite lookup_insert_eq.
    + destruct (certs !! r) as [c|]; [|done]. by rewrite lookup_insert_ne.
Qed.

Lemma fold_certs_snoc es e : fold_certs (es ++ [e]) = fold_event (fold_certs es) e.
Proof. apply foldl_snoc. Qed.

(** Events about other certificates leave a certificate alone. *)
Definition untouched (id : string) (e : TrustEvent) : Prop := ~ issues e id /\ ~ revokes e id.

Lemma fold_event_untouched certs e id : untouched id e -> fold_event certs e !! id = certs !! id.
Proof.
  intros [Hi Hr]. rewrite fold_event_lookup. destruct (issued e) as [p|] eqn:Ei.
  - rewrite decide_False; [done|]. intros E. apply Hi. by exists p.
  - destruct (revoked e) as [r|] eqn:Er; [|done]. rewrite decide_False; [done|].
    intros <-. by apply Hr.
Qed.

Lemma fold_untouched es' certs id :
  Forall (untouched id) es' -> foldl fold_event certs es' !! id = certs !! id.
Proof.
  intros HF. revert certs. induction HF as [|e es' He _ IH]; intros certs; [done|]. cbn [foldl].
  by rewrite IH, fold_event_untouched.
Qed.

Lemma fold_event_revoked certs e id c :
  certs !! id = Some c -> Revoked c = true -> fold_event certs e !! id = Some c.
Proof.
  intros Hc Hr. rewrite fold_event_lookup. destruct (issued e) as [p|].
  - destruct (decide _); by rewrite Hc, ?Hr.
  - destruct (revoked e) as [r|]; [|done]. destruct (decide _); [|done].
    rewrite Hc. cbn. destruct c as [i []]; [done|discriminate Hr].
Qed.

Lemma fold_revoked es certs id c :
  certs !! id = Some c -> Revoked c = true -> foldl fold_event certs es !! id = Some c.
Proof.
  intros Hc Hr. revert certs Hc. induction es as [|e es IH]; intros certs Hc; [done|].
  apply IH. by apply fold_event_revoked.
Qed.

(** [e] at index [i] and [e'] at a later index [j]. *)
Definition issued_then_revoked (es : list TrustEvent) (id : string) : Prop :=
  exists i j e e', (i < j)%nat /\ es !! i = Some e /\ es !! j = Some e' /\
    issues e id /\ revokes e' id.

Definition ever_issued (es : list TrustEvent) (id : string) : Prop := exists e, e ∈ es /\ issues e id.

Lemma ever_issued_snoc es e id : ever_issued (es ++ [e]) id <-> ever_issued es id \/ issues e id.
Proof. unfold ever_issued. set_solver. Qed.

Lemma itr_snoc es e id :
  issued_then_revoked (es ++ [e]) id <->
  issued_then_revoked es id \/ (ever_issued es id /\ revokes e id).
Proof.
  split.
  - intros (i & j & e1 & e2 & Hij & Hi & Hj & H1 & H2).
    destruct (decide (j = length es)) as [->|Hne].
    + right. rewrite list_lookup_middle in Hj by done. injection Hj as <-.
      rewrite lookup_app_l in Hi by done. split; [|done]. exists e1. split; [|done].
      by eapply list_elem_of_lookup_2.
    + assert (Hlt : (j < length (es ++ [e]))%nat) by (by eapply lookup_lt_Some).
      rewrite length_app in Hlt. cbn in Hlt. left. exists i, j, e1, e2.
      rewrite lookup_app_l in Hi, Hj by lia. done.
  - intros [(i & j & e1 & e2 & Hij & Hi & Hj & H1 & H2)|[(e1 & He1 & H1) H2]].
    + exists i, j, e1, e2. by split_and!; try done; apply lookup_app_l_Some.
    + apply list_elem_of_lookup_1 in He1 as [i Hi]. exists i, (length es), e1, e.
      split_and!; [by eapply lookup_lt_Some|by apply lookup_app_l_Some|by apply list_lookup_middle|done..].
Qed.

(** The fold, exactly: a certificate is in the derived state when some
    event issued it, and it is there as revoked when, and only when, an event
    that issued it is followed by one that revokes it, however the two are
    interleaved with re-issues. *)
Theorem Fold_spec t id :
  (is_Some (Certs (Fold t) !! id) <-> ever_issued (events t) id) /\
  ((exists c, Certs (Fold t) !! id = Some c /\ Revoked c = true) <->
     issued_then_revoked (events t) id).
Proof.
  cbn [Fold Certs]. generalize (events t). intros es. induction es as [|e es IH] using rev_ind.
  { unfold fold_certs. cbn [foldl]. rewrite lookup_empty. split; split.
    - by intros [? ?].
    - intros (? & Hn & _). by apply elem_of_nil in Hn.
    - by intros (? & ? & _).
    - by intros (i & j & ? & ? & _ & ? & _). }
  destruct IH as [IH1 IH2].
  rewrite fold_certs_snoc, ever_issued_snoc, itr_snoc, <- IH1, <- IH2, fold_event_lookup.
  destruct (issued e) as [p|] eqn:Hi.
  - assert (Hrv : ~ revokes e id) by (unfold revokes; by rewrite (issued_not_revoked _ _ Hi)).
    assert (Hiss : issues e id <-> pCertID p = id) by (unfold issues; naive_solver).
    rewrite Hiss. destruct (decide (pCertID p = id)) as [E|E].
    + destruct (fold_certs es !! id) as [c|]; [destruct (Revoked c) eqn:Hr|]; split;
        try (split; intros; [auto|by eexists]); naive_solver.
    + naive_solver.
  - assert (Hiss : ~ issues e id) by (unfold issues; rewrite Hi; naive_solver).
    unfold revokes. destruct (revoked e) as [r|]; [|naive_solver].
    destruct (decide (r = id)) as [->|E].
    + destruct (fold_certs es !! id) as [c|]; cbn; split; naive_solver.
    + naive_solver.
Qed.

(** Revocation is permanent: a certificate the state of a timeline shows
    as revoked is shown revoked, under the same identity, by every timeline
    that extends it, whatever is appended, re-issues of it included. *)
Theorem Fold_revoked_sticky t t' id c :
  events t `prefix_of` events t' -> Certs (Fold t) !! id = Some c -> Revoked c = true ->
  Certs (Fold t') !! id = Some c.
Proof.
  intros [es E] Hc Hr. cbn [Fold Certs] in *. unfold fold_certs. rewrite E, foldl_app.
  by apply fold_revoked.
Qed.

(** ** The graph of a timeline *)

Definition cert_node (c : string) : string := ("cert:" ++ c)%string.
Definition id_node (i : string) : string := ("id:" ++ i)%string.

Definition build_step (g : SecurityGraph) (e : TrustEvent) : SecurityGraph :=
  match issued e with
  | None => g
  | Some p =>
      let g := AddEdge g (id_node (pIdentity p)) (cert_node (pCertID p))
                 ("issue:" ++ pCertID p)%string in
      if decide (pVia p = ""%string) then g
      else AddEdge g (cert_node (pVia p)) (cert_node (pCertID p)) ("issue:" ++ pCertID p)%string
  end.
Definition BuildGraph (t : Timeline) : SecurityGraph := foldl build_step NewSecurityGraph (events t).

(** Certificate [b] was issued via certificate [a]. *)
Definition via (es : list TrustEvent) (a b : string) : Prop :=
  exists e p, e ∈ es /\ issued e = Some p /\ pVia p = a /\ a <> ""%string /\ pCertID p = b.

#[global] Instance cert_node_inj : Inj (=) (=) cert_node.
Proof. intros x y. apply string_app_inj. Qed.

Lemma cert_not_id a b : cert_node a <> id_node b.
Proof. done. Qed.

Lemma build_edges es g a y :
  edge (foldl build_step g es) (cert_node a) y <->
  edge g (cert_node a) y \/ exists b, y = cert_node b /\ via es a b.
Proof.
  revert g. induction es as [|e es IH]; intros g; cbn [foldl].
  { split; [auto|]. intros [?|(b & _ & e & p & He & _)]; [done|]. by apply elem_of_nil in He. }
  rewrite IH. unfold build_step, via.
  destruct (issued e) as [p|] eqn:Hi.
  - destruct (decide (pVia p = ""%string)) as [Hv|Hv]; rewrite ?AddEdge_edge; split.
    + intros [[?|[E _]]|(b & -> & e' & p' & ? & ?)]; [auto|by apply cert_not_id in E|].
      right. exists b. split; [done|]. exists e', p'. set_solver.
    + intros [?|(b & -> & e' & p' & [->|?]%elem_of_cons & ? & ? & ? & ?)]; [auto|congruence|].
      right. exists b. split; [done|]. by exists e', p'.
    + intros [[[?|[E _]]|[E ->]]|(b & -> & e' & p' & ? & ?)]; [auto|by apply cert_not_id in E|..].
      * apply (inj cert_node) in E as ->. right. exists (pCertID p). split; [done|].
        exists e, p. set_solver.
      * right. exists b. split; [done|]. exists e', p'. set_solver.
    + intros [?|(b & -> & e' & p' & [->|?]%elem_of_cons & Hi' & <- & ? & <-)]; [auto| |].
      * rewrite Hi in Hi'. injection Hi' as <-. left. right. done.
      * right. eexists. split; [done|]. by exists e', p'.
  - split.
    + intros [?|(b & -> & e' & p' & ? & ?)]; [auto|]. right. exists b. split; [done|].
      exists e', p'. set_solver.
    + intros [?|(b & -> & e' & p' & [->|?]%elem_of_cons & ? & ? & ? & ?)]; [auto|congruence|].
      right. exists b. split; [done|]. by exists e', p'.
Qed.

Lemma cert_reach t a y :
  rtc (edge (BuildGraph t)) (cert_node a) y <-> exists b, y = cert_node b /\ rtc (via (events t)) a b.
Proof.
  assert (Hedge : forall a y, edge (BuildGraph t) (cert_node a) y <->
    exists b, y = cert_node b /\ via (events t) a b).
  { intros a' y'. unfold BuildGraph. rewrite build_edges. split; [|auto].
    intros [E|?]; [by apply New_edge in E|done]. }
  split.
  - revert y. apply rtc_ind_r.
    + exists a. split; [done|apply rtc_refl].
    + intros y z _ Hyz (b & -> & Hb). apply Hedge in Hyz as (c & -> & Hc).
      exists c. split; [done|]. by eapply rtc_r.
  - intros (b & -> & Hb). induction Hb as [|a b c Hab _ IH]; [apply rtc_refl|].
    eapply rtc_l; [|exact IH]. apply Hedge. eauto.
Qed.

(** The [bad_index] of a piece of evidence. *)
Definition evidence_unmarshal (b : bytes) : option Z :=
  v ← parse b; decode_struct ["bad_index"%string] (fun _ v z => decode_int64 z v) 0 v.

(** ** Rollback *)

Section rollback.
Context `{Hashes} `{Ed25519}.

Definition Rollback (t : Timeline) (badIdx : Z) : outcome Timeline :=
  if badIdx <=? 0 then NewTimeline (tkey t)
  else
    match events t !! Z.to_nat (badIdx - 1) with
    | Some e => Fork t (Hash e)
    | None => Panic
    end.

(** The seeds of one event: its certificate node, and the identity issued to. *)
Definition seed_step (acc : gset string * gset string) (e : TrustEvent) : gset string * gset string :=
  let '(seeds, ids) := acc in
  let '(seeds, ids) :=
    match issued e with
    | Some p => ({[cert_node (pCertID p)]} ∪ seeds, {[pIdentity p]} ∪ ids)
    | None => (seeds, ids)
    end in
  match revoked e with
  | Some r => ({[cert_node r]} ∪ seeds, ids)
  | None => (seeds, ids)
  end.

(** The certificates among the nodes reachable from a seed. *)
Definition reach_certs (order : range_order) (g : SecurityGraph) (s : string) : gset string :=
  list_to_set (omap (strip_prefix "cert:") (elements (default ∅ (Reachable order g s)))).

Definition InvalidationSet (order : range_order) (t : Timeline) (badIdx : Z)
    : outcome (gset string * gset string) :=
  if (badIdx <? 0) || (badIdx >? zlen (events t)) then Panic
  else
    let g := BuildGraph t in
    let '(seeds, ids) := foldl seed_step (∅, ∅) (drop (Z.to_nat badIdx) (events t)) in
    Ret (⋃ (map (reach_certs order g) (elements seeds)), ids).

Record VerifyReport := { Checks : gmap string bool }.

Definition Pass (r : option VerifyReport) : bool :=
  match r with
  | None => false
  | Some r => forallb snd (map_to_list (Checks r))
  end.

Definition check_pre (post : gmap string Cert) (affected : gset string)
    (ck : gmap string bool) (kv : string * Cert) : gmap string bool :=
  let '(id, c) := kv in
  let pc := post !! id in
  let ck :=
    if Revoked c && match pc with
                    | None => true
                    | Some pc => negb (Revoked pc) || negb (bool_decide (Identity pc = Identity c))
                    end
    then <["P3"%string := false]> ck else ck in
  if negb (bool_decide (id ∈ affected)) && negb (bool_decide (pc = Some c))
  then <["P5"%string := false]> ck else ck.

Definition check_post (pre : gmap string Cert) (affectedIds : gset string)
    (ck : gmap string bool) (kv : string * Cert) : gmap string bool :=
  let '(id, pc) := kv in
  match pre !! id with
  | Some _ => ck
  | None => if negb (bool_decide (Identity pc ∈ affectedIds)) then <["P5"%string := false]> ck else ck
  end.

Definition VerifyRecovery (pre post : State) (affectedCerts affectedIdentities : gset string)
    : VerifyReport :=
  let ck : gmap string bool := {["P3"%string := true; "P5"%string := true]} in
  let ck := foldl (check_pre (Certs post) affectedCerts) ck (map_to_list (Certs pre)) in
  {| Checks := foldl (check_post (Certs pre) affectedIdentities) ck (map_to_list (Certs post)) |}.

(** ** The blast radius *)

Lemma seed_step_spec acc e :
  (forall x, x ∈ (seed_step acc e).1 <->
     x ∈ acc.1 \/ exists c, x = cert_node c /\ (issues e c \/ revokes e c)) /\
  (forall i, i ∈ (seed_step acc e).2 <-> i ∈ acc.2 \/ exists p, issued e = Some p /\ pIdentity p = i).
Proof.
  destruct acc as [seeds ids]. unfold seed_step, issues, revokes.
  destruct (issued e) as [p|] eqn:Hi; [rewrite (issued_not_revoked _ _ Hi)|]; cbn [fst snd].
  - split; intros x; rewrite elem_of_union, elem_of_singleton; split.
    + intros [->|?]; [right; exists (pCertID p); eauto|auto].
    + intros [?|(c & -> & [(p' & [= <-] & <-)|[=]])]; auto.
    + intros [->|?]; eauto.
    + intros [?|(p' & [= <-] & <-)]; auto.
  - split; [|intros x; destruct (revoked e); naive_solver].
    intros x. destruct (revoked e) as [r|]; cbn [fst].
    + rewrite elem_of_union, elem_of_singleton. split; [intros [->|?]; eauto|].
      intros [?|(c & -> & [(p' & [=] & _)|[= ->]])]; auto.
    + split; [auto|]. intros [?|(c & -> & [(p' & [=] & _)|[=]])]; auto.
Qed.

Lemma seeds_spec es : forall acc,
  (forall x, x ∈ (foldl seed_step acc es).1 <->
     x ∈ acc.1 \/ exists e c, e ∈ es /\ x = cert_node c /\ (issues e c \/ revokes e c)) /\
  (forall i, i ∈ (foldl seed_step acc es).2 <->
     i ∈ acc.2 \/ exists e p, e ∈ es /\ issued e = Some p /\ pIdentity p = i).
Proof.
  induction es as [|e es IH]; intros acc; cbn [foldl].
  { split; intros x; split; auto; intros [?|(? & ? & Hn & _)]; auto; by apply elem_of_nil in Hn. }
  destruct (IH (seed_step acc e)) as [IH1 IH2]. destruct (seed_step_spec acc e) as [H1 H2].
  split; intros x.
  - rewrite IH1, H1. split.
    + intros [[?|(c & ? & ?)]|(e' & c & ? & ? & ?)]; [auto|right; exists e, c|right; exists e', c]; set_solver.
    + intros [?|(e' & c & [->|?]%elem_of_cons & ? & ?)]; [auto|left; right; eauto|right; eauto].
  - rewrite IH2, H2. split.
    + intros [[?|(c & ? & ?)]|(e' & c & ? & ? & ?)]; [auto|right; exists e, c|right; exists e', c]; set_solver.
    + intros [?|(e' & c & [->|?]%elem_of_cons & ? & ?)]; [auto|left; right; eauto|right; eauto].
Qed.

Lemma reach_certs_spec order t a c :
  valid_order order ->
  c ∈ reach_certs order (BuildGraph t) (cert_node a) <-> rtc (via (events t)) a c.
Proof.
  intros Ho. unfold reach_certs.
  destruct (Reachable_total order (BuildGraph t) (cert_node a) Ho) as (S & -> & HS).
  cbn [default from_option id]. rewrite elem_of_list_to_set, list_elem_of_omap. split.
  - intros (y & Hy & Hp). apply elem_of_elements, HS in Hy. apply cert_reach in Hy as (b & -> & Hb).
    unfold cert_node in Hp. rewrite strip_prefix_app in Hp. by injection Hp as ->.
  - intros Hc. exists (cert_node c). split; [|apply strip_prefix_app].
    apply elem_of_elements, HS, cert_reach. eauto.
Qed.

(** Named by an event of the bad window. *)
Definition in_window (t : Timeline) (badIdx : Z) (c : string) : Prop :=
  exists e, e ∈ drop (Z.to_nat badIdx) (events t) /\ (issues e c \/ revokes e c).

Lemma InvalidationSet_ret order t badIdx :
  valid_order order -> 0 <= badIdx <= zlen (events t) ->
  exists certs ids, InvalidationSet order t badIdx = Ret (certs, ids) /\
    (forall c, c ∈ certs <-> exists c0, in_window t badIdx c0 /\ rtc (via (events t)) c0 c) /\
    (forall i, i ∈ ids <-> exists e p, e ∈ drop (Z.to_nat badIdx) (events t) /\
       issued e = Some p /\ pIdentity p = i).
Proof.
  intros Ho Hb. unfold InvalidationSet.
  assert ((badIdx <? 0) || (badIdx >? zlen (events t)) = false) as -> by lia.
  destruct (seeds_spec (drop (Z.to_nat badIdx) (events t)) (∅, ∅)) as [H1 H2].
  destruct (foldl seed_step _ _) as [seeds ids]. cbn [fst snd] in *.
  do 2 eexists. split; [done|]. split.
  - intros c. rewrite elem_of_union_list. split.
    + intros (X & HX & Hc). apply list_elem_of_fmap in HX as (s & -> & Hs%elem_of_elements).
      apply H1 in Hs as [Hs|(e & a & He & -> & Hi)]; [by apply elem_of_empty in Hs|].
      apply reach_certs_spec in Hc; [|done]. exists a. split; [|done]. by exists e.
    + intros (a & (e & He & Hi) & Hc). exists (reach_certs order (BuildGraph t) (cert_node a)).
      split; [|by apply reach_certs_spec]. apply list_elem_of_fmap. exists (cert_node a).
      split; [done|]. apply elem_of_elements, H1. right. eauto 6.
  - intros i. rewrite H2. split; [intros [Hn|?]; [by apply elem_of_empty in Hn|done]|auto].
Qed.

(** C18.  The blast radius is exact: for every index within the timeline and
    every map order, [InvalidationSet] returns the certificates that an event
    of the bad window issues or revokes together with everything issued, at any
    time, through a chain of via-edges from those; and the identities that the
    window issued to. *)
Theorem InvalidationSet_spec order t badIdx :
  valid_order order -> 0 <= badIdx <= zlen (events t) ->
  exists certs ids, InvalidationSet order t badIdx = Ret (certs, ids) /\
    (forall c, c ∈ certs <-> exists c0, in_window t badIdx c0 /\ rtc (via (events t)) c0 c) /\
    (forall i, i ∈ ids <-> exists e p, e ∈ drop (Z.to_nat badIdx) (events t) /\
       issued e = Some p /\ pIdentity p = i).
Proof. apply InvalidationSet_ret. Qed.

(** ** What the recovery report says *)

Definition p3_fails (post : gmap string Cert) (c : Cert) (pc : option Cert) : Prop :=
  Revoked c = true /\
  match pc with None => True | Some pc => Revoked pc = false \/ Identity pc <> Identity c end.

Lemma forall_cons_pair {A B} (P : A -> B -> Prop) a b (l : list (A * B)) :
  (forall x y, (x, y) ∈ (a, b) :: l -> P x y) <-> P a b /\ forall x y, (x, y) ∈ l -> P x y.
Proof.
  split.
  - intros HP. split; [apply HP; by left|]. intros x y Hl. apply HP. by right.
  - intros [Hab HP] x y [[= -> ->]|Hl]%elem_of_cons; auto.
Qed.

Lemma check_pre_lookup post affected l : forall ck,
  (foldl (check_pre post affected) ck l !! "P3"%string = Some true <->
     ck !! "P3"%string = Some true /\
     forall id c, (id, c) ∈ l -> ~ p3_fails post c (post !! id)) /\
  (foldl (check_pre post affected) ck l !! "P5"%string = Some true <->
     ck !! "P5"%string = Some true /\
     forall id c, (id, c) ∈ l -> id ∈ affected \/ post !! id = Some c).
Proof.
  induction l as [|[id c] l IH]; intros ck; cbn [foldl].
  { split; (split; [intros ?; split; [done|]; intros ? ? Hn; by apply elem_of_nil in Hn|by intros [? _]]). }
  destruct (IH (check_pre post affected ck (id, c))) as [-> ->].
  assert (H3 : check_pre post affected ck (id, c) !! "P3"%string = Some true <->
    ck !! "P3"%string = Some true /\ ~ p3_fails post c (post !! id)).
  { unfold check_pre, p3_fails.
    destruct (negb (bool_decide (id ∈ affected)) && _); rewrite ?lookup_insert_ne by done;
    (destruct (Revoked c); cbn [andb]; [|naive_solver]);
    (destruct (post !! id) as [pc|]; [|rewrite lookup_insert_eq; naive_solver]);
    (destruct (Revoked pc); cbn [negb orb]; [|rewrite lookup_insert_eq; naive_solver]);
    case_bool_decide; cbn [negb]; rewrite ?lookup_insert_eq; naive_solver. }
  assert (H5 : check_pre post affected ck (id, c) !! "P5"%string = Some true <->
    ck !! "P5"%string = Some true /\ (id ∈ affected \/ post !! id = Some c)).
  { unfold check_pre. case_bool_decide; case_bool_decide; cbn [negb andb];
      rewrite ?lookup_insert_eq; try case_if; rewrite ?lookup_insert_ne by done; naive_solver. }
  rewrite H3, H5, !forall_cons_pair. tauto.
Qed.

Lemma check_post_lookup pre ids l : forall ck,
  (foldl (check_post pre ids) ck l !! "P3"%string = Some true <-> ck !! "P3"%string = Some true) /\
  (foldl (check_post pre ids) ck l !! "P5"%string = Some true <->
     ck !! "P5"%string = Some true /\
     forall id pc, (id, pc) ∈ l -> is_Some (pre !! id) \/ Identity pc ∈ ids).
Proof.
  induction l as [|[id c] l IH]; intros ck; cbn [foldl].
  { split; [done|]. split; [intros ?; split; [done|]; intros ? ? Hn; by apply elem_of_nil in Hn|by intros [? _]]. }
  destruct (IH (check_post pre ids ck (id, c))) as [-> ->].
  assert (H3 : check_post pre ids ck (id, c) !! "P3"%string = ck !! "P3"%string).
  { unfold check_post. destruct (pre !! id); [done|]. case_if; [|done]. by rewrite lookup_insert_ne. }
  assert (H5 : check_post pre ids ck (id, c) !! "P5"%string = Some true <->
    ck !! "P5"%string = Some true /\ (is_Some (pre !! id) \/ Identity c ∈ ids)).
  { unfold check_post. destruct (pre !! id) as [x|]; [naive_solver|].
    case_bool_decide; cbn [negb]; rewrite ?lookup_insert_eq; [naive_solver|].
    split; [done|]. intros [_ [[? [=]]|?]]; done. }
  rewrite H3, H5, forall_cons_pair. tauto.
Qed.

Lemma VerifyRecovery_checks pre post ac ai :
  (Checks (VerifyRecovery pre post ac ai) !! "P3"%string = Some true <->
     forall id c, Certs pre !! id = Some c -> ~ p3_fails (Certs post) c (Certs post !! id)) /\
  (Checks (VerifyRecovery pre post ac ai) !! "P5"%string = Some true <->
     (forall id c, Certs pre !! id = Some c -> id ∈ ac \/ Certs post !! id = Some c) /\
     (forall id pc, Certs post !! id = Some pc -> is_Some (Certs pre !! id) \/ Identity pc ∈ ai)).
Proof.
  unfold VerifyRecovery. cbn [Checks].
  destruct (check_post_lookup (Certs pre) ai (map_to_list (Certs post))
    (foldl (check_pre (Certs post) ac) {["P3"%string := true; "P5"%string := true]}
       (map_to_list (Certs pre)))) as [-> ->].
  destruct (check_pre_lookup (Certs post) ac (map_to_list (Certs pre))
    {["P3"%string := true; "P5"%string := true]}) as [-> ->].
  setoid_rewrite elem_of_map_to_list. split.
  - split; [by intros [_ ?]|]. intros ?. split; [by vm_compute|done].
  - split; [by intros [[_ ?] ?]|]. intros [? ?]. split; [split; [by vm_compute|done]|done].
Qed.

(** C16.  A rollback keeps within its blast radius: for every timeline and every
    index, the recovery report that compares the state of the whole chain with
    the state of the events before the index, under the invalidation set of
    that index, has check P5 true; and it has P3 true exactly when every
    certificate the whole chain shows as revoked was already revoked before the
    index. *)
Theorem rollback_report order t badIdx :
  valid_order order -> 0 <= badIdx <= zlen (events t) ->
  exists certs ids, InvalidationSet order t badIdx = Ret (certs, ids) /\
    let post := {| Certs := fold_certs (take (Z.to_nat badIdx) (events t)) |} in
    let r := VerifyRecovery (Fold t) post certs ids in
    Checks r !! "P5"%string = Some true /\
    (Checks r !! "P3"%string = Some true <->
       forall id c, Certs (Fold t) !! id = Some c -> Revoked c = true ->
         exists c', Certs post !! id = Some c' /\ Revoked c' = true).
Proof.
  intros Ho Hb. destruct (InvalidationSet_ret order t badIdx Ho Hb) as (certs & ids & E & Hc & Hi).
  exists certs, ids. split; [done|]. cbv zeta. cbn [Fold Certs].
  set (k := Z.to_nat badIdx) in *. set (pre := take k (events t)). set (win := drop k (events t)).
  assert (Hsplit : fold_certs (events t) = foldl fold_event (fold_certs pre) win).
  { unfold fold_certs, pre, win. by rewrite <- foldl_app, take_drop. }
  assert (Hun : forall id, id ∉ certs -> fold_certs (events t) !! id = fold_certs pre !! id).
  { intros id Hid. rewrite Hsplit. apply fold_untouched, Forall_forall. intros e He.
    split; intros Hx; apply Hid, Hc; exists id; (split; [|apply rtc_refl]); exists e; auto. }
  assert (Hdom : forall id pc, fold_certs pre !! id = Some pc -> is_Some (fold_certs (events t) !! id)).
  { intros id pc Hpc. rewrite Hsplit. clear -Hpc. revert Hpc. generalize (fold_certs pre). revert pc.
    induction win as [|e win IH]; intros pc m Hpc; [by eexists|]. cbn [foldl].
    destruct (fold_event m e !! id) as [pc'|] eqn:E; [by eapply IH|]. exfalso. revert E.
    rewrite fold_event_lookup, Hpc. destruct (issued e); [case_decide; [destruct (Revoked pc)|]; done|].
    destruct (revoked e); [case_decide|]; done. }
  destruct (VerifyRecovery_checks {| Certs := fold_certs (events t) |}
    {| Certs := fold_certs pre |} certs ids) as [H3 H5]. cbn [Certs] in H3, H5. split.
  - apply H5. split.
    + intros id c Hcc. destruct (decide (id ∈ certs)) as [?|Hn]; [auto|]. right.
      by rewrite <- (Hun id Hn).
    + intros id pc Hpc. left. by eapply Hdom.
  - rewrite H3. unfold p3_fails. split.
    + intros HP id c Hcc Hr. specialize (HP id c Hcc).
      destruct (fold_certs pre !! id) as [pc|] eqn:Hpc; [|by destruct HP].
      exists pc. split; [done|]. destruct (Revoked pc) eqn:Hrp; [done|]. destruct HP; auto.
    + intros HP id c Hcc [Hr Hf]. destruct (HP id c Hcc Hr) as (c' & Hc' & Hr').
      rewrite Hc' in Hf. rewrite Hsplit in Hcc.
      rewrite (fold_revoked _ _ _ _ Hc' Hr') in Hcc. injection Hcc as ->. destruct Hf; congruence.
Qed.

(** ** The rollback itself *)

Context {HL : HashLaws} {EL : Ed25519Laws}.

Lemma Chain_signed c a prev pub es p e : Chain c a prev pub es p -> e ∈ es -> exists s, ESignature e = Some s.
Proof.
  induction 1 as [|prev pub e' pub1 es pub2 Ha Hc IH]; [by intros Hn%elem_of_nil|].
  intros [->|?]%elem_of_cons; [by eapply Accept_signature|by apply IH].
Qed.

Lemma Hash_distinct c a pub es p i j e e' :
  Forall event_ok es -> collision_free sha256 (map signedBytes es) ->
  Chain c a None pub es p -> es !! i = Some e -> es !! j = Some e' -> Hash e = Hash e' -> i = j.
Proof.
  intros Ho Hf Hc Hi Hj E. pose proof (list_elem_of_lookup_2 _ _ _ Hi) as Hei.
  pose proof (list_elem_of_lookup_2 _ _ _ Hj) as Hej.
  apply Hf in E; [|apply list_elem_of_fmap; eauto..].
  rewrite Forall_forall in Ho.
  destruct (signedBytes_inj e e') as [Hb Hs]; [by apply Ho..|done|].
  destruct (Chain_signed _ _ _ _ _ _ _ Hc Hei) as [s Es].
  destruct (Chain_signed _ _ _ _ _ _ _ Hc Hej) as [s' Es'].
  assert (e = e') as <-.
  { apply event_eq; [done|]. rewrite Es, Es' in *. cbn in Hs. by rewrite Hs. }
  rewrite <- Forall_forall in Ho.
  eapply (chain_distinct a); [exact Ho| |exact Hc|exact Hi|exact Hj].
  destruct a; [done|by left].
Qed.

Lemma Rollback_writable priv a t0 t badIdx :
  real_key priv -> newTimeline (Some priv) a = Ret t0 -> rtc TStep t0 t ->
  Forall event_ok (events t) -> collision_free sha256 (map signedBytes (events t)) ->
  0 < badIdx <= zlen (events t) -> badIdx <= first_rotation t ->
  exists f, Rollback t badIdx = Ret f /\ events f = take (Z.to_nat badIdx) (events t) /\ writable f /\
    tstart f <> None /\ startPub f = startPub t /\ councilPub f = councilPub t /\ algo f = algo t.
Proof.
  intros Hk E Hs Ho Hcf Hb Hr. unfold Rollback, zlen in *.
  destruct (Z.leb_spec badIdx 0); [lia|]. set (i := Z.to_nat (badIdx - 1)).
  destruct (lookup_lt_is_Some_2 (events t) i) as [e He]; [unfold i; lia|]. rewrite He.
  destruct (new_origin _ _ _ Hk E) as (Hw0 & Hst0 & _).
  destruct (steps_writable _ _ Hs Hw0 Hst0) as [(q & _ & _ & _ & _ & _ & Hc) _].
  assert (Hf : find_last (events t) (Hash e) = Some i).
  { apply (find_last_unique _ _ _ _ He); [done|]. intros j e' Hj Hh. eapply Hash_distinct; eauto. }
  destruct (Fork_writable priv a t0 t (Hash e) i) as (f & Hfork & Hev & Hrest); try done; [unfold i; lia|].
  exists f. assert (Hi : S i = Z.to_nat badIdx) by (unfold i; lia). rewrite Hi in Hev. done.
Qed.


(** Rollback to the start of the chain: with a signing key it returns the
    empty timeline under that key, on SHA-256 whatever algorithm the timeline
    had; a timeline without its key, such as one loaded for verification,
    panics. *)
Theorem Rollback_genesis t badIdx :
  badIdx <= 0 ->
  (tkey t = None -> Rollback t badIdx = Panic) /\
  (forall priv, tkey t = Some priv -> real_key priv ->
     exists f, Rollback t badIdx = Ret f /\ events f = [] /\ tkey f = Some priv /\
       algo f = algoSHA256 /\ Verify f = Ret true).
Proof.
  intros Hb. unfold Rollback. destruct (Z.leb_spec badIdx 0); [|lia]. split; [by intros ->|].
  intros priv -> Hk. destruct (newTimeline_writable priv algoSHA256 Hk) as (f & E & Hw & He).
  exists f. unfold NewTimeline. split_and!; [done|done|..].
  - unfold newTimeline in E. rewrite Public_real in E by done. by injection E as <-.
  - unfold newTimeline in E. rewrite Public_real in E by done. by injection E as <-.
  - destruct (writable_good _ Hw) as [Hok Hg]. by apply Verify_good.
Qed.

End rollback.

(** ** Consumers *)

Record Consumer := { CState : option State; Restarts : Z }.

Definition NewConsumer (s : option State) : Consumer := {| CState := s; Restarts := 0 |}.

(** The identifier lists, in the order the maps are ranged over, are sets. *)
Record Delta := { DRevoked : gset string; DIssued : gset string }.

Definition diff_revoked (cur post : gmap string Cert) : gset string :=
  dom (filter (fun kv =>
    match post !! kv.1 with
    | None => true
    | Some pc => negb (Bool.eqb (Revoked kv.2) (Revoked pc))
    end = true) cur).

(** [c.State.Certs[id].Identity], the empty string for a missing id. *)
Definition identity_at (m : gmap string Cert) (id : string) : string :=
  match m !! id with Some c => Identity c | None => "" end.

Definition diff_issued (cur post : gmap string Cert) : gset string :=
  dom (filter (fun kv => identity_at cur kv.1 <> Identity kv.2) post).

Definition Diff (c : Consumer) (post : option State) : outcome Delta :=
  match CState c, post with
  | Some cur, Some post =>
      Ret {| DRevoked := diff_revoked (Certs cur) (Certs post);
             DIssued := diff_issued (Certs cur) (Certs post) |}
  | _, _ => Panic
  end.

Definition ApplyDelta (c : Consumer) (d : Delta) (post : option State) : Consumer :=
  match CState c, post with
  | Some _, Some _ => {| CState := post; Restarts := Restarts c |}
  | _, _ => c
  end.

Definition ApplyDiff (c : Consumer) (post : option State) : outcome Consumer :=
  d ← Diff c post; Ret (ApplyDelta c d post).

(** The states in which every certificate names an identity. *)
Definition named (s : State) : Prop := map_Forall (fun _ c => Identity c <> ""%string) (Certs s).

(** A consumer follows a rollback without restarting: applying the
    difference leaves it with the new state and the same restart count, and the
    certificates the difference lists, as revoked or as issued, are exactly
    those whose record changed, when no identity is the empty string. *)
Theorem Consumer_ApplyDiff c cur post :
  CState c = Some cur -> named cur -> named post ->
  ApplyDiff c (Some post) = Ret {| CState := Some post; Restarts := Restarts c |} /\
  exists d, Diff c (Some post) = Ret d /\
    forall id, id ∈ DRevoked d ∪ DIssued d <-> Certs cur !! id <> Certs post !! id.
Proof.
  intros Hc Hn Hn'. unfold ApplyDiff, ApplyDelta, Diff. rewrite Hc. split; [done|].
  eexists. split; [done|]. intros id. cbn [DRevoked DIssued].
  rewrite elem_of_union. unfold diff_revoked, diff_issued. rewrite !elem_of_dom.
  unfold is_Some. setoid_rewrite map_lookup_filter_Some. cbn [fst snd]. unfold identity_at.
  destruct (Certs cur !! id) as [x|] eqn:Hx, (Certs post !! id) as [y|] eqn:Hy.
  - split.
    + intros [(z & [= <-] & Hz)|(z & [= <-] & Hz)]; [|congruence].
      apply negb_true_iff, Bool.eqb_false_iff in Hz. congruence.
    + intros Hd. destruct (decide (Revoked x = Revoked y)) as [Hr|Hr].
      2:{ left. exists x. split; [done|]. by apply negb_true_iff, Bool.eqb_false_iff. }
      right. exists y. split; [done|]. intros Hi. destruct Hd. destruct x, y; cbn in *. congruence.
  - split; [done|]. intros _. left. by eexists.
  - split; [done|]. intros _. right. exists y. split; [done|]. intros E. symmetry in E.
    by apply (Hn' id y Hy) in E.
  - split; [|done]. intros [(z & [=] & _)|(z & [=] & _)].
Qed.

(** ** Witnesses *)

Module StateWitness.
Import TimelineWitness.

Definition issue_of (cert id : string) (v : string) : slice :=
  Some (print (JObj [jfield "cert_id" (jstring cert); jfield "identity" (jstring id);
                     jfield "via" (jstring v)])).
Definition revoke_of (cert : string) : slice := Some (print (JObj [jfield "cert_id" (jstring cert)])).

Definition s0 : Timeline := get (NewTimeline (Some k1)) empty.
Definition s1 : Timeline := get1 (Append s0 EvIssue (issue_of "c1" "alice" "") 1) empty.
Definition s2 : Timeline := get1 (Append s1 EvRevoke (revoke_of "c1") 2) empty.
Definition s3 : Timeline := get1 (Append s2 EvIssue (issue_of "c2" "bob" "") 3) empty.
Definition s4 : Timeline := get1 (Append s3 EvIssue (issue_of "c3" "eve" "c2") 4) empty.
Definition s5 : Timeline := get1 (Append s4 EvIssue (issue_of "c1" "eve" "") 5) empty.

Definition order : range_order := fun _ l => l.

Lemma valid : valid_order order.
Proof. intros n l. unfold order. done. Qed.

Lemma reach5 : rtc TStep s0 s5.
Proof.
  apply (rtc_l _ _ s1); [eapply (append_step s0 EvIssue (issue_of "c1" "alice" "") 1); [done..|vm_compute; reflexivity]|].
  apply (rtc_l _ _ s2); [eapply (append_step s1 EvRevoke (revoke_of "c1") 2); [done..|vm_compute; reflexivity]|].
  apply (rtc_l _ _ s3); [eapply (append_step s2 EvIssue (issue_of "c2" "bob" "") 3); [done..|vm_compute; reflexivity]|].
  apply (rtc_l _ _ s4); [eapply (append_step s3 EvIssue (issue_of "c3" "eve" "c2") 4); [done..|vm_compute; reflexivity]|].
  apply (rtc_l _ _ s5); [eapply (append_step s4 EvIssue (issue_of "c1" "eve" "") 5); [done..|vm_compute; reflexivity]|].
  apply rtc_refl.
Qed.

End StateWitness.

Lemma Fold_revoked_sticky_witness :
  Certs (Fold StateWitness.s5) !! "c1"%string = Some {| Identity := "alice"; Revoked := true |}.
Proof.
  apply (Fold_revoked_sticky StateWitness.s2);
    [exists (drop 2 (events StateWitness.s5)); vm_compute; reflexivity
    |vm_compute; reflexivity|reflexivity].
Defined.

Lemma InvalidationSet_spec_witness :
  exists certs ids, InvalidationSet StateWitness.order StateWitness.s5 2 = Ret (certs, ids) /\
    (forall c, c ∈ certs <-> exists c0, in_window StateWitness.s5 2 c0 /\
       rtc (via (events StateWitness.s5)) c0 c) /\
    (forall i, i ∈ ids <-> exists e p, e ∈ drop 2 (events StateWitness.s5) /\
       issued e = Some p /\ pIdentity p = i).
Proof.
  apply (InvalidationSet_spec StateWitness.order StateWitness.s5 2 StateWitness.valid).
  vm_compute. split; discriminate.
Defined.

Lemma rollback_report_witness :
  exists certs ids, InvalidationSet StateWitness.order StateWitness.s5 2 = Ret (certs, ids) /\
    let post := {| Certs := fold_certs (take 2 (events StateWitness.s5)) |} in
    let r := VerifyRecovery (Fold StateWitness.s5) post certs ids in
    Checks r !! "P5"%string = Some true /\
    (Checks r !! "P3"%string = Some true <->
       forall id c, Certs (Fold StateWitness.s5) !! id = Some c -> Revoked c = true ->
         exists c', Certs post !! id = Some c' /\ Revoked c' = true).
Proof.
  apply (rollback_report StateWitness.order StateWitness.s5 2 StateWitness.valid).
  vm_compute. split; discriminate.
Defined.


Lemma Rollback_genesis_witness :
  (tkey StateWitness.s5 = None -> Rollback StateWitness.s5 0 = Panic) /\
  (forall priv, tkey StateWitness.s5 = Some priv -> real_key priv ->
     exists f, Rollback StateWitness.s5 0 = Ret f /\ events f = [] /\ tkey f = Some priv /\
       algo f = algoSHA256 /\ Verify f = Ret true).
Proof. apply (Rollback_genesis StateWitness.s5 0). lia. Defined.

Lemma Consumer_ApplyDiff_witness :
  ApplyDiff (NewConsumer (Some (Fold StateWitness.s5))) (Some (Fold StateWitness.s2)) =
    Ret {| CState := Some (Fold StateWitness.s2); Restarts := 0 |} /\
  exists d, Diff (NewConsumer (Some (Fold StateWitness.s5))) (Some (Fold StateWitness.s2)) = Ret d /\
    forall id, id ∈ DRevoked d ∪ DIssued d <->
      Certs (Fold StateWitness.s5) !! id <> Certs (Fold StateWitness.s2) !! id.
Proof.
  apply (Consumer_ApplyDiff (NewConsumer (Some (Fold StateWitness.s5))));
    [reflexivity|apply (bool_decide_unpack _); vm_compute; exact I
    |apply (bool_decide_unpack _); vm_compute; exact I].
Defined.
