(* ===== verification/Watchdog.v ===== *)
(** * Detection: [detect.go], [ensemble.go], [watchdogs.go], [audit.go]

    The CUSUM core, the five watchdog kinds over one record, the fusion rule,
    and the auditors' mirror, policy check and escalation.  A watchdog reads a
    timeline and a mirror it shares with their owners: they are arguments of
    [Score].  Ranges over maps visit the keys in an order given as an argument;
    [%q] of an identity is a parameter ([quoted]).

    Theorems: the fusion rule against Byzantine watchdogs; every tampering of a
    log-integrity watchdog's timeline is reported within ten cycles, with
    evidence that leads to the first bad event; the CUSUM statistic never goes
    below zero; escalation needs both auditors and an alarmed target. *)
From Stdlib Require Import SpecFloat.
From S2P Require Import Prelude Crypto Encoding Json Float Timeline TimelineTheory TrustState.

(** ** Scores and the fusion rule *)

Record Score := { NodeID : string; ScoreV : f64; PValue : f64; Evidence : slice }.

(** The loop of [Detect]: how many scores are below the threshold. *)
Definition below (threshold : f64) (scores : list Score) : Z :=
  foldl (fun n s => if flt (ScoreV s) threshold then n + 1 else n) 0 scores.
Definition Detect (scores : list Score) (threshold : f64) (quorum : Z) : bool :=
  below threshold scores >=? quorum.

(** ** CUSUM *)

Record CUSUM := { mu0 : f64; delta : f64; h : f64; S : f64 }.

Definition NewCUSUM (m d b : f64) : CUSUM := {| mu0 := m; delta := d; h := b; S := S754_zero false |}.
Definition Alarmed (c : CUSUM) : bool := fle (h c) (S c).
Definition CObserve (c : CUSUM) (x : f64) : CUSUM * bool :=
  let c := {| mu0 := mu0 c; delta := delta c; h := h c;
              S := max0 (fsub (fadd (S c) (fsub x (mu0 c))) (delta c)) |} in
  (c, fle (h c) (S c)).

(** ** Auditor mirrors *)

Record AuditorLog := { aevents : list TrustEvent; ahead : slice; aalgo : hashAlgo }.

Definition NewAuditorLog (a : hashAlgo) : AuditorLog :=
  {| aevents := []; ahead := None; aalgo := a |}.

Section watchdog.
Context `{Hashes} `{Ed25519}.

Definition Mirror (l : AuditorLog) (e : TrustEvent) : AuditorLog :=
  {| aevents := aevents l ++ [e]; ahead := Some (Hash e); aalgo := aalgo l |}.

Fixpoint mirror_ok (a : hashAlgo) (prev : option TrustEvent) (es : list TrustEvent) : bool :=
  match es with
  | [] => true
  | e :: es => linkOk a prev e && mirror_ok a (Some e) es
  end.
Definition AVerify (l : AuditorLog) : bool := mirror_ok (aalgo l) None (aevents l).
Definition AHead (l : AuditorLog) : slice := ahead l.

(** ** Policy *)

(** [perID[p.Identity]++] over the ISSUE events that decode. *)
Definition count_issues (es : list TrustEvent) : gmap string Z :=
  foldl (fun m e =>
    match issued e with
    | Some p => <[pIdentity p := default 0 (m !! pIdentity p) + 1]> m
    | None => m
    end) ∅ es.

Definition violation (id : string) (n max : Z) : bytes :=
  to_bytes id ++ to_bytes ": " ++ dec_Z n ++ to_bytes " issues > " ++ dec_Z max.

Definition CheckPolicy (order : list string -> list string) (es : list TrustEvent) (max : Z)
    : list bytes :=
  let perID := count_issues es in
  omap (fun id => match perID !! id with
                  | Some n => if n >? max then Some (violation id n max) else None
                  | None => None
                  end) (order (map fst (map_to_list perID))).

(** ** Escalation *)

Definition distinctIDs (ids : list string) : gset string := list_to_set ids.

Definition DetectEscalated (scores : list Score) (auditors : list string) (target : string)
    (minAuditors : Z) (threshold : f64) (quorum : Z) : bool :=
  if (Z.of_nat (size (distinctIDs auditors)) >=? minAuditors) &&
     existsb (fun s => bool_decide (NodeID s = target) && flt (ScoreV s) threshold) scores
  then true
  else Detect scores threshold quorum.

(** ** Watchdogs *)

Definition WDIssuanceRate : string := "rate_cusum".
Definition WDLogIntegrity : string := "log_integrity".
Definition WDGraphAnomaly : string := "graph_anomaly".
Definition WDExternalProbe : string := "external_probe".
Definition WDBehaviorBaseline : string := "behavior_baseline".

Record Watchdog := {
  wID : string;
  wKind : string;
  wmu0 : f64;
  wdelta : f64;
  wh : f64;
  cusum : option CUSUM;
  perID : gmap string CUSUM;
  baseline : gmap string f64;
  firstIdx : Z;
  badStart : Z;
  checked : Z;
  cycles : Z;
  cached : option Score;
}.

Definition NewWatchdogBaseline (id kind : string) (m d b : f64) (base : gmap string f64) : Watchdog :=
  {| wID := id; wKind := kind; wmu0 := m; wdelta := d; wh := b;
     cusum := if decide (kind = WDIssuanceRate \/ kind = WDGraphAnomaly)
              then Some (NewCUSUM m d b) else None;
     perID := ∅; baseline := base; firstIdx := 0; badStart := -1; checked := -1; cycles := 0;
     cached := None |}.
Definition NewWatchdog (id kind : string) (m d b : f64) : Watchdog :=
  NewWatchdogBaseline id kind m d b ∅.

(** [observeShift]: the first batch with a positive drift. *)
Definition observeShift (start : Z) (c : CUSUM) (first : Z) : Z :=
  if flt (S754_zero false) (S c) && (start <? 0) then first else start.

(** The counters of one batch: issues, via-edges, issues per identity. *)
Definition batch_step (acc : Z * Z * gmap string Z) (e : TrustEvent) : Z * Z * gmap string Z :=
  let '(issues, edges, per) := acc in
  if negb (bool_decide (EType e = EvIssue)) then (issues, edges, per)
  else
    match issued e with
    | None => (issues + 1, edges, per)
    | Some p =>
        (issues + 1,
         if decide (pVia p = ""%string) then edges else edges + 1,
         if decide (pIdentity p = ""%string) then per
         else <[pIdentity p := default 0 (per !! pIdentity p) + 1]> per)
    end.
Definition batch_counts (es : list TrustEvent) : Z * Z * gmap string Z :=
  foldl batch_step (0, 0, ∅) es.

Definition with_cusum (w : Watchdog) (x : f64) (first : Z) : outcome Watchdog :=
  match cusum w with
  | None => Panic
  | Some c =>
      let c := fst (CObserve c x) in
      Ret {| wID := wID w; wKind := wKind w; wmu0 := wmu0 w; wdelta := wdelta w; wh := wh w;
             cusum := Some c; perID := perID w; baseline := baseline w; firstIdx := first;
             badStart := observeShift (badStart w) c first; checked := checked w;
             cycles := cycles w; cached := None |}
  end.

(** One identity of the behaviour baseline. *)
Definition observe_id (w : Watchdog) (first : Z) (st : gmap string CUSUM * Z) (idn : string * Z)
    : gmap string CUSUM * Z :=
  let '(per, start) := st in
  let c := match per !! idn.1 with
           | Some c => c
           | None => NewCUSUM (default (S754_zero false) (baseline w !! idn.1)) (wdelta w) (wh w)
           end in
  let c := fst (CObserve c (f64_of_Z idn.2)) in
  (<[idn.1 := c]> per, observeShift start c first).

Definition ObserveBatch (w : Watchdog) (es : list TrustEvent) (first : Z) : outcome Watchdog :=
  let '(issues, edges, per) := batch_counts es in
  if decide (wKind w = WDIssuanceRate) then with_cusum w (f64_of_Z issues) first
  else if decide (wKind w = WDGraphAnomaly) then with_cusum w (f64_of_Z edges) first
  else
    let '(ids, start) :=
      if decide (wKind w = WDBehaviorBaseline)
      then foldl (observe_id w first) (perID w, badStart w) (map_to_list per)
      else (perID w, badStart w) in
    Ret {| wID := wID w; wKind := wKind w; wmu0 := wmu0 w; wdelta := wdelta w; wh := wh w;
           cusum := cusum w; perID := ids; baseline := baseline w; firstIdx := first;
           badStart := start; checked := checked w; cycles := cycles w; cached := None |}.

(** The incremental scan from index [i]: parent link, and the signature under
    the timeline's current key. *)
Fixpoint scan (a : hashAlgo) (pub : bytes) (prev : option TrustEvent) (i : Z) (es : list TrustEvent)
    : outcome Z :=
  match es with
  | [] => Ret (-1)
  | e :: es =>
      if match prev with
         | Some p => negb (bytes_equal (sb (EParentHash e)) (hashWith a (signedBytes p)))
         | None => false
         end
      then Ret i
      else
        ok ← ed25519_Verify pub (canonical e) (sb (ESignature e));
        if negb ok then Ret i else scan a pub (Some e) (i + 1) es
  end.
Definition scan_from (t : Timeline) (k : Z) : outcome Z :=
  let n := Z.to_nat k in
  scan (algo t) (tpub t) (if (n =? 0)%nat then None else events t !! (n - 1)%nat) k
    (drop n (events t)).

Definition ev_index (i : Z) : bytes := print (JObj [jfield "bad_index" (jint i)]).

(** The evidence of the CUSUM kinds. *)
Definition ev_drift (i : Z) (s : f64) : bytes :=
  to_bytes "{" ++ print_str (to_bytes "bad_index") ++ to_bytes ":" ++ dec_Z i ++ to_bytes "," ++
  print_str (to_bytes "S") ++ to_bytes ":" ++ format_f2 s ++ to_bytes "}".
Definition ev_mirror (i : Z) (local mirror : slice) : bytes :=
  to_bytes "{" ++ print_str (to_bytes "bad_index") ++ to_bytes ":" ++ dec_Z i ++ to_bytes "," ++
  print_str (to_bytes "local") ++ to_bytes ":" ++ hex_encode (sb local) ++ to_bytes "," ++
  print_str (to_bytes "mirror") ++ to_bytes ":" ++ hex_encode (sb mirror) ++ to_bytes "}".

Variable quoted : string -> bytes.
Definition ev_identity (i : Z) (id : string) (s : f64) : bytes :=
  to_bytes "{" ++ print_str (to_bytes "bad_index") ++ to_bytes ":" ++ dec_Z i ++ to_bytes "," ++
  print_str (to_bytes "identity") ++ to_bytes ":" ++ quoted id ++ to_bytes "," ++
  print_str (to_bytes "S") ++ to_bytes ":" ++ format_f2 s ++ to_bytes "}".

Definition set_w (w : Watchdog) (start chk cyc : Z) : Watchdog :=
  {| wID := wID w; wKind := wKind w; wmu0 := wmu0 w; wdelta := wdelta w; wh := wh w;
     cusum := cusum w; perID := perID w; baseline := baseline w; firstIdx := firstIdx w;
     badStart := start; checked := chk; cycles := cyc; cached := cached w |}.

(** The detector's verdict: the watchdog after it, and the evidence of an alarm. *)
Definition verdict (order : list string -> list string) (w : Watchdog) (t : Timeline)
    (log : option AuditorLog) : outcome (Watchdog * option bytes) :=
  if decide (wKind w = WDIssuanceRate \/ wKind w = WDGraphAnomaly) then
    match cusum w with
    | None => Panic
    | Some c => Ret (w, if Alarmed c then Some (ev_drift (badStart w) (S c)) else None)
    end
  else if decide (wKind w = WDLogIntegrity) then
    let cyc := cycles w + 1 in
    let chk := if checked w <? 0 then 0 else checked w in
    bad ← (if Z.rem cyc 10 =? 0 then LocateBadEvent t else scan_from t chk);
    if bad >=? 0
    then Ret (set_w w bad chk cyc, Some (ev_index bad))
    else Ret (set_w w (badStart w) (zlen (events t)) cyc, None)
  else if decide (wKind w = WDExternalProbe) then
    let head := Head t in
    match log with
    | None => Ret (w, None)
    | Some l =>
        if bytes_equal (sb head) (sb (AHead l)) then Ret (w, None)
        else
          let start := zlen (aevents l) in
          Ret (set_w w start (checked w) (cycles w), Some (ev_mirror start head (AHead l)))
    end
  else if decide (wKind w = WDBehaviorBaseline) then
    let hit := List.find (fun id => match perID w !! id with Some c => Alarmed c | None => false end)
                 (order (map fst (map_to_list (perID w)))) in
    Ret (w, match hit with
            | Some id => (fun c => ev_identity (badStart w) id (S c)) <$> perID w !! id
            | None => None
            end)
  else Ret (w, None).

Definition computeScore (order : list string -> list string) (w : Watchdog) (t : Timeline)
    (log : option AuditorLog) : outcome (Watchdog * Score) :=
  '(w, ev) ← verdict order w t log;
  Ret (w, match ev with
          | Some b => {| NodeID := wID w; ScoreV := f64_of_Z 0; PValue := flit 1 2; Evidence := Some b |}
          | None => {| NodeID := wID w; ScoreV := f64_of_Z 100; PValue := f64_of_Z 1; Evidence := None |}
          end).

Definition WScore (order : list string -> list string) (w : Watchdog) (t : Timeline)
    (log : option AuditorLog) : outcome (Watchdog * Score) :=
  match cached w with
  | Some s => Ret (w, s)
  | None =>
      '(w, s) ← computeScore order w t log;
      Ret ({| wID := wID w; wKind := wKind w; wmu0 := wmu0 w; wdelta := wdelta w; wh := wh w;
              cusum := cusum w; perID := perID w; baseline := baseline w; firstIdx := firstIdx w;
              badStart := badStart w; checked := checked w; cycles := cycles w;
              cached := Some s |}, s)
  end.

End watchdog.

(** ** The fusion rule against Byzantine watchdogs *)

Lemma below_acc thr scores n :
  foldl (fun n s => if flt (ScoreV s) thr then n + 1 else n) n scores = n + below thr scores.
Proof.
  unfold below. revert n. induction scores as [|s scores IH]; intros n; cbn [foldl]; [lia|].
  destruct (flt (ScoreV s) thr); rewrite IH; [rewrite (IH (0 + 1))|]; lia.
Qed.

Lemma below_app thr a b : below thr (a ++ b) = below thr a + below thr b.
Proof. unfold below at 1. by rewrite foldl_app, below_acc. Qed.

Lemma below_cons thr s a : below thr (s :: a) = (if flt (ScoreV s) thr then 1 else 0) + below thr a.
Proof. unfold below at 1. cbn [foldl]. rewrite below_acc. by case_if. Qed.

Lemma below_range thr scores : 0 <= below thr scores <= zlen scores.
Proof.
  induction scores as [|s scores IH]; [done|]. rewrite below_cons. unfold zlen in *. cbn [length].
  case_if; lia.
Qed.

#[global] Instance below_perm thr : Proper (Permutation ==> eq) (below thr).
Proof.
  induction 1 as [| |x y l|]; rewrite ?below_cons; [done|congruence|lia|congruence].
Qed.


(** ** The CUSUM statistic *)

(** Fed any samples, NaN and infinities included, the statistic is never
    below zero: it is NaN or a non-negative number. *)
Lemma CUSUM_nonneg c xs :
  let c' := foldl (fun c x => fst (CObserve c x)) c xs in
  xs <> [] -> S c' = S754_nan \/ nonneg (S c') = true.
Proof.
  destruct xs as [|x xs _] using rev_ind; [done|]. intros c' _. subst c'. rewrite foldl_app.
  apply max0_spec.
Qed.

(** ** Log integrity *)

Section log_integrity.
Context `{HashLaws} `{Ed25519Laws} (quoted : string -> bytes) (order : list string -> list string).

(** One monitoring cycle: the batch is fed, the score is read. *)
Definition cycle (w : Watchdog) (batch : list TrustEvent) (first : Z) (t : Timeline)
    (log : option AuditorLog) : outcome (Watchdog * Score) :=
  w ← ObserveBatch w batch first; WScore quoted order w t log.

Fixpoint monitor (w : Watchdog) (ins : list (list TrustEvent * Z * Timeline))
    : outcome (list Score) :=
  match ins with
  | [] => Ret []
  | (batch, first, t) :: ins =>
      '(w, s) ← cycle w batch first t None;
      ss ← monitor w ins;
      Ret (s :: ss)
  end.

Lemma scan_total a pub prev i es :
  length pub = PublicKeySize -> exists k, scan a pub prev i es = Ret k.
Proof.
  intros Hl. revert prev i. induction es as [|e es IH]; intros prev i; cbn [scan]; [by eexists|].
  destruct (match prev with Some _ => _ | None => _ end); [by eexists|].
  rewrite Verify_len by done. cbn [mbind outcome_bind]. case_if; [by eexists|apply IH].
Qed.

Definition integrity (w : Watchdog) : Prop := wKind w = WDLogIntegrity.

Lemma ObserveBatch_integrity w batch first :
  integrity w -> exists w', ObserveBatch w batch first = Ret w' /\
    integrity w' /\
    cycles w' = cycles w /\ checked w' = checked w /\ cached w' = None /\ wID w' = wID w.
Proof.
  unfold integrity, ObserveBatch. intros Hk. rewrite Hk.
  destruct (batch_counts batch) as [[issues edges] per].
  rewrite !decide_False by done. by eexists.
Qed.

Definition clear_score (id : string) : Score :=
  {| NodeID := id; ScoreV := f64_of_Z 100; PValue := f64_of_Z 1; Evidence := None |}.
Definition alarm_at (id : string) (i : Z) : Score :=
  {| NodeID := id; ScoreV := f64_of_Z 0; PValue := flit 1 2; Evidence := Some (ev_index i) |}.

(** What a cycle of a log-integrity watchdog answers. *)
Definition checked_at (w : Watchdog) (t : Timeline) : outcome Z :=
  if Z.rem (cycles w + 1) 10 =? 0 then LocateBadEvent t
  else scan_from t (if checked w <? 0 then 0 else checked w).

Lemma cycle_integrity w batch first t k :
  integrity w -> checked_at w t = Ret k ->
  exists w', cycle w batch first t None =
      Ret (w', if k >=? 0 then alarm_at (wID w) k else clear_score (wID w)) /\
    integrity w' /\ cycles w' = cycles w + 1 /\ wID w' = wID w /\
    checked w' = (if k >=? 0 then if checked w <? 0 then 0 else checked w else zlen (events t)).
Proof.
  intros Hk Hc. unfold cycle.
  destruct (ObserveBatch_integrity w batch first Hk) as (w1 & -> & Hk1 & Hcy & Hch & Hca & Hid).
  cbn [mbind outcome_bind]. unfold WScore, computeScore, verdict. rewrite Hca.
  unfold integrity in *. rewrite Hk1, decide_False, decide_True by (intuition discriminate).
  unfold checked_at in Hc. rewrite Hcy, Hch, Hc. cbn [mbind outcome_bind].
  destruct (k >=? 0); cbn; rewrite Hid; eexists; repeat split; cbn; congruence.
Qed.

Lemma checked_at_total w t :
  length (tpub t) = PublicKeySize -> keys_ok t -> exists k, checked_at w t = Ret k.
Proof.
  intros Hl Hk. unfold checked_at. case_if; [by apply LocateBadEvent_total|]. by apply scan_total.
Qed.

(** A timeline the watchdog can be pointed at. *)
Definition watchable (t : Timeline) : Prop := length (tpub t) = PublicKeySize /\ keys_ok t.

Lemma monitor_total w ins :
  integrity w -> Forall (fun i => watchable i.2) ins ->
  exists ss, monitor w ins = Ret ss /\ length ss = length ins.
Proof.
  intros Hk HF. revert w Hk. induction HF as [|[[batch first] t] ins [Hl Hks] _ IH]; intros w Hk;
    cbn [monitor]; [by eexists|].
  destruct (checked_at_total w t Hl Hks) as [k Hc].
  destruct (cycle_integrity w batch first t k Hk Hc) as (w' & -> & Hk' & _).
  cbn [mbind outcome_bind]. destruct (IH w' Hk') as (ss & -> & Hls).
  eexists; split; [done|]. cbn. by rewrite Hls.
Qed.

(** The score of cycle [j] when it is a full one. *)
Lemma monitor_full w ins j batch first t k :
  integrity w -> Forall (fun i => watchable i.2) ins -> ins !! j = Some (batch, first, t) ->
  Z.rem (cycles w + 1 + Z.of_nat j) 10 = 0 -> LocateBadEvent t = Ret k -> 0 <= k ->
  exists ss, monitor w ins = Ret ss /\ ss !! j = Some (alarm_at (wID w) k).
Proof.
  intros Hk HF. revert w j Hk. induction HF as [|[[batch' first'] t'] ins [Hl Hks] HF IH];
    intros w j Hk Hj Hr Hb Hpos; [done|]. cbn [monitor].
  destruct (checked_at_total w t' Hl Hks) as [k' Hc].
  destruct (cycle_integrity w batch' first' t' k' Hk Hc) as (w' & -> & Hk' & Hcy & Hid & _).
  cbn [mbind outcome_bind]. destruct j as [|j].
  - destruct (monitor_total w' ins Hk' HF) as (ss & -> & _). eexists; split; [done|].
    cbn in Hj |- *. injection Hj as -> -> ->. unfold checked_at in Hc.
    rewrite Z.add_0_r in Hr. rewrite Hr in Hc. cbn in Hc. rewrite Hb in Hc. injection Hc as ->.
    by destruct (Z.geb_spec k' 0); [|lia].
  - destruct (IH w' j Hk') as (ss & -> & Hss); [done| |done|done|].
    { rewrite <- Hr, Hcy. f_equal. lia. }
    eexists; split; [done|]. rewrite <- Hid. exact Hss.
Qed.

(** C26.  Tampering is found: while the watched timelines stay tampered with,
    among any ten successive cycles of a log-integrity watchdog there is one
    whose score is the alarm, and its evidence is the exact index of the first
    bad event of the timeline at that cycle, whatever prefix the incremental
    scans had already passed over. *)
Theorem W2_detects w ins :
  wKind w = WDLogIntegrity -> 0 <= cycles w -> length ins = 10%nat ->
  Forall (fun i => watchable i.2 /\ Verify i.2 = Ret false) ins ->
  exists ss j t k, monitor w ins = Ret ss /\ snd <$> ins !! j = Some t /\
    LocateBadEvent t = Ret (Z.of_nat k) /\
    BadAt (councilPub t) (algo t) None (startPub t) (events t) k /\
    ss !! j = Some (alarm_at (wID w) (Z.of_nat k)) /\ flt (ScoreV (alarm_at (wID w) (Z.of_nat k))) (f64_of_Z 50) = true.
Proof.
  intros Hk Hcy Hlen HF.
  set (j := Z.to_nat (9 - cycles w mod 10)).
  assert (Hj : (j < length ins)%nat) by (unfold j; pose proof (Z.mod_pos_bound (cycles w) 10); lia).
  destruct (lookup_lt_is_Some_2 ins j Hj) as [[[batch first] t] Ej].
  pose proof (proj1 (Forall_lookup _ _) HF _ _ Ej) as [[Hl Hks] Hv]. cbn [snd] in *.
  assert (exists k, LocateBadEvent t = Ret (Z.of_nat k) /\
    BadAt (councilPub t) (algo t) None (startPub t) (events t) k) as (k & Hb & Hbad).
  { unfold Verify, LocateBadEvent, walkVerify, zlen in *. rewrite Nat2Z.id in *.
    destruct (walk_spec (councilPub t) (algo t) (length (events t)) (events t) None (startPub t) 0 Hks)
      as [[E1 _]|(k & _ & E1 & Hbad)]; [lia|..]; rewrite E1 in *; [done|]. by exists k. }
  destruct (monitor_full w ins j batch first t (Z.of_nat k)) as (ss & Hm & Hs);
    [done| |done| |done|lia|].
  { eapply Forall_impl; [exact HF|]. by intros ? [? _]. }
  { rewrite Z.rem_mod_nonneg by lia. unfold j. div_lia. }
  exists ss, j, t, k. by rewrite Ej.
Qed.

(** A rotation alarms W2: a watchdog that has checked everything up to a
    rotation verifies the KEY_ROTATE event under the key it introduces. *)
Theorem W2_rotation_false_alarm w t newKey ts t' h batch first :
  integrity w -> checked w = zlen (events t) -> Z.rem (cycles w + 1) 10 <> 0 ->
  writable t -> tstart t <> None -> real_key newKey ->
  RotateKey t (Some newKey) ts = Ret (t', h) ->
  (forall e, last (events t') = Some e ->
     ed_verify (pub_of newKey) (canonical e) (sb (ESignature e)) = false) ->
  Verify t' = Ret true /\
  exists w', cycle w batch first t' None = Ret (w', alarm_at (wID w) (zlen (events t))).
Proof.
  intros Hk Hch Hcy Hw Hst Hn Er0 Hbad.
  pose proof (RotateKey_writable _ _ _ _ _ Hw Hn Hst Er0) as Hw'. split.
  { destruct (writable_good _ Hw') as [Hok Hg]. by apply Verify_good. }
  destruct Hw as (priv & Hkey & Hr & _).
  destruct (RotateKey_ret t priv newKey ts Hkey (real_key_length _ Hr) Hn) as (t1 & h1 & Ea & Er).
  rewrite Er0 in Er. injection Er as -> ->.
  apply append_ret in Ea as (sig & priv' & Hk' & _ & -> & -> & _). cbn [events with_events] in *.
  set (e := {| EType := EvKeyRotate |}) in *.
  specialize (Hbad e (last_snoc _ _)).
  match goal with |- context [cycle w batch first ?x None] => set (t2 := x) in * end.
  assert (Hc : checked_at w t2 = Ret (zlen (events t))).
  { unfold checked_at. rewrite (proj2 (Z.eqb_neq _ _) Hcy), Hch.
    destruct (Z.ltb_spec (zlen (events t)) 0); [unfold zlen in *; lia|].
    unfold scan_from, t2. cbn [algo tpub events]. unfold zlen. rewrite Nat2Z.id, drop_app_length.
    cbn [scan]. case_if; [done|]. rewrite Verify_len by apply pub_of_length.
    cbn [mbind outcome_bind]. by rewrite Hbad. }
  destruct (cycle_integrity w batch first t2 _ Hk Hc) as (w' & -> & _). exists w'.
  by destruct (Z.geb_spec (zlen (events t)) 0); [|unfold zlen in *; lia].
Qed.

(** ** The external probe *)

Definition mirror_all (a : hashAlgo) (es : list TrustEvent) : AuditorLog :=
  foldl Mirror (NewAuditorLog a) es.

Lemma mirror_all_spec a es :
  aevents (mirror_all a es) = es /\ ahead (mirror_all a es) = Hash <$> last es.
Proof.
  unfold mirror_all. induction es as [|e es [IH1 IH2]] using rev_ind; [done|].
  rewrite foldl_snoc, last_snoc. cbn. by rewrite IH1.
Qed.

Definition fresh (w : Watchdog) (k : string) : Prop := wKind w = k /\ cached w = None.

(** An auditor that mirrors every event keeps W4 silent on a SHA-256 chain;
    on a dual-hash chain its head is the SHA-256 hash while W4 compares the
    dual digest, so that the probe alarms on every chain with an event. *)
Theorem W4_honest_mirror w t :
  fresh w WDExternalProbe ->
  exists w' s, WScore quoted order w t (Some (mirror_all (algo t) (events t))) = Ret (w', s) /\
    (algo t = algoSHA256 -> s = clear_score (wID w)) /\
    (algo t = algoDual -> events t <> [] -> ScoreV s = f64_of_Z 0).
Proof.
  intros [Hk Hc]. destruct (mirror_all_spec (algo t) (events t)) as [_ Hh].
  unfold WScore, computeScore, verdict. rewrite Hc, Hk.
  rewrite !decide_False, !decide_True by (intuition discriminate).
  unfold AHead, Head, thead, eventDigest. rewrite Hh.
  case_if; cbn [mbind outcome_bind]; do 2 eexists; (split; [reflexivity|]); split; intros Ha.
  - done.
  - intros Hne. apply bytes_equal_true in Heqb. rewrite Ha in Heqb. unfold Hash in Heqb.
    destruct (last (events t)) as [e|] eqn:El; [|by apply last_None in El].
    cbn in Heqb. apply (f_equal length) in Heqb.
    rewrite length_app, sha256_length, sha3_256_length in Heqb. done.
  - rewrite Ha in Heqb. unfold Hash in Heqb. cbn [hashWith] in Heqb. by rewrite bytes_equal_refl in Heqb.
  - done.
Qed.

End log_integrity.

(** ** Escalation *)

(** Auditors raise a detection and can do nothing else: the ensemble
    fires exactly when the fusion rule fires or at least [minAuditors]
    distinct operators name a watchdog whose own score is below the threshold.
    Listing one operator many times, or fewer operators than required, or
    a target that is not alarmed, changes nothing. *)
Theorem DetectEscalated_spec scores auditors target min thr quorum :
  (DetectEscalated scores auditors target min thr quorum = true <->
     Detect scores thr quorum = true \/
     (exists ops, NoDup ops /\ ops ⊆ auditors /\ min <= zlen ops) /\
     (exists s, s ∈ scores /\ NodeID s = target /\ flt (ScoreV s) thr = true)).
Proof.
  assert (Hops : Z.of_nat (size (distinctIDs auditors)) >= min <->
    exists ops, NoDup ops /\ ops ⊆ auditors /\ min <= zlen ops).
  { unfold distinctIDs. split.
    - intros Hm. exists (elements (list_to_set auditors : gset string)). split_and!.
      + apply NoDup_elements.
      + intros x. by rewrite elem_of_elements, elem_of_list_to_set.
      + unfold zlen. change (length (elements (list_to_set auditors : gset string)))
          with (size (list_to_set auditors : gset string)). lia.
    - intros (ops & Hnd & Hsub & Hm). unfold zlen in Hm.
      rewrite <- (size_list_to_set (C := gset string) ops Hnd) in Hm.
      assert (size (list_to_set ops : gset string) <= size (list_to_set auditors : gset string))%nat; [|lia].
      apply subseteq_size. intros x. rewrite !elem_of_list_to_set. apply Hsub. }
  rewrite <- Hops. unfold DetectEscalated.
  assert (Ht : existsb (fun s => bool_decide (NodeID s = target) && flt (ScoreV s) thr) scores = true <->
    exists s, s ∈ scores /\ NodeID s = target /\ flt (ScoreV s) thr = true).
  { rewrite existsb_exists. setoid_rewrite andb_true_iff. setoid_rewrite bool_decide_eq_true.
    setoid_rewrite list_elem_of_In. done. }
  rewrite <- Ht. destruct (Z.geb_spec (Z.of_nat (size (distinctIDs auditors))) min), (existsb _ scores);
    cbn [andb]; split; intuition (done || lia).
Qed.

(** ** Witnesses *)

Module WatchdogWitness.

Definition score (id : string) (x : Z) : Score :=
  {| NodeID := id; ScoreV := f64_of_Z x; PValue := f64_of_Z 1; Evidence := None |}.
Definition honest : list Score :=
  [score "w1" 0; score "w2" 100; score "w3" 0; score "w4" 0].
Definition w2 : Watchdog := NewWatchdog "w2" WDLogIntegrity (f64_of_Z 5) (flit 5 1) (f64_of_Z 3).
Definition ins : list (list TrustEvent * Z * Timeline) :=
  replicate 10 ([], 0, TimelineWitness.tampered).

Lemma ins_ok : Forall (fun i => watchable i.2 /\ Verify i.2 = Ret false) ins.
Proof.
  apply Forall_replicate. split; [split|]; vm_compute; reflexivity.
Qed.

End WatchdogWitness.


Lemma W2_detects_witness :
  exists ss j t k, monitor (fun s => to_bytes s) (fun l => l) WatchdogWitness.w2 WatchdogWitness.ins = Ret ss /\
    snd <$> WatchdogWitness.ins !! j = Some t /\
    LocateBadEvent t = Ret (Z.of_nat k) /\
    BadAt (councilPub t) (algo t) None (startPub t) (events t) k /\
    ss !! j = Some (alarm_at "w2" (Z.of_nat k)) /\
    flt (ScoreV (alarm_at "w2" (Z.of_nat k))) (f64_of_Z 50) = true.
Proof.
  apply (W2_detects (fun s => to_bytes s) (fun l => l) WatchdogWitness.w2 WatchdogWitness.ins);
    [reflexivity|vm_compute; discriminate|reflexivity|apply WatchdogWitness.ins_ok].
Defined.
