(* ===== verification/Merkle.v ===== *)
(** * The transparency log: [ctlog.go], the Merkle tree and its proofs

    [MerkleLog] is the list of leaf hashes.  [mth], [path] and [consPath] are
    the recursive functions of the file on index ranges [[i, j)]; [VerifyInclusion]
    and [VerifyConsistency] are the verifiers' loops on the leaf and tree
    frontiers [fn], [sn] (Go [int]s, here [Z], shifted right by [Z.div2]).
    The fuel of the range recursions is the width of the range, and the fuel of
    the two shift loops is 64, the width of [int]; [mth_split], [run_incl] and
    [run_cons] show that it never runs out.

    Theorems: [mth] is the tree hash of RFC 6962 section 2.1; every proof the
    log produces verifies; and a proof that verifies against the real root
    commits to the leaf (to the old log), unless two of the strings hashed on
    the way collide. *)
From S2P Require Import Prelude Crypto.

Section merkle.
Context `{Hashes}.

(** ** Definitions *)

Definition LeafHash (entry : bytes) : bytes := sha256 (Byte.x00 :: entry).

(** The string [nodeHash] feeds to SHA-256: [0x01 || l || r]. *)
Definition nodeInput (l r : bytes) : bytes := Byte.x01 :: l ++ r.
Definition nodeHash (l r : bytes) : bytes := sha256 (nodeInput l r).

Record MerkleLog := { leaves : list bytes }.

Definition NewMerkleLog : MerkleLog := {| leaves := [] |}.

Definition Append (m : MerkleLog) (entry : bytes) : MerkleLog * Z :=
  let l := leaves m ++ [LeafHash entry] in
  ({| leaves := l |}, zlen l - 1).

Definition Size (m : MerkleLog) : Z := zlen (leaves m).
Definition LogHashes (m : MerkleLog) : list bytes := leaves m.

(** The loop of [splitPoint]: [k] doubles while [k*2 < n]. *)
Fixpoint split_loop (fuel k n : nat) : nat :=
  match fuel with
  | O => k
  | S fuel => if (k * 2 <? n)%nat then split_loop fuel (k * 2) n else k
  end.
Definition splitPoint (n : nat) : nat := split_loop n 1 n.

Fixpoint mth_go (fuel : nat) (l : list bytes) (i j : nat) : bytes :=
  match fuel with
  | O => []
  | S fuel =>
      if (j <=? i)%nat then []
      else if (j - i =? 1)%nat then nth i l []
      else
        let k := splitPoint (j - i) in
        nodeHash (mth_go fuel l i (i + k)) (mth_go fuel l (i + k) j)
  end.
Definition mth (l : list bytes) (i j : nat) : bytes := mth_go (S (j - i)) l i j.

Definition Root (m : MerkleLog) : bytes := mth (leaves m) 0 (length (leaves m)).

Fixpoint path_go (fuel : nat) (l : list bytes) (i j idx : nat) (out : list bytes) : list bytes :=
  match fuel with
  | O => out
  | S fuel =>
      if (j - i =? 1)%nat then out
      else
        let k := splitPoint (j - i) in
        if (idx <? i + k)%nat
        then path_go fuel l i (i + k) idx out ++ [mth l (i + k) j]
        else path_go fuel l (i + k) j idx out ++ [mth l i (i + k)]
  end.
Definition path (l : list bytes) (i j idx : nat) (out : list bytes) : list bytes :=
  path_go (S (j - i)) l i j idx out.

Definition InclusionProof (m : MerkleLog) (idx size : Z) : outcome (bytes * list bytes) :=
  guard ((idx <? 0) || (idx >=? size) || (size >? zlen (leaves m)))
    "ctlog: inclusion proof out of range (idx %d, size %d, log %d)" (
  guard (size <? 1) "ctlog: requested size must be >= 1" (
  let n := Z.to_nat size in
  Ret (mth (leaves m) 0 n, path (leaves m) 0 n (Z.to_nat idx) []))).

Fixpoint consPath_go (fuel : nat) (l : list bytes) (i j n : nat) (b : bool)
    (out : list bytes) : list bytes :=
  match fuel with
  | O => out
  | S fuel =>
      if (n =? j - i)%nat then (if b then out else out ++ [mth l i j])
      else
        let k := splitPoint (j - i) in
        if (n <=? k)%nat
        then consPath_go fuel l i (i + k) n b out ++ [mth l (i + k) j]
        else consPath_go fuel l (i + k) j (n - k) false out ++ [mth l i (i + k)]
  end.
Definition consPath (l : list bytes) (i j n : nat) (b : bool) (out : list bytes) :=
  consPath_go (S (j - i)) l i j n b out.

Definition ConsistencyProof (m : MerkleLog) (size1 size2 : Z)
    : outcome (bytes * bytes * list bytes) :=
  guard ((size1 <? 1) || (size2 <? 1) || (size1 >=? size2) || (size2 >? zlen (leaves m)))
    "ctlog: need 1 <= from < to <= %d" (
  let n1 := Z.to_nat size1 in
  let n2 := Z.to_nat size2 in
  Ret (mth (leaves m) 0 n1, mth (leaves m) 0 n2, consPath (leaves m) 0 n2 n1 true [])).

(** [for fn != 0 && fn&1 == 0 { fn >>= 1; sn >>= 1 }] *)
Fixpoint shift_even (fuel : nat) (fn sn : Z) : Z * Z :=
  match fuel with
  | O => (fn, sn)
  | S fuel =>
      if negb (fn =? 0) && Z.even fn then shift_even fuel (Z.div2 fn) (Z.div2 sn)
      else (fn, sn)
  end.

(** [for fn&1 == 1 { fn >>= 1; sn >>= 1 }] *)
Fixpoint shift_odd (fuel : nat) (fn sn : Z) : Z * Z :=
  match fuel with
  | O => (fn, sn)
  | S fuel => if Z.odd fn then shift_odd fuel (Z.div2 fn) (Z.div2 sn) else (fn, sn)
  end.

(** The frontiers after one iteration, both verifiers: [true] when the sibling
    is combined on the left. *)
Definition frontier_left (fn sn : Z) : bool := Z.odd fn || (fn =? sn).
Definition frontier_next (fn sn : Z) : Z * Z :=
  let '(fn, sn) :=
    if frontier_left fn sn && Z.even fn then shift_even 64 fn sn else (fn, sn) in
  (Z.div2 fn, Z.div2 sn).

Fixpoint vi_loop (proof : list bytes) (r : bytes) (fn sn : Z) : bytes :=
  match proof with
  | [] => if negb (sn =? 0) then [] else r
  | p :: proof =>
      if sn =? 0 then []
      else
        let r := if frontier_left fn sn then nodeHash p r else nodeHash r p in
        let '(fn, sn) := frontier_next fn sn in
        vi_loop proof r fn sn
  end.

Definition VerifyInclusion (leafHash : bytes) (idx size : Z) (proof : list bytes) : bytes :=
  if (idx <? 0) || (idx >=? size) then [] else vi_loop proof leafHash idx (size - 1).

Fixpoint vc_loop (proof : list bytes) (fr sr : bytes) (fn sn : Z) : option (bytes * bytes * Z) :=
  match proof with
  | [] => Some (fr, sr, sn)
  | c :: proof =>
      if sn =? 0 then None
      else
        let '(fr, sr) :=
          if frontier_left fn sn then (nodeHash c fr, nodeHash c sr)
          else (fr, nodeHash sr c) in
        let '(fn, sn) := frontier_next fn sn in
        vc_loop proof fr sr fn sn
  end.

Definition VerifyConsistency (oldRoot newRoot : bytes) (size1 size2 : Z)
    (proof : list bytes) : bool :=
  if size1 =? 0 then (length proof =? 0)%nat
  else if (size1 >? size2) || (length oldRoot =? 0)%nat || (length newRoot =? 0)%nat then false
  else if size1 =? size2 then (length proof =? 0)%nat && bytes_equal oldRoot newRoot
  else if (length proof =? 0)%nat then false
  else
    let path := if Z.land size1 (size1 - 1) =? 0 then oldRoot :: proof else proof in
    let '(fn, sn) := shift_odd 64 (size1 - 1) (size2 - 1) in
    match path with
    | [] => false
    | x :: rest =>
        match vc_loop rest x x fn sn with
        | Some (fr, sr, sn) => (sn =? 0) && bytes_equal fr oldRoot && bytes_equal sr newRoot
        | None => false
        end
    end.

(** ** The split point *)

Lemma split_loop_spec fuel d n :
  (2 ^ d < n)%nat -> (n <= 2 ^ d * 2 ^ fuel)%nat ->
  exists d', split_loop fuel (2 ^ d) n = (2 ^ d')%nat /\ (2 ^ d' < n <= 2 ^ S d')%nat.
Proof.
  revert d. induction fuel as [|fuel IH]; intros d Hlt Hle; cbn [split_loop].
  { cbn in Hle. lia. }
  destruct (Nat.ltb_spec (2 ^ d * 2) n) as [Hk|Hk].
  - replace (2 ^ d * 2)%nat with (2 ^ S d)%nat in * by (cbn; lia).
    apply IH; [done|]. cbn [Nat.pow] in *. lia.
  - exists d. cbn [Nat.pow]. lia.
Qed.

(** [splitPoint n] is the largest power of two strictly below [n]. *)
Lemma splitPoint_spec n :
  (2 <= n)%nat ->
  exists d, splitPoint n = (2 ^ d)%nat /\ (2 ^ d < n <= 2 ^ S d)%nat.
Proof.
  intros Hn. apply (split_loop_spec n 0); cbn; [lia|].
  pose proof (Nat.pow_gt_lin_r 2 n). lia.
Qed.

Lemma splitPoint_bounds n : (2 <= n)%nat -> (0 < splitPoint n < n)%nat.
Proof.
  intros Hn. destruct (splitPoint_spec n Hn) as (d & -> & Hd).
  pose proof (Nat.pow_nonzero 2 d). lia.
Qed.

Lemma splitPoint_unique n d : (2 ^ d < n <= 2 ^ S d)%nat -> splitPoint n = (2 ^ d)%nat.
Proof.
  intros Hd. destruct (splitPoint_spec n) as (d' & -> & Hd').
  { pose proof (Nat.pow_nonzero 2 d). lia. }
  f_equal. destruct (Nat.lt_trichotomy d d') as [Hl|[->|Hl]]; [|done|].
  - pose proof (Nat.pow_le_mono_r 2 (S d) d'). lia.
  - pose proof (Nat.pow_le_mono_r 2 (S d') d). lia.
Qed.

(** ** The tree hash of RFC 6962 *)

Lemma mth_go_fuel f f' l i j :
  (j - i < f)%nat -> (j - i < f')%nat -> mth_go f l i j = mth_go f' l i j.
Proof.
  revert f' i j. induction f as [|f IH]; intros f' i j Hf Hf'; [lia|].
  destruct f' as [|f']; [lia|]. cbn [mth_go].
  destruct (Nat.leb_spec j i); [done|].
  destruct (Nat.eqb_spec (j - i) 1); [done|].
  pose proof (splitPoint_bounds (j - i)). f_equal; apply IH; lia.
Qed.

Lemma mth_eq l i j :
  (i + 2 <= j)%nat ->
  mth l i j = nodeHash (mth l i (i + splitPoint (j - i))) (mth l (i + splitPoint (j - i)) j).
Proof.
  intros Hij. pose proof (splitPoint_bounds (j - i)). unfold mth at 1. cbn [mth_go].
  destruct (Nat.leb_spec j i); [lia|].
  destruct (Nat.eqb_spec (j - i) 1); [lia|].
  f_equal; apply mth_go_fuel; lia.
Qed.

Lemma mth_ext l l' i i' w :
  (forall x, (x < w)%nat -> nth (i + x) l [] = nth (i' + x) l' []) ->
  mth l i (i + w) = mth l' i' (i' + w).
Proof.
  revert i i'. induction (lt_wf w) as [w _ IH]; intros i i' Hx.
  destruct (decide (2 <= w)%nat) as [Hw|Hw].
  - pose proof (splitPoint_bounds w).
    rewrite (mth_eq l), (mth_eq l') by lia.
    replace (i + w - i)%nat with w by lia. replace (i' + w - i')%nat with w by lia.
    set (k := splitPoint w) in *.
    replace (i + w)%nat with (i + k + (w - k))%nat by lia.
    replace (i' + w)%nat with (i' + k + (w - k))%nat by lia.
    f_equal; apply IH; try lia; intros x Hxk.
    + apply Hx. lia.
    + rewrite <- !Nat.add_assoc. apply Hx. lia.
  - unfold mth. replace (i + w - i)%nat with w by lia. replace (i' + w - i')%nat with w by lia.
    cbn [mth_go]. replace (i + w - i)%nat with w by lia. replace (i' + w - i')%nat with w by lia.
    destruct (Nat.leb_spec (i + w) i), (Nat.leb_spec (i' + w) i'); try lia; [done|].
    destruct (Nat.eqb_spec w 1); [|lia].
    specialize (Hx 0%nat). rewrite !Nat.add_0_r in Hx. apply Hx. lia.
Qed.

(** The tree hash of a whole list. *)
Definition mtl (l : list bytes) : bytes := mth l 0 (length l).

Lemma nth_take_drop (l : list bytes) n i x :
  (x < n)%nat -> nth x (take n (drop i l)) [] = nth (i + x) l [].
Proof.
  intros Hx. rewrite !nth_lookup, lookup_take_lt, lookup_drop by done. done.
Qed.

Lemma mth_sub l i w :
  (i + w <= length l)%nat -> mth l i (i + w) = mtl (take w (drop i l)).
Proof.
  intros Hl. unfold mtl. rewrite length_take, length_drop, Nat.min_l by lia.
  apply (mth_ext _ _ i 0 w). intros x Hx. by rewrite nth_take_drop.
Qed.

Lemma mth_prefix l n : (n <= length l)%nat -> mth l 0 n = mtl (take n l).
Proof. intros Hn. apply (mth_sub l 0 n). lia. Qed.

Lemma mth_suffix l k : (k <= length l)%nat -> mth l k (length l) = mtl (drop k l).
Proof.
  intros Hk. replace (length l) with (k + (length l - k))%nat by lia.
  rewrite mth_sub by lia. f_equal. apply take_ge. rewrite length_drop. lia.
Qed.

Lemma mtl_one x : mtl [x] = x.
Proof. done. Qed.

Lemma mtl_split l :
  (2 <= length l)%nat ->
  mtl l = nodeHash (mtl (take (splitPoint (length l)) l)) (mtl (drop (splitPoint (length l)) l)).
Proof.
  intros Hl. pose proof (splitPoint_bounds (length l)). unfold mtl at 1.
  rewrite mth_eq, Nat.sub_0_r by lia. cbn [Nat.add].
  by rewrite mth_prefix, mth_suffix by lia.
Qed.

Lemma path_go_eq f l i j idx out :
  (j - i < f)%nat -> (i + 2 <= j)%nat ->
  path_go f l i j idx out =
  let k := splitPoint (j - i) in
  if (idx <? i + k)%nat
  then path l i (i + k) idx out ++ [mth l (i + k) j]
  else path l (i + k) j idx out ++ [mth l i (i + k)].
Proof.
  assert (Hfuel : forall f f' i j out, (j - i < f)%nat -> (j - i < f')%nat -> (i < j)%nat ->
    path_go f l i j idx out = path_go f' l i j idx out).
  { clear. induction f as [|f IH]; intros f' i j out Hf Hf' Hij; [lia|].
    destruct f' as [|f']; [lia|]. cbn [path_go].
    destruct (Nat.eqb_spec (j - i) 1); [done|].
    pose proof (splitPoint_bounds (j - i)).
    destruct (idx <? _)%nat; f_equal; apply IH; lia. }
  intros Hf Hij. destruct f as [|f]; [lia|]. cbn [path_go].
  destruct (Nat.eqb_spec (j - i) 1); [lia|]. cbv zeta.
  pose proof (splitPoint_bounds (j - i)). unfold path.
  destruct (idx <? _)%nat; f_equal; apply Hfuel; lia.
Qed.

Lemma consPath_go_eq f l i j n b out :
  (j - i < f)%nat -> (i < j)%nat -> n <> (j - i)%nat -> (1 <= n <= j - i)%nat ->
  consPath_go f l i j n b out =
  let k := splitPoint (j - i) in
  if (n <=? k)%nat
  then consPath l i (i + k) n b out ++ [mth l (i + k) j]
  else consPath l (i + k) j (n - k) false out ++ [mth l i (i + k)].
Proof.
  assert (Hfuel : forall f f' i j n b out, (j - i < f)%nat -> (j - i < f')%nat -> (1 <= n <= j - i)%nat ->
    consPath_go f l i j n b out = consPath_go f' l i j n b out).
  { clear. induction f as [|f IH]; intros f' i j n b out Hf Hf' Hn; [lia|].
    destruct f' as [|f']; [lia|]. cbn [consPath_go].
    destruct (Nat.eqb_spec n (j - i)); [done|].
    pose proof (splitPoint_bounds (j - i)).
    destruct (Nat.leb_spec n (splitPoint (j - i))); f_equal; apply IH; lia. }
  intros Hf Hij Hne Hn. destruct f as [|f]; [lia|]. cbn [consPath_go].
  destruct (Nat.eqb_spec n (j - i)); [lia|]. cbv zeta.
  pose proof (splitPoint_bounds (j - i)). unfold consPath.
  destruct (Nat.leb_spec n (splitPoint (j - i))); f_equal; apply Hfuel; lia.
Qed.

(** ** Inclusion: the recursive reading of a proof *)

(** [Rebuild n idx lh ps r hs]: climbing from leaf hash [lh] at index [idx] of a
    tree of [n] leaves along the siblings [ps] (bottom-up) gives the root [r],
    having hashed the strings [hs]. *)
Inductive Rebuild (lh : bytes) : nat -> nat -> list bytes -> bytes -> list bytes -> Prop :=
| rebuild_leaf : Rebuild lh 1 0 [] lh []
| rebuild_left n idx ps r hs p :
    (2 <= n)%nat -> (idx < splitPoint n)%nat ->
    Rebuild lh (splitPoint n) idx ps r hs ->
    Rebuild lh n idx (ps ++ [p]) (nodeHash r p) (hs ++ [nodeInput r p])
| rebuild_right n idx ps r hs p :
    (2 <= n)%nat -> (splitPoint n <= idx < n)%nat ->
    Rebuild lh (n - splitPoint n) (idx - splitPoint n) ps r hs ->
    Rebuild lh n idx (ps ++ [p]) (nodeHash p r) (hs ++ [nodeInput p r]).

Lemma rebuild_idx lh n idx ps r hs : Rebuild lh n idx ps r hs -> (idx < n)%nat.
Proof. induction 1; try lia. pose proof (splitPoint_bounds n). lia. Qed.

(** The proof the log emits climbs to the root. *)
Lemma path_rebuild l w :
  forall i idx, (i <= idx < i + w)%nat ->
  exists hs, Rebuild (nth idx l []) w (idx - i) (path l i (i + w) idx []) (mth l i (i + w)) hs.
Proof.
  induction (lt_wf w) as [w _ IH]; intros i idx Hi.
  destruct (decide (w = 1)%nat) as [->|Hw].
  - replace idx with i by lia. exists []. rewrite Nat.sub_diag.
    unfold path, mth. replace (i + 1 - i)%nat with 1%nat by lia. cbn [path_go mth_go].
    replace (i + 1 - i)%nat with 1%nat by lia.
    destruct (Nat.leb_spec (i + 1) i); [lia|]. constructor.
  - pose proof (splitPoint_bounds w). unfold path. rewrite path_go_eq by lia. cbv zeta.
    rewrite (mth_eq l i (i + w)) by lia. replace (i + w - i)%nat with w by lia.
    destruct (Nat.ltb_spec idx (i + splitPoint w)).
    + destruct (IH (splitPoint w)) with (i := i) (idx := idx) as [hs Hr]; [lia..|].
      eexists. apply rebuild_left; [lia..|exact Hr].
    + destruct (IH (w - splitPoint w)%nat) with (i := (i + splitPoint w)%nat) (idx := idx)
        as [hs Hr]; [lia..|].
      eexists. apply rebuild_right; [lia..|].
      replace (idx - i - splitPoint w)%nat with (idx - (i + splitPoint w))%nat by lia.
      replace (i + splitPoint w + (w - splitPoint w))%nat with (i + w)%nat in Hr by lia.
      exact Hr.
Qed.

(** The number of siblings depends only on the index and the size. *)
Lemma rebuild_total n :
  forall idx, (idx < n)%nat ->
  exists d, (forall lh ps, length ps = d -> exists r hs, Rebuild lh n idx ps r hs) /\
            (forall lh ps r hs, Rebuild lh n idx ps r hs -> length ps = d).
Proof.
  induction (lt_wf n) as [n _ IH]; intros idx Hidx.
  destruct (decide (n = 1)%nat) as [->|Hn].
  { exists 0%nat. replace idx with 0%nat by lia. split.
    - intros lh [|??]; [|done]. intros _. exists lh, []. constructor.
    - intros lh ps r hs Hr. inversion Hr; subst; done || lia. }
  pose proof (splitPoint_bounds n).
  destruct (decide (idx < splitPoint n)%nat) as [Hk|Hk].
  - destruct (IH (splitPoint n)) with (idx := idx) as (d & Hex & Hlen); [lia..|].
    exists (S d). split.
    + intros lh ps. induction ps as [|p ps _] using rev_ind; [done|].
      rewrite length_app, Nat.add_1_r. intros [= Hps].
      destruct (Hex lh ps Hps) as (r & hs & Hr). do 2 eexists. apply rebuild_left; [lia|lia|exact Hr].
    + intros lh ps r hs Hr. inversion Hr; subst; [lia| |lia].
      rewrite length_app, (Hlen lh ps0 r0 hs0) by done. cbn. lia.
  - destruct (IH (n - splitPoint n)%nat) with (idx := (idx - splitPoint n)%nat)
      as (d & Hex & Hlen); [lia..|].
    exists (S d). split.
    + intros lh ps. induction ps as [|p ps _] using rev_ind; [done|].
      rewrite length_app, Nat.add_1_r. intros [= Hps].
      destruct (Hex lh ps Hps) as (r & hs & Hr). do 2 eexists. apply rebuild_right; [lia|lia|exact Hr].
    + intros lh ps r hs Hr. inversion Hr; subst; [lia|lia|].
      rewrite length_app, (Hlen lh ps0 r0 hs0) by done. cbn. lia.
Qed.

(** ** The verifier's loop follows the recursive reading *)

Lemma div2_double a : Z.div2 (2 * a) = a.
Proof. rewrite Z.div2_div. symmetry. apply (Z.div_unique _ _ _ 0); lia. Qed.
Lemma div2_succ_double a : Z.div2 (2 * a + 1) = a.
Proof. rewrite Z.div2_div. symmetry. apply (Z.div_unique _ _ _ 1); lia. Qed.

(** One iteration, by the shape of the frontiers. *)
Lemma frontier_right a b :
  2 * a <> b -> frontier_left (2 * a) b = false /\ frontier_next (2 * a) b = (a, Z.div2 b).
Proof.
  intros Hab. unfold frontier_next, frontier_left. rewrite Z.odd_mul. cbn [Z.odd andb].
  apply Z.eqb_neq in Hab. rewrite Hab. cbn [orb andb]. by rewrite div2_double.
Qed.

Lemma frontier_odd a b :
  frontier_left (2 * a + 1) b = true /\ frontier_next (2 * a + 1) b = (a, Z.div2 b).
Proof.
  unfold frontier_next, frontier_left.
  rewrite Z.odd_odd, Z.even_odd. cbn [orb andb]. by rewrite div2_succ_double.
Qed.

Lemma shift_even_pow fuel t a :
  Z.odd a = true -> (t <= fuel)%nat ->
  shift_even fuel (2 ^ Z.of_nat t * a) (2 ^ Z.of_nat t * a) = (a, a).
Proof.
  revert t. induction fuel as [|fuel IH]; intros t Ha Ht.
  { replace t with 0%nat by lia. cbn. by destruct a. }
  cbn [shift_even]. destruct t as [|t].
  - rewrite Z.mul_1_l. rewrite <- Z.negb_odd, Ha. by rewrite andb_false_r.
  - rewrite Nat2Z.inj_succ, Z.pow_succ_r by lia. rewrite <- Z.mul_assoc.
    rewrite Z.even_mul. cbn [Z.even orb]. rewrite andb_true_r.
    destruct (Z.eqb_spec (2 * (2 ^ Z.of_nat t * a)) 0) as [E|_]; cbn [negb].
    { destruct a as [|a|a]; [done| |]; pose proof (Z.pow_pos_nonneg 2 (Z.of_nat t)); nia. }
    rewrite div2_double. apply IH; [done|lia].
Qed.

(** At a coincidence of the frontiers both climb to the parent of the highest
    subtree ending there. *)
Lemma frontier_equal t a :
  0 <= a -> (t <= 64)%nat ->
  let f := 2 ^ Z.of_nat t * (2 * a + 1) in
  frontier_left f f = true /\ frontier_next f f = (a, a).
Proof.
  intros Ha Ht f. unfold frontier_next, frontier_left.
  rewrite Z.eqb_refl, orb_true_r. split; [done|]. cbn [andb].
  assert (Hodd : Z.odd (2 * a + 1) = true) by apply Z.odd_odd.
  destruct (Z.even f) eqn:Hev; subst f.
  - rewrite shift_even_pow by done. by rewrite div2_succ_double.
  - destruct t as [|t].
    + rewrite Z.mul_1_l. by rewrite div2_succ_double.
    + rewrite Nat2Z.inj_succ, Z.pow_succ_r, <- Z.mul_assoc, Z.even_mul in Hev by lia. done.
Qed.

(** The loop with its log of hashed strings. *)
Fixpoint run_incl (ps : list bytes) (st : bytes * Z * Z * list bytes)
    : option (bytes * Z * Z * list bytes) :=
  match ps with
  | [] => Some st
  | p :: ps =>
      let '(r, fn, sn, hs) := st in
      if sn =? 0 then None
      else
        let s := if frontier_left fn sn then nodeInput p r else nodeInput r p in
        run_incl ps (sha256 s, (frontier_next fn sn).1, (frontier_next fn sn).2, hs ++ [s])
  end.

(** The strings [VerifyInclusion] hashes. *)
Definition incl_inputs (leafHash : bytes) (idx size : Z) (proof : list bytes) : list bytes :=
  match run_incl proof (leafHash, idx, size - 1, []) with
  | Some (_, _, _, hs) => hs
  | None => []
  end.

Lemma run_incl_app ps qs st :
  run_incl (ps ++ qs) st = run_incl ps st ≫= run_incl qs.
Proof.
  revert st. induction ps as [|p ps IH]; intros [[[r fn] sn] hs]; [done|]. cbn.
  case_if; [done|]. apply IH.
Qed.

Lemma vi_loop_run ps r fn sn hs :
  vi_loop ps r fn sn =
  match run_incl ps (r, fn, sn, hs) with
  | Some (r', _, sn', _) => if negb (sn' =? 0) then [] else r'
  | None => []
  end.
Proof.
  revert r fn sn hs. induction ps as [|p ps IH]; intros r fn sn hs; [done|]. cbn.
  case_if; [done|]. rewrite (surjective_pairing (frontier_next fn sn)).
  unfold nodeHash. destruct (frontier_left fn sn); apply IH.
Qed.

Lemma run_incl_snoc ps p st r fn sn hs :
  run_incl ps st = Some (r, fn, sn, hs) -> sn <> 0 ->
  run_incl (ps ++ [p]) st =
    Some ((if frontier_left fn sn then nodeHash p r else nodeHash r p),
          (frontier_next fn sn).1, (frontier_next fn sn).2,
          hs ++ [if frontier_left fn sn then nodeInput p r else nodeInput r p]).
Proof.
  intros Hr Hsn. rewrite run_incl_app, Hr. cbn.
  apply Z.eqb_neq in Hsn. rewrite Hsn. unfold nodeHash. by destruct (frontier_left fn sn).
Qed.

Lemma splitPoint_pow d : splitPoint (2 ^ S d) = (2 ^ d)%nat.
Proof.
  apply splitPoint_unique. pose proof (Nat.pow_nonzero 2 d). cbn [Nat.pow]. lia.
Qed.

Lemma pow2_Z d : Z.of_nat (2 ^ d) = 2 ^ Z.of_nat d.
Proof. by rewrite Nat2Z.inj_pow. Qed.

Lemma pow2_succ d : 2 ^ Z.of_nat (S d) = 2 * 2 ^ Z.of_nat d.
Proof. by rewrite Nat2Z.inj_succ, Z.pow_succ_r by lia. Qed.

Lemma div2_bit c b : 0 <= c <= 1 -> Z.div2 (c + 2 * b) = b.
Proof. intros Hc. rewrite Z.div2_div. symmetry. apply (Z.div_unique _ _ _ c); lia. Qed.

(** A right frontier [s + P*b] of a subtree of [2P] leaves, seen from its half. *)
Lemma half_frontier P s b a :
  0 < P -> 0 <= s < 2 * P -> 0 <= a <= b -> (a < b \/ s = 2 * P - 1) ->
  exists c s', s + 2 * P * b = s' + P * (c + 2 * b) /\ 0 <= c <= 1 /\ 0 <= s' < P /\
    2 * a < c + 2 * b /\ (2 * a + 1 < c + 2 * b \/ (2 * a + 1 = c + 2 * b /\ s' = P - 1)).
Proof.
  intros HP Hs Hab Hor. destruct (Z_lt_dec s P).
  - exists 0, s. repeat split; try lia.
  - exists 1, (s - P). repeat split; try lia.
Qed.

Lemma run_incl_perfect d :
  forall lh idx ps r hs a b s log,
  Rebuild lh (2 ^ d) idx ps r hs ->
  0 <= a <= b -> 0 <= s < 2 ^ Z.of_nat d -> (a < b \/ s = 2 ^ Z.of_nat d - 1) ->
  run_incl ps (lh, Z.of_nat idx + 2 ^ Z.of_nat d * a, s + 2 ^ Z.of_nat d * b, log)
  = Some (r, a, b, log ++ hs).
Proof.
  induction d as [|d IH]; intros lh idx ps r hs a b s log Hr Hab Hs Hor.
  { inversion Hr; subst; [|cbn in *; lia..]. cbn [run_incl].
    rewrite app_nil_r. cbn in *. do 4 f_equal; lia. }
  rewrite pow2_succ in *. set (P := 2 ^ Z.of_nat d) in *.
  assert (0 < P) by (subst P; apply Z.pow_pos_nonneg; lia).
  destruct (half_frontier P s b a) as (c & s' & -> & Hc & Hs' & Hlt & Hlast); [done..|].
  inversion Hr as [|n ? ps' r' hs' p Hn Hi Hr' |n ? ps' r' hs' p Hn Hi Hr']; subst.
  { exfalso. pose proof (Nat.pow_nonzero 2 d). cbn in *. lia. }
  - rewrite splitPoint_pow in *.
    replace (Z.of_nat idx + 2 * P * a) with (Z.of_nat idx + P * (2 * a)) by lia.
    erewrite run_incl_snoc; [|eapply IH; [exact Hr'|lia..]|lia].
    destruct (frontier_right a (c + 2 * b)) as [-> ->]; [lia|]. cbn [fst snd].
    by rewrite div2_bit, app_assoc.
  - rewrite splitPoint_pow in *.
    replace (2 ^ S d - 2 ^ d)%nat with (2 ^ d)%nat in Hr' by (cbn; lia).
    replace (Z.of_nat idx + 2 * P * a) with (Z.of_nat (idx - 2 ^ d) + P * (2 * a + 1))
      by (rewrite Nat2Z.inj_sub, pow2_Z by lia; fold P; lia).
    erewrite run_incl_snoc; [|eapply IH; [exact Hr'|lia..]|lia].
    destruct (frontier_odd a (c + 2 * b)) as [-> ->]. cbn [fst snd].
    by rewrite div2_bit, app_assoc.
Qed.

Lemma pow2_split d e : (d < e)%nat -> 2 ^ Z.of_nat e = 2 ^ Z.of_nat d * (2 * 2 ^ Z.of_nat (e - d - 1)).
Proof.
  intros Hde. rewrite <- Z.pow_succ_r, <- Z.pow_add_r by lia. f_equal. lia.
Qed.

(** The right border: both frontiers reach the same node. *)
Lemma run_incl_border n :
  forall lh idx ps r hs a e log,
  Rebuild lh n idx ps r hs -> 0 <= a -> (n <= 2 ^ e)%nat -> (e <= 64)%nat ->
  exists t, (t <= e)%nat /\
  run_incl ps (lh, Z.of_nat idx + 2 ^ Z.of_nat e * a,
               Z.of_nat n - 1 + 2 ^ Z.of_nat e * a, log)
  = Some (r, 2 ^ Z.of_nat t * a, 2 ^ Z.of_nat t * a, log ++ hs).
Proof.
  induction (lt_wf n) as [n _ IH]; intros lh idx ps r hs a e log Hr Ha Hn He.
  inversion Hr as [|m ? ps' r' hs' p Hm Hi Hr' |m ? ps' r' hs' p Hm Hi Hr']; subst.
  { exists e. split; [done|]. cbn. rewrite app_nil_r. do 4 f_equal; lia. }
  all: destruct (splitPoint_spec n Hm) as (d & Hd & Hdn); rewrite Hd in *.
  all: assert (Hde : (d < e)%nat) by (apply (Nat.pow_lt_mono_r_iff 2); lia).
  all: rewrite (pow2_split d e Hde); set (P := 2 ^ Z.of_nat d) in *;
    set (Q := 2 ^ Z.of_nat (e - d - 1)) in *.
  all: assert (HQ : 0 < Q) by (subst Q; apply Z.pow_pos_nonneg; lia).
  all: assert (HP : P = Z.of_nat (2 ^ d)) by (subst P; by rewrite pow2_Z).
  all: assert (HPn : P <= Z.of_nat n - 1 < 2 * P) by (cbn [Nat.pow] in Hdn; lia).
  - exists (e - d - 1)%nat. split; [lia|].
    replace (Z.of_nat n - 1 + P * (2 * Q) * a)
      with ((Z.of_nat n - 1 - P) + P * (1 + 2 * (Q * a))) by lia.
    replace (Z.of_nat idx + P * (2 * Q) * a) with (Z.of_nat idx + P * (2 * (Q * a))) by lia.
    erewrite run_incl_snoc; [|eapply run_incl_perfect; [exact Hr'|nia..]|nia].
    destruct (frontier_right (Q * a) (1 + 2 * (Q * a))) as [-> ->]; [lia|]. cbn [fst snd].
    by rewrite div2_bit, app_assoc.
  - exists (e - d - 1)%nat. split; [lia|].
    destruct (IH (n - 2 ^ d)%nat ltac:(lia) lh (idx - 2 ^ d)%nat ps' r' hs' (2 * (Q * a) + 1) d log)
      as (t & Ht & Hrun); [done|nia|cbn [Nat.pow] in Hdn; lia|lia|].
    fold P in Hrun. rewrite !Nat2Z.inj_sub in Hrun by lia. rewrite <- HP in Hrun.
    replace (Z.of_nat idx + P * (2 * Q) * a)
      with (Z.of_nat idx - P + P * (2 * (Q * a) + 1)) by lia.
    replace (Z.of_nat n - 1 + P * (2 * Q) * a)
      with (Z.of_nat n - P - 1 + P * (2 * (Q * a) + 1)) by lia.
    assert (0 < 2 ^ Z.of_nat t) by (apply Z.pow_pos_nonneg; lia).
    erewrite run_incl_snoc; [|exact Hrun|nia].
    destruct (frontier_equal t (Q * a)) as [-> ->]; [nia|lia|]. cbn [fst snd].
    by rewrite app_assoc.
Qed.

(** A slice has fewer than [2^63] elements. *)
Definition slice_len (n : nat) : Prop := Z.of_nat n < 2 ^ 63.

(** ** The inclusion verifier, exactly *)

Lemma run_incl_whole n idx lh ps r hs :
  slice_len n -> Rebuild lh n idx ps r hs ->
  run_incl ps (lh, Z.of_nat idx, Z.of_nat n - 1, []) = Some (r, 0, 0, hs).
Proof.
  intros Hn Hr. destruct (run_incl_border n lh idx ps r hs 0 63 [] Hr) as (t & _ & Hrun); try lia.
  { unfold slice_len in Hn. apply Nat2Z.inj_le. rewrite pow2_Z. lia. }
  rewrite !Z.mul_0_r, !Z.add_0_r in Hrun. done.
Qed.

Lemma incl_guard idx n :
  (idx < n)%nat -> (Z.of_nat idx <? 0) || (Z.of_nat idx >=? Z.of_nat n) = false.
Proof. lia. Qed.

(** On a proof of the right length the loop computes the climbed root. *)
Lemma verify_rebuild n idx lh ps r hs :
  slice_len n -> Rebuild lh n idx ps r hs ->
  VerifyInclusion lh (Z.of_nat idx) (Z.of_nat n) ps = r /\
  incl_inputs lh (Z.of_nat idx) (Z.of_nat n) ps = hs.
Proof.
  intros Hn Hr. pose proof (rebuild_idx _ _ _ _ _ _ Hr) as Hidx.
  unfold VerifyInclusion, incl_inputs. rewrite (incl_guard idx n Hidx).
  rewrite (vi_loop_run _ _ _ _ []). by rewrite (run_incl_whole n idx lh ps r hs).
Qed.

(** Every non-nil answer comes from a proof of the right length. *)
Lemma verify_length n idx lh ps :
  slice_len n -> (idx < n)%nat ->
  VerifyInclusion lh (Z.of_nat idx) (Z.of_nat n) ps <> [] ->
  exists r hs, Rebuild lh n idx ps r hs.
Proof.
  intros Hn Hidx Hv. destruct (rebuild_total n idx Hidx) as (d & Hex & _).
  unfold VerifyInclusion in Hv. rewrite (incl_guard idx n Hidx) in Hv.
  rewrite (vi_loop_run _ _ _ _ []) in Hv.
  destruct (Nat.lt_trichotomy (length ps) d) as [Hl|[Hl|Hl]]; [|by apply Hex|].
  - (* too short: the tree frontier is not yet zero *)
    set (qs := replicate (d - length ps) ([] : bytes)).
    destruct (Hex lh (ps ++ qs)) as (r & hs & Hr).
    { subst qs. rewrite length_app, length_replicate. lia. }
    apply (run_incl_whole _ _ _ _ _ _ Hn) in Hr. rewrite run_incl_app in Hr.
    destruct (run_incl ps _) as [[[[r' fn] sn] hs']|]; [|done]. cbn in Hr.
    destruct (sn =? 0) eqn:E; [|done]. subst qs.
    destruct (d - length ps)%nat eqn:El; [lia|]. cbn in Hr. by rewrite E in Hr.
  - (* too long: the frontier is zero before the proof is used up *)
    destruct (Hex lh (take d ps)) as (r & hs & Hr); [rewrite length_take; lia|].
    apply (run_incl_whole _ _ _ _ _ _ Hn) in Hr.
    rewrite <- (take_drop d ps), run_incl_app, Hr in Hv. cbn in Hv.
    destruct (drop d ps) as [|q qs] eqn:E; [|done].
    apply (f_equal length) in E. rewrite length_drop in E. cbn in E. lia.
Qed.

(** ** Consistency: the recursive reading of a proof *)

(** [Extends x n m ps fr sr hs]: from the start node [x] (a subtree on the
    boundary of the old log) the siblings [ps] climb to the old root [fr] of
    [m] leaves and to the new root [sr] of [n], hashing [hs]. *)
Inductive Extends (x : bytes) : nat -> nat -> list bytes -> bytes -> bytes -> list bytes -> Prop :=
| extends_base n : (1 <= n)%nat -> Extends x n n [] x x []
| extends_left n m ps fr sr hs p :
    (2 <= n)%nat -> (1 <= m <= splitPoint n)%nat ->
    Extends x (splitPoint n) m ps fr sr hs ->
    Extends x n m (ps ++ [p]) fr (nodeHash sr p) (hs ++ [nodeInput sr p])
| extends_right n m ps fr sr hs p :
    (2 <= n)%nat -> (splitPoint n < m < n)%nat ->
    Extends x (n - splitPoint n) (m - splitPoint n) ps fr sr hs ->
    Extends x n m (ps ++ [p]) (nodeHash p fr) (nodeHash p sr)
      (hs ++ [nodeInput p fr; nodeInput p sr]).

Definition pow2 (m : nat) : bool := Z.land (Z.of_nat m) (Z.of_nat m - 1) =? 0.

Lemma pow2_spec m : (1 <= m)%nat -> pow2 m = true <-> exists c, m = (2 ^ c)%nat.
Proof.
  intros Hm. unfold pow2. rewrite Z.eqb_eq. split.
  - intros Hz. exists (Z.to_nat (Z.log2 (Z.of_nat m))).
    apply Nat2Z.inj. rewrite pow2_Z, Z2Nat.id by apply Z.log2_nonneg.
    destruct (Z.eq_dec (Z.of_nat m) (2 ^ Z.log2 (Z.of_nat m))) as [E|E]; [done|].
    destruct (Z.log2_spec (Z.of_nat m)) as [Hlo Hhi]; [lia|].
    assert (Hl : Z.log2 (Z.of_nat m - 1) = Z.log2 (Z.of_nat m)).
    { apply Z.log2_unique; [apply Z.log2_nonneg|lia]. }
    assert (Hm1 : 0 < Z.of_nat m - 1) by (pose proof (Z.pow_pos_nonneg 2 (Z.log2 (Z.of_nat m))
      ltac:(lia) (Z.log2_nonneg _)); lia).
    apply (f_equal (fun z => Z.testbit z (Z.log2 (Z.of_nat m)))) in Hz.
    rewrite Z.land_spec, Z.bit_log2, Z.bits_0 in Hz by lia.
    rewrite <- Hl, Z.bit_log2 in Hz by lia. done.
  - intros [c ->]. rewrite pow2_Z, Z.sub_1_r, <- Z.ones_equiv, Z.land_ones by lia.
    apply Z.mod_same. pose proof (Z.pow_pos_nonneg 2 (Z.of_nat c)). lia.
Qed.

Lemma pow2_right n m : (2 <= n)%nat -> (splitPoint n < m < n)%nat -> pow2 m = false.
Proof.
  intros Hn Hm. destruct (pow2 m) eqn:E; [|done]. exfalso.
  apply pow2_spec in E as [c ->]; [|lia]. destruct (splitPoint_spec n Hn) as (d & Hd & Hdn).
  rewrite Hd in Hm.
  assert (d < c)%nat by (apply (Nat.pow_lt_mono_r_iff 2); lia).
  assert (c < S d)%nat by (apply (Nat.pow_lt_mono_r_iff 2); lia). lia.
Qed.

(** The consistency proof the log emits climbs to both roots. *)
Lemma consPath_extends l w :
  forall i m b, (1 <= m <= w)%nat ->
  (b = true -> (m < w)%nat \/ exists d, w = (2 ^ d)%nat) ->
  exists x ps hs,
    Extends x w m ps (mth l i (i + m)) (mth l i (i + w)) hs /\
    consPath l i (i + w) m b [] = (if b && pow2 m then ps else x :: ps) /\
    (b && pow2 m = true -> x = mth l i (i + m)).
Proof.
  induction (lt_wf w) as [w _ IH]; intros i m b Hm Hb.
  destruct (decide (m = w)) as [->|Hne].
  { exists (mth l i (i + w)), [], []. split; [by constructor; lia|]. split; [|done].
    unfold consPath. cbn [consPath_go]. replace (i + w - i)%nat with w by lia.
    rewrite Nat.eqb_refl. destruct b; [|done].
    destruct (Hb eq_refl) as [?|Hd]; [lia|]. by apply pow2_spec in Hd as ->; [|lia]. }
  pose proof (splitPoint_bounds w). unfold consPath.
  rewrite consPath_go_eq by lia. cbv zeta. replace (i + w - i)%nat with w by lia.
  rewrite (mth_eq l i (i + w)) by lia. replace (i + w - i)%nat with w by lia.
  destruct (splitPoint_spec w) as (d & Hd & Hdw); [lia|].
  destruct (Nat.leb_spec m (splitPoint w)) as [Hk|Hk].
  - destruct (IH (splitPoint w) ltac:(lia) i m b) as (x & ps & hs & He & -> & Hx); [lia|eauto|].
    exists x, (ps ++ [mth l (i + splitPoint w) (i + w)]). eexists. split; [|split; [|done]].
    + apply extends_left; [lia..|exact He].
    + by destruct (b && pow2 m).
  - destruct (IH (w - splitPoint w)%nat ltac:(lia) (i + splitPoint w)%nat
      (m - splitPoint w)%nat false) as (x & ps & hs & He & Hc & _); [lia|done|].
    replace (i + splitPoint w + (w - splitPoint w))%nat with (i + w)%nat in * by lia.
    replace (i + splitPoint w + (m - splitPoint w))%nat with (i + m)%nat in * by lia.
    rewrite Hc, (pow2_right w m), andb_false_r by lia.
    assert (Hkm : splitPoint m = splitPoint w).
    { rewrite Hd. apply splitPoint_unique. lia. }
    rewrite (mth_eq l i (i + m)) by lia. replace (i + m - i)%nat with m by lia. rewrite Hkm.
    exists x, (ps ++ [mth l i (i + splitPoint w)]). eexists. split; [|done].
    apply extends_right; [lia..|exact He].
Qed.

(** ** The consistency loop *)

Fixpoint run_cons (ps : list bytes) (st : bytes * bytes * Z * Z * list bytes)
    : option (bytes * bytes * Z * Z * list bytes) :=
  match ps with
  | [] => Some st
  | p :: ps =>
      let '(fr, sr, fn, sn, hs) := st in
      if sn =? 0 then None
      else
        let '(fr, sr, log) :=
          if frontier_left fn sn
          then (nodeHash p fr, nodeHash p sr, [nodeInput p fr; nodeInput p sr])
          else (fr, nodeHash sr p, [nodeInput sr p]) in
        run_cons ps (fr, sr, (frontier_next fn sn).1, (frontier_next fn sn).2, hs ++ log)
  end.

(** The strings [VerifyConsistency] hashes. *)
Definition cons_inputs (oldRoot : bytes) (size1 size2 : Z) (proof : list bytes) : list bytes :=
  let path := if Z.land size1 (size1 - 1) =? 0 then oldRoot :: proof else proof in
  let '(fn, sn) := shift_odd 64 (size1 - 1) (size2 - 1) in
  match path with
  | [] => []
  | x :: rest =>
      match run_cons rest (x, x, fn, sn, []) with
      | Some (_, _, _, _, hs) => hs
      | None => []
      end
  end.

Lemma run_cons_app ps qs st : run_cons (ps ++ qs) st = run_cons ps st ≫= run_cons qs.
Proof.
  revert st. induction ps as [|p ps IH]; intros [[[[fr sr] fn] sn] hs]; [done|]. cbn.
  case_if; [done|]. destruct (frontier_left fn sn); apply IH.
Qed.

Lemma vc_loop_run ps fr sr fn sn hs :
  vc_loop ps fr sr fn sn =
  match run_cons ps (fr, sr, fn, sn, hs) with
  | Some (fr, sr, _, sn, _) => Some (fr, sr, sn)
  | None => None
  end.
Proof.
  revert fr sr fn sn hs. induction ps as [|p ps IH]; intros fr sr fn sn hs; [done|]. cbn.
  case_if; [done|]. rewrite (surjective_pairing (frontier_next fn sn)).
  destruct (frontier_left fn sn); apply IH.
Qed.

Lemma run_cons_snoc ps p st fr sr fn sn hs :
  run_cons ps st = Some (fr, sr, fn, sn, hs) -> sn <> 0 ->
  run_cons (ps ++ [p]) st =
    Some (if frontier_left fn sn
          then (nodeHash p fr, nodeHash p sr, (frontier_next fn sn).1, (frontier_next fn sn).2,
                hs ++ [nodeInput p fr; nodeInput p sr])
          else (fr, nodeHash sr p, (frontier_next fn sn).1, (frontier_next fn sn).2,
                hs ++ [nodeInput sr p])).
Proof.
  intros Hr Hsn. rewrite run_cons_app, Hr. cbn.
  apply Z.eqb_neq in Hsn. rewrite Hsn. by destruct (frontier_left fn sn).
Qed.

(** [stripped f s f' s']: the first loop shifts [(f, s)] to [(f', s')]. *)
Definition stripped (c : nat) (f s f' s' : Z) : Prop :=
  f = 2 ^ Z.of_nat c * f' + (2 ^ Z.of_nat c - 1) /\
  exists low, s = 2 ^ Z.of_nat c * s' + low /\ 0 <= low < 2 ^ Z.of_nat c.

Lemma shift_odd_stripped fuel c f s f' s' :
  stripped c f s f' s' -> Z.odd f' = false -> (c <= fuel)%nat ->
  shift_odd fuel f s = (f', s').
Proof.
  revert c f s. induction fuel as [|fuel IH]; intros c f s (Hf & low & Hs & Hlow) Hodd Hc.
  { replace c with 0%nat in * by lia. cbn in *. f_equal; lia. }
  destruct c as [|c]; cbn [shift_odd].
  - cbn in Hf, Hs, Hlow. replace f with f' by lia. rewrite Hodd. f_equal. lia.
  - rewrite pow2_succ in *. set (P := 2 ^ Z.of_nat c) in *.
    replace f with (2 * (P * f' + (P - 1)) + 1) by lia. rewrite Z.odd_odd, div2_succ_double.
    apply (IH c); [|done|lia]. split; [done|]. fold P.
    destruct (Z.odd low) eqn:Ho.
    + apply Z.odd_spec in Ho as [low' ->]. exists low'. split; [|lia].
      replace s with (2 * (P * s' + low') + 1) by lia. apply div2_succ_double.
    + rewrite <- Z.negb_even in Ho. apply negb_false_iff, Z.even_spec in Ho as [low' ->].
      exists low'. split; [|lia].
      replace s with (2 * (P * s' + low')) by lia. apply div2_double.
Qed.

Lemma extends_size x n m ps fr sr hs : Extends x n m ps fr sr hs -> (1 <= m <= n)%nat.
Proof. induction 1; try lia. pose proof (splitPoint_bounds n). lia. Qed.

Lemma run_cons_perfect d :
  forall x m ps fr sr hs a b s log,
  Extends x (2 ^ d) m ps fr sr hs ->
  0 <= a <= b -> 0 <= s < 2 ^ Z.of_nat d -> (a < b \/ s = 2 ^ Z.of_nat d - 1) ->
  exists c f s',
    (c <= d)%nat /\
    stripped c (Z.of_nat m - 1 + 2 ^ Z.of_nat d * a) (s + 2 ^ Z.of_nat d * b) f s' /\
    ((m < 2 ^ d)%nat -> Z.odd f = false) /\ (m = (2 ^ d)%nat -> f = a) /\
    run_cons ps (x, x, f, s', log) = Some (fr, sr, a, b, log ++ hs).
Proof.
  induction d as [|d IH]; intros x m ps fr sr hs a b s log Hr Hab Hs Hor.
  { pose proof (extends_size _ _ _ _ _ _ _ Hr).
    inversion Hr; subst; [|cbn in *; lia..]. exists 0%nat, a, b. cbn in *.
    rewrite app_nil_r. repeat split; try lia. exists s. lia. }
  pose proof (extends_size _ _ _ _ _ _ _ Hr) as Hsz.
  assert (HP0 : 0 < 2 ^ Z.of_nat d) by (apply Z.pow_pos_nonneg; lia).
  inversion Hr as [n Hn|n ? ps' fr' sr' hs' p Hn Hi Hr'|n ? ps' fr' sr' hs' p Hn Hi Hr']; subst.
  { exists (S d), a, b. rewrite app_nil_r, pow2_Z. repeat split; try lia.
    exists s. lia. }
  all: rewrite splitPoint_pow in *; rewrite pow2_succ in *.
  all: destruct (half_frontier (2 ^ Z.of_nat d) s b a) as (c & s' & -> & Hc & Hs' & Hlt & Hlast);
    [done..|].
  - destruct (IH x m ps' fr sr' hs' (2 * a) (c + 2 * b) s' log)
      as (k & f & s'' & Hk & Hst & Hodd & Hfull & Hrun); [done|lia..|].
    exists k, f, s''. split; [lia|].
    replace (Z.of_nat m - 1 + 2 * 2 ^ Z.of_nat d * a)
      with (Z.of_nat m - 1 + 2 ^ Z.of_nat d * (2 * a)) by lia.
    split; [done|]. split; [|split].
    + intros _. destruct (decide (m = 2 ^ d)%nat) as [E|E]; [|apply Hodd; lia].
      rewrite (Hfull E). by rewrite Z.odd_mul.
    + cbn [Nat.pow]. pose proof (Nat.pow_nonzero 2 d). lia.
    + erewrite run_cons_snoc; [|exact Hrun|lia].
      destruct (frontier_right a (c + 2 * b)) as [-> ->]; [lia|]. cbn [fst snd].
      by rewrite div2_bit, app_assoc.
  - replace (2 ^ S d - 2 ^ d)%nat with (2 ^ d)%nat in Hr' by (cbn; lia).
    destruct (IH x (m - 2 ^ d)%nat ps' fr' sr' hs' (2 * a + 1) (c + 2 * b) s' log)
      as (k & f & s'' & Hk & Hst & Hodd & Hfull & Hrun); [done|lia..|].
    exists k, f, s''. split; [lia|].
    replace (Z.of_nat m - 1 + 2 * 2 ^ Z.of_nat d * a)
      with (Z.of_nat (m - 2 ^ d) - 1 + 2 ^ Z.of_nat d * (2 * a + 1))
      by (rewrite Nat2Z.inj_sub, pow2_Z by lia; lia).
    cbn [Nat.pow] in *. split; [done|]. split; [|split].
    + intros _. apply Hodd. lia.
    + lia.
    + erewrite run_cons_snoc; [|exact Hrun|lia].
      destruct (frontier_odd a (c + 2 * b)) as [-> ->]. cbn [fst snd].
      by rewrite div2_bit, app_assoc.
Qed.

Lemma run_cons_border n :
  forall x m ps fr sr hs a e log,
  Extends x n m ps fr sr hs -> (m < n)%nat -> 0 <= a -> (n <= 2 ^ e)%nat -> (e <= 64)%nat ->
  exists c f s' t, (c <= e)%nat /\ (t <= e)%nat /\
    stripped c (Z.of_nat m - 1 + 2 ^ Z.of_nat e * a) (Z.of_nat n - 1 + 2 ^ Z.of_nat e * a) f s' /\
    Z.odd f = false /\
    run_cons ps (x, x, f, s', log)
    = Some (fr, sr, 2 ^ Z.of_nat t * a, 2 ^ Z.of_nat t * a, log ++ hs).
Proof.
  induction (lt_wf n) as [n _ IH]; intros x m ps fr sr hs a e log Hr Hmn Ha Hn He.
  inversion Hr as [? Hm|? ? ps' fr' sr' hs' p Hm Hi Hr'|? ? ps' fr' sr' hs' p Hm Hi Hr']; subst;
    [lia|..].
  all: destruct (splitPoint_spec n Hm) as (d & Hd & Hdn); rewrite Hd in *.
  all: assert (Hde : (d < e)%nat) by (apply (Nat.pow_lt_mono_r_iff 2); lia).
  all: rewrite (pow2_split d e Hde); set (P := 2 ^ Z.of_nat d) in *;
    set (Q := 2 ^ Z.of_nat (e - d - 1)) in *.
  all: assert (HQ : 0 < Q) by (subst Q; apply Z.pow_pos_nonneg; lia).
  all: assert (HP : P = Z.of_nat (2 ^ d)) by (subst P; by rewrite pow2_Z).
  all: assert (HPn : P <= Z.of_nat n - 1 < 2 * P) by (cbn [Nat.pow] in Hdn; lia).
  - destruct (run_cons_perfect d x m ps' fr sr' hs' (2 * (Q * a)) (1 + 2 * (Q * a))
      (Z.of_nat n - 1 - P) log) as (c & f & s' & Hc & Hst & Hodd & Hfull & Hrun);
      [done|nia|fold P; lia|nia|]. fold P in Hst.
    exists c, f, s', (e - d - 1)%nat. do 2 (split; [lia|]). split; [|split].
    + replace (Z.of_nat n - 1 + P * (2 * Q) * a)
        with ((Z.of_nat n - 1 - P) + P * (1 + 2 * (Q * a))) by lia.
      by replace (Z.of_nat m - 1 + P * (2 * Q) * a)
        with (Z.of_nat m - 1 + P * (2 * (Q * a))) by lia.
    + destruct (decide (m = 2 ^ d)%nat) as [E|E]; [|apply Hodd; lia].
      rewrite (Hfull E). by rewrite Z.odd_mul.
    + erewrite run_cons_snoc; [|exact Hrun|nia].
      destruct (frontier_right (Q * a) (1 + 2 * (Q * a))) as [-> ->]; [lia|]. cbn [fst snd].
      by rewrite div2_bit, app_assoc.
  - destruct (IH (n - 2 ^ d)%nat ltac:(lia) x (m - 2 ^ d)%nat ps' fr' sr' hs' (2 * (Q * a) + 1) d log)
      as (c & f & s' & t & Hc & Ht & Hst & Hodd & Hrun);
      [done|lia|nia|cbn [Nat.pow] in Hdn; lia|lia|].
    fold P in Hst. rewrite !Nat2Z.inj_sub in Hst by lia. rewrite <- HP in Hst.
    exists c, f, s', (e - d - 1)%nat. do 2 (split; [lia|]). split; [|split; [done|]].
    + replace (Z.of_nat n - 1 + P * (2 * Q) * a)
        with (Z.of_nat n - P - 1 + P * (2 * (Q * a) + 1)) by lia.
      by replace (Z.of_nat m - 1 + P * (2 * Q) * a)
        with (Z.of_nat m - P - 1 + P * (2 * (Q * a) + 1)) by lia.
    + assert (0 < 2 ^ Z.of_nat t) by (apply Z.pow_pos_nonneg; lia).
      erewrite run_cons_snoc; [|exact Hrun|nia].
      destruct (frontier_equal t (Q * a)) as [-> ->]; [nia|lia|]. cbn [fst snd].
      by rewrite app_assoc.
Qed.

(** The whole run: strip, then climb. *)
Lemma run_cons_whole x n m ps fr sr hs :
  slice_len n -> (m < n)%nat -> Extends x n m ps fr sr hs ->
  exists f s, shift_odd 64 (Z.of_nat m - 1) (Z.of_nat n - 1) = (f, s) /\
    run_cons ps (x, x, f, s, []) = Some (fr, sr, 0, 0, hs).
Proof.
  intros Hn Hm Hr.
  destruct (run_cons_border n x m ps fr sr hs 0 63 [] Hr)
    as (c & f & s & t & Hc & Ht & Hst & Hodd & Hrun); [lia..| |lia|].
  { unfold slice_len in Hn. apply Nat2Z.inj_le. rewrite pow2_Z. lia. }
  rewrite !Z.mul_0_r, !Z.add_0_r in *. exists f, s. split; [|done].
  eapply shift_odd_stripped; [exact Hst|done|lia].
Qed.

Lemma extends_total n :
  forall m, (1 <= m <= n)%nat ->
  exists d, forall x ps, length ps = d -> exists fr sr hs, Extends x n m ps fr sr hs.
Proof.
  induction (lt_wf n) as [n _ IH]; intros m Hm.
  destruct (decide (m = n)) as [->|Hne].
  { exists 0%nat. intros x [|??]; [|done]. intros _. exists x, x, []. by constructor; lia. }
  pose proof (splitPoint_bounds n).
  destruct (decide (m <= splitPoint n)%nat) as [Hk|Hk];
    [destruct (IH (splitPoint n) ltac:(lia) m) as [d Hd]
    |destruct (IH (n - splitPoint n)%nat ltac:(lia) (m - splitPoint n)%nat) as [d Hd]];
    [lia| |lia|]; exists (S d); intros x ps; induction ps as [|p ps _] using rev_ind;
    [done| |done|]; rewrite length_app, Nat.add_1_r; intros [= Hps];
    destruct (Hd x ps Hps) as (fr & sr & hs & He); do 3 eexists.
  - apply extends_left; [lia..|exact He].
  - apply extends_right; [lia..|exact He].
Qed.

Lemma vc_loop_length n m x f s ps fr sr :
  slice_len n -> (1 <= m < n)%nat ->
  shift_odd 64 (Z.of_nat m - 1) (Z.of_nat n - 1) = (f, s) ->
  vc_loop ps x x f s = Some (fr, sr, 0) ->
  exists hs, Extends x n m ps fr sr hs /\ run_cons ps (x, x, f, s, []) = Some (fr, sr, 0, 0, hs).
Proof.
  intros Hn Hm Hs Hv. destruct (extends_total n m) as [d Hex]; [lia|].
  rewrite (vc_loop_run _ _ _ _ _ []) in Hv.
  assert (Hwhole : forall ps fr sr hs, Extends x n m ps fr sr hs ->
    run_cons ps (x, x, f, s, []) = Some (fr, sr, 0, 0, hs)).
  { intros ps' fr' sr' hs' He.
    destruct (run_cons_whole x n m ps' fr' sr' hs' Hn ltac:(lia) He) as (f' & s' & Hs' & Hrun).
    rewrite Hs in Hs'. by injection Hs' as -> ->. }
  destruct (Nat.lt_trichotomy (length ps) d) as [Hl|[Hl|Hl]].
  - set (qs := replicate (d - length ps) ([] : bytes)).
    destruct (Hex x (ps ++ qs)) as (fr' & sr' & hs & He).
    { subst qs. rewrite length_app, length_replicate. lia. }
    apply Hwhole in He. rewrite run_cons_app in He.
    destruct (run_cons ps _) as [[[[[? ?] fn] sn] hs']|]; [|done]. cbn in He.
    injection Hv as -> -> ->. subst qs.
    destruct (d - length ps)%nat eqn:El; [lia|]. done.
  - destruct (Hex x ps Hl) as (fr' & sr' & hs & He). exists hs.
    pose proof (Hwhole _ _ _ _ He) as Hrun. rewrite Hrun in Hv. by injection Hv as -> ->.
  - destruct (Hex x (take d ps)) as (fr' & sr' & hs & He); [rewrite length_take; lia|].
    apply Hwhole in He. rewrite <- (take_drop d ps), run_cons_app, He in Hv. cbn in Hv.
    destruct (drop d ps) as [|q qs] eqn:E; [|done].
    apply (f_equal length) in E. rewrite length_drop in E. cbn in E. lia.
Qed.

(** ** What a root commits to *)

Fixpoint tree_inputs_go (fuel : nat) (l : list bytes) : list bytes :=
  match fuel with
  | O => []
  | S fuel =>
      if (length l <=? 1)%nat then []
      else
        let k := splitPoint (length l) in
        nodeInput (mtl (take k l)) (mtl (drop k l))
          :: tree_inputs_go fuel (take k l) ++ tree_inputs_go fuel (drop k l)
  end.
(** The strings hashed when the tree of [l] is computed. *)
Definition tree_inputs (l : list bytes) : list bytes := tree_inputs_go (length l) l.

Lemma tree_inputs_fuel f f' l :
  (length l <= f)%nat -> (length l <= f')%nat -> tree_inputs_go f l = tree_inputs_go f' l.
Proof.
  revert f' l. induction f as [|f IH]; intros f' l Hf Hf'.
  { destruct l; [|cbn in Hf; lia]. by destruct f'. }
  destruct f' as [|f']; [destruct l; [done|cbn in Hf'; lia]|]. cbn [tree_inputs_go].
  destruct (Nat.leb_spec (length l) 1); [done|].
  pose proof (splitPoint_bounds (length l)).
  f_equal. f_equal; apply IH; rewrite ?length_take, ?length_drop; lia.
Qed.

Lemma tree_inputs_eq l :
  (2 <= length l)%nat ->
  let k := splitPoint (length l) in
  tree_inputs l = nodeInput (mtl (take k l)) (mtl (drop k l))
    :: tree_inputs (take k l) ++ tree_inputs (drop k l).
Proof.
  intros Hl k. pose proof (splitPoint_bounds (length l)). unfold tree_inputs at 1.
  destruct (length l) as [|n] eqn:E; [lia|]. cbn [tree_inputs_go]. rewrite E.
  destruct (Nat.leb_spec (S n) 1); [lia|]. fold k. unfold tree_inputs.
  f_equal. f_equal; apply tree_inputs_fuel; rewrite ?length_take, ?length_drop; lia.
Qed.

Context {HL : HashLaws}.

Definition hash_sized (x : bytes) : Prop := length x = 32%nat.

Lemma nodeHash_sized l r : hash_sized (nodeHash l r).
Proof. apply sha256_length. Qed.

Lemma mtl_sized l : l <> [] -> Forall hash_sized l -> hash_sized (mtl l).
Proof.
  intros Hne Hl. destruct (decide (2 <= length l)%nat) as [H2|H2].
  - rewrite mtl_split by done. apply nodeHash_sized.
  - destruct l as [|x [|y l]]; [done| |cbn in H2; lia]. rewrite mtl_one. by inversion Hl.
Qed.

(** Equal inputs have equal halves. *)
Lemma nodeInput_inj_l l r l' r' :
  length l = length l' -> nodeInput l r = nodeInput l' r' -> l = l' /\ r = r'.
Proof. intros Hl [= E]. by apply app_inj_1. Qed.
Lemma nodeInput_inj_r l r l' r' :
  length r = length r' -> nodeInput l r = nodeInput l' r' -> l = l' /\ r = r'.
Proof. intros Hl [= E]. by apply app_inj_2. Qed.

Lemma split_parts (l : list bytes) :
  (2 <= length l)%nat -> Forall hash_sized l ->
  let k := splitPoint (length l) in
  hash_sized (mtl (take k l)) /\ hash_sized (mtl (drop k l)) /\
  Forall hash_sized (take k l) /\ Forall hash_sized (drop k l) /\
  length (take k l) = k /\ length (drop k l) = (length l - k)%nat.
Proof.
  intros Hl Hf k. pose proof (splitPoint_bounds (length l)). fold k in H0.
  assert (length (take k l) = k) by (rewrite length_take; lia).
  assert (length (drop k l) = (length l - k)%nat) by apply length_drop.
  repeat split; try done; try apply mtl_sized; try apply Forall_take; try apply Forall_drop; try done.
  - intros E. rewrite E in *. cbn in *. lia.
  - intros E. rewrite E in *. cbn in *. lia.
Qed.

(** A root determines the leaves of a tree of known size. *)
Lemma mtl_inj l l' :
  length l = length l' -> Forall hash_sized l -> Forall hash_sized l' ->
  collision_free sha256 (tree_inputs l ++ tree_inputs l') ->
  mtl l = mtl l' -> l = l'.
Proof.
  remember (length l) as n eqn:En. revert l l' En.
  induction (lt_wf n) as [n _ IH]; intros l l' En En' Hl Hl' Hcf Heq.
  destruct (decide (2 <= n)%nat) as [H2|H2].
  - destruct (split_parts l) as (Ha & Hb & Hc & Hd & He & Hf); [lia|done|].
    destruct (split_parts l') as (Ha' & Hb' & Hc' & Hd' & He' & Hf'); [lia|done|].
    rewrite (mtl_split l), (mtl_split l') in Heq by lia.
    rewrite (tree_inputs_eq l), (tree_inputs_eq l') in Hcf by lia.
    rewrite <- En, <- En' in *. set (k := splitPoint n) in *.
    pose proof (splitPoint_bounds n H2) as Hk. fold k in Hk.
    apply Hcf in Heq; [|set_solver..]. apply nodeInput_inj_l in Heq as [E1 E2]; [|congruence].
    rewrite <- (take_drop k l), <- (take_drop k l'). f_equal.
    + apply (IH k); try done; try lia. eapply collision_free_mono; [|exact Hcf]. sub_app.
    + apply (IH (n - k)%nat); try done; try lia. eapply collision_free_mono; [|exact Hcf]. sub_app.
  - destruct l as [|x [|y l]]; destruct l' as [|x' [|y' l']]; cbn [length] in *; try lia; try done.
    rewrite !mtl_one in Heq. by subst.
Qed.

Lemma rebuild_sized lh n idx ps r hs :
  Rebuild lh n idx ps r hs -> hash_sized lh -> hash_sized r.
Proof. destruct 1; [done|intros _; apply nodeHash_sized..]. Qed.

Lemma rebuild_sound lh n idx ps r hs :
  Rebuild lh n idx ps r hs ->
  forall l, length l = n -> Forall hash_sized l -> hash_sized lh ->
  collision_free sha256 (tree_inputs l ++ hs) -> r = mtl l -> l !! idx = Some lh.
Proof.
  induction 1 as [|n idx ps r hs p Hn Hi Hr IH|n idx ps r hs p Hn Hi Hr IH];
    intros l Hl Hf Hlh Hcf Heq.
  { destruct l as [|x [|]]; try done. by rewrite mtl_one in Heq; subst. }
  all: destruct (split_parts l) as (Ha & Hb & Hc & Hd & He & Hg); [lia|done|].
  all: pose proof (rebuild_sized _ _ _ _ _ _ Hr Hlh) as Hrs.
  all: rewrite mtl_split in Heq by lia; rewrite tree_inputs_eq in Hcf by lia;
    rewrite Hl in *; set (k := splitPoint n) in *.
  all: apply Hcf in Heq; [|set_solver..].
  - apply nodeInput_inj_l in Heq as [Heq _]; [|congruence].
    rewrite <- (lookup_take_lt l k) by done. apply IH; try done.
    eapply collision_free_mono; [|exact Hcf]. sub_app.
  - apply nodeInput_inj_r in Heq as [_ Heq]; [|congruence].
    replace idx with (k + (idx - k))%nat by lia. rewrite <- lookup_drop. apply IH; try done.
    eapply collision_free_mono; [|exact Hcf]. sub_app.
Qed.

Lemma extends_sized x n m ps fr sr hs :
  Extends x n m ps fr sr hs -> (m < n)%nat -> hash_sized sr.
Proof. destruct 1; [lia|intros _; apply nodeHash_sized..]. Qed.

Lemma take_split (l : list bytes) k m :
  (k <= m)%nat -> take m l = take k l ++ take (m - k) (drop k l).
Proof.
  intros Hk. rewrite <- (take_drop k (take m l)), take_take, Nat.min_l by done.
  by rewrite <- skipn_firstn_comm.
Qed.

Lemma take_nonnil (l : list bytes) k : (1 <= k)%nat -> (1 <= length l)%nat -> take k l <> [].
Proof. intros Hk Hl E. apply (f_equal length) in E. rewrite length_take in E. cbn in E. lia. Qed.

Lemma extends_same x n ps fr sr hs : Extends x n n ps fr sr hs -> fr = sr.
Proof. inversion 1; subst; [done|..]; pose proof (splitPoint_bounds n); lia. Qed.

Lemma extends_sound x n m ps fr sr hs :
  Extends x n m ps fr sr hs ->
  forall new old, length new = n -> length old = m ->
  Forall hash_sized new -> Forall hash_sized old ->
  collision_free sha256 (tree_inputs new ++ tree_inputs old ++ hs) ->
  fr = mtl old -> sr = mtl new -> old = take m new.
Proof.
  induction 1 as [n Hn|n m ps fr sr hs p Hn Hm Hr IH|n m ps fr sr hs p Hn Hm Hr IH];
    intros new old Hnew Hold Hfn Hfo Hcf Hfr Hsr.
  { rewrite take_ge by lia. apply mtl_inj; try done; try congruence.
    eapply collision_free_mono; [|exact Hcf]. sub_app. }
  all: destruct (split_parts new) as (Ha & Hb & Hc & Hd & He & Hg); [lia|done|].
  all: rewrite mtl_split in Hsr by lia.
  all: rewrite (tree_inputs_eq new) in Hcf by lia; rewrite Hnew in *;
    set (k := splitPoint n) in *.
  all: apply Hcf in Hsr; [|set_solver..].
  - assert (Hs : hash_sized sr).
    { destruct (decide (m = k)) as [E|E]; [|eapply extends_sized; [exact Hr|lia]].
      rewrite E in Hr. apply extends_same in Hr as <-.
      rewrite Hfr. apply mtl_sized; [|done]. intros ->. cbn in Hold. lia. }
    apply nodeInput_inj_l in Hsr as [Hsr _]; [|congruence].
    rewrite (IH (take k new) old); try done.
    + rewrite take_take. f_equal. lia.
    + eapply collision_free_mono; [|exact Hcf]. sub_app.
  - pose proof (splitPoint_bounds n Hn).
    assert (Hs : hash_sized sr) by (eapply extends_sized; [exact Hr|lia]).
    apply nodeInput_inj_r in Hsr as [Hp Hsr]; [|congruence].
    assert (Hkm : splitPoint m = k).
    { destruct (splitPoint_spec n Hn) as (d & Hd' & Hdn). unfold k in *. rewrite Hd' in *.
      apply splitPoint_unique. lia. }
    destruct (split_parts old) as (Ha' & Hb' & Hc' & Hd' & He' & Hg'); [lia|done|].
    rewrite mtl_split in Hfr by lia. rewrite (tree_inputs_eq old) in Hcf by lia.
    rewrite Hold, Hkm in *. apply Hcf in Hfr; [|set_solver..].
    apply nodeInput_inj_l in Hfr as [Hp' Hfr]; [|rewrite Hp; congruence].
    assert (Htk : take k old = take k new).
    { apply mtl_inj; try done; try congruence.
      eapply collision_free_mono; [|exact Hcf]. sub_app. }
    rewrite <- (take_drop k old), Htk.
    rewrite (IH (drop k new) (drop k old)); try done.
    + symmetry. apply take_split. lia.
    + eapply collision_free_mono; [|exact Hcf]. sub_app.
Qed.

(** ** The tree hash, and logs of entries *)

(** RFC 6962 section 2.1, on leaf hashes: a perfect left subtree of [2^d]
    leaves and a non-empty right one no larger.  The empty log has no root: the
    code answers nil where the RFC hashes the empty string. *)
Inductive TreeHash : list bytes -> bytes -> Prop :=
| th_empty : TreeHash [] []
| th_leaf x : TreeHash [x] x
| th_node d l r a b :
    length l = (2 ^ d)%nat -> (1 <= length r <= length l)%nat ->
    TreeHash l a -> TreeHash r b -> TreeHash (l ++ r) (nodeHash a b).

Lemma TreeHash_mtl l : TreeHash l (mtl l).
Proof.
  remember (length l) as n eqn:En. revert l En.
  induction (lt_wf n) as [n _ IH]; intros l ->.
  destruct (decide (2 <= length l)%nat) as [H2|H2].
  - destruct (splitPoint_spec _ H2) as (d & Hd & Hk).
    pose proof (splitPoint_bounds _ H2) as Hb. rewrite mtl_split by done.
    rewrite <- (take_drop (splitPoint (length l)) l) at 1.
    apply (th_node d); [rewrite length_take; lia| |eapply IH; [|done]..];
      rewrite ?length_take, ?length_drop; cbn in Hk; lia.
  - destruct l as [|x [|y l]]; [constructor..|cbn in H2; lia].
Qed.

Lemma TreeHash_unique l h : TreeHash l h -> h = mtl l.
Proof.
  induction 1 as [| |d l r a b Hl Hr Ha IHa Hb IHb]; [done..|]. subst.
  assert (E : splitPoint (length (l ++ r)) = length l).
  { rewrite Hl. apply splitPoint_unique. rewrite length_app. cbn. lia. }
  rewrite (mtl_split (l ++ r)) by (rewrite length_app; lia).
  by rewrite E, take_app_length, drop_app_length.
Qed.


(** The log that has appended [es] in this order. *)
Definition log_of (es : list bytes) : MerkleLog :=
  foldl (fun m e => (Append m e).1) NewMerkleLog es.

Lemma leaves_log_of es : leaves (log_of es) = map LeafHash es.
Proof.
  induction es as [|e es IH] using rev_ind; [done|].
  unfold log_of. rewrite foldl_snoc, map_app. fold (log_of es).
  cbn [Append fst leaves map]. by rewrite IH.
Qed.

Lemma Root_mtl m : Root m = mtl (leaves m).
Proof. done. Qed.

Lemma log_sized es : Forall hash_sized (map LeafHash es).
Proof. apply Forall_forall. intros x (e & -> & _)%list_elem_of_fmap. apply sha256_length. Qed.

(** The strings hashed by [LeafHash]. *)
Definition leaf_inputs (es : list bytes) : list bytes := map (cons Byte.x00) es.

Lemma LeafHash_inj L e e' :
  collision_free sha256 L -> Byte.x00 :: e ∈ L -> Byte.x00 :: e' ∈ L ->
  LeafHash e = LeafHash e' -> e = e'.
Proof. intros Hcf He He' E. by apply Hcf in E as [= ->]. Qed.

Lemma map_LeafHash_inj L es es' :
  collision_free sha256 L -> leaf_inputs es ⊆ L -> leaf_inputs es' ⊆ L ->
  map LeafHash es = map LeafHash es' -> es = es'.
Proof.
  intros Hcf. revert es'. induction es as [|e es IH]; intros [|e' es'] H1 H2 [=]; [done|].
  cbn in H1, H2. f_equal; [eapply (LeafHash_inj L); eauto; set_solver|apply IH; set_solver].
Qed.

(** ** Inclusion *)

(** Inclusion completeness: for every leaf of every prefix of the log
    [InclusionProof] returns, its root is the root the log had at that size,
    and [VerifyInclusion] rebuilds exactly that root from the leaf hash. *)
Theorem inclusion_complete m idx size lh :
  slice_len (length (leaves m)) ->
  (size <= length (leaves m))%nat -> (idx < size)%nat -> leaves m !! idx = Some lh ->
  exists proof,
    InclusionProof m (Z.of_nat idx) (Z.of_nat size) =
      Ret (Root {| leaves := take size (leaves m) |}, proof) /\
    VerifyInclusion lh (Z.of_nat idx) (Z.of_nat size) proof =
      Root {| leaves := take size (leaves m) |}.
Proof.
  intros Hsl Hs Hi Hl. unfold InclusionProof, zlen, guard.
  destruct (_ || _ || _) eqn:E1; [lia|]. destruct (_ <? 1) eqn:E2; [lia|].
  rewrite !Nat2Z.id. eexists. rewrite Root_mtl. cbn [leaves].
  rewrite mth_prefix by done. split; [done|].
  destruct (path_rebuild (leaves m) size 0 idx) as [hs Hr]; [lia|].
  rewrite Nat.sub_0_r, (nth_lookup_Some _ _ _ _ Hl) in Hr. cbn [Nat.add] in Hr.
  rewrite <- (mth_prefix (leaves m)) by done.
  eapply verify_rebuild; [|exact Hr]. unfold slice_len in *. lia.
Qed.

(** C21.  Inclusion soundness: when [VerifyInclusion] rebuilds the root of a log
    of the entries [es] from the leaf hash of [e] at [idx], the entry at [idx]
    is [e], whatever the proof, provided SHA-256 does not collide on the
    strings hashed for the tree, the leaves and the proof. *)
Theorem inclusion_sound es idx e proof :
  slice_len (length es) -> (idx < length es)%nat ->
  collision_free sha256
    (tree_inputs (map LeafHash es) ++ leaf_inputs (e :: es) ++
     incl_inputs (LeafHash e) (Z.of_nat idx) (zlen es) proof) ->
  VerifyInclusion (LeafHash e) (Z.of_nat idx) (zlen es) proof = Root (log_of es) ->
  es !! idx = Some e.
Proof.
  intros Hsl Hi Hcf Hv. rewrite Root_mtl, leaves_log_of in Hv. unfold zlen in *.
  assert (Hne : map LeafHash es <> []) by (destruct es; cbn in *; [lia|done]).
  destruct (verify_length (length es) idx (LeafHash e) proof) as (r & hs & Hr); [done..| |].
  { rewrite Hv. intros E. pose proof (mtl_sized _ Hne (log_sized es)) as Hz.
    rewrite E in Hz. done. }
  destruct (verify_rebuild _ _ _ _ _ _ Hsl Hr) as [Hv' Hh]. rewrite Hh in Hcf.
  assert (Hmap : map LeafHash es !! idx = Some (LeafHash e)).
  { eapply (rebuild_sound _ _ _ _ _ _ Hr); [by rewrite length_map|apply log_sized
      |apply sha256_length| |congruence].
    eapply collision_free_mono; [|exact Hcf]. sub_app. }
  apply list_lookup_fmap_Some in Hmap as (e' & E & He'). rewrite He'. f_equal. symmetry.
  eapply (LeafHash_inj _ _ _ Hcf); [| |done].
  - cbn. set_solver.
  - apply list_elem_of_lookup_2 in He'.
    assert (Byte.x00 :: e' ∈ leaf_inputs es) by (apply list_elem_of_fmap; eauto). set_solver.
Qed.

(** ** Consistency *)

Lemma consistency_checks m size1 size2 :
  slice_len (length (leaves m)) -> Forall hash_sized (leaves m) ->
  (1 <= size1 < size2)%nat -> (size2 <= length (leaves m))%nat ->
  exists proof,
    ConsistencyProof m (Z.of_nat size1) (Z.of_nat size2) =
      Ret (Root {| leaves := take size1 (leaves m) |},
           Root {| leaves := take size2 (leaves m) |}, proof) /\
    VerifyConsistency (Root {| leaves := take size1 (leaves m) |})
      (Root {| leaves := take size2 (leaves m) |})
      (Z.of_nat size1) (Z.of_nat size2) proof = true.
Proof.
  intros Hsl Hf H12 H2. unfold ConsistencyProof, zlen, guard.
  destruct (_ || _ || _ || _) eqn:E1; [lia|]. rewrite !Nat2Z.id.
  rewrite !mth_prefix by lia. eexists. rewrite !Root_mtl. cbn [leaves]. split; [done|].
  destruct (consPath_extends (leaves m) size2 0 size1 true) as (x & ps & hs & He & Hp & Hx);
    [lia|left; lia|].
  cbn [Nat.add andb] in *. rewrite Hp. rewrite !mth_prefix in * by lia.
  set (o := mtl (take size1 (leaves m))) in *. set (n := mtl (take size2 (leaves m))) in *.
  assert (Ho : (length o =? 0)%nat = false).
  { apply Nat.eqb_neq. unfold o. rewrite mtl_sized; [done| |by apply Forall_take].
    apply take_nonnil; lia. }
  assert (Hn : (length n =? 0)%nat = false).
  { apply Nat.eqb_neq. unfold n. rewrite mtl_sized; [done| |by apply Forall_take].
    apply take_nonnil; lia. }
  destruct (run_cons_whole x size2 size1 ps o n hs) as (f & s & Hs & Hrun);
    [unfold slice_len in *; lia|lia|done|].
  unfold VerifyConsistency. rewrite Ho, Hn.
  destruct (Z.of_nat size1 =? 0) eqn:E2; [lia|].
  destruct (Z.of_nat size1 >? Z.of_nat size2) eqn:E3; [lia|].
  destruct (Z.of_nat size1 =? Z.of_nat size2) eqn:E4; [lia|]. cbn [orb].
  rewrite Hs. change (Z.land (Z.of_nat size1) (Z.of_nat size1 - 1) =? 0) with (pow2 size1).
  destruct (pow2 size1) eqn:Ep.
  - rewrite <- (Hx eq_refl). destruct ps as [|p ps].
    { inversion He; subst; [lia|..]; by destruct ps. }
    cbn [length Nat.eqb]. rewrite (vc_loop_run _ _ _ _ _ []), Hrun.
    rewrite (Hx eq_refl), !bytes_equal_refl. done.
  - cbn [length Nat.eqb]. rewrite (vc_loop_run _ _ _ _ _ []), Hrun.
    rewrite !bytes_equal_refl. done.
Qed.

(** C22.  Consistency completeness: for any two sizes of the log's history
    [ConsistencyProof] returns the two roots the log had then, and its proof
    passes [VerifyConsistency]. *)
Theorem consistency_complete m size1 size2 :
  slice_len (length (leaves m)) -> Forall hash_sized (leaves m) ->
  (1 <= size1 < size2)%nat -> (size2 <= length (leaves m))%nat ->
  exists proof,
    ConsistencyProof m (Z.of_nat size1) (Z.of_nat size2) =
      Ret (Root {| leaves := take size1 (leaves m) |},
           Root {| leaves := take size2 (leaves m) |}, proof) /\
    VerifyConsistency (Root {| leaves := take size1 (leaves m) |})
      (Root {| leaves := take size2 (leaves m) |})
      (Z.of_nat size1) (Z.of_nat size2) proof = true.
Proof. apply consistency_checks. Qed.

Lemma consistency_prefix old new proof :
  slice_len (length new) -> (1 <= length old)%nat ->
  collision_free sha256
    (tree_inputs (map LeafHash new) ++ tree_inputs (map LeafHash old) ++
     leaf_inputs old ++ leaf_inputs new ++
     cons_inputs (Root (log_of old)) (zlen old) (zlen new) proof) ->
  VerifyConsistency (Root (log_of old)) (Root (log_of new)) (zlen old) (zlen new) proof = true ->
  old `prefix_of` new.
Proof.
  intros Hsl Hold Hcf Hv. rewrite !Root_mtl, !leaves_log_of in *. unfold zlen in *.
  assert (Hgoal : (length old <= length new)%nat ->
    map LeafHash old = take (length old) (map LeafHash new) -> old `prefix_of` new).
  { intros Hle E. rewrite firstn_map in E.
    apply (map_LeafHash_inj _ _ _ Hcf) in E.
    - rewrite E. apply prefix_take.
    - set_solver.
    - intros x (e & -> & He)%list_elem_of_fmap. apply subseteq_take in He.
      assert (Byte.x00 :: e ∈ leaf_inputs new) by (apply list_elem_of_fmap; eauto). set_solver. }
  unfold VerifyConsistency in Hv.
  destruct (Z.eqb_spec (Z.of_nat (length old)) 0); [lia|].
  destruct (_ || _ || _) eqn:E1 in Hv; [done|]. apply orb_false_iff in E1 as [[E1 _]%orb_false_iff _].
  destruct (Z.eqb_spec (Z.of_nat (length old)) (Z.of_nat (length new))) as [E|Hne].
  { apply andb_prop in Hv as [_ Hv]. apply bytes_equal_true in Hv. apply Hgoal; [lia|].
    rewrite take_ge by (rewrite length_map; lia).
    apply mtl_inj; [rewrite !length_map; lia|apply log_sized..| |done].
    eapply collision_free_mono; [|exact Hcf]. sub_app. }
  destruct (_ =? 0)%nat; [done|]. unfold cons_inputs in Hcf.
  destruct (shift_odd 64 _ _) as [f s] eqn:Hs.
  destruct (if _ =? 0 then _ else _) as [|x ps]; [done|].
  destruct (vc_loop ps x x f s) as [[[fr sr] sn]|] eqn:Hl; [|done].
  apply andb_prop in Hv as [[Hv1 Hv2%bytes_equal_true]%andb_prop Hv3%bytes_equal_true].
  apply Z.eqb_eq in Hv1 as ->.
  destruct (vc_loop_length (length new) (length old) x f s ps fr sr) as (hs & He & Hrun);
    [done|lia|done..|].
  rewrite Hrun in Hcf. apply Hgoal; [lia|].
  eapply (extends_sound _ _ _ _ _ _ _ He); rewrite ?length_map; try done; try apply log_sized.
  eapply collision_free_mono; [|exact Hcf]. sub_app.
Qed.

(** C20.  Consistency soundness: when [VerifyConsistency] accepts two roots of
    logs of the entries [old] and [new], [old] is a prefix of [new]: nothing
    was removed, changed or reordered, whatever the proof, unless SHA-256
    collides on the strings hashed for the two trees and for the proof. *)
Theorem consistency_sound old new proof :
  slice_len (length new) -> (1 <= length old)%nat ->
  collision_free sha256
    (tree_inputs (map LeafHash new) ++ tree_inputs (map LeafHash old) ++
     leaf_inputs old ++ leaf_inputs new ++
     cons_inputs (Root (log_of old)) (zlen old) (zlen new) proof) ->
  VerifyConsistency (Root (log_of old)) (Root (log_of new)) (zlen old) (zlen new) proof = true ->
  old `prefix_of` new.
Proof. apply consistency_prefix. Qed.
End merkle.

(** ** Witnesses *)

Module MerkleWitness.

Definition entries : list bytes := map to_bytes ["a"; "b"; "c"; "d"; "e"; "f"; "g"]%string.
Definition log : MerkleLog := log_of entries.
Definition entry3 : bytes := to_bytes "d".
Definition proof_of (r : outcome (bytes * list bytes)) : list bytes :=
  match r with Ret (_, p) => p | _ => [] end.
Definition cproof_of (r : outcome (bytes * bytes * list bytes)) : list bytes :=
  match r with Ret (_, _, p) => p | _ => [] end.

End MerkleWitness.

Lemma inclusion_complete_witness :
  exists proof,
    InclusionProof MerkleWitness.log 3 7 = Ret (Root MerkleWitness.log, proof) /\
    VerifyInclusion (LeafHash MerkleWitness.entry3) 3 7 proof = Root MerkleWitness.log.
Proof.
  apply (inclusion_complete MerkleWitness.log 3 7 (LeafHash MerkleWitness.entry3));
    [vm_compute; reflexivity|vm_compute; lia|lia|vm_compute; reflexivity].
Defined.

Lemma inclusion_sound_witness :
  MerkleWitness.entries !! 3%nat = Some MerkleWitness.entry3.
Proof.
  apply (inclusion_sound MerkleWitness.entries 3 MerkleWitness.entry3
    (MerkleWitness.proof_of (InclusionProof MerkleWitness.log 3 7)));
    [vm_compute; reflexivity|vm_compute; lia
    |apply collision_free_b_spec; vm_compute; reflexivity|vm_compute; reflexivity].
Defined.

Lemma consistency_complete_witness :
  exists proof,
    ConsistencyProof MerkleWitness.log 3 7 =
      Ret (Root (log_of (take 3 MerkleWitness.entries)), Root MerkleWitness.log, proof) /\
    VerifyConsistency (Root (log_of (take 3 MerkleWitness.entries))) (Root MerkleWitness.log)
      3 7 proof = true.
Proof.
  apply (consistency_complete MerkleWitness.log 3 7);
    [vm_compute; reflexivity|apply (bool_decide_unpack _); vm_compute; exact I
    |lia|vm_compute; lia].
Defined.

Lemma consistency_sound_witness :
  take 3 MerkleWitness.entries `prefix_of` MerkleWitness.entries.
Proof.
  apply (consistency_sound (take 3 MerkleWitness.entries) MerkleWitness.entries
    (MerkleWitness.cproof_of (ConsistencyProof MerkleWitness.log 3 7)));
    [vm_compute; reflexivity|vm_compute; lia
    |apply collision_free_b_spec; vm_compute; reflexivity|vm_compute; reflexivity].
Defined.
