(* ===== verification/Gossip.v ===== *)
(** * Signed tree heads and the gossiping observer: [ctlog.go], second half

    [SignedTreeHead] with its signed bytes, and [GossipNode], the state of an
    observer: the log's key, the trusted head and the last alarm.  [Observe] is
    one step; [observe_all] folds it over the heads other parties report.

    Theorems: the honest log never alarms an observer that is given the log's
    own proofs; whatever an adversary reports, the entries under the trusted
    head only grow; two heads of one size with different roots always alarm. *)
From S2P Require Import Prelude Crypto Merkle.

Definition EncodeSize (n : Z) : bytes := be_bytes 8 (u64 n).

Record SignedTreeHead := {
  TreeSize : Z;
  Timestamp : Z;
  SRoot : bytes;
  Signature : bytes;
}.

#[global] Instance sth_eq_dec : EqDecision SignedTreeHead.
Proof. solve_decision. Defined.

Section gossip.
Context `{Hashes} `{Ed25519}.

(** The string [sthBytes] hashes. *)
Definition sthInput (s : SignedTreeHead) : bytes :=
  Byte.x00 :: be_bytes 8 (u64 (Timestamp s)) ++ be_bytes 8 (u64 (TreeSize s)) ++ SRoot s.
Definition sthBytes (s : SignedTreeHead) : bytes := sha256 (sthInput s).

Definition SignSTH (key : slice) (root : bytes) (size ts : Z) : outcome SignedTreeHead :=
  let sth := {| TreeSize := size; Timestamp := ts; SRoot := root; Signature := [] |} in
  sig ← ed25519_Sign key (sthBytes sth);
  Ret {| TreeSize := size; Timestamp := ts; SRoot := root; Signature := sig |}.

(** [Verify] on a possibly nil head. *)
Definition STH_Verify (s : option SignedTreeHead) (pub : bytes) : outcome bool :=
  match s with
  | None => Ret false
  | Some s =>
      if (length (Signature s) =? 0)%nat then Ret false
      else ed25519_Verify pub (sthBytes s) (Signature s)
  end.

Record GossipNode := {
  gpub : bytes;
  trusted : option SignedTreeHead;
  alarm : error;
}.

Definition NewGossipNode (pub : bytes) (trusted : option SignedTreeHead) : GossipNode :=
  {| gpub := pub; trusted := trusted; alarm := "" |}.

Definition Trusted (g : GossipNode) : option SignedTreeHead := trusted g.
Definition Alarm (g : GossipNode) : error := alarm g.

Definition set_trusted (g : GossipNode) (s : SignedTreeHead) : GossipNode :=
  {| gpub := gpub g; trusted := Some s; alarm := alarm g |}.
Definition set_alarm (g : GossipNode) (a : error) : GossipNode :=
  {| gpub := gpub g; trusted := trusted g; alarm := a |}.

(** One observation: the node after it, whether the head was accepted, whether
    it raised the alarm. *)
Definition Observe (g : GossipNode) (sth : option SignedTreeHead) (proof : list bytes)
    (proofFrom : Z) : outcome (GossipNode * bool * bool) :=
  let g := set_alarm g "" in
  ok ← STH_Verify sth (gpub g);
  match sth with
  | Some sth =>
      if negb ok then Ret (g, false, false)
      else
        match trusted g with
        | None => Ret (set_trusted g sth, true, false)
        | Some t =>
            if TreeSize t =? 0 then Ret (set_trusted g sth, true, false)
            else if TreeSize sth <? TreeSize t then Ret (g, true, false)
            else if TreeSize sth =? TreeSize t then
              if negb (bytes_equal (SRoot sth) (SRoot t))
              then Ret (set_alarm g "split-brain: two tree heads at size %d with different roots",
                        false, true)
              else Ret (g, true, false)
            else if negb (proofFrom =? TreeSize t) then
              Ret (set_alarm g "inconsistent history: proof starts at %d, trusted head is %d",
                   false, true)
            else if negb (VerifyConsistency (SRoot t) (SRoot sth) (TreeSize t) (TreeSize sth) proof)
            then
              Ret (set_alarm g
                "inconsistent history: %d entries claimed after trusted size %d do not extend it",
                false, true)
            else Ret (set_trusted g sth, true, false)
        end
  | None => Ret (g, false, false)
  end.

(** A report: the head, the proof, and the size the proof starts from. *)
Definition report : Type := option SignedTreeHead * list bytes * Z.

Fixpoint observe_all (g : GossipNode) (rs : list report) : outcome GossipNode :=
  match rs with
  | [] => Ret g
  | (s, proof, from) :: rs =>
      r ← Observe g s proof from;
      observe_all r.1.1 rs
  end.

(** ** What a signature covers *)

Definition sth_in_range (s : SignedTreeHead) : Prop :=
  in_int64 (TreeSize s) /\ in_int64 (Timestamp s).

(** The signed string determines the size, the timestamp and the root. *)
Lemma sthInput_inj s s' :
  sth_in_range s -> sth_in_range s' -> sthInput s = sthInput s' ->
  TreeSize s = TreeSize s' /\ Timestamp s = Timestamp s' /\ SRoot s = SRoot s'.
Proof.
  intros [Hs Ht] [Hs' Ht'] E. apply (f_equal tail) in E. unfold sthInput in E. cbn [tail] in E.
  apply app_inj_1 in E as [E1 E]; [|by rewrite !be_bytes_length].
  apply app_inj_1 in E as [E2 E]; [|by rewrite !be_bytes_length].
  apply be_bytes_inj in E1; [|apply u64_range..].
  apply be_bytes_inj in E2; [|apply u64_range..].
  split; [by apply u64_inj|split; [by apply u64_inj|done]].
Qed.

Context {HL : HashLaws} {EL : Ed25519Laws}.

Lemma SignSTH_ok priv root size ts :
  real_key priv ->
  exists s, SignSTH (Some priv) root size ts = Ret s /\
    STH_Verify (Some s) (pub_of priv) = Ret true /\
    TreeSize s = size /\ Timestamp s = ts /\ SRoot s = root.
Proof.
  intros Hk. unfold SignSTH. rewrite Sign_real by done. eexists. split; [done|].
  split; [|done]. cbn [STH_Verify Signature]. rewrite (ed_sign_length _ _ Hk).
  exact (signed_verifies _ (sthBytes {| TreeSize := size; Timestamp := ts;
    SRoot := root; Signature := [] |}) Hk).
Qed.

(** A tree head signed with a real key verifies under its public half;
    and a head whose size, timestamp or root differs hashes a different string,
    so that the signature covers all three, unless the two strings collide. *)
Theorem SignSTH_binds priv root size ts s :
  real_key priv -> in_int64 size -> in_int64 ts ->
  SignSTH (Some priv) root size ts = Ret s ->
  STH_Verify (Some s) (pub_of priv) = Ret true /\
  forall s', sth_in_range s' -> collision_free sha256 [sthInput s; sthInput s'] ->
    sthBytes s' = sthBytes s ->
    TreeSize s' = size /\ Timestamp s' = ts /\ SRoot s' = root.
Proof.
  intros Hk Hs Ht E. destruct (SignSTH_ok priv root size ts Hk) as (s0 & E0 & Hv & <- & <- & <-).
  rewrite E in E0. injection E0 as <-. split; [done|].
  intros s' Hr Hcf E'. apply Hcf in E'; [|set_solver..]. by apply sthInput_inj in E'.
Qed.

(** ** The honest log never alarms *)

(** The head of log [m] at size [n], signed at [ts]. *)
Definition honest (priv : bytes) (m : MerkleLog) (n : nat) (s : SignedTreeHead) : Prop :=
  exists ts, SignSTH (Some priv) (Root {| leaves := take n (leaves m) |}) (Z.of_nat n) ts = Ret s.

Lemma honest_verifies priv m n s :
  real_key priv -> honest priv m n s ->
  STH_Verify (Some s) (pub_of priv) = Ret true /\
  TreeSize s = Z.of_nat n /\ SRoot s = Root {| leaves := take n (leaves m) |}.
Proof.
  intros Hk [ts Hs]. destruct (SignSTH_ok priv (Root {| leaves := take n (leaves m) |})
    (Z.of_nat n) ts Hk) as (s0 & E0 & Hv & ? & _ & ?).
  rewrite Hs in E0. by injection E0 as <-.
Qed.

(** No false alarm on the log's own proofs: an observer trusting an honest
    head of size [n1 > 0] that is shown the honest head of any size [n2] of the
    same log, with the consistency proof the log computes from [n1], accepts
    it, stays healthy, and trusts the larger of the two. *)
Theorem Observe_honest priv m n1 n2 t s al proof from :
  real_key priv -> slice_len (length (leaves m)) -> Forall hash_sized (leaves m) ->
  (1 <= n1 <= length (leaves m))%nat -> (n2 <= length (leaves m))%nat ->
  honest priv m n1 t -> honest priv m n2 s ->
  ((n1 < n2)%nat -> from = Z.of_nat n1 /\
     exists r1 r2, ConsistencyProof m (Z.of_nat n1) (Z.of_nat n2) = Ret (r1, r2, proof)) ->
  Observe {| gpub := pub_of priv; trusted := Some t; alarm := al |} (Some s) proof from =
    Ret ({| gpub := pub_of priv; trusted := Some (if decide (n1 < n2)%nat then s else t);
            alarm := "" |}, true, false).
Proof.
  intros Hk Hsl Hf H1 H2 Ht Hs Hp.
  destruct (honest_verifies _ _ _ _ Hk Ht) as (_ & Ht1 & Ht2).
  destruct (honest_verifies _ _ _ _ Hk Hs) as (Hv & Hs1 & Hs2).
  unfold Observe. cbn [set_alarm gpub trusted]. rewrite Hv. cbn [mbind outcome_bind negb].
  rewrite Ht1, Hs1, Ht2, Hs2. destruct (Z.eqb_spec (Z.of_nat n1) 0); [lia|].
  destruct (Z.ltb_spec (Z.of_nat n2) (Z.of_nat n1)).
  { by rewrite decide_False by lia. }
  destruct (Z.eqb_spec (Z.of_nat n2) (Z.of_nat n1)) as [E|E].
  { apply Nat2Z.inj in E as ->. rewrite bytes_equal_refl, decide_False by lia. done. }
  destruct Hp as (-> & r1 & r2 & Hc); [lia|]. rewrite Z.eqb_refl. cbn [negb].
  destruct (consistency_checks m n1 n2) as (p & Hp & Hver); [done..|lia|done|].
  rewrite Hc in Hp. injection Hp as -> -> ->. rewrite Hver. cbn [negb].
  by rewrite decide_True by lia.
Qed.

(** ** Whatever is reported, history only grows *)

(** What one accepted observation can do to the trusted head. *)
Lemma Observe_trusted g s proof from g' acc al :
  Observe g s proof from = Ret (g', acc, al) ->
  gpub g' = gpub g /\
  (trusted g' = trusted g \/
   exists s0, s = Some s0 /\ trusted g' = Some s0 /\ STH_Verify s (gpub g) = Ret true /\
     forall t, trusted g = Some t -> TreeSize t <> 0 ->
       TreeSize t < TreeSize s0 /\
       VerifyConsistency (SRoot t) (SRoot s0) (TreeSize t) (TreeSize s0) proof = true).
Proof.
  unfold Observe. cbn [set_alarm gpub trusted]. intros E. apply bind_ret in E as (ok & Hv & E).
  destruct s as [s|]; [|by injection E as <- <- <-; cbn; rewrite ?Et; auto].
  destruct ok; cbn [negb] in E; [|by injection E as <- <- <-; cbn; rewrite ?Et; auto].
  destruct (trusted g) as [t|] eqn:Et.
  2:{ injection E as <- <- <-. split; [done|]. right. eexists. by split_and!. }
  destruct (Z.eqb_spec (TreeSize t) 0).
  { injection E as <- <- <-. split; [done|]. right. eexists. split_and!; [done..|].
    intros t' [= <-]. done. }
  destruct (Z.ltb_spec (TreeSize s) (TreeSize t)); [by injection E as <- <- <-; cbn; rewrite ?Et; auto|].
  destruct (Z.eqb_spec (TreeSize s) (TreeSize t)).
  { case_if; injection E as <- <- <-; cbn; rewrite ?Et; auto. }
  destruct (negb (from =? TreeSize t)); [by injection E as <- <- <-; cbn; rewrite ?Et; auto|].
  destruct (VerifyConsistency _ _ _ _ _) eqn:Hc; cbn [negb] in E; injection E as <- <- <-; cbn; rewrite ?Et; auto.
  split; [done|]. right. eexists. split_and!; [done..|]. cbn. intros t' [= <-] _. split; [lia|done].
Qed.

(** The log's heads have contents: [content s] are the entries under head [s]. *)
Definition commits (content : SignedTreeHead -> list bytes) (s : SignedTreeHead) : Prop :=
  TreeSize s = zlen (content s) /\ SRoot s = Root (log_of (content s)) /\
  slice_len (length (content s)).

(** The strings hashed when [proof] is checked from head [t] to head [s]. *)
Definition step_inputs (content : SignedTreeHead -> list bytes) (t s : SignedTreeHead)
    (proof : list bytes) : list bytes :=
  tree_inputs (map LeafHash (content s)) ++ tree_inputs (map LeafHash (content t)) ++
  leaf_inputs (content t) ++ leaf_inputs (content s) ++
  cons_inputs (SRoot t) (TreeSize t) (TreeSize s) proof.

(** No consistency check between two of the heads [S] with a proof of [P] meets
    a collision. *)
Definition no_collision (content : SignedTreeHead -> list bytes) (S : list SignedTreeHead)
    (P : list (list bytes)) : Prop :=
  forall t s proof, t ∈ S -> s ∈ S -> proof ∈ P ->
    collision_free sha256 (step_inputs content t s proof).

Definition heads (rs : list report) : list SignedTreeHead := omap (fun r => r.1.1) rs.

(** C24.  Append-only: an observer that trusts a signed non-empty head and then
    takes any sequence of reports, in any order, with any proofs, ends trusting
    a head whose entries extend those it started from, provided every signed
    head commits to some entries and SHA-256 does not collide on the strings
    the checks hash. *)
Theorem observe_all_append_only content g rs g' t :
  trusted g = Some t -> TreeSize t <> 0 -> STH_Verify (Some t) (gpub g) = Ret true ->
  (forall s, s ∈ t :: heads rs -> STH_Verify (Some s) (gpub g) = Ret true -> commits content s) ->
  no_collision content (t :: heads rs) (map (fun r => r.1.2) rs) ->
  observe_all g rs = Ret g' ->
  exists t', trusted g' = Some t' /\ content t `prefix_of` content t'.
Proof.
  revert g t. induction rs as [|[[s proof] from] rs IH]; intros g t Ht Hnz Hv Hcm Hcf Hall.
  { injection Hall as <-. eauto. }
  cbn [observe_all] in Hall. apply bind_ret in Hall as ([[g1 acc] al] & Ho & Hall).
  cbn [fst] in Hall. pose proof Ho as Hpub.
  destruct (Observe_trusted _ _ _ _ _ _ _ Ho) as [Hp [Hsame|(s0 & -> & Hs0 & Hvs & Hstep)]].
  - apply (IH g1 t); try done; [congruence|..].
    + by rewrite Hp.
    + rewrite Hp. intros s' Hs'. apply Hcm. destruct s; cbn; set_solver.
    + intros a b p Ha Hb Hpr. apply Hcf; destruct s; cbn; set_solver.
  - destruct (Hstep t Ht Hnz) as [Hlt Hver].
    assert (Hs0in : s0 ∈ t :: heads ((Some s0, proof, from) :: rs)) by (cbn; set_solver).
    destruct (Hcm t) as (Hts & Htr & Htl); [set_solver|done|].
    destruct (Hcm s0 Hs0in Hvs) as (Hss & Hsr & Hsl).
    assert (Hpre : content t `prefix_of` content s0).
    { apply (consistency_prefix _ _ proof); [done| | |].
      - unfold zlen in *. lia.
      - rewrite <- Hts, <- Hss, <- Htr. apply (Hcf t s0 proof); [set_solver|done|cbn; set_solver].
      - by rewrite <- Hts, <- Hss, <- Htr, <- Hsr. }
    destruct (IH g1 s0) as (t' & Ht' & Hpre'); try done.
    + unfold zlen in *. lia.
    + by rewrite Hp.
    + rewrite Hp. intros s' Hs'. apply Hcm. cbn. set_solver.
    + intros a b p Ha Hb Hpr. apply Hcf; cbn; set_solver.
    + exists t'. split; [done|]. by etrans.
Qed.

(** Fork detection: a verified head that is not smaller than the trusted
    one, and whose entries do not extend the trusted entries, is refused with
    the alarm and leaves the trusted head in place, whatever proof comes with
    it, unless SHA-256 collides on the strings the check hashes. *)
Theorem Observe_detects_fork content g t s proof from :
  trusted g = Some t -> TreeSize t <> 0 -> TreeSize t <= TreeSize s ->
  STH_Verify (Some s) (gpub g) = Ret true ->
  commits content t -> commits content s ->
  collision_free sha256 (step_inputs content t s proof) ->
  ~ content t `prefix_of` content s ->
  exists g', Observe g (Some s) proof from = Ret (g', false, true) /\
    trusted g' = Some t /\ alarm g' <> ""%string.
Proof.
  intros Ht Hnz Hle Hv (Hts & Htr & Htl) (Hss & Hsr & Hsl) Hcf Hno.
  unfold Observe. cbn [set_alarm gpub trusted]. rewrite Hv. cbn [mbind outcome_bind negb].
  rewrite Ht. destruct (Z.eqb_spec (TreeSize t) 0); [done|].
  destruct (Z.ltb_spec (TreeSize s) (TreeSize t)); [lia|].
  destruct (Z.eqb_spec (TreeSize s) (TreeSize t)) as [E|E].
  - destruct (bytes_equal (SRoot s) (SRoot t)) eqn:Hb; cbn [negb]; [|by eexists].
    destruct Hno. apply bytes_equal_true in Hb. rewrite Htr, Hsr in Hb.
    rewrite !Root_mtl, !leaves_log_of in Hb. apply mtl_inj in Hb; try apply log_sized.
    + eapply (map_LeafHash_inj _ _ _ Hcf) in Hb as ->; [done|unfold step_inputs; sub_app..].
    + rewrite !length_map. unfold zlen in *. lia.
    + eapply collision_free_mono; [|exact Hcf]. unfold step_inputs. sub_app.
  - destruct (from =? TreeSize t); cbn [negb]; [|by eexists].
    destruct (VerifyConsistency _ _ _ _ _) eqn:Hc; cbn [negb]; [|by eexists].
    destruct Hno. apply (consistency_prefix _ _ proof); [done|unfold zlen in *; lia| |].
    + rewrite <- Hts, <- Hss, <- Htr. exact Hcf.
    + by rewrite <- Hts, <- Hss, <- Htr, <- Hsr.
Qed.

(** A false alarm: whatever proof comes with it, an honest head larger
    than the trusted honest head of the same log raises the alarm when the
    reporter's proof starts at any size other than the trusted one, which is
    what a reporter at a different size sends.  The comment on [GossipNode]
    says that a false alarm is impossible. *)
Theorem Observe_false_alarm priv m n1 n2 t s al proof from :
  real_key priv -> (1 <= n1 < n2)%nat ->
  honest priv m n1 t -> honest priv m n2 s -> from <> Z.of_nat n1 ->
  Observe {| gpub := pub_of priv; trusted := Some t; alarm := al |} (Some s) proof from =
    Ret ({| gpub := pub_of priv; trusted := Some t;
            alarm := "inconsistent history: proof starts at %d, trusted head is %d" |},
         false, true).
Proof.
  intros Hk Hn Ht Hs Hf.
  destruct (honest_verifies _ _ _ _ Hk Ht) as (_ & Ht1 & _).
  destruct (honest_verifies _ _ _ _ Hk Hs) as (Hv & Hs1 & _).
  unfold Observe. cbn [set_alarm gpub trusted]. rewrite Hv. cbn [mbind outcome_bind negb].
  rewrite Ht1, Hs1. destruct (Z.eqb_spec (Z.of_nat n1) 0); [lia|].
  destruct (Z.ltb_spec (Z.of_nat n2) (Z.of_nat n1)); [lia|].
  destruct (Z.eqb_spec (Z.of_nat n2) (Z.of_nat n1)); [lia|].
  by destruct (Z.eqb_spec from (Z.of_nat n1)).
Qed.

End gossip.

(** ** Witnesses *)

Module GossipWitness.

Definition key : bytes := Toy.key 1.
Definition pub : bytes := pub_of key.
Definition head (n : nat) : SignedTreeHead :=
  match SignSTH (Some key) (Root (log_of (take n MerkleWitness.entries))) (Z.of_nat n) 99 with
  | Ret s => s
  | _ => {| TreeSize := 0; Timestamp := 0; SRoot := []; Signature := [] |}
  end.
Definition proof (n1 n2 : Z) : list bytes :=
  MerkleWitness.cproof_of (ConsistencyProof MerkleWitness.log n1 n2).
(** The entries under the heads: the log's first entries. *)
Definition content (s : SignedTreeHead) : list bytes :=
  take (Z.to_nat (TreeSize s)) MerkleWitness.entries.
Definition node : GossipNode := NewGossipNode pub (Some (head 3)).
(** A head of a rewritten log of four entries. *)
Definition other : list bytes := map to_bytes ["a"; "b"; "X"; "d"]%string.
Definition forked : SignedTreeHead :=
  match SignSTH (Some key) (Root (log_of other)) 4 98 with
  | Ret s => s
  | _ => head 3
  end.
Definition fork_content (s : SignedTreeHead) : list bytes :=
  if decide (Timestamp s = 98) then other else content s.
Definition reports : list report :=
  [(Some forked, proof 3 4, 3); (None, [], 0); (Some (head 4), proof 3 4, 3)].
Definition final : GossipNode :=
  match observe_all node reports with Ret g => g | _ => node end.

End GossipWitness.

Lemma SignSTH_binds_witness :
  STH_Verify (Some (GossipWitness.head 3)) GossipWitness.pub = Ret true /\
  forall s', sth_in_range s' ->
    collision_free sha256 [sthInput (GossipWitness.head 3); sthInput s'] ->
    sthBytes s' = sthBytes (GossipWitness.head 3) ->
    TreeSize s' = 3 /\ Timestamp s' = 99 /\
    SRoot s' = Root (log_of (take 3 MerkleWitness.entries)).
Proof.
  apply (SignSTH_binds GossipWitness.key (Root (log_of (take 3 MerkleWitness.entries))) 3 99);
    [apply Toy.real_toy_key|unfold in_int64; lia|unfold in_int64; lia|vm_compute; reflexivity].
Defined.

Lemma Observe_honest_witness :
  Observe GossipWitness.node (Some (GossipWitness.head 7)) (GossipWitness.proof 3 7) 3 =
    Ret (NewGossipNode GossipWitness.pub (Some (GossipWitness.head 7)), true, false).
Proof.
  apply (Observe_honest GossipWitness.key MerkleWitness.log 3 7);
    [apply Toy.real_toy_key|vm_compute; reflexivity
    |apply (bool_decide_unpack _); vm_compute; exact I
    |vm_compute; lia|vm_compute; lia
    |exists 99; vm_compute; reflexivity|exists 99; vm_compute; reflexivity|].
  intros _. split; [reflexivity|]. do 2 eexists. vm_compute; reflexivity.
Defined.

Lemma observe_all_append_only_witness :
  exists t', trusted GossipWitness.final = Some t' /\
    GossipWitness.fork_content (GossipWitness.head 3) `prefix_of` GossipWitness.fork_content t'.
Proof.
  apply (observe_all_append_only GossipWitness.fork_content GossipWitness.node
    GossipWitness.reports).
  - reflexivity.
  - vm_compute. discriminate.
  - vm_compute. reflexivity.
  - intros s Hs _. unfold commits, slice_len.
    assert (HF : Forall (fun s => TreeSize s = zlen (GossipWitness.fork_content s) /\
      SRoot s = Root (log_of (GossipWitness.fork_content s)) /\
      Z.of_nat (length (GossipWitness.fork_content s)) < 2 ^ 63)
      (GossipWitness.head 3 :: heads GossipWitness.reports))
      by (apply (bool_decide_unpack _); vm_compute; exact I).
    rewrite Forall_forall in HF. by apply HF.
  - assert (HF : forallb (fun t => forallb (fun s => forallb (fun p => collision_free_b sha256
      (step_inputs GossipWitness.fork_content t s p)) (map (fun r => r.1.2) GossipWitness.reports))
      (GossipWitness.head 3 :: heads GossipWitness.reports))
      (GossipWitness.head 3 :: heads GossipWitness.reports) = true)
      by (vm_compute; reflexivity).
    intros t s p Ht%list_elem_of_In Hs%list_elem_of_In Hp%list_elem_of_In.
    apply collision_free_b_spec. rewrite forallb_forall in HF. specialize (HF t Ht).
    rewrite forallb_forall in HF. specialize (HF s Hs). rewrite forallb_forall in HF. by apply HF.
  - vm_compute. reflexivity.
Defined.

Lemma Observe_detects_fork_witness :
  exists g', Observe GossipWitness.node (Some GossipWitness.forked) (GossipWitness.proof 3 4) 3 =
      Ret (g', false, true) /\
    trusted g' = Some (GossipWitness.head 3) /\ alarm g' <> ""%string.
Proof.
  apply (Observe_detects_fork GossipWitness.fork_content);
    [reflexivity|vm_compute; discriminate|vm_compute; discriminate|vm_compute; reflexivity
    |split_and!; vm_compute; reflexivity|split_and!; vm_compute; reflexivity
    |apply collision_free_b_spec; vm_compute; reflexivity
    |apply (bool_decide_unpack _); vm_compute; exact I].
Defined.

Lemma Observe_false_alarm_witness :
  Observe GossipWitness.node (Some (GossipWitness.head 7)) (GossipWitness.proof 5 7) 5 =
    Ret (set_alarm GossipWitness.node
           "inconsistent history: proof starts at %d, trusted head is %d", false, true).
Proof.
  apply (Observe_false_alarm GossipWitness.key MerkleWitness.log 3 7);
    [apply Toy.real_toy_key|lia|exists 99; vm_compute; reflexivity
    |exists 99; vm_compute; reflexivity|vm_compute; discriminate].
Defined.
