(* ===== verification/Modular.v ===== *)
(** * Modular arithmetic: [math/big] modulo a number, interpolation, primality

    Congruence as a setoid, [big.Int.ModInverse] and [big.Int.Exp], polynomials
    over the integers modulo [m] with Lagrange interpolation (no primality
    needed: the differences of the points are units), and Pocklington's
    criterion with a certificate checker. *)
From Stdlib Require Import Znumtheory Zcong Zdivisibility.
From Stdlib Require Zmod.
From S2P Require Import Prelude.

(** ** Congruence *)

Definition cong (m a b : Z) : Prop := (m | a - b).

#[global] Instance cong_equiv m : Equivalence (cong m).
Proof.
  split; red; unfold cong.
  - intros x. rewrite Z.sub_diag. apply Z.divide_0_r.
  - intros x y H. replace (y - x) with (- (x - y)) by ring. by apply Z.divide_opp_r.
  - intros x y z H1 H2. replace (x - z) with ((x - y) + (y - z)) by ring. by apply Z.divide_add_r.
Qed.

#[global] Instance cong_add m : Proper (cong m ==> cong m ==> cong m) Z.add.
Proof.
  intros a b H c d H'. unfold cong in *. replace (a + c - (b + d)) with ((a - b) + (c - d)) by ring.
  by apply Z.divide_add_r.
Qed.

#[global] Instance cong_opp m : Proper (cong m ==> cong m) Z.opp.
Proof.
  intros a b H. unfold cong in *. replace (- a - - b) with (- (a - b)) by ring. by apply Z.divide_opp_r.
Qed.

#[global] Instance cong_sub m : Proper (cong m ==> cong m ==> cong m) Z.sub.
Proof. intros a b H c d H'. rewrite <- !Z.add_opp_r. by rewrite H, H'. Qed.

#[global] Instance cong_mul m : Proper (cong m ==> cong m ==> cong m) Z.mul.
Proof.
  intros a b H c d H'. unfold cong in *. replace (a * c - b * d) with ((a - b) * c + b * (c - d)) by ring.
  apply Z.divide_add_r; [by apply Z.divide_mul_l|by apply Z.divide_mul_r].
Qed.

Lemma cong_mod m a : m <> 0 -> cong m (a mod m) a.
Proof. intros Hm. exists (- (a / m)). rewrite (Z.mod_eq a m) by done. ring. Qed.

Lemma cong_iff m a b : m <> 0 -> cong m a b <-> a mod m = b mod m.
Proof.
  intros Hm. split.
  - intros [k E]. replace a with (b + k * m) by lia. by apply Z_mod_plus_full.
  - intros E. rewrite <- (cong_mod m a), <- (cong_mod m b), E by done. done.
Qed.

Lemma cong_eq m a b : 0 <= a < m -> 0 <= b < m -> cong m a b -> a = b.
Proof. intros Ha Hb E. rewrite cong_iff, !Z.mod_small in E by lia. done. Qed.

Lemma cong_0 m a : cong m a 0 <-> (m | a).
Proof. unfold cong. by rewrite Z.sub_0_r. Qed.

Lemma cong_pow m a b e : 0 <= e -> cong m a b -> cong m (a ^ e) (b ^ e).
Proof.
  intros He E. revert e He. apply natlike_ind; [done|]. intros e He IH.
  rewrite !Z.pow_succ_r by done. by rewrite IH, E.
Qed.

Lemma cong_cancel m a b c : Z.coprime c m -> cong m (c * a) (c * b) -> cong m a b.
Proof.
  intros Hc E. unfold cong in *. replace (c * a - c * b) with (c * (a - b)) in E by ring.
  eapply Z.gauss; [exact E|]. by rewrite Z.gcd_comm.
Qed.

(** [cong_ring]: a congruence that is an identity of integers. *)
Ltac cong_ring := exists 0; ring.

(** ** [math/big] *)

Definition ModInverse (g n : Z) : option Z :=
  if Z.gcd g n =? 1 then Some (Z.invmod g n) else None.

Lemma invmod_cong a m : 2 <= m -> Z.coprime a m -> cong m (Z.invmod a m * a) 1.
Proof. intros Hm Hc. rewrite cong_iff by lia. by rewrite Z.invmod_coprime, Z.mod_1_l by (done || lia). Qed.

Lemma invmod_range a m : 0 < m -> 0 <= Z.invmod a m < m.
Proof. intros Hm. unfold Z.invmod. by apply Z.mod_pos_bound. Qed.

Lemma ModInverse_some g n i : 2 <= n -> ModInverse g n = Some i -> cong n (i * g) 1 /\ 0 <= i < n.
Proof.
  unfold ModInverse. destruct (Z.eqb_spec (Z.gcd g n) 1); [|done]. intros Hn [= <-].
  split; [by apply invmod_cong|apply invmod_range; lia].
Qed.

Lemma ModInverse_unit g n : Z.coprime g n -> ModInverse g n = Some (Z.invmod g n).
Proof. intros Hc. unfold ModInverse. by rewrite Hc. Qed.

(** [big.Int.Bytes]: big endian, without leading zeros. *)
Definition byte_len (k : Z) : nat := if k =? 0 then 0 else Z.to_nat (Z.log2 (Z.abs k) / 8 + 1).
Definition big_bytes (k : Z) : bytes := be_bytes (byte_len k) (Z.abs k).

Lemma be_big_bytes k : be_Z (big_bytes k) = Z.abs k.
Proof.
  unfold big_bytes, byte_len. destruct (Z.eqb_spec k 0) as [->|Hk]; [done|]. rewrite be_Z_bytes.
  apply Z.mod_small. split; [lia|]. pose proof (Z.log2_spec (Z.abs k) ltac:(lia)) as [_ H2].
  pose proof (Z.log2_nonneg (Z.abs k)). rewrite Z2Nat.id by (pose proof (Z.div_pos (Z.log2 (Z.abs k)) 8); lia).
  change 256 with (2 ^ 8). rewrite <- Z.pow_mul_r by (try (pose proof (Z.div_pos (Z.log2 (Z.abs k)) 8)); lia).
  eapply Z.lt_le_trans; [exact H2|]. apply Z.pow_le_mono_r; [lia|]. div_lia.
Qed.

(** Square and multiply over the bits of the exponent, reducing with [red]. *)
Fixpoint exp_by (red : Z -> Z) (x : Z) (e : positive) : Z :=
  match e with
  | xH => red x
  | xO e => let r := exp_by red x e in red (r * r)
  | xI e => let r := exp_by red x e in red (red (r * r) * x)
  end.

Lemma exp_by_spec m red x e :
  (forall z, cong m (red z) z) -> cong m (exp_by red x e) (x ^ Z.pos e).
Proof.
  intros Hr. assert (Hd : forall e, x ^ Z.pos e~0 = x ^ Z.pos e * x ^ Z.pos e).
  { intros e'. rewrite Pos2Z.inj_xO, <- Z.add_diag. apply Z.pow_add_r; lia. }
  induction e as [e IH|e IH|]; cbn [exp_by]; rewrite !Hr; [| |by rewrite Z.pow_1_r].
  - rewrite IH, <- Hd. change (Z.pos e~1) with (Z.pos e~0 + 1).
    by rewrite Z.pow_add_r, Z.pow_1_r by lia.
  - by rewrite IH, <- Hd.
Qed.

(** [Exp(x, e, m)] for [e >= 0] and [m > 0]. *)
Definition Exp (x e m : Z) : Z :=
  match e with Zpos e => exp_by (fun z => z mod m) x e | _ => 1 mod m end.

Lemma Exp_spec x e m : 0 < m -> 0 <= e -> Exp x e m = x ^ e mod m.
Proof.
  intros Hm He. destruct e as [|e|e]; [done| |lia]. cbn [Exp].
  assert (Hc : cong m (exp_by (fun z => z mod m) x e) (x ^ Z.pos e))
    by (apply exp_by_spec; intros z; apply cong_mod; lia).
  rewrite cong_iff in Hc by lia. rewrite <- Hc. symmetry. apply Z.mod_small.
  destruct e; cbn [exp_by]; by apply Z.mod_pos_bound.
Qed.

(** Reduction modulo [2^k - c] by folding the high bits, for small [c]. *)
Definition fold_once (k c x : Z) : Z := Z.land x (Z.ones k) + c * Z.shiftr x k.
Definition fold_red (k c x : Z) : Z := fold_once k c (fold_once k c x).

Lemma fold_once_cong k c x : 0 <= k -> cong (2 ^ k - c) (fold_once k c x) x.
Proof.
  intros Hk. unfold fold_once. rewrite Z.land_ones, Z.shiftr_div_pow2 by done.
  pose proof (Z.div_mod x (2 ^ k) ltac:(pose proof (Z.pow_pos_nonneg 2 k); lia)) as E.
  exists (- (x / 2 ^ k)). rewrite E at 3. ring.
Qed.

Lemma fold_red_cong k c x : 0 <= k -> cong (2 ^ k - c) (fold_red k c x) x.
Proof. intros Hk. unfold fold_red. by rewrite !fold_once_cong. Qed.

(** ** Polynomials, as lists of coefficients *)

Definition zsum (l : list Z) : Z := foldr Z.add 0 l.
Definition zprod (l : list Z) : Z := foldr Z.mul 1 l.

Lemma zsum_app a b : zsum (a ++ b) = zsum a + zsum b.
Proof. induction a as [|x a IH]; cbn; [done|]. unfold zsum in *. rewrite IH. ring. Qed.

Lemma zprod_app a b : zprod (a ++ b) = zprod a * zprod b.
Proof. induction a as [|x a IH]; cbn [app]; [by rewrite Z.mul_1_l|]. cbn. unfold zprod in *. rewrite IH. ring. Qed.

#[global] Instance zsum_perm : Proper (Permutation ==> eq) zsum.
Proof. induction 1; unfold zsum in *; cbn; lia. Qed.

Fixpoint peval (c : list Z) (x : Z) : Z :=
  match c with [] => 0 | a :: c => a + x * peval c x end.

Fixpoint padd (a b : list Z) : list Z :=
  match a, b with
  | [], _ => b
  | _, [] => a
  | x :: a, y :: b => (x + y) :: padd a b
  end.
Definition pscale (k : Z) (a : list Z) : list Z := map (Z.mul k) a.

Lemma peval_padd a b x : peval (padd a b) x = peval a x + peval b x.
Proof.
  revert b. induction a as [|u a IH]; intros [|v b]; cbn [padd peval]; [ring..|]. rewrite IH. ring.
Qed.

Lemma peval_pscale k a x : peval (pscale k a) x = k * peval a x.
Proof. induction a as [|u a IH]; cbn [pscale map peval]; [ring|]. fold (pscale k a). rewrite IH. ring. Qed.

Lemma padd_length a b : length (padd a b) = max (length a) (length b).
Proof. revert b. induction a as [|u a IH]; intros [|v b]; cbn; auto. Qed.

Lemma pscale_length k a : length (pscale k a) = length a.
Proof. apply length_map. Qed.

#[global] Instance peval_cong m c : Proper (cong m ==> cong m) (peval c).
Proof. intros x y E. induction c as [|a c IH]; cbn [peval]; [done|]. by rewrite IH, E. Qed.

(** The loop of [evalPoly] and [evalPolyL], modulo [m]. *)
Definition eval_step (m x : Z) (acc : Z * Z) (c : Z) : Z * Z :=
  let '(a, xp) := acc in ((a + c * xp) mod m, (xp * x) mod m).
Definition eval_loop (m : Z) (coeff : list Z) (s x : Z) : Z :=
  fst (foldl (eval_step m x) (s, x) coeff).

Lemma eval_loop_acc m coeff x a xp :
  0 < m -> cong m (fst (foldl (eval_step m x) (a, xp) coeff)) (a + xp * peval coeff x).
Proof.
  intros Hm. revert a xp. induction coeff as [|c coeff IH]; intros a xp; cbn [foldl fst peval].
  { exists 0. ring. }
  unfold eval_step at 2. rewrite IH, !cong_mod by lia. exists 0. ring.
Qed.

Lemma eval_loop_cong m coeff s x : 0 < m -> cong m (eval_loop m coeff s x) (peval (s :: coeff) x).
Proof. intros Hm. unfold eval_loop. by rewrite eval_loop_acc. Qed.

Lemma eval_loop_range m coeff s x : 0 < m -> 0 <= s < m -> 0 <= eval_loop m coeff s x < m.
Proof.
  intros Hm Hs. unfold eval_loop. generalize (s, x) as acc, (Hs : 0 <= (s, x).1 < m).
  clear s Hs. induction coeff as [|c coeff IH]; intros [a xp] Ha; cbn [foldl]; [done|].
  apply IH. unfold eval_step. cbn [fst]. by apply Z.mod_pos_bound.
Qed.

(** Synthetic division: [P(t) - P(a) = (t - a) Q(t)]. *)
Fixpoint synth (c : list Z) (a : Z) : list Z :=
  match c with [] => [] | _ :: c => padd c (pscale a (synth c a)) end.

Lemma synth_length c a : length (synth c a) = pred (length c).
Proof. induction c as [|u c IH]; cbn; [done|]. rewrite padd_length, pscale_length, IH. lia. Qed.

Lemma synth_spec c a t : peval c t - peval c a = (t - a) * peval (synth c a) t.
Proof.
  induction c as [|u c IH]; cbn [peval synth]; [ring|]. rewrite peval_padd, peval_pscale.
  replace (u + t * peval c t - (u + a * peval c a))
    with ((t - a) * peval c t + a * (peval c t - peval c a)) by ring. rewrite IH. ring.
Qed.

(** Points whose differences are units modulo [m]. *)
Fixpoint spread (m : Z) (xs : list Z) : Prop :=
  match xs with
  | [] => True
  | x :: xs => Forall (fun y => Z.coprime (y - x) m) xs /\ spread m xs
  end.

Lemma spread_NoDup m xs : 1 < m -> spread m xs -> NoDup xs.
Proof.
  intros Hm. induction xs as [|x xs IH]; cbn; [constructor|]. intros [HF Hs]. constructor; [|auto].
  intros Hx. rewrite Forall_forall in HF. specialize (HF _ Hx). rewrite Z.sub_diag in HF.
  apply -> Z.coprime_0_l_iff in HF. lia.
Qed.

Lemma spread_coprime m xs x y : spread m xs -> x ∈ xs -> y ∈ xs -> x <> y -> Z.coprime (y - x) m.
Proof.
  induction xs as [|z xs IH]; cbn; [by intros _ ?%not_elem_of_nil|].
  rewrite Forall_forall. intros [HF Hs] [->|Hx]%elem_of_cons [->|Hy]%elem_of_cons Hne; [done|by apply HF| |by apply IH].
  replace (z - x) with (- (x - z)) by ring. apply Z.coprime_opp_l. by apply HF.
Qed.

Lemma spread_perm m xs ys : xs ≡ₚ ys -> spread m xs -> spread m ys.
Proof.
  induction 1 as [|x l l' Hp IH|x y l|l1 l2 l3 _ IH1 _ IH2]; cbn; [done| | |auto].
  - intros [HF Hs]. split; [by rewrite <- Hp|auto].
  - intros [HF1 [HF2 Hs]]. apply Forall_cons in HF1 as [Hxy HF1]. split; [|done].
    constructor; [|done]. replace (y - x) with (- (x - y)) by ring. by apply Z.coprime_opp_l.
Qed.

(** A polynomial with more roots than its degree allows vanishes. *)
Lemma roots_zero m xs c :
  spread m xs -> (length c <= length xs)%nat -> Forall (fun x => cong m (peval c x) 0) xs ->
  forall t, cong m (peval c t) 0.
Proof.
  revert c. induction xs as [|a xs IH]; intros c; cbn [spread length].
  { intros _ Hl _ t. destruct c; [done|cbn in Hl; lia]. }
  intros [Hcop Hs] Hl [Ha Hx]%Forall_cons t.
  assert (Hq : forall t, cong m (peval (synth c a) t) 0).
  { apply IH; [done|rewrite synth_length; lia|]. rewrite Forall_forall in *. intros b Hb.
    apply (cong_cancel m _ _ (b - a)); [by apply Hcop|]. rewrite <- synth_spec, Ha, (Hx b Hb). cong_ring. }
  replace (peval c t) with (peval c a + (peval c t - peval c a)) by ring.
  rewrite synth_spec, Hq, Ha. cong_ring.
Qed.

(** ** Lagrange interpolation *)

Definition others (x : Z) (xs : list Z) : list Z := List.filter (fun y => negb (y =? x)) xs.

(** The coefficients of the product of the [y - t]. *)
Fixpoint lin_prod (ys : list Z) : list Z :=
  match ys with
  | [] => [1]
  | y :: ys => padd (pscale y (lin_prod ys)) (0 :: pscale (-1) (lin_prod ys))
  end.

Lemma lin_prod_length ys : length (lin_prod ys) = S (length ys).
Proof. induction ys as [|y ys IH]; cbn [lin_prod]; [done|]. rewrite padd_length. cbn. rewrite !pscale_length, IH. lia. Qed.

Lemma lin_prod_eval ys t : peval (lin_prod ys) t = zprod (map (fun y => y - t) ys).
Proof.
  induction ys as [|y ys IH]; cbn [lin_prod]; [cbn; ring|]. rewrite peval_padd, peval_pscale.
  cbn [peval]. rewrite peval_pscale, IH. cbn. fold (zprod (map (fun y => y - t) ys)). ring.
Qed.

(** The denominator of the basis polynomial of [x], and its inverse. *)
Definition lag_den (x : Z) (xs : list Z) : Z := zprod (map (fun y => y - x) (others x xs)).
Definition lag_inv (m x : Z) (xs : list Z) : Z := Z.invmod (lag_den x xs) m.
Definition lag_num (x : Z) (xs : list Z) : Z := zprod (others x xs).

Definition interp (m : Z) (xs all : list Z) (f : Z -> Z) : list Z :=
  foldr (fun x acc => padd (pscale (f x * lag_inv m x all) (lin_prod (others x all))) acc) [] xs.

Lemma elem_of_others y x xs : y ∈ others x xs <-> y ∈ xs /\ y <> x.
Proof.
  unfold others. rewrite !list_elem_of_In, List.filter_In.
  destruct (Z.eqb_spec y x); cbn; intuition congruence.
Qed.

Lemma others_length x xs : NoDup xs -> x ∈ xs -> length xs = S (length (others x xs)).
Proof.
  induction 1 as [|y xs Hy Hnd IH]; [by intros ?%not_elem_of_nil|]. cbn [others List.filter].
  intros [->|Hx]%elem_of_cons.
  - rewrite Z.eqb_refl. cbn [negb]. cbn [length]. f_equal. fold (others y xs). f_equal.
    clear IH Hnd. induction xs as [|z xs IH]; [done|]. apply not_elem_of_cons in Hy as [Hz Hy].
    cbn [others List.filter]. rewrite (proj2 (Z.eqb_neq z y)) by congruence. cbn. f_equal. by apply IH.
  - rewrite (proj2 (Z.eqb_neq y x)) by (intros ->; done). cbn. f_equal. by apply IH.
Qed.

Lemma zprod_coprime m l : Forall (fun x => Z.coprime x m) l -> Z.coprime (zprod l) m.
Proof. induction 1 as [|x l Hx _ IH]; cbn; [apply Z.coprime_1_l|by apply Z.coprime_mul_l]. Qed.

Lemma lag_den_coprime m x xs : spread m xs -> x ∈ xs -> Z.coprime (lag_den x xs) m.
Proof.
  intros Hs Hx. apply zprod_coprime. rewrite Forall_map, Forall_forall. intros y Hy.
  apply elem_of_others in Hy as [Hy Hne]. by eapply spread_coprime.
Qed.

Lemma zprod_zero l : 0 ∈ l -> zprod l = 0.
Proof.
  induction l as [|x l IH]; [by intros ?%not_elem_of_nil|]. intros [<-|Hx]%elem_of_cons; cbn; [ring|].
  unfold zprod in IH. rewrite IH by done. ring.
Qed.

(** The value of the basis polynomials at the points. *)
Lemma basis_eval m xs x y :
  2 <= m -> spread m xs -> x ∈ xs -> y ∈ xs ->
  cong m (lag_inv m x xs * peval (lin_prod (others x xs)) y) (if y =? x then 1 else 0).
Proof.
  intros Hm Hs Hx Hy. rewrite lin_prod_eval. destruct (Z.eqb_spec y x) as [->|Hne].
  - apply invmod_cong; [done|by apply lag_den_coprime].
  - rewrite zprod_zero; [cong_ring|]. apply list_elem_of_In, in_map_iff. exists y. split; [ring|].
    by apply list_elem_of_In, elem_of_others.
Qed.

Lemma interp_eval m xs all f t :
  peval (interp m xs all f) t =
  zsum (map (fun x => f x * (lag_inv m x all * peval (lin_prod (others x all)) t)) xs).
Proof.
  induction xs as [|x xs IH]; [done|]. cbn [interp foldr map zsum]. fold (interp m xs all f).
  rewrite peval_padd, peval_pscale, IH. unfold zsum. cbn. ring.
Qed.

Lemma zsum_cong {A} m (f g : A -> Z) l :
  (forall x, x ∈ l -> cong m (f x) (g x)) -> cong m (zsum (map f l)) (zsum (map g l)).
Proof.
  induction l as [|x l IH]; intros Hf; [done|]. cbn. apply cong_add; [apply Hf; left|].
  apply IH. intros y Hy. apply Hf. by right.
Qed.

Lemma zsum_pick (f : Z -> Z) xs y :
  NoDup xs -> y ∈ xs -> zsum (map (fun x => f x * (if y =? x then 1 else 0)) xs) = f y.
Proof.
  assert (Hz : forall xs, y ∉ xs -> zsum (map (fun x => f x * (if y =? x then 1 else 0)) xs) = 0).
  { clear xs. induction xs as [|x xs IH]; [done|]. intros [Hne Hy]%not_elem_of_cons. cbn.
    rewrite (proj2 (Z.eqb_neq y x) Hne). unfold zsum in IH. rewrite IH by done. ring. }
  induction 1 as [|x xs Hx Hnd IH]; [by intros ?%not_elem_of_nil|]. intros [->|Hy]%elem_of_cons; cbn [map].
  - unfold zsum in *. cbn. rewrite Z.eqb_refl, Hz by done. ring.
  - unfold zsum in *. cbn. rewrite IH by done. rewrite (proj2 (Z.eqb_neq y x)) by (intros ->; done). ring.
Qed.

Lemma interp_at m xs f y :
  2 <= m -> spread m xs -> y ∈ xs -> cong m (peval (interp m xs xs f) y) (f y).
Proof.
  intros Hm Hs Hy. rewrite interp_eval.
  rewrite (zsum_cong m _ (fun x => f x * (if y =? x then 1 else 0))).
  - rewrite zsum_pick; [done| |done]. by eapply spread_NoDup; [|done]; lia.
  - intros x Hx. by rewrite basis_eval.
Qed.

Lemma interp_length m xs all f k :
  Forall (fun x => length (others x all) < k)%nat xs -> (length (interp m xs all f) <= k)%nat.
Proof.
  induction 1 as [|x xs Hx _ IH]; cbn [interp foldr]; [cbn; lia|]. fold (interp m xs all f).
  rewrite padd_length, pscale_length, lin_prod_length. lia.
Qed.

Lemma interp_length_all m xs f :
  2 <= m -> spread m xs -> (length (interp m xs xs f) <= length xs)%nat.
Proof.
  intros Hm Hs. apply interp_length, Forall_forall. intros x Hx.
  rewrite (others_length x xs); [lia| |done]. eapply spread_NoDup; [|done]. lia.
Qed.

(** Lagrange's formula: a polynomial is determined by its values at as many
    points as it has coefficients. *)
Lemma lagrange_formula m xs c t :
  2 <= m -> spread m xs -> (length c <= length xs)%nat ->
  cong m (zsum (map (fun x => peval c x * (lag_inv m x xs * peval (lin_prod (others x xs)) t)) xs))
         (peval c t).
Proof.
  intros Hm Hs Hl. rewrite <- (interp_eval m xs xs (peval c)).
  assert (Hr : cong m (peval (padd c (pscale (-1) (interp m xs xs (peval c)))) t) 0).
  { apply (roots_zero m xs); [done| |].
    - rewrite padd_length, pscale_length. pose proof (interp_length_all m xs (peval c) Hm Hs). lia.
    - apply Forall_forall. intros x Hx. rewrite peval_padd, peval_pscale, interp_at by done. cong_ring. }
  rewrite peval_padd, peval_pscale in Hr. destruct Hr as [k Hk]. exists (- k). lia.
Qed.

Lemma lin_prod_at_0 ys : peval (lin_prod ys) 0 = zprod ys.
Proof.
  rewrite lin_prod_eval. f_equal. induction ys as [|y ys IH]; [done|]. cbn. f_equal; [ring|done].
Qed.

(** At zero: the recombination of shares. *)
Lemma lagrange_zero m xs c :
  2 <= m -> spread m xs -> (length c <= length xs)%nat ->
  cong m (zsum (map (fun x => lag_num x xs * lag_inv m x xs * peval c x) xs)) (peval c 0).
Proof.
  intros Hm Hs Hl. rewrite <- (lagrange_formula m xs c 0) by done. apply zsum_cong. intros x Hx.
  rewrite lin_prod_at_0. unfold lag_num. cong_ring.
Qed.

(** ** Primality *)

Lemma prime_divisor n : 1 < n -> exists d, Z.prime d /\ (d | n).
Proof.
  intros Hn. assert (H0 : 0 <= n) by lia. revert Hn.
  pattern n. apply Zlt_0_ind; [|done]. clear n H0. intros n IH _ Hn.
  destruct (prime_dec n) as [Hp%prime_alt|Hp]; [by exists n; split|].
  destruct (not_prime_divide n Hn Hp) as (k & Hk & Hd).
  destruct (IH k ltac:(lia) ltac:(lia)) as (d & Hdp & Hdk). exists d. split; [done|]. by transitivity k.
Qed.

Lemma small_divisor n : 1 < n -> ~ Z.prime n -> exists d, Z.prime d /\ (d | n) /\ d * d <= n.
Proof.
  intros Hn Hp. destruct (not_prime_divide n Hn) as (k & Hk & [l E]); [by rewrite <- prime_alt|].
  assert (Hl : 1 < l < n) by nia.
  destruct (Z.le_ge_cases k l).
  - destruct (prime_divisor k) as (d & Hd & Hdk); [lia|]. exists d. split_and!; [done| |].
    + transitivity k; [done|]. by exists l.
    + apply Z.divide_pos_le in Hdk; [|lia]. pose proof (Z.prime_ge_2 _ Hd). nia.
  - destruct (prime_divisor l) as (d & Hd & Hdl); [lia|]. exists d. split_and!; [done| |].
    + transitivity l; [done|]. exists k. lia.
    + apply Z.divide_pos_le in Hdl; [|lia]. pose proof (Z.prime_ge_2 _ Hd). nia.
Qed.

(** One prime factor [q] of [n - 1] divides [d - 1], for each prime divisor [d]. *)
Lemma pocklington_step n d q a :
  1 < n -> Z.prime d -> (d | n) -> Z.prime q -> (q | n - 1) ->
  cong n (a ^ (n - 1)) 1 -> Z.coprime (a ^ ((n - 1) / q) - 1) n -> (q | d - 1).
Proof.
  intros Hn Hd Hdn Hq [r Hr] Ha Hc. pose proof (Z.prime_ge_2 _ Hd). pose proof (Z.prime_ge_2 _ Hq).
  rewrite Hr, Z.div_mul in Hc by lia. assert (Hr0 : 0 < r) by nia.
  set (b := a ^ r) in *.
  assert (Hb : cong d (b ^ q) 1).
  { unfold b. rewrite <- Z.pow_mul_r, <- Hr by lia. unfold cong in *. by transitivity n. }
  assert (Hb1 : ~ cong d b 1).
  { intros E. unfold cong in E. assert (d | 1) as H1.
    { rewrite <- Hc. by apply Z.gcd_greatest. } apply Z.divide_1_r_nonneg in H1; lia. }
  assert (Hb0 : b mod d <> 0).
  { intros E. apply Z.mod_divide in E; [|lia]. assert (cong d b 0) as E0 by by apply cong_0.
    assert (cong d 0 1) as E1.
    { rewrite <- Hb. rewrite (cong_pow d b 0 q) by (done || lia). by rewrite Z.pow_0_l by lia. }
    unfold cong in E1. apply Z.divide_opp_r, Z.divide_1_r_nonneg in E1; lia. }
  destruct (Znumtheory.Zdivide_dec q (d - 1)) as [|Hnd]; [done|exfalso].
  assert (Hcop : Z.coprime q (d - 1)) by by apply Z.coprime_prime_l.
  (* an exponent that is a multiple of q, and 1 more than one of d - 1 *)
  set (u := Z.invmod q (d - 1) + (d - 1)).
  assert (Hu : exists v, 0 <= v /\ u * q = 1 + v * (d - 1)).
  { pose proof (invmod_range q (d - 1) ltac:(lia)). destruct (Z.eq_dec (d - 1) 1) as [E1|Hne].
    - exists (u * q - 1). unfold u. rewrite E1 in *. split; [nia|ring].
    - destruct (invmod_cong q (d - 1)) as [v Hv]; [lia|done|].
      exists (v + q). unfold u. split; nia. }
  destruct Hu as (v & Hv0 & Hv). apply Hb1.
  transitivity (b ^ (u * q)).
  - assert (0 <= v * (d - 1)) by nia.
    rewrite Hv, Z.pow_add_r, Z.pow_1_r, (Z.mul_comm v), Z.pow_mul_r by lia.
    assert (Hf : cong d (b ^ (d - 1)) 1).
    { rewrite cong_iff, (ZmodInv.Z.fermat_nz d b) by (done || lia). by rewrite Z.mod_1_l by lia. }
    rewrite (cong_pow d _ _ v Hv0 Hf), Z.pow_1_l by lia. cong_ring.
  - pose proof (invmod_range q (d - 1) ltac:(lia)).
    rewrite Z.mul_comm, Z.pow_mul_r by (unfold u; lia).
    rewrite (cong_pow d _ _ u ltac:(unfold u; lia) Hb), Z.pow_1_l by (unfold u; lia). done.
Qed.

Lemma primes_product qs n :
  Forall Z.prime qs -> NoDup qs -> Forall (fun q => (q | n)) qs -> (zprod qs | n).
Proof.
  induction qs as [|q qs IH]; cbn; [intros _ _ _; apply Z.divide_1_l|].
  intros [Hq Hp]%Forall_cons [Hnin Hnd]%NoDup_cons [[k Hd] Hdn]%Forall_cons. fold (zprod qs).
  specialize (IH Hp Hnd Hdn). assert (Hc : Z.coprime (zprod qs) q).
  { apply zprod_coprime. rewrite Forall_forall in *. intros x Hx. apply Z.coprime_prime_l; [by apply Hp|].
    intros Hxq. apply Z.divide_prime_prime in Hxq; [|by apply Hp|done]. by subst. }
  subst n.
  assert (zprod qs | k) as [l ->].
  { eapply Z.gauss; [|exact Hc]. by rewrite Z.mul_comm. }
  exists l. ring.
Qed.

Theorem pocklington n a qs :
  1 < n -> Forall Z.prime qs -> NoDup qs -> (zprod qs | n - 1) -> n < zprod qs * zprod qs ->
  cong n (a ^ (n - 1)) 1 ->
  Forall (fun q => Z.coprime (a ^ ((n - 1) / q) - 1) n) qs ->
  Z.prime n.
Proof.
  intros Hn Hp Hnd Hdiv Hbig Ha Hc. destruct (prime_dec n) as [Hpr%prime_alt|Hpr]; [done|].
  destruct (small_divisor n Hn) as (d & Hd & Hdn & Hsq); [by rewrite prime_alt|exfalso].
  pose proof (Z.prime_ge_2 _ Hd).
  assert (zprod qs | d - 1) as Hdv.
  { apply primes_product; [done..|]. rewrite Forall_forall in *. intros q Hq.
    apply (pocklington_step n d q a); auto.
    transitivity (zprod qs); [|done]. clear -Hq. induction qs as [|x qs IH]; [by apply not_elem_of_nil in Hq|].
    apply elem_of_cons in Hq as [->|Hq]; cbn; [apply Z.divide_factor_l|].
    apply Z.divide_mul_r. by apply IH. }
  apply Z.divide_pos_le in Hdv; [|lia].
  assert (Hq : 0 <= zprod qs); [|clear -Hdv Hsq Hbig Hq; nia].
  clear -Hp. induction Hp as [|q qs Hq _ IH]; cbn; [lia|]. pose proof (Z.prime_ge_2 _ Hq).
  unfold zprod in IH. nia.
Qed.

(** A certificate: numbers with a base and prime factors of [n - 1], each small
    or certified earlier in the list. *)
Definition trial (n : Z) : bool :=
  (1 <? n) && forallb (fun k => negb (n mod Z.of_nat k =? 0)) (seq 2 (Z.to_nat (Z.sqrt n) - 1)).

Lemma trial_prime n : trial n = true -> Z.prime n.
Proof.
  unfold trial. intros [Hn Hall]%andb_true_iff. apply Z.ltb_lt in Hn.
  destruct (prime_dec n) as [Hpr%prime_alt|Hpr]; [done|exfalso].
  destruct (small_divisor n Hn) as (d & Hd & Hdn & Hsq); [by rewrite prime_alt|].
  pose proof (Z.prime_ge_2 _ Hd). pose proof (Z.sqrt_le_square n d ltac:(lia)) as Hs.
  rewrite forallb_forall in Hall. specialize (Hall (Z.to_nat d)). rewrite Z2Nat.id in Hall by lia.
  apply Z.mod_divide in Hdn; [|lia]. rewrite Hdn in Hall. cbn in Hall.
  assert (d <= Z.sqrt n) by (apply Hs; lia).
  discriminate Hall. apply in_seq. lia.
Qed.

Record cert := { cn : Z; ca : Z; cqs : list Z }.

(** [pow a e] is any computation of [a^e] modulo the candidate. *)
Definition check_one (pow : Z -> Z -> Z) (known : list Z) (c : cert) : bool :=
  let n := cn c in
  (1 <? n) && forallb (fun q => if bool_decide (q ∈ known) then true else trial q) (cqs c) &&
  bool_decide (NoDup (cqs c)) && ((n - 1) mod zprod (cqs c) =? 0) &&
  (n <? zprod (cqs c) * zprod (cqs c)) && (pow (ca c) (n - 1) mod n =? 1) &&
  forallb (fun q => Z.gcd (pow (ca c) ((n - 1) / q) - 1) n =? 1) (cqs c).

Fixpoint check_certs (known : list Z) (cs : list cert) : bool :=
  match cs with
  | [] => true
  | c :: cs => check_one (fun x e => Exp x e (cn c)) known c && check_certs (cn c :: known) cs
  end.

Lemma gcd_cong m a b : cong m a b -> Z.gcd a m = Z.gcd b m.
Proof. intros [k E]. replace a with (b + k * m) by lia. by rewrite Z.gcd_comm, Z.gcd_add_mult_diag_r, Z.gcd_comm. Qed.

Lemma check_one_prime pow known c :
  (forall a e, 0 <= e -> cong (cn c) (pow a e) (a ^ e)) ->
  Forall Z.prime known -> check_one pow known c = true -> Z.prime (cn c).
Proof.
  intros Hpow Hk. unfold check_one. rewrite !andb_true_iff.
  intros ((((((Hn & Hq) & Hnd) & Hdv) & Hbig) & Ha) & Hg).
  apply Z.ltb_lt in Hn, Hbig. apply bool_decide_eq_true in Hnd. apply Z.eqb_eq in Hdv, Ha.
  rewrite forallb_forall in Hq, Hg.
  assert (Hp : Forall Z.prime (cqs c)).
  { apply Forall_forall. intros q Hin. apply list_elem_of_In, Hq in Hin. destruct (bool_decide _) eqn:Hb in Hin.
    - apply bool_decide_eq_true in Hb. rewrite Forall_forall in Hk. by apply Hk.
    - by apply trial_prime. }
  assert (Hpos : 0 < zprod (cqs c)).
  { clear -Hp. induction Hp as [|q qs Hq _ IH]; cbn; [lia|]. pose proof (Z.prime_ge_2 _ Hq).
    unfold zprod in IH. nia. }
  apply (pocklington (cn c) (ca c) (cqs c)); try done.
  - apply Z.mod_divide; [lia|done].
  - rewrite <- Hpow by lia. rewrite cong_iff, Ha, Z.mod_1_l by lia. done.
  - apply Forall_forall. intros q Hin. pose proof Hin as Hin'. apply list_elem_of_In, Hg, Z.eqb_eq in Hin.
    rewrite Forall_forall in Hp. pose proof (Z.prime_ge_2 _ (Hp q Hin')).
    etransitivity; [|exact Hin]. apply gcd_cong, cong_sub; [|done]. symmetry. apply Hpow, Z.div_pos; lia.
Qed.

Lemma check_certs_prime known cs :
  Forall Z.prime known -> check_certs known cs = true -> Forall Z.prime (map cn cs).
Proof.
  revert known. induction cs as [|c cs IH]; intros known Hk; [by constructor|].
  cbn. rewrite andb_true_iff. intros [H1 H2].
  assert (Hn : 1 < cn c).
  { unfold check_one in H1. rewrite !andb_true_iff in H1. apply Z.ltb_lt. tauto. }
  apply check_one_prime in H1; [|intros a e He; cbn beta; rewrite (Exp_spec a e (cn c)) by lia|done].
  2:{ apply cong_mod. lia. }
  constructor; [done|]. by apply (IH (cn c :: known)); [constructor|].
Qed.

(** ** The field of Curve25519 and the order of its base point *)

Definition fp : Z := 0x7fffffffffffffffffffffffffffffffffffffffffffffffffffffffffffffed.
Definition fl : Z := 0x1000000000000000000000000000000014def9dea2f79cd65812631a5cf5d3ed.

Definition certs : list cert :=
  [ {| cn := 1224481; ca := 2; cqs := [2551] |};
    {| cn := 8574133; ca := 2; cqs := [991; 103] |};
    {| cn := 2773320623; ca := 2; cqs := [569003] |};
    {| cn := 72106336199; ca := 2; cqs := [2773320623] |};
    {| cn := 1257559732178653; ca := 2; cqs := [1224481; 531581] |};
    {| cn := 1919519569386763; ca := 2; cqs := [8574133; 127] |};
    {| cn := 31757755568855353; ca := 2; cqs := [430751; 4153] |};
    {| cn := 4434155615661930479; ca := 2; cqs := [1257559732178653] |};
    {| cn := 172054593956031949258510691; ca := 2; cqs := [4434155615661930479] |};
    {| cn := 75445702479781427272750846543864801; ca := 2; cqs := [1919519569386763; 72106336199] |};
    {| cn := 19757330305831588566944191468367130476339; ca := 2; cqs := [172054593956031949258510691] |};
    {| cn := 276602624281642239937218680557139826668747; ca := 2;
       cqs := [19757330305831588566944191468367130476339] |};
    {| cn := 74058212732561358302231226437062788676166966415465897661863160754340907; ca := 2;
       cqs := [75445702479781427272750846543864801; 31757755568855353] |} ].

Lemma certs_prime : Forall Z.prime (map cn certs).
Proof. apply (check_certs_prime []); [constructor|vm_compute; reflexivity]. Qed.

Definition fp_red : Z -> Z := fold_red 255 19.
Definition fl_red : Z -> Z := fold_red 252 (-27742317777372353535851937790883648493).
Definition pow_by (red : Z -> Z) (x e : Z) : Z :=
  match e with Zpos e => exp_by red x e | _ => 1 end.

Lemma fp_red_cong x : cong fp (fp_red x) x.
Proof. change fp with (2 ^ 255 - 19). by apply fold_red_cong. Qed.

Lemma fl_red_cong x : cong fl (fl_red x) x.
Proof. change fl with (2 ^ 252 - -27742317777372353535851937790883648493). by apply fold_red_cong. Qed.

Lemma pow_by_cong m red x e : (forall z, cong m (red z) z) -> 0 <= e -> cong m (pow_by red x e) (x ^ e).
Proof. intros Hr He. destruct e as [|e|e]; [done| |lia]. by apply exp_by_spec. Qed.

Lemma fp_prime : Z.prime fp.
Proof.
  apply (check_one_prime (pow_by fp_red) (map cn certs) {| cn := fp; ca := 2;
    cqs := [74058212732561358302231226437062788676166966415465897661863160754340907] |}).
  - intros a e He. apply pow_by_cong; [apply fp_red_cong|done].
  - apply certs_prime.
  - vm_compute. reflexivity.
Qed.

Lemma fl_prime : Z.prime fl.
Proof.
  apply (check_one_prime (pow_by fl_red) (map cn certs) {| cn := fl; ca := 2;
    cqs := [276602624281642239937218680557139826668747] |}).
  - intros a e He. apply pow_by_cong; [apply fl_red_cong|done].
  - apply certs_prime.
  - vm_compute. reflexivity.
Qed.
