(* ===== verification/Curve.v ===== *)
(** * Twisted Edwards curves with [a = -1]

    The affine group of the curve [-x^2 + y^2 = 1 + d x^2 y^2] over a field in
    which -1 is a square and [d] is not: the addition law is complete and the
    points form a commutative group.  Edwards.v relates the extended
    coordinates of [frost.go] to this group. *)
From Stdlib Require Import Field.
From S2P Require Import Prelude.

Section curve.
Context {F : Type} {f0 f1 : F} {fadd fmul fsub : F -> F -> F} {fopp : F -> F}
  {fdiv : F -> F -> F} {finv : F -> F}.
Hypothesis field : field_theory f0 f1 fadd fmul fsub fopp fdiv finv (@eq F).
Context {fdec : EqDecision F} (d i : F).

Add Field curve_field : field.

#[local] Infix "+" := fadd.
#[local] Infix "*" := fmul.
#[local] Infix "-" := fsub.
#[local] Notation "- x" := (fopp x).
#[local] Infix "/" := fdiv.
#[local] Notation "0" := f0.
#[local] Notation "1" := f1.

Hypothesis two : 1 + 1 <> 0.
Hypothesis i_square : i * i = fopp 1.
Hypothesis d_nonsquare : forall x, x * x <> d.

Definition affine : Type := F * F.
Definition on_curve (P : affine) : Prop :=
  d * P.1 * P.1 * P.2 * P.2 = P.2 * P.2 - P.1 * P.1 - 1.

Definition ed_zero : affine := (0, 1).
Definition ed_neg (P : affine) : affine := (- P.1, P.2).
Definition ed_add (P Q : affine) : affine :=
  ((P.1 * Q.2 + Q.1 * P.2) / (1 + d * P.1 * Q.1 * P.2 * Q.2),
   (P.2 * Q.2 + P.1 * Q.1) / (1 - d * P.1 * Q.1 * P.2 * Q.2)).

Lemma mul_zero x y : x * y = 0 -> x = 0 \/ y = 0.
Proof.
  intros E. destruct (decide (x = 0)) as [|Hx]; [auto|right].
  transitivity (x * y / x); [by field|]. rewrite E. by field.
Qed.

Lemma mul_nonzero x y : x <> 0 -> y <> 0 -> x * y <> 0.
Proof. intros Hx Hy E. by apply mul_zero in E as []. Qed.

Lemma sub_zero x y : x - y = 0 -> x = y.
Proof. intros E. transitivity (x - y + y); [ring|]. rewrite E. ring. Qed.

Lemma div_eq a b c e : b <> 0 -> e <> 0 -> a * e - c * b = 0 -> a / b = c / e.
Proof. intros Hb He E. apply sub_zero in E. field_simplify_eq; [|by split]. rewrite E. ring. Qed.

Lemma neg_one_nonzero : fopp 1 <> 0.
Proof.
  intros E. apply two. transitivity (1 - fopp 1); [ring|]. rewrite E. transitivity (fopp (fopp 1)); [ring|].
  rewrite E. ring.
Qed.

Lemma i_nonzero : i <> 0.
Proof. intros E. apply neg_one_nonzero. rewrite <- i_square, E. ring. Qed.

(** The denominators never vanish on the curve. *)
Lemma complete P Q (e : F) :
  on_curve P -> on_curve Q -> e * e = 1 -> d * P.1 * Q.1 * P.2 * Q.2 <> e.
Proof.
  destruct P as [x1 y1], Q as [x2 y2]. unfold on_curve. cbn. intros H1 H2 He E.
  assert (He0 : e <> 0).
  { intros ->. assert (1 <> 0) as H10 by apply field. apply H10. rewrite <- He. ring. }
  assert (Hx1 : x1 <> 0) by (intros ->; apply He0; rewrite <- E; ring).
  assert (Hy1 : y1 <> 0) by (intros ->; apply He0; rewrite <- E; ring).
  assert (Hx2 : x2 <> 0) by (intros ->; apply He0; rewrite <- E; ring).
  assert (Hsq : forall s, s * s = 1 -> i * x2 + s * y2 <> 0 -> False).
  { intros s Hs Hne. apply (d_nonsquare ((i * x1 + s * e * y1) / (x1 * y1 * (i * x2 + s * y2)))).
    assert (Hkey : (i * x1 + s * e * y1) * (i * x1 + s * e * y1) =
      d * x1 * x1 * y1 * y1 * ((i * x2 + s * y2) * (i * x2 + s * y2))).
    { transitivity (i * i * x1 * x1 + s * s * (e * e) * y1 * y1 + (1 + 1) * i * s * x1 * y1 * e); [ring|].
      rewrite i_square, Hs, He, <- E.
      transitivity (d * x1 * x1 * y1 * y1 + 1 + (1 + 1) * i * s * x1 * y1 * (d * x1 * x2 * y1 * y2));
        [rewrite H1; ring|].
      transitivity (d * x1 * x1 * y1 * y1 + e * e +
        (1 + 1) * i * s * x1 * y1 * (d * x1 * x2 * y1 * y2)); [by rewrite He|].
      rewrite <- E.
      transitivity (d * x1 * x1 * y1 * y1 * (1 + d * x2 * x2 * y2 * y2 + (1 + 1) * i * s * x2 * y2)); [ring|].
      rewrite H2.
      transitivity (d * x1 * x1 * y1 * y1 * (i * i * x2 * x2 + s * s * y2 * y2 + (1 + 1) * i * s * x2 * y2));
        [rewrite i_square, Hs; ring|ring]. }
    transitivity ((i * x1 + s * e * y1) * (i * x1 + s * e * y1) /
      ((x1 * y1 * (i * x2 + s * y2)) * (x1 * y1 * (i * x2 + s * y2)))); [by field|].
    rewrite Hkey. by field. }
  destruct (decide (i * x2 + 1 * y2 = 0)) as [Ha|Ha]; [|by apply (Hsq 1); [ring|]].
  destruct (decide (i * x2 + fopp 1 * y2 = 0)) as [Hb|Hb]; [|by apply (Hsq (fopp 1)); [ring|]].
  assert (E2 : (1 + 1) * (i * x2) = 0).
  { transitivity ((i * x2 + 1 * y2) + (i * x2 + fopp 1 * y2)); [ring|]. rewrite Ha, Hb. ring. }
  apply mul_zero in E2 as [|E2]; [done|]. apply mul_zero in E2 as [|]; [|done]. by apply i_nonzero.
Qed.

Lemma den_plus P Q : on_curve P -> on_curve Q -> 1 + d * P.1 * Q.1 * P.2 * Q.2 <> 0.
Proof.
  intros HP HQ E. apply (complete P Q (fopp 1)); [done..|ring|].
  transitivity (1 + d * P.1 * Q.1 * P.2 * Q.2 - 1); [ring|]. rewrite E. ring.
Qed.

Lemma den_minus P Q : on_curve P -> on_curve Q -> 1 - d * P.1 * Q.1 * P.2 * Q.2 <> 0.
Proof.
  intros HP HQ E. apply (complete P Q 1); [done..|ring|]. by apply sub_zero in E.
Qed.

Lemma ed_add_comm P Q : ed_add P Q = ed_add Q P.
Proof. unfold ed_add. f_equal; f_equal; ring. Qed.

Lemma ed_zero_curve : on_curve ed_zero.
Proof. unfold on_curve. cbn. ring. Qed.

Lemma ed_add_zero P : ed_add ed_zero P = P.
Proof.
  destruct P as [x y]. assert (1 <> 0) by apply field. unfold ed_add. cbn.
  f_equal; field; intros E; apply H; rewrite <- E; ring.
Qed.

Lemma ed_neg_curve P : on_curve P -> on_curve (ed_neg P).
Proof. unfold on_curve. cbn. intros H. transitivity (d * P.1 * P.1 * P.2 * P.2); [ring|]. rewrite H. ring. Qed.

Lemma ed_add_neg P : on_curve P -> ed_add (ed_neg P) P = ed_zero.
Proof.
  intros HP. pose proof (den_plus _ _ (ed_neg_curve _ HP) HP). pose proof (den_minus _ _ (ed_neg_curve _ HP) HP).
  unfold ed_add, ed_zero. cbn in *. f_equal; [by field|].
  transitivity ((P.2 * P.2 - P.1 * P.1) / (1 - d * - P.1 * P.1 * P.2 * P.2)); [f_equal; ring|].
  transitivity ((1 - d * - P.1 * P.1 * P.2 * P.2) / (1 - d * - P.1 * P.1 * P.2 * P.2)); [|by field].
  f_equal. transitivity (1 + d * P.1 * P.1 * P.2 * P.2); [rewrite HP|]; ring.
Qed.

Lemma ed_add_curve P Q : on_curve P -> on_curve Q -> on_curve (ed_add P Q).
Proof.
  intros HP HQ. pose proof (den_plus P Q HP HQ). pose proof (den_minus P Q HP HQ).
  destruct P as [x1 y1], Q as [x2 y2]. unfold on_curve, ed_add in *. cbn in *.
  field_simplify_eq; [|by split].
  ring [HP HQ].
Qed.

(** Both sides of associativity over common denominators. *)
Lemma add_l_coords P Q R :
  on_curve P -> on_curve Q -> on_curve R ->
  let A := P.1 * Q.2 + Q.1 * P.2 in let B := 1 + d * P.1 * Q.1 * P.2 * Q.2 in
  let C := P.2 * Q.2 + P.1 * Q.1 in let E := 1 - d * P.1 * Q.1 * P.2 * Q.2 in
  B * E + d * A * C * R.1 * R.2 <> 0 /\ B * E - d * A * C * R.1 * R.2 <> 0 /\
  ed_add (ed_add P Q) R =
    ((A * E * R.2 + R.1 * C * B) / (B * E + d * A * C * R.1 * R.2),
     (C * B * R.2 + A * E * R.1) / (B * E - d * A * C * R.1 * R.2)).
Proof.
  intros HP HQ HR A B C E. pose proof (den_plus P Q HP HQ) as HB. pose proof (den_minus P Q HP HQ) as HE.
  fold B in HB. fold E in HE.
  pose proof (den_plus _ R (ed_add_curve P Q HP HQ) HR) as HpR.
  pose proof (den_minus _ R (ed_add_curve P Q HP HQ) HR) as HmR.
  unfold ed_add in *. cbn [fst snd] in *. fold A B C E in HpR, HmR |- *.
  assert (Hp : B * E + d * A * C * R.1 * R.2 <> 0).
  { intros E0. apply HpR. transitivity ((B * E + d * A * C * R.1 * R.2) / (B * E)); [by field|].
    rewrite E0. by field. }
  assert (Hm : B * E - d * A * C * R.1 * R.2 <> 0).
  { intros E0. apply HmR. transitivity ((B * E - d * A * C * R.1 * R.2) / (B * E)); [by field|].
    rewrite E0. by field. }
  split_and!; [done..|]. clear HpR HmR.
  clearbody A B C E. f_equal; field; by split_and!.
Qed.

Lemma ed_add_assoc P Q R :
  on_curve P -> on_curve Q -> on_curve R -> ed_add (ed_add P Q) R = ed_add P (ed_add Q R).
Proof.
  intros HP HQ HR. rewrite (ed_add_comm P (ed_add Q R)).
  destruct (add_l_coords P Q R HP HQ HR) as (H1 & H2 & ->).
  destruct (add_l_coords Q R P HQ HR HP) as (H3 & H4 & ->).
  destruct P as [x1 y1], Q as [x2 y2], R as [x3 y3]. unfold on_curve in *. cbn [fst snd] in *.
  f_equal; (apply div_eq; [done..|]); clear H1 H2 H3 H4; ring [HP HQ HR].
Qed.

(** ** Extended coordinates *)

(** [(X, Y, Z, T)] stands for [(X/Z, Y/Z)], with [X Y = Z T]. *)
Definition ext : Type := F * F * F * F.
Definition ext_aff (e : ext) : affine := let '(x, y, z, _) := e in (x / z, y / z).
Definition ext_ok (e : ext) : Prop :=
  let '(x, y, z, t) := e in z <> 0 /\ x * y = z * t /\ on_curve (ext_aff e).

Definition ext_add (p q : ext) : ext :=
  let '(x1, y1, z1, t1) := p in
  let '(x2, y2, z2, t2) := q in
  let a := (y1 - x1) * (y2 - x2) in
  let b := (y1 + x1) * (y2 + x2) in
  let c := t1 * t2 * d * (1 + 1) in
  let d2 := z1 * z2 * (1 + 1) in
  ((b - a) * (d2 - c), (d2 + c) * (b + a), (d2 - c) * (d2 + c), (b - a) * (b + a)).

Lemma quad_eq (x y z t x' y' z' t' : F) :
  x = x' -> y = y' -> z = z' -> t = t' -> (x, y, z, t) = (x', y', z', t').
Proof. by intros -> -> -> ->. Qed.

(** In terms of the affine coordinates. *)
Lemma ext_add_coords x1 y1 z1 x2 y2 z2 :
  let A := x1 * y2 + x2 * y1 in let B := 1 + d * x1 * x2 * y1 * y2 in
  let C := y1 * y2 + x1 * x2 in let E := 1 - d * x1 * x2 * y1 * y2 in
  let k := (1 + 1) * (1 + 1) * z1 * z1 * z2 * z2 in
  ext_add (x1 * z1, y1 * z1, z1, x1 * y1 * z1) (x2 * z2, y2 * z2, z2, x2 * y2 * z2) =
  (k * A * E, k * C * B, k * B * E, k * A * C).
Proof. intros A B C E k. unfold ext_add, A, B, C, E, k. apply quad_eq; ring. Qed.

Lemma ext_form e : ext_ok e ->
  exists x y z, z <> 0 /\ on_curve (x, y) /\ e = (x * z, y * z, z, x * y * z) /\ ext_aff e = (x, y).
Proof.
  destruct e as [[[x y] z] t]. intros (Hz & Ht & Hc). exists (x / z), (y / z), z. split_and!; [done..| |done].
  apply quad_eq; [by field..|done|]. transitivity (z * t / z); [by field|]. rewrite <- Ht. by field.
Qed.

Lemma ext_add_ok p q : ext_ok p -> ext_ok q ->
  ext_ok (ext_add p q) /\ ext_aff (ext_add p q) = ed_add (ext_aff p) (ext_aff q).
Proof.
  intros Hp Hq. destruct (ext_form p Hp) as (x1 & y1 & z1 & Hz1 & Hc1 & -> & ->).
  destruct (ext_form q Hq) as (x2 & y2 & z2 & Hz2 & Hc2 & -> & ->).
  pose proof (den_plus _ _ Hc1 Hc2) as HB. pose proof (den_minus _ _ Hc1 Hc2) as HE.
  pose proof (ed_add_curve _ _ Hc1 Hc2) as Hc. rewrite ext_add_coords.
  unfold ed_add, ext_ok in *. cbn [fst snd ext_aff] in *.
  set (A := x1 * y2 + x2 * y1) in *. set (B := 1 + d * x1 * x2 * y1 * y2) in *.
  set (C := y1 * y2 + x1 * x2) in *. set (E := 1 - d * x1 * x2 * y1 * y2) in *.
  set (k := (1 + 1) * (1 + 1) * z1 * z1 * z2 * z2). assert (Hk : k <> 0) by (unfold k; auto 10 using mul_nonzero).
  clearbody A B C E k.
  assert (Haff : (k * A * E / (k * B * E), k * C * B / (k * B * E)) = (A / B, C / E)).
  { f_equal; field; by split_and!. }
  rewrite Haff. split_and!; [|ring|done|done].
  auto using mul_nonzero.
Qed.

(** ** Multiples *)

Fixpoint ed_mul (n : nat) (P : affine) : affine :=
  match n with O => ed_zero | S n => ed_add P (ed_mul n P) end.

Lemma ed_mul_curve n P : on_curve P -> on_curve (ed_mul n P).
Proof. intros HP. induction n; cbn; auto using ed_zero_curve, ed_add_curve. Qed.

Lemma ed_mul_add n m P : on_curve P -> ed_mul (n + m) P = ed_add (ed_mul n P) (ed_mul m P).
Proof.
  intros HP. induction n as [|n IH]; cbn; [by rewrite ed_add_zero|].
  rewrite IH, ed_add_assoc; auto using ed_mul_curve.
Qed.

Lemma ed_mul_zero n : ed_mul n ed_zero = ed_zero.
Proof. induction n; cbn; [done|]. by rewrite ed_add_zero. Qed.

Lemma ed_mul_mul n m P : on_curve P -> ed_mul (n * m) P = ed_mul n (ed_mul m P).
Proof.
  intros HP. induction n as [|n IH]; cbn; [done|]. by rewrite ed_mul_add, IH by done.
Qed.

(** Cancellation. *)
Lemma ed_add_cancel P Q R :
  on_curve P -> on_curve Q -> on_curve R -> ed_add P Q = ed_add P R -> Q = R.
Proof.
  intros HP HQ HR E. apply (f_equal (ed_add (ed_neg P))) in E.
  rewrite <- !ed_add_assoc, !ed_add_neg, !ed_add_zero in E by auto using ed_neg_curve. done.
Qed.

End curve.
