(* ===== verification/Edwards.v ===== *)
(** * The Ed25519 group of [frost.go]

    Points in extended coordinates over [math/big], the complete addition
    formula, double-and-add, the 32-byte encoding and its decoder, and scalars
    modulo the group order, as the source computes them.  A [*big.Int] used by
    this code is never nil, so it is a [Z]; a zero [point] (nil coordinates)
    is [None] where the source tests for it.  EdwardsTheory.v proves that this
    is the group of the curve. *)
From S2P Require Import Prelude Modular.

(** ** Constants *)

Definition fieldNeg (a : Z) : Z := fp - a mod fp.
Definition fieldDiv (a b : Z) : outcome Z :=
  match ModInverse (b mod fp) fp with
  | None => Panic
  | Some i => Ret (((a mod fp) * i) mod fp)
  end.

(** [fd], the value of [fieldDiv(fieldNeg(121665), 121666)]. *)
Definition fd : Z := 0x52036cee2b6ffe738cc740797779e89800700a4d4141d8ab75eb4dca135978a3.
Lemma fd_value : fieldDiv (fieldNeg 121665) 121666 = Ret fd.
Proof. vm_compute. reflexivity. Qed.

(** [2^((p-1)/4)]. *)
Definition sqrtM1 : Z := Exp 2 (Z.shiftr (fp - 1) 2) fp.

Record point := { X : Z; Y : Z; PZ : Z; T : Z }.

Definition identity : point := {| X := 0; Y := 1; PZ := 1; T := 0 |}.
Definition basePoint : point :=
  let x := 0x216936d3cd6e53fec0a4e231fdd6dc5c692cc7609525a7b2c9562d608f25d51a in
  let y := 0x6666666666666666666666666666666666666666666666666666666666666658 in
  {| X := x; Y := y; PZ := 1; T := x * y |}.

(** ** The group operations *)

Definition pointAdd (p q : point) : point :=
  let a := ((Y p - X p) * (Y q - X q)) mod fp in
  let b := ((Y p + X p) * (Y q + X q)) mod fp in
  let c := (T p * T q * fd * 2) mod fp in
  let d := (PZ p * PZ q * 2) mod fp in
  let e := (b - a) mod fp in
  let f := (d - c) mod fp in
  let g := (d + c) mod fp in
  let h := (b + a) mod fp in
  {| X := (e * f) mod fp; Y := (g * h) mod fp; T := (e * h) mod fp; PZ := (f * g) mod fp |}.

(** One step of double-and-add. *)
Definition mul_bit (P Q : point) (bit : bool) : point :=
  let Q := pointAdd Q Q in if bit then pointAdd Q P else Q.
Definition byte_bits (b : byte) : list bool := map (Z.testbit (byte_Z b)) [7; 6; 5; 4; 3; 2; 1; 0].
Definition scalarMult (k : Z) (P : point) : point :=
  foldl (fun Q b => foldl (mul_bit P) Q (byte_bits b)) identity (big_bytes k).

(** ** Encodings *)

(** [fillLE] on a buffer of [n] bytes. *)
Definition fillLE (n : nat) (v : Z) : bytes := map (fun i => Z_byte (Z.shiftr v (8 * Z.of_nat i))) (seq 0 n).
Definition leToInt (b : bytes) : Z := be_Z (rev b).

Definition or_byte (m : Z) (b : byte) : byte := Z_byte (Z.lor (byte_Z b) m).
Definition and_byte (m : Z) (b : byte) : byte := Z_byte (Z.land (byte_Z b) m).

Definition encode (p : point) : outcome bytes :=
  match ModInverse (PZ p) fp with
  | None => Panic
  | Some z =>
      let x := (X p * z) mod fp in
      let y := (Y p * z) mod fp in
      let b := fillLE 32 y in
      Ret (if Z.testbit x 0 then alter (or_byte 128) 31%nat b else b)
  end.

(** The candidate root and its two checks. *)
Definition root_checks (x m x2 : Z) : outcome Z :=
  if (x * x) mod fp =? x2 then Ret x
  else
    let x := (x * m) mod fp in
    if (x * x) mod fp =? x2 then Ret x
    else Err "frost: invalid point (not on curve)".
Definition root_of (x2 : Z) : outcome Z :=
  root_checks (Exp x2 (Z.shiftr (fp + 3) 3) fp) sqrtM1 x2.

Definition decodePoint (b : bytes) : outcome point :=
  guard (negb (length b =? 32)%nat) "frost: point must be 32 bytes" (
  let sign := Z.testbit (byte_Z (nth 31 b Byte.x00)) 7 in
  let c := alter (and_byte 127) 31%nat b in
  let y := leToInt c in
  guard (y >=? fp) "frost: y >= p" (
  let y2 := (y * y) mod fp in
  let u := (y2 - 1) mod fp in
  let v := (fd * y2 + 1) mod fp in
  match ModInverse v fp with
  | None => Err "frost: invalid point (singular)"
  | Some inv =>
      let x2 := (u * inv) mod fp in
      x ← root_of x2;
      let x := if negb (Bool.eqb (Z.testbit x 0) sign) then fp - x else x in
      Ret {| X := x; Y := y; PZ := 1; T := (x * y) mod fp |}
  end)).

(** ** Scalars *)

(** [ed25519Scalar], from the SHA-512 digest of the seed. *)
Definition clamp_digest (h : bytes) : Z :=
  leToInt (take 32 (alter (or_byte 64) 31%nat (alter (and_byte 63) 31%nat (alter (and_byte 248) 0%nat h)))).

Definition scalarBytes (s : Z) : bytes := fillLE 32 (s mod fl).
Definition scalarFromBytes (b : bytes) : outcome Z :=
  guard (negb (length b =? 32)%nat) "frost: scalar must be 32 bytes" (Ret (leToInt b mod fl)).

(** [randomScalar] on the 32 bytes [rand.Read] returns; [None] is its error. *)
Definition randomScalar (draw : option bytes) : outcome Z :=
  match draw with
  | None => Err "rand"
  | Some b => Ret (leToInt b mod fl)
  end.
