(* ===== verification/EdwardsTheory.v ===== *)
(** * The Ed25519 group: [frost.go]'s point arithmetic is the group of the curve

    The coordinates modulo [fp] as elements of a field, the affine point a
    [point] stands for, and [rep P a]: [P] stands for [a] times the base point.
    Addition, double-and-add, encoding and decoding are homomorphisms for it,
    the base point has order [fl], and the encoding is injective. *)
From Stdlib Require Import Znumtheory Zcong Zdivisibility Field.
From Stdlib Require ZmodDef ZmodBase ZmodInv.
From S2P Require Import Prelude Modular Curve Edwards.

(** ** The field *)

Module ZB := ZmodBase.Zmod.

Abbreviation Fp := (ZmodDef.Zmod.Zmod fp).
Definition of_Z (z : Z) : Fp := ZmodDef.Zmod.of_Z fp z.
Definition to_Z (x : Fp) : Z := ZmodDef.Zmod.to_Z x.

#[global] Instance Fp_dec : EqDecision Fp.
Proof.
  intros x y. destruct (ZmodDef.Zmod.eqb x y) eqn:E; [left; by apply ZB.eqb_eq|right].
  intros Hxy. apply ZB.eqb_eq in Hxy. congruence.
Defined.

Definition Fp_field := ZmodInv.Zmod.field_theory fp fp_prime.
Add Field Fp_tac : Fp_field.

Abbreviation f0 := (@ZmodDef.Zmod.zero fp).
Abbreviation f1 := (@ZmodDef.Zmod.one fp).
Abbreviation fadd := (@ZmodDef.Zmod.add fp).
Abbreviation fsub := (@ZmodDef.Zmod.sub fp).
Abbreviation fmul := (@ZmodDef.Zmod.mul fp).
Abbreviation fopp := (@ZmodDef.Zmod.opp fp).
Abbreviation fdiv := (@ZmodDef.Zmod.mdiv fp).
Abbreviation finv := (@ZmodDef.Zmod.inv fp).

Lemma of_Z_eq a b : of_Z a = of_Z b <-> cong fp a b.
Proof. rewrite cong_iff by done. apply ZB.of_Z_inj. Qed.

Lemma of_Z_add a b : of_Z (a + b) = fadd (of_Z a) (of_Z b). Proof. apply ZB.of_Z_add. Qed.
Lemma of_Z_sub a b : of_Z (a - b) = fsub (of_Z a) (of_Z b). Proof. apply ZB.of_Z_sub. Qed.
Lemma of_Z_mul a b : of_Z (a * b) = fmul (of_Z a) (of_Z b). Proof. apply ZB.of_Z_mul. Qed.
Lemma of_Z_mod a : of_Z (a mod fp) = of_Z a. Proof. apply ZB.of_Z_mod. Qed.
Lemma of_Z_0 : of_Z 0 = f0. Proof. apply ZB.of_Z_0. Qed.
Lemma of_Z_1 : of_Z 1 = f1. Proof. apply ZB.of_Z_1. Qed.
Lemma of_Z_2 : of_Z 2 = fadd f1 f1. Proof. change 2 with (1 + 1). by rewrite of_Z_add, of_Z_1. Qed.
Lemma of_Z_red a : of_Z (fp_red a) = of_Z a. Proof. apply of_Z_eq, fp_red_cong. Qed.

Create Rewrite HintDb fp.
#[export] Hint Rewrite of_Z_add of_Z_sub of_Z_mul of_Z_mod of_Z_0 of_Z_1 of_Z_2 of_Z_red : fp.

Lemma to_of_Z a : to_Z (of_Z a) = a mod fp.
Proof. apply ZB.unsigned_of_Z. Qed.
Lemma of_to_Z x : of_Z (to_Z x) = x.
Proof. apply ZB.of_Z_unsigned. Qed.
Lemma to_Z_range x : 0 <= to_Z x < fp.
Proof. by apply ZB.unsigned_pos_bound. Qed.
Lemma of_Z_inv a : of_Z (Z.invmod a fp) = finv (of_Z a).
Proof.
  rewrite <- (of_to_Z (finv (of_Z a))). f_equal. unfold to_Z. rewrite ZB.unsigned_inv.
  unfold of_Z. rewrite ZB.unsigned_of_Z. symmetry. apply Z.invmod_mod_l.
Qed.

Lemma of_Z_zero a : of_Z a = f0 <-> (fp | a).
Proof. rewrite <- of_Z_0, of_Z_eq. apply cong_0. Qed.

(** ** The parameters *)

Definition dF : Fp := of_Z fd.
Definition iF : Fp := of_Z sqrtM1.

Lemma two_F : fadd f1 f1 <> f0.
Proof. rewrite <- of_Z_2, of_Z_zero. intros [k E]. unfold fp in E. lia. Qed.

Lemma half_pow x : x <> f0 ->
  pow_by fp_red (to_Z x * to_Z x) ((fp - 1) / 2) mod fp = 1.
Proof.
  intros Hx. pose proof (to_Z_range x).
  assert (cong fp (pow_by fp_red (to_Z x * to_Z x) ((fp - 1) / 2)) 1) as Hc.
  { rewrite pow_by_cong by (apply fp_red_cong || (vm_compute; discriminate)).
    rewrite <- Z.pow_2_r, <- Z.pow_mul_r by (lia || (vm_compute; discriminate)).
    change (2 * ((fp - 1) / 2)) with (fp - 1). rewrite cong_iff by done.
    rewrite (ZmodInv.Z.fermat_nz fp (to_Z x) fp_prime); [done|]. rewrite Z.mod_small by done.
    intros E. apply Hx. by rewrite <- (of_to_Z x), E, of_Z_0. }
  by rewrite cong_iff in Hc.
Qed.

Lemma pow_by_mod x e : 0 <= e -> pow_by fp_red (x mod fp) e mod fp = pow_by fp_red x e mod fp.
Proof.
  intros He. apply cong_iff; [done|]. rewrite !pow_by_cong by (done || apply fp_red_cong).
  apply cong_pow; [done|]. by apply cong_mod.
Qed.

(** Euler's criterion on the constant [fd]. *)
Lemma fd_half : pow_by fp_red fd ((fp - 1) / 2) mod fp = fp - 1.
Proof. vm_compute. reflexivity. Qed.

Lemma d_nonsquare x : fmul x x <> dF.
Proof.
  intros E. pose proof fd_half as Hh. destruct (decide (x = f0)) as [->|Hx].
  { assert (E0 : dF = f0) by (rewrite <- E; ring). unfold dF in E0. apply of_Z_zero in E0 as [k E0].
    unfold fd, fp in E0. lia. }
  pose proof (half_pow x Hx) as H1. rewrite <- pow_by_mod in H1 by (vm_compute; discriminate).
  assert (Hd : (to_Z x * to_Z x) mod fp = fd).
  { rewrite <- to_of_Z, of_Z_mul, of_to_Z, E. unfold dF. by rewrite to_of_Z. }
  rewrite Hd, Hh in H1. discriminate H1.
Qed.

Lemma pow_2_half : pow_by fp_red 2 ((fp - 1) / 2) mod fp = fp - 1.
Proof. vm_compute. reflexivity. Qed.

Lemma i_square : fmul iF iF = fopp f1.
Proof.
  unfold iF. rewrite <- of_Z_mul. transitivity (of_Z (-1)); [|apply ZB.of_Z_m1].
  apply of_Z_eq. unfold sqrtM1.
  assert (He : 0 <= Z.shiftr (fp - 1) 2) by (vm_compute; discriminate).
  assert (Hh : Z.shiftr (fp - 1) 2 + Z.shiftr (fp - 1) 2 = (fp - 1) / 2) by (vm_compute; reflexivity).
  assert (Hr : cong fp (pow_by fp_red 2 ((fp - 1) / 2)) (-1)) by (rewrite cong_iff, pow_2_half; done).
  rewrite <- Hh in Hr. set (e := Z.shiftr (fp - 1) 2) in *. clearbody e.
  rewrite (pow_by_cong fp fp_red 2 (e + e) fp_red_cong) in Hr by lia.
  rewrite Z.pow_add_r in Hr by lia.
  rewrite Exp_spec by (lia || done). rewrite (cong_mod fp (2 ^ e)) by discriminate. exact Hr.
Qed.

(** ** Points *)

Abbreviation curve_add := (@ed_add Fp f1 fadd fmul fsub fdiv dF).
Abbreviation curve_neg := (@ed_neg Fp fopp).
Abbreviation curve_zero := (@ed_zero Fp f0 f1).
Abbreviation curve_mul := (@ed_mul Fp f0 f1 fadd fmul fsub fdiv dF).
Abbreviation curve_on := (@on_curve Fp f1 fmul fsub dF).

Definition ext_of (P : point) : Fp * Fp * Fp * Fp := (of_Z (X P), of_Z (Y P), of_Z (PZ P), of_Z (T P)).
Definition valid (P : point) : Prop := @ext_ok Fp f0 f1 fmul fsub fdiv dF (ext_of P).
Definition aff (P : point) : Fp * Fp := @ext_aff Fp fdiv (ext_of P).

Lemma pointAdd_ext P Q : ext_of (pointAdd P Q) = @ext_add Fp f1 fadd fmul fsub dF (ext_of P) (ext_of Q).
Proof.
  unfold ext_of, pointAdd, ext_add. cbn [X Y PZ T]. autorewrite with fp. fold dF.
  apply quad_eq; ring.
Qed.

Lemma pointAdd_ok P Q : valid P -> valid Q ->
  valid (pointAdd P Q) /\ aff (pointAdd P Q) = curve_add (aff P) (aff Q).
Proof.
  unfold valid, aff. rewrite pointAdd_ext.
  apply (ext_add_ok Fp_field dF iF two_F i_square d_nonsquare).
Qed.

Lemma aff_on P : valid P -> curve_on (aff P).
Proof. unfold valid, aff. destruct (ext_of P) as [[[x y] z] t]. by intros (_ & _ & ?). Qed.

Lemma ext_base x y : curve_on (x, y) -> @ext_ok Fp f0 f1 fmul fsub fdiv dF (x, y, f1, fmul x y) /\
  @ext_aff Fp fdiv (x, y, f1, fmul x y) = (x, y).
Proof.
  intros Hc. assert (H1 : f1 <> f0) by apply Fp_field.
  assert (Ha : (fdiv x f1, fdiv y f1) = (x, y)) by (f_equal; by field).
  unfold ext_ok, ext_aff. rewrite Ha. split_and!; [done|ring|done|done].
Qed.

Lemma identity_ok : valid identity /\ aff identity = curve_zero.
Proof.
  unfold valid, aff, ext_of, identity. cbn [X Y PZ T]. autorewrite with fp.
  assert (E : f0 = fmul f0 f1) by ring. rewrite E at 3 6. apply ext_base. unfold on_curve. cbn. ring.
Qed.

Definition baseF : Fp * Fp := (of_Z (X basePoint), of_Z (Y basePoint)).

Lemma base_ok : valid basePoint /\ aff basePoint = baseF.
Proof.
  unfold valid, aff, ext_of. change (T basePoint) with (X basePoint * Y basePoint).
  change (PZ basePoint) with 1. autorewrite with fp. apply ext_base. unfold on_curve, baseF. cbn [fst snd].
  unfold dF. rewrite <- of_Z_1, <- !of_Z_mul, <- !of_Z_sub. apply of_Z_eq.
  apply cong_iff; [done|]. vm_compute. reflexivity.
Qed.

Lemma base_on : curve_on baseF.
Proof. rewrite <- (proj2 base_ok). apply aff_on, base_ok. Qed.

(** ** Multiples of a point *)

Definition zmul (k : Z) (P : Fp * Fp) : Fp * Fp := curve_mul (Z.to_nat k) P.

Lemma curve_comm P Q : curve_add P Q = curve_add Q P.
Proof. apply (ed_add_comm Fp_field). Qed.
Lemma curve_assoc P Q R : curve_on P -> curve_on Q -> curve_on R ->
  curve_add (curve_add P Q) R = curve_add P (curve_add Q R).
Proof. apply (ed_add_assoc Fp_field dF iF two_F i_square d_nonsquare). Qed.
Lemma curve_zero_l P : curve_add curve_zero P = P.
Proof. apply (ed_add_zero Fp_field). Qed.
Lemma curve_zero_r P : curve_add P curve_zero = P.
Proof. by rewrite curve_comm, curve_zero_l. Qed.
Lemma zmul_on k P : curve_on P -> curve_on (zmul k P).
Proof. apply (ed_mul_curve Fp_field dF iF two_F i_square d_nonsquare). Qed.
Lemma curve_add_on P Q : curve_on P -> curve_on Q -> curve_on (curve_add P Q).
Proof. apply (ed_add_curve Fp_field dF iF two_F i_square d_nonsquare). Qed.

Lemma zmul_add a b P : curve_on P -> 0 <= a -> 0 <= b ->
  zmul (a + b) P = curve_add (zmul a P) (zmul b P).
Proof.
  intros HP Ha Hb. unfold zmul. rewrite Z2Nat.inj_add by done.
  by apply (ed_mul_add Fp_field dF iF two_F i_square d_nonsquare).
Qed.

Lemma zmul_mul a b P : curve_on P -> 0 <= a -> 0 <= b -> zmul (a * b) P = zmul a (zmul b P).
Proof.
  intros HP Ha Hb. unfold zmul. rewrite Z2Nat.inj_mul by done.
  by apply (ed_mul_mul Fp_field dF iF two_F i_square d_nonsquare).
Qed.

Lemma zmul_0 P : zmul 0 P = curve_zero.
Proof. done. Qed.
Lemma zmul_1 P : zmul 1 P = P.
Proof. unfold zmul. cbn [Z.to_nat ed_mul]. change (Pos.to_nat 1) with 1%nat. cbn. apply curve_zero_r. Qed.
Lemma zmul_zero k : zmul k curve_zero = curve_zero.
Proof. apply (ed_mul_zero Fp_field). Qed.

(** Double-and-add. *)
Definition bit_Z (b : bool) : Z := if b then 1 else 0.

Lemma mul_bits_ok P bits Q n :
  valid P -> 0 <= n -> valid Q -> aff Q = zmul n (aff P) ->
  let n' := foldl (fun n b => 2 * n + bit_Z b) n bits in
  0 <= n' /\ valid (foldl (mul_bit P) Q bits) /\ aff (foldl (mul_bit P) Q bits) = zmul n' (aff P).
Proof.
  intros HP. revert Q n. induction bits as [|b bits IH]; intros Q n Hn HQ Ha; cbn [foldl]; [done|].
  pose proof (aff_on P HP) as Hon.
  destruct (pointAdd_ok Q Q HQ HQ) as [H2 Ha2]. rewrite Ha, <- zmul_add in Ha2 by done.
  unfold mul_bit at 2 4. destruct b; cbn [bit_Z].
  - destruct (pointAdd_ok _ P H2 HP) as [H3 Ha3]. apply IH; [lia|done|].
    rewrite Ha3, Ha2. rewrite <- (zmul_1 (aff P)) at 2. rewrite <- (zmul_add (n + n) 1) by (exact Hon || lia).
    f_equal. lia.
  - apply IH; [lia|done|]. rewrite Ha2. f_equal. lia.
Qed.

Lemma byte_bits_val b n :
  foldl (fun n b => 2 * n + bit_Z b) n (byte_bits b) = n * 256 + byte_Z b.
Proof. destruct b; cbv [byte_bits map foldl byte_Z Byte.to_N Z.of_N Z.testbit bit_Z Pos.testbit Z.to_N Pos.pred_N N.pred]; cbn; lia. Qed.

Lemma mul_bytes_ok P bs Q n :
  valid P -> 0 <= n -> valid Q -> aff Q = zmul n (aff P) ->
  let Q' := foldl (fun Q b => foldl (mul_bit P) Q (byte_bits b)) Q bs in
  valid Q' /\ aff Q' = zmul (foldl (fun acc x => acc * 256 + byte_Z x) n bs) (aff P).
Proof.
  intros HP. revert Q n. induction bs as [|b bs IH]; intros Q n Hn HQ Ha; cbn [foldl]; [done|].
  destruct (mul_bits_ok P (byte_bits b) Q n HP Hn HQ Ha) as (Hn' & HQ' & Ha'). rewrite byte_bits_val in *.
  by apply IH.
Qed.

Lemma scalarMult_ok k P : valid P -> valid (scalarMult k P) /\ aff (scalarMult k P) = zmul (Z.abs k) (aff P).
Proof.
  intros HP. rewrite <- be_big_bytes. destruct identity_ok as [Hi Ha].
  by apply (mul_bytes_ok P (big_bytes k) identity 0).
Qed.

(** ** The order of the base point *)

(** The addition with the cheap reduction, and double-and-add on the bits of a
    positive: the same group operations, fast enough to multiply by [fl]. *)
Definition fast_add (p q : point) : point :=
  let a := fp_red ((Y p - X p) * (Y q - X q)) in
  let b := fp_red ((Y p + X p) * (Y q + X q)) in
  let c := fp_red (2 * fp_red (fd * fp_red (T p * T q))) in
  let d := fp_red (2 * (PZ p * PZ q)) in
  let e := b - a in
  let f := d - c in
  let g := d + c in
  let h := b + a in
  {| X := fp_red (e * f); Y := fp_red (g * h); T := fp_red (e * h); PZ := fp_red (f * g) |}.

Fixpoint fast_mul (k : positive) (P : point) : point :=
  match k with
  | xH => P
  | xO k => let Q := fast_mul k P in fast_add Q Q
  | xI k => let Q := fast_mul k P in fast_add (fast_add Q Q) P
  end.

Lemma fast_add_ext P Q : ext_of (fast_add P Q) = @ext_add Fp f1 fadd fmul fsub dF (ext_of P) (ext_of Q).
Proof.
  unfold ext_of, fast_add, ext_add. cbn [X Y PZ T]. autorewrite with fp. fold dF. apply quad_eq; ring.
Qed.

Lemma fast_add_ok P Q : valid P -> valid Q ->
  valid (fast_add P Q) /\ aff (fast_add P Q) = curve_add (aff P) (aff Q).
Proof.
  unfold valid, aff. rewrite fast_add_ext.
  apply (ext_add_ok Fp_field dF iF two_F i_square d_nonsquare).
Qed.

Lemma fast_mul_ok k P : valid P -> valid (fast_mul k P) /\ aff (fast_mul k P) = zmul (Z.pos k) (aff P).
Proof.
  intros HP. pose proof (aff_on P HP) as Hon.
  induction k as [k [IH1 IH2]|k [IH1 IH2]|]; cbn [fast_mul]; [| |split; [exact HP|symmetry; apply zmul_1]].
  - destruct (fast_add_ok _ _ IH1 IH1) as [H1 H2]. destruct (fast_add_ok _ _ H1 HP) as [H3 H4].
    split; [done|]. rewrite H4, H2, IH2. rewrite <- (zmul_1 (aff P)) at 3.
    rewrite <- (zmul_add (Z.pos k) (Z.pos k)), <- (zmul_add _ 1) by (exact Hon || lia). f_equal. lia.
  - destruct (fast_add_ok _ _ IH1 IH1) as [H1 H2]. split; [done|].
    rewrite H2, IH2, <- (zmul_add (Z.pos k) (Z.pos k)) by (exact Hon || lia). f_equal. lia.
Qed.

Definition is_zero (P : point) : bool := (X P mod fp =? 0) && ((Y P - PZ P) mod fp =? 0).

Lemma is_zero_ok P : valid P -> is_zero P = true -> aff P = curve_zero.
Proof.
  intros HP [Hx Hy]%andb_true_iff. apply Z.eqb_eq in Hx, Hy. apply Z.mod_divide in Hx, Hy; [|done..].
  apply of_Z_zero in Hx, Hy. rewrite of_Z_sub in Hy.
  unfold valid, aff, ext_of in *. destruct HP as (Hz & _). unfold ext_aff, ed_zero. rewrite Hx.
  assert (E : of_Z (Y P) = of_Z (PZ P)).
  { transitivity (fadd (fsub (of_Z (Y P)) (of_Z (PZ P))) (of_Z (PZ P))); [ring|]. rewrite Hy. ring. }
  rewrite E. f_equal; by field.
Qed.

Lemma fl_check : is_zero (fast_mul (Z.to_pos fl) basePoint) = true.
Proof. vm_compute. reflexivity. Qed.

Lemma base_order : zmul fl baseF = curve_zero.
Proof.
  destruct base_ok as [Hb Ha]. destruct (fast_mul_ok (Z.to_pos fl) basePoint Hb) as [H1 H2].
  rewrite Ha in H2. change (Z.pos (Z.to_pos fl)) with fl in H2. rewrite <- H2.
  apply is_zero_ok; [done|apply fl_check].
Qed.

(** ** Points as multiples of the base point *)

(** [rep P a]: the point [P] stands for [a] times the base point. *)
Definition rep (P : point) (a : Z) : Prop := valid P /\ aff P = zmul (a mod fl) baseF.

Lemma fl_pos : 0 < fl. Proof. done. Qed.
Lemma fl_ge_2 : 2 <= fl. Proof. done. Qed.
Lemma mod_fl_pos a : 0 <= a mod fl. Proof. apply Z.mod_pos_bound, fl_pos. Qed.

#[global] Opaque valid aff.

Lemma zmul_mod_fl a : 0 <= a -> zmul a baseF = zmul (a mod fl) baseF.
Proof.
  intros Ha. pose proof (mod_fl_pos a). pose proof fl_pos.
  pose proof (Z.div_pos a fl Ha fl_pos) as Hd.
  rewrite (Z.div_mod a fl) at 1 by lia.
  rewrite (zmul_add (fl * (a / fl)) (a mod fl)) by (apply base_on || lia || nia).
  rewrite Z.mul_comm, (zmul_mul (a / fl) fl) by (apply base_on || lia). rewrite base_order, zmul_zero.
  apply curve_zero_l.
Qed.

Lemma rep_cong P a b : cong fl a b -> rep P a -> rep P b.
Proof. unfold rep. rewrite (cong_iff fl) by discriminate. by intros ->. Qed.

#[global] Instance rep_proper P : Proper (cong fl ==> iff) (rep P).
Proof. intros a b E. split; apply rep_cong; [exact E|symmetry; exact E]. Qed.

Lemma rep_valid P a : rep P a -> valid P.
Proof. by intros []. Qed.

Lemma rep_base : rep basePoint 1.
Proof. destruct base_ok as [Hb Ha]. split; [exact Hb|]. rewrite Ha. symmetry. apply zmul_1. Qed.

Lemma rep_identity : rep identity 0.
Proof. destruct identity_ok as [Hb Ha]. split; [exact Hb|]. rewrite Ha. symmetry. apply zmul_0. Qed.

Lemma rep_add P Q a b : rep P a -> rep Q b -> rep (pointAdd P Q) (a + b).
Proof.
  intros [HP Ha] [HQ Hb]. destruct (pointAdd_ok P Q HP HQ) as [H1 H2]. split; [exact H1|].
  pose proof (mod_fl_pos a). pose proof (mod_fl_pos b).
  rewrite H2, Ha, Hb, <- (zmul_add (a mod fl) (b mod fl)) by (apply base_on || lia).
  rewrite zmul_mod_fl by lia. by rewrite <- Zplus_mod.
Qed.

Lemma rep_mul P a k : 0 <= k -> rep P a -> rep (scalarMult k P) (k * a).
Proof.
  intros Hk [HP Ha]. destruct (scalarMult_ok k P HP) as [H1 H2]. split; [exact H1|].
  pose proof (mod_fl_pos a).
  rewrite H2, Ha, Z.abs_eq, <- (zmul_mul k (a mod fl)) by (apply base_on || lia).
  rewrite zmul_mod_fl by nia. by rewrite Z.mul_mod_idemp_r.
Qed.

Lemma rep_mul_base k : 0 <= k -> rep (scalarMult k basePoint) k.
Proof. intros Hk. rewrite <- (Z.mul_1_r k) at 2. apply rep_mul; [exact Hk|apply rep_base]. Qed.

Lemma base_nonzero : baseF <> curve_zero.
Proof.
  intros E. apply (f_equal fst) in E. unfold baseF in E. cbn [fst ed_zero] in E.
  apply of_Z_zero in E. apply Z.mod_divide in E; [|discriminate]. revert E. vm_compute. discriminate.
Qed.

(** Different exponents modulo the order give different points. *)
Lemma zmul_inj a b : 0 <= a < fl -> 0 <= b < fl -> zmul a baseF = zmul b baseF -> a = b.
Proof.
  assert (Hz : forall c, 0 < c < fl -> zmul c baseF <> curve_zero).
  { intros c Hc E. assert (Hcop : Z.coprime c fl).
    { symmetry. apply Z.coprime_prime_small; [apply fl_prime|lia]. }
    destruct (invmod_cong c fl fl_ge_2 Hcop) as [k Hk]. pose proof (invmod_range c fl fl_pos).
    apply base_nonzero. rewrite <- (zmul_1 baseF). change 1 with (1 mod fl).
    replace 1 with (Z.invmod c fl * c + (- k) * fl) by lia. rewrite Z_mod_plus_full.
    rewrite <- zmul_mod_fl by nia. rewrite (zmul_mul _ c) by (apply base_on || lia). by rewrite E, zmul_zero. }
  assert (Hlt : forall a b, 0 <= a -> a < b < fl -> zmul a baseF <> zmul b baseF).
  { clear a b. intros a b Ha Hb E. apply (Hz (b - a)); [lia|].
    apply (ed_add_cancel Fp_field dF iF two_F i_square d_nonsquare (zmul a baseF));
      [apply zmul_on, base_on|apply zmul_on, base_on|apply (ed_zero_curve Fp_field)|].
    rewrite <- (zmul_add a (b - a)) by (apply base_on || lia). replace (a + (b - a)) with b by lia.
    rewrite <- E. symmetry. apply curve_zero_r. }
  intros Ha Hb E. destruct (Z.lt_trichotomy a b) as [H|[H|H]]; [|exact H|].
  - exfalso. eapply (Hlt a b); [lia..|exact E].
  - exfalso. eapply (Hlt b a); [lia..|symmetry; exact E].
Qed.

Lemma rep_inj P Q a b : rep P a -> rep Q b -> aff P = aff Q -> cong fl a b.
Proof.
  intros [_ Ha] [_ Hb] E. rewrite Ha, Hb in E. apply cong_iff; [discriminate|].
  apply zmul_inj; [apply Z.mod_pos_bound, fl_pos..|exact E].
Qed.

Lemma rep_same P Q a b : cong fl a b -> rep P a -> rep Q b -> aff P = aff Q.
Proof. rewrite cong_iff by discriminate. intros E [_ ->] [_ ->]. by rewrite E. Qed.
