(* ===== verification/EdwardsCodec.v ===== *)
(** * The 32-byte encoding of points

    [encode] depends only on the affine point and is injective on it;
    [decodePoint] inverts it (the square root of [frost.go] is right on every
    point of the curve), answers only points of the curve, and never panics. *)
From Stdlib Require Import Znumtheory Zcong Zdivisibility Field.
From Stdlib Require ZmodDef ZmodBase ZmodInv.
From S2P Require Import Prelude Modular Curve Edwards EdwardsTheory.

Add Field Fp_tac : Fp_field.

#[local] Transparent valid aff.

(** ** Little-endian integers *)

Lemma fillLE_rev n v : fillLE n v = rev (be_bytes n v).
Proof.
  unfold fillLE. induction n as [|n IH]; [done|].
  rewrite seq_S, map_app, IH. cbn [be_bytes rev map]. do 3 f_equal.
  rewrite Z.shiftr_div_pow2 by lia. by rewrite Z.pow_mul_r by lia.
Qed.

Lemma fillLE_length n v : length (fillLE n v) = n.
Proof. unfold fillLE. by rewrite length_map, length_seq. Qed.

Lemma leToInt_fillLE n v : leToInt (fillLE n v) = v mod 256 ^ Z.of_nat n.
Proof. unfold leToInt. by rewrite fillLE_rev, rev_involutive, be_Z_bytes. Qed.

Lemma leToInt_nonneg b : 0 <= leToInt b.
Proof. apply be_Z_range. Qed.

Lemma fillLE_snoc n v : fillLE (S n) v = fillLE n v ++ [Z_byte (Z.shiftr v (8 * Z.of_nat n))].
Proof. unfold fillLE. by rewrite seq_S, map_app. Qed.

Lemma scalarBytes_length s : length (scalarBytes s) = 32%nat.
Proof. apply fillLE_length. Qed.

Lemma leToInt_scalar s : leToInt (scalarBytes s) = s mod fl.
Proof.
  unfold scalarBytes. rewrite leToInt_fillLE. apply Z.mod_small.
  pose proof (Z.mod_pos_bound s fl fl_pos). change (256 ^ Z.of_nat 32) with (2 ^ 256). unfold fl in *. lia.
Qed.

Lemma scalar_roundtrip s : scalarFromBytes (scalarBytes s) = Ret (s mod fl).
Proof.
  unfold scalarFromBytes, guard. rewrite scalarBytes_length. cbn [Nat.eqb negb].
  change (negb (32 =? 32)%nat) with false. cbn iota. by rewrite leToInt_scalar, Z.mod_mod by discriminate.
Qed.

(** ** The encoder *)

Definition enc_xy (x y : Z) : bytes :=
  let b := fillLE 32 y in if Z.testbit x 0 then alter (or_byte 128) 31%nat b else b.

Lemma PZ_unit P : valid P -> Z.coprime (PZ P) fp.
Proof.
  intros (Hz & _). symmetry. apply Z.coprime_prime_l; [apply fp_prime|]. intros H. by apply Hz, of_Z_zero.
Qed.

Lemma coord_inv P a : valid P -> (a * Z.invmod (PZ P) fp) mod fp = to_Z (fdiv (of_Z a) (of_Z (PZ P))).
Proof.
  intros HP. rewrite <- to_of_Z, of_Z_mul, of_Z_inv. f_equal.
Qed.

Lemma encode_aff P : valid P -> encode P = Ret (enc_xy (to_Z (aff P).1) (to_Z (aff P).2)).
Proof.
  intros HP. unfold encode. rewrite (ModInverse_unit _ _ (PZ_unit P HP)). rewrite !coord_inv by exact HP. done.
Qed.

Lemma enc_xy_length x y : length (enc_xy x y) = 32%nat.
Proof. unfold enc_xy. destruct (Z.testbit x 0); rewrite ?length_alter; apply fillLE_length. Qed.

(** ** The top byte *)

Lemma top_byte b : byte_Z b < 128 ->
  Z.testbit (byte_Z (or_byte 128 b)) 7 = true /\ and_byte 127 (or_byte 128 b) = b /\
  Z.testbit (byte_Z b) 7 = false /\ and_byte 127 b = b.
Proof. destruct b; first [by vm_compute|by vm_compute; intros []]. Qed.

Lemma top_read (l : bytes) b : length l = 31%nat ->
  nth 31 (l ++ [b]) Byte.x00 = b /\ forall f, alter f 31%nat (l ++ [b]) = l ++ [f b].
Proof.
  intros Hl. split.
  - rewrite app_nth2 by lia. by rewrite Hl.
  - intros f. replace 31%nat with (length l + 0)%nat by lia. by rewrite alter_app_r.
Qed.

Lemma enc_read x y : 0 <= y < fp ->
  Z.testbit (byte_Z (nth 31 (enc_xy x y) Byte.x00)) 7 = Z.testbit x 0 /\
  leToInt (alter (and_byte 127) 31%nat (enc_xy x y)) = y.
Proof.
  intros Hy. unfold enc_xy. set (t := Z_byte (Z.shiftr y 248)).
  assert (E : fillLE 32 y = fillLE 31 y ++ [t]) by apply fillLE_snoc.
  assert (Ht : byte_Z t < 128).
  { unfold t. rewrite byte_Z_byte, Z.shiftr_div_pow2 by lia. unfold fp in Hy.
    rewrite Z.mod_small; (split; [apply Z.div_pos; lia|] || idtac); apply Z.div_lt_upper_bound; lia. }
  destruct (top_byte t Ht) as (H1 & H2 & H3 & H4).
  assert (Hv : leToInt (fillLE 32 y) = y).
  { rewrite leToInt_fillLE. apply Z.mod_small. change (256 ^ Z.of_nat 32) with (2 ^ 256). unfold fp in Hy. lia. }
  pose proof (fun b => top_read (fillLE 31 y) b (fillLE_length 31 y)) as Hr.
  destruct (Z.testbit x 0).
  - rewrite E, (proj2 (Hr t)), (proj1 (Hr _)), (proj2 (Hr _)), H2, <- E. by split.
  - rewrite E, (proj1 (Hr _)), (proj2 (Hr _)), H4, <- E. by split.
Qed.

(** ** Square roots modulo [fp] *)

Lemma fp_euclid a b : (fp | a * b) -> (fp | a) \/ (fp | b).
Proof. apply Z.divide_prime_mul, fp_prime. Qed.

(** Two square roots differ by their sign. *)
Lemma roots_sign a b : cong fp (a * a) (b * b) -> cong fp a b \/ cong fp a (- b).
Proof.
  intros [k E]. destruct (fp_euclid (a - b) (a + b)) as [H|H].
  - exists k. rewrite <- E. ring.
  - by left.
  - right. unfold cong. by replace (a - - b) with (a + b) by ring.
Qed.

Lemma sqrtM1_square : cong fp (sqrtM1 * sqrtM1) (-1).
Proof.
  apply of_Z_eq. rewrite of_Z_mul. etransitivity; [exact i_square|]. symmetry. apply ZB.of_Z_m1.
Qed.

#[local] Opaque sqrtM1.

(** The candidate root of [frost.go], given the exponents' arithmetic. *)
Lemma root_candidate x e h :
  0 <= e -> 0 <= h -> 4 * e = h + 2 -> 2 * h = fp - 1 ->
  cong fp (x ^ (2 * e) * x ^ (2 * e)) (x * x) \/ cong fp (x ^ (2 * e) * x ^ (2 * e)) (- (x * x)).
Proof.
  intros He Hh H4 H2. rewrite <- Z.pow_add_r by lia. replace (2 * e + 2 * e) with (h + 2) by lia.
  rewrite Z.pow_add_r, Z.pow_2_r by lia.
  destruct (Z.eq_dec (x mod fp) 0) as [E|E].
  - left. apply Z.mod_divide in E; [|discriminate]. unfold cong. transitivity x; [exact E|].
    exists ((x ^ h - 1) * x). ring.
  - destruct (roots_sign (x ^ h) 1) as [H|H].
    + rewrite <- Z.pow_add_r by lia. replace (h + h) with (fp - 1) by lia.
      apply cong_iff; [discriminate|]. rewrite (ZmodInv.Z.fermat_nz fp x fp_prime E). done.
    + left. rewrite H. exists 0. ring.
    + right. rewrite H. exists 0. ring.
Qed.

Lemma root_checks_square x c m :
  0 <= c < fp -> cong fp (m * m) (-1) ->
  cong fp (c * c) (x * x) \/ cong fp (c * c) (- (x * x)) ->
  exists r, root_checks c m ((x * x) mod fp) = Ret r /\ 0 <= r < fp /\ cong fp (r * r) (x * x).
Proof.
  intros Hr Hm Hc. unfold root_checks.
  destruct (Z.eqb_spec ((c * c) mod fp) ((x * x) mod fp)) as [E|Hne].
  - exists c. split; [reflexivity|]. split; [exact Hr|]. by apply cong_iff.
  - destruct Hc as [Hc|Hc]; [exfalso; apply Hne; by apply cong_iff in Hc|].
    assert (Hs : cong fp ((c * m) mod fp * ((c * m) mod fp)) (x * x)).
    { rewrite (cong_mod fp (c * m)) by discriminate.
      transitivity (c * c * (m * m)); [exists 0; ring|]. rewrite Hc, Hm. exists 0. ring. }
    pose proof Hs as Hs'. apply cong_iff in Hs'; [|discriminate].
    rewrite (proj2 (Z.eqb_eq _ _) Hs'). eexists. split; [reflexivity|]. split; [by apply Z.mod_pos_bound|exact Hs].
Qed.

Lemma root_of_square x : exists r, root_of ((x * x) mod fp) = Ret r /\ 0 <= r < fp /\ cong fp (r * r) (x * x).
Proof.
  assert (He : 0 <= Z.shiftr (fp + 3) 3) by (vm_compute; discriminate).
  unfold root_of. apply (root_checks_square x (Exp ((x * x) mod fp) (Z.shiftr (fp + 3) 3) fp) sqrtM1).
  - rewrite Exp_spec by (exact He || reflexivity). by apply Z.mod_pos_bound.
  - apply sqrtM1_square.
  - rewrite Exp_spec by (exact He || reflexivity).
    assert (H4 : 4 * Z.shiftr (fp + 3) 3 = (fp - 1) / 2 + 2) by (vm_compute; reflexivity).
    assert (H2 : 2 * ((fp - 1) / 2) = fp - 1) by (vm_compute; reflexivity).
    assert (Hh : 0 <= (fp - 1) / 2) by (vm_compute; discriminate).
    generalize (Z.shiftr (fp + 3) 3), ((fp - 1) / 2), He, H4, H2, Hh. clear He H4 H2 Hh.
    intros e h He H4 H2 Hh. pose proof (root_candidate x e h He Hh H4 H2) as Hc.
    assert (Ec : cong fp (((x * x) mod fp) ^ e mod fp) (x ^ (2 * e))).
    { rewrite (cong_mod fp (_ ^ e)) by discriminate.
      rewrite (cong_pow fp _ _ e He (cong_mod fp (x * x) ltac:(discriminate))).
      rewrite <- Z.pow_2_r, <- Z.pow_mul_r by lia. reflexivity. }
    rewrite <- Ec in Hc. exact Hc.
Qed.

(** ** The decoder inverts the encoder *)

Lemma denominator_unit y : Z.coprime ((fd * ((y * y) mod fp) + 1) mod fp) fp.
Proof.
  apply Z.coprime_mod_l_iff. symmetry. apply Z.coprime_prime_l; [apply fp_prime|]. intros H.
  apply of_Z_zero in H. rewrite of_Z_add, of_Z_mul, of_Z_mod, of_Z_mul, of_Z_1 in H. fold dF in H.
  set (u := of_Z y) in *. destruct (decide (u = f0)) as [Hu|Hu].
  - rewrite Hu in H. assert (H1 : f1 <> f0) by apply Fp_field. apply H1. rewrite <- H. ring.
  - apply (d_nonsquare (fdiv iF u)).
    transitivity (fdiv (fmul iF iF) (fmul u u)); [by field|]. rewrite i_square.
    transitivity (fdiv (fsub (fmul dF (fmul u u)) (fadd (fmul dF (fmul u u)) f1)) (fmul u u)); [by field|].
    rewrite H. by field.
Qed.

Lemma fp_odd : Z.odd fp = true.
Proof. done. Qed.

(** The root with the parity of [x] is [x]. *)
Lemma fix_sign r x : 0 <= r < fp -> 0 <= x < fp -> cong fp (r * r) (x * x) ->
  (if negb (Bool.eqb (Z.testbit r 0) (Z.testbit x 0)) then fp - r else r) = x.
Proof.
  intros Hr Hx E. rewrite !Z.bit0_odd. apply roots_sign in E as [E|E].
  - apply cong_eq in E; [|done..]. subst r. by rewrite eqb_reflx.
  - destruct (Z.eq_dec x 0) as [->|Hx0].
    { assert (r = 0) as -> by (apply (cong_eq fp); [done|lia|exact E]). done. }
    assert (r = fp - x) as ->.
    { apply (cong_eq fp); [done|lia|]. rewrite E. exists (-1). ring. }
    rewrite Z.odd_sub, fp_odd. destruct (Z.odd x); cbn; ring.
Qed.

Lemma decode_enc_xy x y :
  0 <= x < fp -> 0 <= y < fp -> curve_on (of_Z x, of_Z y) ->
  decodePoint (enc_xy x y) = Ret {| X := x; Y := y; PZ := 1; T := (x * y) mod fp |}.
Proof.
  intros Hx Hy Hc. unfold decodePoint, guard. rewrite enc_xy_length.
  destruct (enc_read x y Hy) as [-> ->]. change (negb (32 =? 32)%nat) with false. cbn iota.
  destruct (Z.geb_spec y fp); [lia|]. rewrite (ModInverse_unit _ _ (denominator_unit y)).
  assert (E : (((y * y) mod fp - 1) mod fp * Z.invmod ((fd * ((y * y) mod fp) + 1) mod fp) fp) mod fp
    = (x * x) mod fp).
  { apply cong_iff; [discriminate|].
    pose proof (invmod_cong _ fp ltac:(done) (denominator_unit y)) as Hi.
    set (i := Z.invmod _ _) in *. rewrite !(cong_mod fp) by discriminate.
    rewrite !(cong_mod fp) in Hi by discriminate.
    assert (Hc' : cong fp (fd * x * x * y * y) (y * y - x * x - 1)).
    { apply of_Z_eq. autorewrite with fp. exact Hc. }
    transitivity (x * x * (i * (fd * (y * y) + 1))); [|rewrite Hi; exists 0; ring].
    transitivity (i * (fd * x * x * y * y + x * x)); [|exists 0; ring]. rewrite Hc'. exists 0. ring. }
  rewrite E. destruct (root_of_square x) as (r & -> & Hr & Hsq). cbn [mbind outcome_bind].
  by rewrite fix_sign.
Qed.

Lemma aff_canonical P : valid P -> curve_on (of_Z (to_Z (aff P).1), of_Z (to_Z (aff P).2)).
Proof. intros HP. rewrite !of_to_Z, <- surjective_pairing. by apply aff_on. Qed.

Lemma decoded_ok x y : curve_on (of_Z x, of_Z y) ->
  let P := {| X := x; Y := y; PZ := 1; T := (x * y) mod fp |} in valid P /\ aff P = (of_Z x, of_Z y).
Proof.
  intros Hc P. unfold valid, aff, ext_of, P. cbn [X Y PZ T]. rewrite of_Z_mod, of_Z_mul, of_Z_1.
  by apply ext_base.
Qed.

Lemma decode_encode P : valid P ->
  exists b Q, encode P = Ret b /\ length b = 32%nat /\ decodePoint b = Ret Q /\ valid Q /\ aff Q = aff P.
Proof.
  intros HP. pose proof (aff_canonical P HP) as Hc. do 2 eexists.
  split; [by apply encode_aff|]. split; [apply enc_xy_length|].
  split; [apply decode_enc_xy; [apply to_Z_range..|exact Hc]|].
  destruct (decoded_ok _ _ Hc) as [Hv Ha]. split; [exact Hv|]. rewrite Ha, !of_to_Z. symmetry. apply surjective_pairing.
Qed.

Lemma encode_same P Q : valid P -> valid Q -> aff P = aff Q -> encode P = encode Q.
Proof. intros HP HQ E. by rewrite !encode_aff, E. Qed.

Lemma encode_inj P Q : valid P -> valid Q -> encode P = encode Q -> aff P = aff Q.
Proof.
  intros HP HQ E. destruct (decode_encode P HP) as (b & P' & E1 & _ & D1 & _ & <-).
  destruct (decode_encode Q HQ) as (b' & Q' & E2 & _ & D2 & _ & <-).
  rewrite E1, E2 in E. injection E as <-. rewrite D1 in D2. by injection D2 as <-.
Qed.

(** Whatever [decodePoint] answers is on the curve. *)
Lemma root_of_sound x2 r : root_of x2 = Ret r -> cong fp (r * r) x2.
Proof.
  unfold root_of. set (c := Exp _ _ _). clearbody c. unfold root_checks.
  destruct (Z.eqb_spec ((c * c) mod fp) x2) as [E|_].
  - intros [= <-]. rewrite <- E. symmetry. apply cong_mod. discriminate.
  - set (s := (c * sqrtM1) mod fp). destruct (Z.eqb_spec ((s * s) mod fp) x2) as [E|_]; [|done].
    intros [= <-]. rewrite <- E. symmetry. apply cong_mod. discriminate.
Qed.

Lemma decode_valid b P : decodePoint b = Ret P -> valid P.
Proof.
  unfold decodePoint. set (y := leToInt _). intros E. apply guard_ret in E as [_ E]. apply guard_ret in E as [_ E].
  rewrite (ModInverse_unit _ _ (denominator_unit y)) in E.
  pose proof (invmod_cong _ fp ltac:(done) (denominator_unit y)) as Hi.
  set (i := Z.invmod _ _) in *. match goal with H : context [root_of ?u] |- _ => set (x2 := u) in * end.
  apply bind_ret in E as (r & Hroot & E). apply root_of_sound in Hroot.
  injection E as <-. match goal with |- valid {| X := ?x |} => set (s := x) end.
  assert (Hs : cong fp (s * s) x2).
  { rewrite <- Hroot. unfold s. destruct (negb _); [exists (fp - 2 * r); ring|done]. }
  apply (decoded_ok s y). unfold on_curve. cbn [fst snd]. unfold dF.
  rewrite <- of_Z_1, <- !of_Z_mul, <- !of_Z_sub. apply of_Z_eq.
  rewrite !(cong_mod fp) in Hi by discriminate.
  transitivity (fd * (y * y) * (s * s)); [exists 0; ring|].
  transitivity (y * y - 1 - s * s); [|exists 0; ring]. rewrite Hs. unfold x2.
  rewrite !(cong_mod fp) by discriminate.
  transitivity ((y * y - 1) * (i * (fd * (y * y) + 1)) - (y * y - 1) * i); [exists 0; ring|].
  rewrite Hi. exists 0. ring.
Qed.

Lemma decode_no_panic b : decodePoint b <> Panic.
Proof.
  unfold decodePoint, guard. do 2 (case_if; [done|]). destruct (ModInverse _ fp); [|done].
  unfold root_of, root_checks. case_if; [done|]. by case_if.
Qed.

#[global] Opaque decodePoint encode.
