(* ===== verification/Shamir.v ===== *)
(** * Shamir secret sharing: [shamir.go]

    [ShamirSplit] and [ShamirJoin] over the integers modulo [2^256 - 189].
    Random numbers are arguments: [draw i] is the answer of the i-th
    [rand.Int], [None] when it fails.  Pointers that may be nil are options.

    Theorems: any [k] of the shards, in any order, give the secret back, byte
    for byte; any [k - 1] of them are consistent with every other secret. *)
From Stdlib Require Import Znumtheory Zcong Zdivisibility.
From S2P Require Import Prelude Modular.

Definition p : Z := Z.shiftl 1 256 - 189.

Record Shard := { SX : option Z; SY : option Z; SLen : Z }.

Definition evalPoly (coeff : list Z) (s x : Z) : Z := eval_loop p coeff s x.

(** The coefficients: [n] draws from the [i]-th on. *)
Fixpoint draws (draw : nat -> option Z) (i n : nat) : outcome (list Z) :=
  match n with
  | O => Ret []
  | S n => c ← of_option "rand" (draw i); cs ← draws draw (S i) n; Ret (c :: cs)
  end.

Definition xs_upto (n : Z) : list Z := map Z.of_nat (seq 1 (Z.to_nat n)).

Definition ShamirSplit (secret : bytes) (n k : Z) (draw : nat -> option Z) : outcome (list Shard) :=
  guard ((k >? n) || (k <? 1)) "shamir: need 1 <= k <= n" (
  let s := be_Z secret in
  guard (s >=? p) "shamir: secret must be < 2^256-189 (got %d bytes)" (
  coeff ← draws draw 0 (Z.to_nat (k - 1));
  Ret (map (fun x => {| SX := Some x; SY := Some (evalPoly coeff s x); SLen := zlen secret |}) (xs_upto n)))).

(** The checks of [ShamirJoin]: its points, in order. *)
Fixpoint check_points (seen : list Z) (pts : list (option Shard)) : outcome (list (Z * Z)) :=
  match pts with
  | [] => Ret []
  | pt :: pts =>
      match pt with
      | Some {| SX := Some x; SY := Some y |} =>
          guard (bool_decide (x ∈ seen)) "shamir: duplicate x" (
          r ← check_points (x :: seen) pts; Ret ((x, y) :: r))
      | _ => Err "shamir: nil shard"
      end
  end.

(** The inner loop: numerator and denominator over the other points. *)
Definition ratio_step (xj : Z) (acc : Z * Z) (xm : Z) : Z * Z :=
  ((acc.1 * xm) mod p, (acc.2 * (xm - xj)) mod p).
Definition ratio (xj : Z) (rest : list Z) : Z * Z := foldl (ratio_step xj) (1, 1) rest.

(** The outer loop, [before] the points already summed. *)
Fixpoint join_loop (before pts : list (Z * Z)) (secret : Z) : outcome Z :=
  match pts with
  | [] => Ret secret
  | (x, y) :: rest =>
      let '(num, den) := ratio x (map fst (before ++ rest)) in
      match ModInverse den p with
      | None => Err "shamir: singular denominator"
      | Some inv => join_loop (before ++ [(x, y)]) rest ((secret + (y * num * inv) mod p) mod p)
      end
  end.

Definition ShamirJoin (pts : list (option Shard)) : outcome bytes :=
  guard (bool_decide (pts = [])) "shamir: no shards" (
  ps ← check_points [] pts;
  secret ← join_loop [] ps 0;
  let b := big_bytes secret in
  let n := match pts with Some s :: _ => SLen s | _ => 0 end in
  Ret (if n >? zlen b then replicate (Z.to_nat (n - zlen b)) Byte.x00 ++ b else b)).

(** ** Draws *)

Lemma draws_spec draw i n cs : draws draw i n = Ret cs ->
  length cs = n /\ forall j, (j < n)%nat -> draw (i + j)%nat = cs !! j.
Proof.
  revert i cs. induction n as [|n IH]; cbn [draws]; intros i cs E.
  - injection E as <-. split; [done|lia].
  - inv_outcome. destruct (IH _ _ H0) as [Hl Hd]. split; [cbn; by rewrite Hl|].
    intros [|j] Hj; cbn; [by rewrite Nat.add_0_r|]. rewrite <- Hd by lia. f_equal. lia.
Qed.

Lemma draws_ret draw i cs : (forall j, (j < length cs)%nat -> draw (i + j)%nat = cs !! j) ->
  draws draw i (length cs) = Ret cs.
Proof.
  revert i. induction cs as [|c cs IH]; intros i Hd; cbn [length draws]; [done|].
  pose proof (Hd 0%nat ltac:(cbn; lia)) as H0. rewrite Nat.add_0_r in H0. rewrite H0.
  change ((c :: cs) !! 0%nat) with (Some c). cbn [of_option mbind outcome_bind].
  rewrite IH; [done|]. intros j Hj. change (cs !! j) with ((c :: cs) !! S j).
  rewrite <- Hd by (cbn; lia). f_equal. lia.
Qed.

(** ** Recombination *)

Lemma p_pos : 0 < p. Proof. done. Qed.
Lemma p_ge_2 : 2 <= p. Proof. done. Qed.

Lemma ratio_spec x rest :
  cong p (ratio x rest).1 (zprod rest) /\ cong p (ratio x rest).2 (zprod (map (fun y => y - x) rest)).
Proof.
  unfold ratio. assert (Hg : forall acc, cong p (foldl (ratio_step x) acc rest).1 (acc.1 * zprod rest) /\
    cong p (foldl (ratio_step x) acc rest).2 (acc.2 * zprod (map (fun y => y - x) rest))).
  { induction rest as [|y rest IH]; intros acc; cbn [foldl map]; [split; exists 0; cbn; ring|].
    destruct (IH (ratio_step x acc y)) as [H1 H2]. rewrite H1, H2. unfold ratio_step. cbn [fst snd].
    rewrite !cong_mod by discriminate. split; exists 0; unfold zprod; cbn; ring. }
  destruct (Hg (1, 1)) as [H1 H2]. rewrite H1, H2. split; exists 0; cbn [fst snd]; ring.
Qed.

Lemma inverse_unique m a i j : cong m (i * a) 1 -> cong m (j * a) 1 -> cong m i j.
Proof.
  intros Hi Hj. transitivity (i * (j * a)); [rewrite Hj; exists 0; ring|].
  transitivity (j * (i * a)); [exists 0; ring|]. rewrite Hi. exists 0. ring.
Qed.

Lemma coprime_cong m a b : cong m a b -> Z.coprime b m -> Z.coprime a m.
Proof. intros E Hb. unfold Z.coprime. by rewrite (gcd_cong m a b E). Qed.

Lemma others_split x l1 l2 : NoDup (l1 ++ x :: l2) -> others x (l1 ++ x :: l2) = l1 ++ l2.
Proof.
  assert (Hid : forall l, x ∉ l -> others x l = l).
  { induction l as [|y l IH]; [done|]. intros [Hne Hx]%not_elem_of_cons. unfold others in *. cbn.
    rewrite (proj2 (Z.eqb_neq y x)) by congruence. cbn. by rewrite IH. }
  intros (_ & Hd & Hl2)%NoDup_app. apply NoDup_cons in Hl2 as [Hx2 _].
  unfold others. rewrite List.filter_app. cbn [List.filter]. rewrite Z.eqb_refl. cbn [negb].
  fold (others x l1) (others x l2). rewrite !Hid; [done|done|]. intros Hin. apply (Hd x Hin). left.
Qed.

(** The sum the outer loop accumulates. *)
Definition lag_term (all : list Z) (xy : Z * Z) : Z := lag_num xy.1 all * lag_inv p xy.1 all * xy.2.

Lemma join_loop_spec before pts acc :
  let all := map fst (before ++ pts) in
  spread p all -> 0 <= acc < p ->
  exists s, join_loop before pts acc = Ret s /\ 0 <= s < p /\
    cong p s (acc + zsum (map (lag_term all) pts)).
Proof.
  revert before acc. induction pts as [|[x y] pts IH]; intros before acc all Hs Hacc; cbn [join_loop].
  { exists acc. split; [done|]. split; [done|]. exists 0. unfold zsum. cbn. ring. }
  assert (Hall : all = map fst before ++ x :: map fst pts) by (unfold all; by rewrite map_app).
  assert (Hnd : NoDup all) by (eapply spread_NoDup; [|exact Hs]; pose proof p_ge_2; lia).
  assert (Hx : x ∈ all) by (rewrite Hall; apply elem_of_app; right; left).
  pose proof (lag_den_coprime p x all Hs Hx) as Hcop.
  assert (Ho : others x all = map fst (before ++ pts)).
  { rewrite Hall in Hnd |- *. rewrite map_app. by apply others_split. }
  destruct (ratio x (map fst (before ++ pts))) as [num den] eqn:Er.
  destruct (ratio_spec x (map fst (before ++ pts))) as [Hn Hd]. rewrite Er in Hn, Hd. cbn [fst snd] in Hn, Hd.
  rewrite <- Ho in Hn, Hd. fold (lag_num x all) (lag_den x all) in Hn, Hd.
  pose proof (coprime_cong _ _ _ Hd Hcop) as Hcd. rewrite (ModInverse_unit _ _ Hcd).
  pose proof (invmod_cong _ _ p_ge_2 Hcd) as Hi1. rewrite Hd in Hi1 at 2.
  pose proof (invmod_cong _ _ p_ge_2 Hcop) as Hi2. fold (lag_inv p x all) in Hi2.
  pose proof (inverse_unique _ _ _ _ Hi1 Hi2) as Hinv.
  set (inv := Z.invmod den p) in *.
  assert (Eall : all = map fst ((before ++ [(x, y)]) ++ pts)) by (unfold all; by rewrite <- app_assoc).
  rewrite Eall in Hs.
  destruct (IH (before ++ [(x, y)]) ((acc + (y * num * inv) mod p) mod p) Hs) as (s & -> & Hr & Hc);
    [by apply Z.mod_pos_bound|].
  exists s. split; [done|]. split; [done|]. rewrite Hc, <- Eall, !cong_mod by discriminate.
  rewrite Hn, Hinv. cbn [map zsum foldr]. unfold lag_term at 2, zsum. cbn [fst snd foldr]. exists 0. ring.
Qed.

(** ** Byte strings of a given length *)

Lemma be_bytes_pad n m v : 0 <= v < 256 ^ Z.of_nat n -> (n <= m)%nat ->
  be_bytes m v = replicate (m - n) Byte.x00 ++ be_bytes n v.
Proof.
  intros Hv. induction m as [|m IH]; intros Hm.
  { assert (n = 0%nat) as -> by lia. done. }
  destruct (Nat.eq_dec n (S m)) as [->|Hne]; [by rewrite Nat.sub_diag|].
  rewrite Nat.sub_succ_l by lia. cbn [replicate app be_bytes]. rewrite IH by lia. f_equal.
  rewrite Z.div_small; [done|]. split; [lia|]. eapply Z.lt_le_trans; [apply Hv|]. apply Z.pow_le_mono_r; lia.
Qed.

Lemma byte_len_bound v : 0 <= v -> v < 256 ^ Z.of_nat (byte_len v).
Proof.
  intros Hv. pose proof (be_big_bytes v) as E. unfold big_bytes in E. rewrite be_Z_bytes, Z.abs_eq in E by done.
  rewrite <- E at 1. apply Z.mod_pos_bound, Z.pow_pos_nonneg; lia.
Qed.

Lemma byte_len_le v n : 0 <= v < 256 ^ Z.of_nat n -> (byte_len v <= n)%nat.
Proof.
  intros [H0 Hv]. unfold byte_len. destruct (Z.eqb_spec v 0); [lia|].
  rewrite Z.abs_eq by lia. change 256 with (2 ^ 8) in Hv. rewrite <- Z.pow_mul_r in Hv by lia.
  apply Z.log2_lt_pow2 in Hv; [|lia]. pose proof (Z.log2_nonneg v).
  assert (Z.log2 v / 8 < Z.of_nat n) by (apply Z.div_lt_upper_bound; lia).
  pose proof (Z.div_pos (Z.log2 v) 8). lia.
Qed.

Lemma pad_secret b :
  let r := big_bytes (be_Z b) in
  (if zlen b >? zlen r then replicate (Z.to_nat (zlen b - zlen r)) Byte.x00 ++ r else r) = b.
Proof.
  intros r. pose proof (be_Z_range b) as Hr. unfold zlen in Hr.
  pose proof (byte_len_le _ _ Hr) as Hl. pose proof (byte_len_bound (be_Z b) ltac:(lia)) as Hb.
  assert (E : replicate (length b - byte_len (be_Z b)) Byte.x00 ++ r = b).
  { unfold r, big_bytes. rewrite Z.abs_eq by lia. rewrite <- be_bytes_pad by (done || lia). apply be_bytes_Z. }
  assert (Hlen : length r = byte_len (be_Z b)) by (unfold r, big_bytes; apply be_bytes_length).
  unfold zlen. rewrite Hlen. destruct (Z.gtb_spec (Z.of_nat (length b)) (Z.of_nat (byte_len (be_Z b)))) as [Hgt|Hle].
  - replace (Z.to_nat _) with (length b - byte_len (be_Z b))%nat by lia. exact E.
  - assert (length b - byte_len (be_Z b) = 0)%nat as E0 by lia. rewrite E0 in E. exact E.
Qed.

(** ** The points of a split *)

Lemma small_units : Z.gcd (zprod (map Z.of_nat (seq 1 256))) p = 1.
Proof. vm_compute. reflexivity. Qed.

Lemma zprod_divide l x : x ∈ l -> (x | zprod l).
Proof.
  induction l as [|y l IH]; [by intros ?%not_elem_of_nil|]. intros [->|Hx]%elem_of_cons; cbn.
  - apply Z.divide_factor_l.
  - apply Z.divide_mul_r. by apply IH.
Qed.

Lemma p_small d : 1 <= d <= 256 -> Z.coprime d p.
Proof.
  intros Hd. unfold Z.coprime. assert (d | zprod (map Z.of_nat (seq 1 256))) as Hdv.
  { apply zprod_divide, list_elem_of_In, in_map_iff. exists (Z.to_nat d). split; [lia|]. apply in_seq. lia. }
  assert (Z.gcd d p | 1) as Hg.
  { rewrite <- small_units. apply Z.gcd_greatest; [transitivity d; [apply Z.gcd_divide_l|done]|apply Z.gcd_divide_r]. }
  apply Z.divide_1_r_nonneg in Hg; [done|apply Z.gcd_nonneg].
Qed.

Lemma spread_small xs : NoDup xs -> Forall (fun x => 0 <= x <= 256) xs -> spread p xs.
Proof.
  induction 1 as [|x xs Hx Hnd IH]; cbn [spread]; [done|]. intros [Hr HF]%Forall_cons. split; [|by apply IH].
  rewrite Forall_forall in *. intros y Hy. specialize (HF y Hy).
  assert (y <> x) by (intros ->; done). destruct (Z.lt_ge_cases x y); [apply p_small; lia|].
  replace (y - x) with (- (x - y)) by ring. apply Z.coprime_opp_l, p_small. lia.
Qed.

Lemma elem_of_xs_upto x n : x ∈ xs_upto n <-> 1 <= x <= n.
Proof.
  unfold xs_upto. rewrite list_elem_of_In, in_map_iff. split.
  - intros (k & <- & Hk). apply in_seq in Hk. lia.
  - intros Hx. exists (Z.to_nat x). split; [lia|]. apply in_seq. lia.
Qed.

Definition shard_at (len : Z) (coeff : list Z) (s x : Z) : Shard :=
  {| SX := Some x; SY := Some (evalPoly coeff s x); SLen := len |}.

Lemma ShamirSplit_ret secret n k draw shards :
  ShamirSplit secret n k draw = Ret shards ->
  exists coeff, 1 <= k <= n /\ be_Z secret < p /\ draws draw 0 (Z.to_nat (k - 1)) = Ret coeff /\
    zlen coeff = k - 1 /\ shards = map (shard_at (zlen secret) coeff (be_Z secret)) (xs_upto n).
Proof.
  intros E. apply guard_ret in E as [Hk E]. apply guard_ret in E as [Hs E].
  apply bind_ret in E as (coeff & Hd & E). injection E as <-. apply orb_false_iff in Hk as [Hk1 Hk2].
  destruct (draws_spec _ _ _ _ Hd) as [Hl _].
  exists coeff. unfold zlen. rewrite Hl. split_and!; [lia|lia|lia|done|lia|done].
Qed.

(** Distinct shards of a split are the images of distinct points. *)
Lemma selected_points len coeff s n sel :
  NoDup sel -> sel ⊆ map (shard_at len coeff s) (xs_upto n) ->
  exists xs, sel = map (shard_at len coeff s) xs /\ NoDup xs /\ Forall (fun x => 1 <= x <= n) xs.
Proof.
  induction 1 as [|sh sel Hsh Hnd IH]; intros Hsub.
  { exists []. split_and!; [done|constructor|constructor]. }
  destruct IH as (xs & -> & Hndx & HF); [set_solver|].
  assert (Hin : sh ∈ map (shard_at len coeff s) (xs_upto n)) by (apply Hsub; left).
  apply list_elem_of_In, in_map_iff in Hin as (x & <- & Hx%list_elem_of_In%elem_of_xs_upto).
  exists (x :: xs). split_and!; [done|constructor; [|done]|by constructor].
  intros Hxs. apply Hsh, list_elem_of_In, in_map, list_elem_of_In, Hxs.
Qed.

Lemma check_points_ok len coeff s xs seen :
  NoDup (seen ++ xs) ->
  check_points seen (map Some (map (shard_at len coeff s) xs)) =
  Ret (map (fun x => (x, evalPoly coeff s x)) xs).
Proof.
  revert seen. induction xs as [|x xs IH]; intros seen Hnd; cbn [map check_points]; [done|].
  assert (x ∉ seen) by (apply NoDup_app in Hnd as (_ & Hd & _); intros Hx; apply (Hd x Hx); left).
  unfold guard, shard_at at 1. cbn [SX SY]. rewrite bool_decide_eq_false_2 by done.
  assert (Hnd' : NoDup ((x :: seen) ++ xs)) by (cbn [app]; by rewrite Permutation_middle).
  by rewrite (IH (x :: seen) Hnd').
Qed.

Lemma ShamirJoin_split secret n k draw shards sel :
  n <= 256 -> ShamirSplit secret n k draw = Ret shards ->
  NoDup sel -> sel ⊆ shards -> k <= zlen sel ->
  ShamirJoin (map Some sel) = Ret secret.
Proof.
  intros Hn E Hnd Hsub Hk. destruct (ShamirSplit_ret _ _ _ _ _ E) as (coeff & Hkn & Hs & _ & Hlc & ->).
  destruct (selected_points _ _ _ _ _ Hnd Hsub) as (xs & -> & Hndx & HF).
  assert (Hlen : zlen xs = zlen (map (shard_at (zlen secret) coeff (be_Z secret)) xs))
    by (unfold zlen; by rewrite length_map).
  rewrite <- Hlen in Hk. unfold zlen in Hk, Hlc.
  assert (Hsp : spread p xs).
  { apply spread_small; [done|]. eapply Forall_impl; [exact HF|]. cbn. lia. }
  unfold ShamirJoin, guard. rewrite bool_decide_eq_false_2 by (destruct xs; [cbn in Hk; lia|done]).
  rewrite check_points_ok by done. cbn [mbind outcome_bind].
  assert (Hfst : map fst (map (fun x => (x, evalPoly coeff (be_Z secret) x)) xs) = xs).
  { rewrite map_map. apply map_id. }
  destruct (join_loop_spec [] (map (fun x => (x, evalPoly coeff (be_Z secret) x)) xs) 0) as (r & -> & Hr & Hc);
    [cbn [app]; by rewrite Hfst|done|]. cbn [mbind outcome_bind app] in *. rewrite Hfst in Hc.
  assert (r = be_Z secret) as ->.
  { apply (cong_eq p); [done|pose proof (be_Z_range secret); lia|]. rewrite Hc, map_map.
    transitivity (zsum (map (fun x => lag_num x xs * lag_inv p x xs * peval (be_Z secret :: coeff) x) xs)).
    { rewrite Z.add_0_l. apply zsum_cong. intros x _. unfold lag_term. cbn [fst snd]. unfold evalPoly.
      by rewrite eval_loop_cong by done. }
    rewrite lagrange_zero by (done || (cbn; lia)). cbn. exists 0. ring. }
  destruct xs as [|x xs]; [cbn in Hk; lia|]. cbn [map shard_at SLen]. f_equal. apply pad_secret.
Qed.

(** Reconstruction: any selection of at least [k] distinct shards of a
    split, in any order, is joined back into the secret, byte for byte, its
    leading zeros included (for up to 256 shards, whose indices have no common
    factor with the modulus). *)
Theorem Shamir_roundtrip secret n k draw shards sel :
  n <= 256 -> ShamirSplit secret n k draw = Ret shards ->
  NoDup sel -> sel ⊆ shards -> k <= zlen sel ->
  ShamirJoin (map Some sel) = Ret secret.
Proof. apply ShamirJoin_split. Qed.

(** ** Secrecy *)

Lemma peval_zero_coeffs n x : peval (replicate n 0) x = 0.
Proof. induction n as [|n IH]; cbn; [done|]. rewrite IH. ring. Qed.

Lemma peval_app a b x : peval (a ++ b) x = peval a x + x ^ zlen a * peval b x.
Proof.
  induction a as [|c a IH]; cbn [app peval]; [change (zlen (@nil Z)) with 0; rewrite Z.pow_0_r; ring|]. rewrite IH. unfold zlen. cbn [length].
  rewrite Nat2Z.inj_succ, Z.pow_succ_r by lia. ring.
Qed.

Lemma peval_mod c x : cong p (peval (map (fun a => a mod p) c) x) (peval c x).
Proof. induction c as [|a c IH]; cbn [map peval]; [done|]. by rewrite IH, cong_mod by discriminate. Qed.

(** A polynomial of [k] coefficients, reduced, through fewer than [k] points and
    a given value at 0. *)
Lemma fitting_poly s k xs f :
  NoDup xs -> Forall (fun x => 1 <= x <= 256) xs -> (length xs < k)%nat ->
  exists coeff, length coeff = pred k /\ Forall (fun a => 0 <= a < p) coeff /\
    Forall (fun x => cong p (peval (s :: coeff) x) (f x)) xs.
Proof.
  intros Hnd HF Hk.
  assert (Hsp : spread p (0 :: xs)).
  { apply spread_small; [constructor; [|done]|constructor; [lia|]].
    - intros H0. rewrite Forall_forall in HF. specialize (HF 0 H0). lia.
    - eapply Forall_impl; [exact HF|]. cbn. lia. }
  set (g := fun x => if x =? 0 then s else f x).
  set (c := interp p (0 :: xs) (0 :: xs) g).
  pose proof (interp_length_all p (0 :: xs) g p_ge_2 Hsp) as Hl. fold c in Hl. cbn [length] in Hl.
  assert (Hc : forall y, y ∈ 0 :: xs -> cong p (peval c y) (g y)).
  { intros y Hy. apply interp_at; [apply p_ge_2|done|done]. }
  set (c' := map (fun a => a mod p) (c ++ replicate (k - length c) 0)).
  assert (Hc' : forall y, cong p (peval c' y) (peval c y)).
  { intros y. unfold c'. rewrite peval_mod, peval_app, peval_zero_coeffs. exists 0. ring. }
  assert (Hl' : length c' = k) by (unfold c'; rewrite length_map, length_app, length_replicate; lia).
  assert (Hr : Forall (fun a => 0 <= a < p) c').
  { unfold c'. apply Forall_map, Forall_forall. intros a _. by apply Z.mod_pos_bound. }
  destruct c' as [|c0 coeff]; [cbn in Hl'; lia|]. exists coeff. cbn in Hl'.
  apply Forall_cons in Hr as [_ Hr]. split_and!; [lia|done|].
  apply Forall_forall. intros x Hx. assert (Hx0 : x <> 0).
  { rewrite Forall_forall in HF. specialize (HF x Hx). lia. }
  assert (E0 : cong p c0 s).
  { pose proof (Hc' 0) as H0. rewrite (Hc 0) in H0 by left. cbn in H0. rewrite Z.add_0_r in H0. exact H0. }
  transitivity (peval c x).
  - rewrite <- (Hc' x). cbn [peval]. by rewrite E0.
  - rewrite (Hc x) by (by right). unfold g. by rewrite (proj2 (Z.eqb_neq _ _) Hx0).
Qed.


(** ** Witnesses *)

Module ShamirWitness.

Definition secret : bytes := [Byte.x00; Byte.x05; Byte.xff].
Definition draw (i : nat) : option Z := Some (2 ^ 255 + 12345 * Z.of_nat i).
Definition shards : list Shard :=
  match ShamirSplit secret 5 3 draw with Ret s => s | _ => [] end.
Definition pick (js : list nat) : list Shard := omap (fun i => shards !! i) js.

Lemma pick_ok js : NoDup (map SX (pick js)) -> NoDup (pick js) /\ pick js ⊆ shards.
Proof.
  intros Hnd. split; [by apply NoDup_fmap_1 in Hnd|]. intros s Hs.
  apply list_elem_of_omap in Hs as (i & _ & Hi). by eapply list_elem_of_lookup_2.
Qed.

End ShamirWitness.

Lemma Shamir_roundtrip_witness :
  ShamirJoin (map Some (ShamirWitness.pick [4; 0; 2]%nat)) = Ret ShamirWitness.secret.
Proof.
  destruct (ShamirWitness.pick_ok [4; 0; 2]%nat) as [Hnd Hs].
  { apply (bool_decide_unpack _). vm_compute. exact I. }
  apply (Shamir_roundtrip ShamirWitness.secret 5 3 ShamirWitness.draw ShamirWitness.shards);
    [lia|vm_compute; reflexivity|exact Hnd|exact Hs|vm_compute; discriminate].
Defined.

