(* ===== verification/Frost.v ===== *)
(** * Threshold signatures: [frost.go]

    Share files, dealer mode, the two-round signing flow and the aggregator, as
    the source computes them over the group of Edwards.v.  Random draws are
    arguments: the 32 bytes [rand.Read] answers, or [None].  A [range] over a
    map visits the keys in the order an argument gives ([order]).  A signer and
    an aggregator are objects with state: the operations answer the new one.
    FrostTheory.v proves that the aggregate is a standard Ed25519 signature. *)
From stdpp Require Import sorting.
From S2P Require Import Prelude Crypto Encoding Modular Edwards.

(** ** Strings and their order *)

Definition string_le (a b : string) : Prop := String.leb a b = true.
#[global] Instance string_le_dec a b : Decision (string_le a b).
Proof. unfold string_le. apply _. Defined.

(** The keys of a map, sorted ([sort.Strings]). *)
Definition keys {A} (m : gmap string A) : list string := map fst (map_to_list m).
Definition sorted_keys {A} (m : gmap string A) : list string := merge_sort string_le (keys m).

(** ** Member ids *)

Definition member_id (x : Z) : string := "M" ++ of_bytes (dec_Z x).

Fixpoint digits_val (acc : Z) (s : bytes) : option Z :=
  match s with
  | [] => Some acc
  | b :: s => if is_digit b then digits_val (wrap64 (acc * 10 + digit_val b)) s else None
  end.
Definition memberX (id : string) : Z :=
  match to_bytes id with
  | c :: d :: s => if bool_decide (c = ch "M") then default 0 (digits_val 0 (d :: s)) else 0
  | _ => 0
  end.

(** ** Data *)

Record DkgCommitJSON := { dcID : string; dcCommits : list string }.

Record FrostSigner := {
  fsID : string;
  fsX : Z;
  Share : Z;
  GroupPub : bytes;
  PubShare : bytes;
  VK : list point;
  GlobalVK : list DkgCommitJSON;
  nonce_d : option Z;
  nonce_e : option Z;
  used : bool;
}.

Definition new_signer (id : string) (x share : Z) (gp ps : bytes) (vk : list point) : FrostSigner :=
  {| fsID := id; fsX := x; Share := share; GroupPub := gp; PubShare := ps; VK := vk;
     GlobalVK := []; nonce_d := None; nonce_e := None; used := false |}.

Record FrostShareFile := {
  ffID : string;
  ffX : Z;
  ffY : option Z;
  ffGroupPub : bytes;
  ffPubShare : bytes;
  ffVK : list string;
  ffGlobalVK : list DkgCommitJSON;
}.

(** ** Commitments *)

Fixpoint parsePoints (l : list string) : outcome (list point) :=
  match l with
  | [] => Ret []
  | s :: l =>
      raw ← of_option "frost: bad commitment hex: %w" (hex_decode (to_bytes s));
      p ← match decodePoint raw with
          | Ret p => Ret p
          | _ => Err "frost: bad commitment point: %w"
          end;
      ps ← parsePoints l;
      Ret (p :: ps)
  end.

(** [hex.EncodeToString] of each encoded point. *)
Fixpoint hex_points (ps : list point) : outcome (list string) :=
  match ps with
  | [] => Ret []
  | c :: ps => b ← encode c; hs ← hex_points ps; Ret (of_bytes (hex_encode b) :: hs)
  end.

Definition evalPolyL (coeff : list Z) (secret x : Z) : Z := eval_loop fl coeff secret x.

Definition verify_step (x : Z) (acc : point * Z) (c : point) : point * Z :=
  (pointAdd acc.1 (scalarMult acc.2 c), acc.2 * x).
Definition ShareVerifies (commit : list point) (x share : Z) : outcome bool :=
  a ← encode (fst (foldl (verify_step x) (identity, 1) commit));
  b ← encode (scalarMult share basePoint);
  Ret (bytes_equal a b).

(** The commitments of a [GlobalVK] under an id: the last entry wins. *)
Definition own_commits (id : string) (gs : list DkgCommitJSON) : list string :=
  foldl (fun vk g => if decide (dcID g = id) then dcCommits g else vk) [] gs.

Definition Signer (f : FrostShareFile) : outcome FrostSigner :=
  match ffY f with
  | None => Err "frost: bad share value"
  | Some y =>
      guard ((y >=? fl) || (y <? 0)) "frost: bad share value" (
      guard (negb (length (ffGroupPub f) =? PublicKeySize)%nat ||
             negb (length (ffPubShare f) =? PublicKeySize)%nat) "frost: bad key lengths" (
      let s := new_signer (ffID f) (ffX f) y (ffGroupPub f) (ffPubShare f) [] in
      let vk := match ffVK f, ffGlobalVK f with
                | [], _ :: _ => own_commits (ffID f) (ffGlobalVK f)
                | vk, _ => vk
                end in
      match vk with
      | [] => Ret s
      | _ =>
          pts ← parsePoints vk;
          ok ← ShareVerifies pts (ffX f) y;
          guard (negb ok) "frost: share fails commitment verification" (
          Ret (new_signer (ffID f) (ffX f) y (ffGroupPub f) (ffPubShare f) pts))
      end))
  end.

(** ** Polynomials with random coefficients *)

Fixpoint random_scalars (draw : nat -> option bytes) (i n : nat) : outcome (list Z) :=
  match n with
  | O => Ret []
  | S n => c ← randomScalar (draw i); cs ← random_scalars draw (S i) n; Ret (c :: cs)
  end.

Definition commitments (coeffs : list Z) : list point := map (fun c => scalarMult c basePoint) coeffs.
Definition indices (n : Z) : list Z := map Z.of_nat (seq 1 (Z.to_nat n)).

Section frost.
Context `{Hashes}.

Definition ed25519Scalar (seed : bytes) : Z := clamp_digest (sha512 seed).
Definition hashToScalar (parts : list bytes) : Z := leToInt (sha512 (concat parts)) mod fl.

(** [commit[0]] is read after the loops that fill [commit]. *)
Fixpoint split_signers (gp : bytes) (vk : list point) (coeff : list Z) (a : Z) (xs : list Z)
    : outcome (list FrostSigner) :=
  match xs with
  | [] => Ret []
  | x :: xs =>
      let share := evalPolyL coeff a x in
      ps ← encode (scalarMult share basePoint);
      ss ← split_signers gp vk coeff a xs;
      Ret (new_signer (member_id x) x share gp ps vk :: ss)
  end.

Definition FrostSplit (seed : bytes) (n t : Z) (draw : nat -> option bytes)
    : outcome (list FrostSigner * bytes) :=
  guard ((t >? n) || (t <? 1)) "frost: need 1 <= t <= n" (
  let a := ed25519Scalar seed in
  coeff ← random_scalars draw 0 (Z.to_nat (t - 1));
  let commit := commitments (a :: coeff) in
  gp ← encode (scalarMult a basePoint);
  ss ← split_signers gp commit coeff a (indices n);
  Ret (ss, gp)).

(** ** Signing: round one *)

(** [Commit] with its two draws: the signer is used up even when a draw fails. *)
Definition with_nonces (s : FrostSigner) (d e : option Z) : FrostSigner :=
  {| fsID := fsID s; fsX := fsX s; Share := Share s; GroupPub := GroupPub s; PubShare := PubShare s;
     VK := VK s; GlobalVK := GlobalVK s; nonce_d := d; nonce_e := e; used := true |}.

Definition Commit (s : FrostSigner) (draw_d draw_e : option bytes) : FrostSigner * outcome bytes :=
  if used s then (s, Err "frost: signer reused for a second message")
  else
    match randomScalar draw_d with
    | Ret d =>
        match randomScalar draw_e with
        | Ret e =>
            (with_nonces s (Some d) (Some e),
             D ← encode (scalarMult d basePoint);
             E ← encode (scalarMult e basePoint);
             Ret (D ++ E))
        | _ => (with_nonces s (Some d) None, Err "rand")
        end
    | _ => (with_nonces s None (nonce_e s), Err "rand")
    end.

(** ** The transcript *)

Record FrostTranscript := {
  tM : bytes;
  Commits : gmap string bytes;
  Xs : gmap string Z;
  tR : bytes;
  tC : bytes;
}.

Definition sortedIDs (t : FrostTranscript) : list string := sorted_keys (Commits t).

Definition bindingFactor (t : FrostTranscript) (groupPub : bytes) (id : string) : Z :=
  hashToScalar ([to_bytes "to-binding"; groupPub; tM t] ++
    map (fun sid => default [] (Commits t !! sid)) (sortedIDs t) ++ [to_bytes id]).

Definition lag_step (xi : Z) (acc : Z * Z) (xj : Z) : Z * Z :=
  if xj =? xi then acc else (acc.1 * xj, acc.2 * wrap64 (xj - xi)).
Definition lagrange (xi : Z) (xs : list Z) : outcome Z :=
  let '(num, den) := foldl (lag_step xi) (1, 1) xs in
  match ModInverse (den mod fl) fl with
  | None => Panic
  | Some inv => Ret ((num mod fl * inv) mod fl)
  end.

Definition participantXs (t : FrostTranscript) : list Z :=
  map (fun sid => default 0 (Xs t !! sid)) (sortedIDs t).

(** ** Signing: round two *)

Definition SignShare (s : FrostSigner) (t : FrostTranscript) : outcome bytes :=
  match nonce_d s, nonce_e s with
  | Some d, Some e =>
      guard (bool_decide (Commits t = ∅) || bool_decide (Xs t = ∅)) "frost: empty transcript" (
      let rho := bindingFactor t (GroupPub s) (fsID s) in
      let c := leToInt (tC t) mod fl in
      lam ← lagrange (fsX s) (participantXs t);
      Ret (scalarBytes ((rho * e + d + c * (lam * Share s)) mod fl)))
  | _, _ => Err "frost: no commitment made"
  end.

(** ** The aggregator *)

Record FrostAggregator := {
  agPub : bytes;
  agPubs : gmap string point;
  agCommits : gmap string bytes;
  agShares : gmap string Z;
  agR : option point;
  agC : Z;
  agM : bytes;
  agXs : gmap string Z;
}.

Definition set_commits (a : FrostAggregator) (cs : gmap string bytes) : FrostAggregator :=
  {| agPub := agPub a; agPubs := agPubs a; agCommits := cs; agShares := agShares a; agR := agR a;
     agC := agC a; agM := agM a; agXs := agXs a |}.
Definition set_challenge (a : FrostAggregator) (R : point) (c : Z) (m : bytes) : FrostAggregator :=
  {| agPub := agPub a; agPubs := agPubs a; agCommits := agCommits a; agShares := agShares a;
     agR := Some R; agC := c; agM := m; agXs := agXs a |}.
Definition set_share (a : FrostAggregator) (id : string) (z : Z) : FrostAggregator :=
  {| agPub := agPub a; agPubs := agPubs a; agCommits := agCommits a;
     agShares := <[id := z]> (agShares a); agR := agR a; agC := agC a; agM := agM a; agXs := agXs a |}.

Definition SetXs (a : FrostAggregator) (xs : gmap string Z) : FrostAggregator :=
  {| agPub := agPub a; agPubs := agPubs a; agCommits := agCommits a; agShares := agShares a;
     agR := agR a; agC := agC a; agM := agM a; agXs := xs |}.

Definition decodable (b : bytes) : option point :=
  match decodePoint b with Ret p => Some p | _ => None end.
Definition NewFrostAggregator (groupPub : bytes) (pubs : gmap string bytes) : FrostAggregator :=
  {| agPub := groupPub; agPubs := omap decodable pubs; agCommits := ∅; agShares := ∅; agR := None;
     agC := 0; agM := []; agXs := ∅ |}.

Definition AddCommit (a : FrostAggregator) (id : string) (de : bytes) : outcome FrostAggregator :=
  guard (negb (length de =? 64)%nat) "frost: commitment must be 64 bytes" (
  guard (negb (bool_decide (is_Some (agPubs a !! id)))) "frost: unknown signer %s" (
  guard (bool_decide (is_Some (agCommits a !! id))) "frost: duplicate commitment %s" (
  Ret (set_commits a (<[id := de]> (agCommits a)))))).

(** [de[:32]] and [de[32:]]: a slice shorter than 32 bytes is a panic. *)
Definition halves (de : bytes) : outcome (bytes * bytes) :=
  if (length de <? 32)%nat then Panic else Ret (take 32 de, drop 32 de).

Fixpoint nonce_loop (trans : FrostTranscript) (groupPub : bytes) (ids : list string) (R : point)
    : outcome point :=
  match ids with
  | [] => Ret R
  | id :: ids =>
      '(db, eb) ← halves (default [] (Commits trans !! id));
      D ← decodePoint db;
      E ← decodePoint eb;
      let rho := bindingFactor trans groupPub id in
      nonce_loop trans groupPub ids (pointAdd R (pointAdd D (scalarMult rho E)))
  end.

Definition transcript_of (m : bytes) (commits : gmap string bytes) (xs : gmap string Z) : FrostTranscript :=
  {| tM := m; Commits := commits; Xs := xs; tR := []; tC := [] |}.

Definition aggregateNonce (order : list string -> list string) (groupPub m : bytes)
    (commits : gmap string bytes) : outcome point :=
  guard (bool_decide (commits = ∅)) "frost: need commitments" (
  nonce_loop (transcript_of m commits ∅) groupPub (order (keys commits)) identity).

Definition ComputeChallenge (order : list string -> list string) (groupPub m : bytes)
    (commits : gmap string bytes) : outcome (bytes * bytes) :=
  R ← aggregateNonce order groupPub m commits;
  r ← encode R;
  Ret (r, scalarBytes (hashToScalar [r; groupPub; m])).

Definition UseBlindedChallenge (a : FrostAggregator) (cPrime : bytes) (Rp : point) (m : bytes)
    : FrostAggregator := set_challenge a Rp (leToInt cPrime mod fl) m.

Definition Challenge (order : list string -> list string) (a : FrostAggregator) (m : bytes)
    : outcome (FrostAggregator * bytes * bytes) :=
  guard (bool_decide (agCommits a = ∅) || negb (size (agCommits a) =? size (agPubs a))%nat)
    "frost: need commitments from all %d signers, have %d" (
  '(r, c) ← ComputeChallenge order (agPub a) m (agCommits a);
  R ← decodePoint r;
  Ret (set_challenge a R (leToInt c mod fl) m, r, c)).

(** The product [rho*E] of [AddShare], whose decoding error is dropped: a point
    without coordinates is a panic unless no addition happens. *)
Definition dropped_mult (k : Z) (o : outcome point) : outcome point :=
  match o with
  | Ret P => Ret (scalarMult k P)
  | _ => if k =? 0 then Ret identity else Panic
  end.
Definition dropped (o : outcome point) : outcome point :=
  match o with Ret P => Ret P | _ => Panic end.

Definition AddShare (a : FrostAggregator) (id : string) (z : bytes) : outcome FrostAggregator :=
  zi ← scalarFromBytes z;
  match agCommits a !! id with
  | None => Err "frost: no commitment for %s"
  | Some de =>
      match agPubs a !! id with
      | None => Err "frost: no pubshare for %s"
      | Some Ai =>
          match agR a with
          | None => Err "frost: challenge not computed"
          | Some _ =>
              guard (negb (size (agXs a) =? size (agPubs a))%nat) "frost: participant indices missing" (
              '(db, eb) ← halves de;
              let trans := transcript_of (agM a) (agCommits a) (agXs a) in
              let rho := bindingFactor trans (agPub a) id in
              rE ← dropped_mult rho (decodePoint eb);
              D ← dropped (decodePoint db);
              let Ri := pointAdd D rE in
              lam ← lagrange (default 0 (agXs a !! id)) (participantXs trans);
              lhs ← encode (scalarMult zi basePoint);
              rhs ← encode (pointAdd Ri (scalarMult (agC a * lam) Ai));
              guard (negb (bytes_equal lhs rhs))
                "frost: invalid share from %s (xs=%v lhs=%x rhs=%x rho=%s c=%s lam=%s)" (
              Ret (set_share a id zi)))
          end
      end
  end.

Definition Aggregate (a : FrostAggregator) : outcome bytes :=
  guard (negb (size (agShares a) =? size (agPubs a))%nat)
    "frost: need shares from all %d signers, have %d" (
  let z := zsum (map snd (map_to_list (agShares a))) mod fl in
  match agR a with
  | None => Panic
  | Some R => r ← encode R; Ret (r ++ scalarBytes z)
  end).

(** ** The in-process round *)

Fixpoint commit_all (signers : list FrostSigner) (draw : nat -> option bytes) (i : nat)
    (commits : gmap string bytes) : outcome (list FrostSigner * gmap string bytes) :=
  match signers with
  | [] => Ret ([], commits)
  | s :: signers =>
      let '(s, de) := Commit s (draw i) (draw (S i)) in
      de ← de;
      '(ss, commits) ← commit_all signers draw (S (S i)) (<[fsID s := de]> commits);
      Ret (s :: ss, commits)
  end.

Fixpoint add_commits (a : FrostAggregator) (commits : gmap string bytes) (ids : list string)
    : outcome FrostAggregator :=
  match ids with
  | [] => Ret a
  | id :: ids => a ← AddCommit a id (default [] (commits !! id)); add_commits a commits ids
  end.

Fixpoint add_shares (a : FrostAggregator) (trans : FrostTranscript) (signers : list FrostSigner)
    : outcome FrostAggregator :=
  match signers with
  | [] => Ret a
  | s :: signers =>
      z ← SignShare s trans;
      a ← AddShare a (fsID s) z;
      add_shares a trans signers
  end.

Definition pubs_of (signers : list FrostSigner) : gmap string bytes :=
  foldl (fun m s => <[fsID s := PubShare s]> m) ∅ signers.
Definition xs_of (signers : list FrostSigner) : gmap string Z :=
  foldl (fun m s => <[fsID s := fsX s]> m) ∅ signers.

Definition FrostRound (order : list string -> list string) (groupPub : bytes)
    (signers : list FrostSigner) (m : bytes) (draw : nat -> option bytes)
    : outcome (list FrostSigner * bytes) :=
  guard (zlen signers <? 2) "frost: need >= 2 signers" (
  let xs := xs_of signers in
  let agg := SetXs (NewFrostAggregator groupPub (pubs_of signers)) xs in
  '(signers, commits) ← commit_all signers draw 0 ∅;
  agg ← add_commits agg commits (order (keys commits));
  '(agg, r, c) ← Challenge order agg m;
  let trans := {| tM := m; Commits := commits; Xs := xs; tR := r; tC := c |} in
  agg ← add_shares agg trans signers;
  sig ← Aggregate agg;
  Ret (signers, sig)).

End frost.
