(* ===== verification/FrostTheory.v ===== *)
(** * Threshold signatures are Ed25519 signatures

    [encodes b a]: the 32 bytes [b] encode [a] times the base point.  [Keyed]:
    signers whose shares lie on one polynomial and whose public values match it,
    which dealer mode produces.  The two-round flow of [FrostRound] among any
    such signers succeeds, and its result satisfies the Ed25519 verification
    equation under the group key; the aggregator accepts a partial signature
    only when it is the right one. *)
From Stdlib Require Import Znumtheory Zcong Zdivisibility.
From stdpp Require Import sorting.
From S2P Require Import Prelude Crypto Encoding Modular Edwards EdwardsTheory EdwardsCodec Frost.

(** ** Encoded multiples of the base point *)

Definition encodes (b : bytes) (a : Z) : Prop := exists P, rep P a /\ encode P = Ret b.

Lemma encode_rep P a : rep P a -> exists b, encode P = Ret b /\ encodes b a.
Proof.
  intros HP. destruct (decode_encode P (rep_valid _ _ HP)) as (b & Q & E & _). exists b. split; [done|].
  by exists P.
Qed.

Lemma encodes_length b a : encodes b a -> length b = 32%nat.
Proof.
  intros (P & HP & E). destruct (decode_encode P (rep_valid _ _ HP)) as (b' & Q & E' & Hl & _).
  rewrite E in E'. by injection E' as <-.
Qed.

Lemma encodes_decode b a : encodes b a -> exists Q, decodePoint b = Ret Q /\ rep Q a.
Proof.
  intros (P & HP & E). destruct (decode_encode P (rep_valid _ _ HP)) as (b' & Q & E' & _ & D & HQ & Ha).
  rewrite E in E'. injection E' as <-. exists Q. split; [done|]. split; [done|]. rewrite Ha. apply HP.
Qed.

Lemma encodes_cong b a a' : cong fl a a' -> encodes b a -> encodes b a'.
Proof. intros Hc (P & HP & E). exists P. split; [by rewrite <- Hc|done]. Qed.

Lemma rep_encodes P a b : rep P a -> encodes b a -> encode P = Ret b.
Proof.
  intros HP (Q & HQ & <-). apply encode_same; [by eapply rep_valid..|].
  by eapply rep_same; [reflexivity|exact HP|exact HQ].
Qed.

Lemma encodes_inj b a a' : encodes b a -> encodes b a' -> cong fl a a'.
Proof.
  intros (P & HP & E) (Q & HQ & E'). apply (rep_inj P Q a a' HP HQ).
  apply encode_inj; [by eapply rep_valid..|]. by rewrite E, E'.
Qed.

Lemma encodes_det b b' a a' : cong fl a a' -> encodes b a -> encodes b' a' -> b = b'.
Proof.
  intros Hc (P & HP & E) Hb'. rewrite Hc in HP. rewrite (rep_encodes P a' b' HP Hb') in E. by injection E.
Qed.

Lemma encode_mult k : 0 <= k -> exists b, encode (scalarMult k basePoint) = Ret b /\ encodes b k.
Proof. intros Hk. by apply encode_rep, rep_mul_base. Qed.

(** ** Interpolation over the signing set *)

Definition index_ok (x : Z) : Prop := 0 <= x < 2 ^ 63.

Lemma unit_fl d : - 2 ^ 63 < d < 2 ^ 63 -> d <> 0 -> Z.coprime d fl.
Proof.
  intros Hd Hne. destruct (Z.lt_ge_cases 0 d).
  - symmetry. apply Z.coprime_prime_small; [apply fl_prime|]. unfold fl. lia.
  - apply Z.coprime_opp_l. symmetry. apply Z.coprime_prime_small; [apply fl_prime|]. unfold fl. lia.
Qed.

Lemma spread_indices xs : NoDup xs -> Forall index_ok xs -> spread fl xs.
Proof.
  induction 1 as [|x xs Hx Hnd IH]; cbn [spread]; [done|]. intros [Hr HF]%Forall_cons. split; [|by apply IH].
  rewrite Forall_forall in *. intros y Hy. specialize (HF y Hy). unfold index_ok in *.
  apply unit_fl; [lia|]. intros E. assert (y = x) as -> by lia. done.
Qed.

Lemma lag_fold xi xs acc :
  index_ok xi -> Forall index_ok xs ->
  foldl (lag_step xi) acc xs =
    (acc.1 * zprod (others xi xs), acc.2 * zprod (map (fun y => y - xi) (others xi xs))).
Proof.
  intros Hi. revert acc. induction xs as [|y xs IH]; intros acc HF; cbn [foldl others List.filter map].
  { destruct acc. cbn. by rewrite !Z.mul_1_r. }
  apply Forall_cons in HF as [Hy HF]. rewrite IH by done. unfold lag_step, index_ok in *. fold (others xi xs).
  destruct (Z.eqb_spec y xi) as [->|Hne]; cbn [negb fst snd map]; [done|].
  rewrite wrap64_id by (unfold in_int64; lia). unfold zprod. cbn. f_equal; ring.
Qed.

Lemma lagrange_spec xi xs :
  NoDup xs -> Forall index_ok xs -> xi ∈ xs ->
  exists l, lagrange xi xs = Ret l /\ 0 <= l < fl /\ cong fl l (lag_num xi xs * lag_inv fl xi xs).
Proof.
  intros Hnd HF Hin. pose proof (spread_indices xs Hnd HF) as Hsp.
  pose proof (lag_den_coprime fl xi xs Hsp Hin) as Hc.
  assert (Hi : index_ok xi) by (rewrite Forall_forall in HF; auto).
  unfold lagrange. rewrite (lag_fold xi xs (1, 1) Hi HF). cbn [fst snd]. rewrite !Z.mul_1_l.
  fold (lag_num xi xs) (lag_den xi xs).
  rewrite (ModInverse_unit (lag_den xi xs mod fl) fl) by (by apply Z.coprime_mod_l_iff).
  eexists. split; [done|]. split; [by apply Z.mod_pos_bound|].
  rewrite !(cong_mod fl) by discriminate. rewrite Z.invmod_mod_l. done.
Qed.

(** ** The order of the keys *)

#[global] Instance string_le_total : Total string_le.
Proof.
  intros a b. unfold string_le, String.leb. rewrite (String.compare_antisym a b).
  destruct (String.compare b a); cbn; auto.
Qed.

Lemma keys_NoDup {A} (m : gmap string A) : NoDup (keys m).
Proof. apply NoDup_fst_map_to_list. Qed.

Lemma elem_of_keys {A} (m : gmap string A) id : id ∈ keys m <-> is_Some (m !! id).
Proof.
  unfold keys. rewrite list_elem_of_fmap. split.
  - intros ((k & v) & -> & Hin). apply elem_of_map_to_list in Hin. by exists v.
  - intros [v Hv]. exists (id, v). split; [done|]. by apply elem_of_map_to_list.
Qed.

Lemma sorted_keys_perm {A} (m : gmap string A) : sorted_keys m ≡ₚ keys m.
Proof. apply merge_sort_Permutation. Qed.

Lemma keys_perm {A} (m : gmap string A) ids :
  NoDup ids -> (forall id, is_Some (m !! id) <-> id ∈ ids) -> keys m ≡ₚ ids.
Proof.
  intros Hnd Hd. apply NoDup_Permutation; [apply keys_NoDup|done|]. intros id. by rewrite elem_of_keys, Hd.
Qed.

Lemma size_keys {A} (m : gmap string A) : size m = length (keys m).
Proof. unfold keys. by rewrite length_map, length_map_to_list. Qed.

(** ** Signers of one group *)

(** The signer's share is the value of the polynomial [f] at its index. *)
Record keyed (gp : bytes) (f : list Z) (s : FrostSigner) : Prop := {
  k_pub : GroupPub s = gp;
  k_share : cong fl (Share s) (peval f (fsX s));
  k_range : 0 <= Share s;
  k_pubshare : encodes (PubShare s) (Share s);
  k_index : index_ok (fsX s);
}.

(** A signer of a round: it has committed, and [nz] knows its two nonces. *)
Record session (gp : bytes) (f : list Z) (cs : gmap string bytes) (nz : string -> Z * Z)
    (s : FrostSigner) : Prop := {
  s_keyed : keyed gp f s;
  s_d : nonce_d s = Some (nz (fsID s)).1;
  s_e : nonce_e s = Some (nz (fsID s)).2;
  s_commit : exists D E, cs !! fsID s = Some (D ++ E) /\
    encodes D (nz (fsID s)).1 /\ encodes E (nz (fsID s)).2;
}.

Abbreviation ids_of ss := (map fsID ss).

Definition all_drawn (draw : nat -> option bytes) (i n : nat) : Prop :=
  forall j, (i <= j < i + n)%nat -> is_Some (draw j).

Lemma hashed_range `{Hashes} l : 0 <= hashToScalar l < fl.
Proof. apply Z.mod_pos_bound, fl_pos. Qed.

Lemma random_range o x : randomScalar o = Ret x -> 0 <= x < fl.
Proof. destruct o; [|done]. intros [= <-]. apply Z.mod_pos_bound, fl_pos. Qed.

Lemma commit_fresh s dd de :
  used s = false -> is_Some dd -> is_Some de ->
  exists d e D E, Commit s dd de = (with_nonces s (Some d) (Some e), Ret (D ++ E)) /\
    encodes D d /\ encodes E e.
Proof.
  intros Hu [rd ->] [re ->]. unfold Commit. rewrite Hu. unfold randomScalar.
  set (d := leToInt rd mod fl). set (e := leToInt re mod fl).
  destruct (encode_mult d) as (D & ED & HD); [by apply Z.mod_pos_bound|].
  destruct (encode_mult e) as (E & EE & HE); [by apply Z.mod_pos_bound|].
  exists d, e, D, E. rewrite ED, EE. done.
Qed.

Lemma keyed_with gp f s d e : keyed gp f s -> keyed gp f (with_nonces s d e).
Proof. intros []. by split. Qed.

Lemma session_ext gp f cs cs' nz nz' s :
  cs !! fsID s = cs' !! fsID s -> nz (fsID s) = nz' (fsID s) ->
  session gp f cs nz s -> session gp f cs' nz' s.
Proof. intros Ec En [Hk Hd He Hc]. split; [done|by rewrite <- En..|]. by rewrite <- Ec, <- En. Qed.

Lemma commit_all_ok gp f ss draw i cs :
  NoDup (ids_of ss) -> Forall (keyed gp f) ss -> Forall (fun s => used s = false) ss ->
  all_drawn draw i (2 * length ss) ->
  exists ss' cs' nz, commit_all ss draw i cs = Ret (ss', cs') /\
    Forall2 (fun s s' => exists d e, s' = with_nonces s d e) ss ss' /\
    Forall (session gp f cs' nz) ss' /\
    (forall id, id ∉ ids_of ss -> cs' !! id = cs !! id).
Proof.
  revert i cs. induction ss as [|s ss IH]; intros i cs; cbn [map commit_all].
  { intros _ _ _ _. exists [], cs, (fun _ => (0, 0)). repeat split; constructor. }
  intros [Hid Hnd]%NoDup_cons [Hk HF]%Forall_cons [Hu HU]%Forall_cons Hdr.
  destruct (commit_fresh s (draw i) (draw (S i)) Hu) as (d & e & D & E & Ec & HD & HE);
    [apply Hdr; cbn; lia..|].
  rewrite Ec. cbn [mbind outcome_bind fsID with_nonces].
  destruct (IH (S (S i)) (<[fsID s := D ++ E]> cs) Hnd HF HU) as (ss' & cs' & nz & -> & H2 & Hs & Ho).
  { intros j Hj. apply Hdr. cbn. lia. }
  assert (Hids : ids_of ss' = ids_of ss).
  { clear - H2. induction H2 as [|s1 s2 l1 l2 (? & ? & ->) _ IH]; [done|].
    cbn. by f_equal. }
  set (nz' := fun id => if decide (id = fsID s) then (d, e) else nz id).
  cbn [mbind outcome_bind].
  eexists (_ :: ss'), cs', nz'. split; [done|]. split; [|split].
  - constructor; [by eexists _, _|done].
  - apply Forall_cons. split.
    + split; cbn; [by apply keyed_with|unfold nz'; rewrite decide_True by done; done..|].
      exists D, E. unfold nz'. rewrite decide_True by done. split; [|done].
      rewrite Ho by done. apply lookup_insert_eq.
    + rewrite Forall_forall in Hs |- *. intros s' Hin. apply (session_ext gp f cs' cs' nz); [done| |by apply Hs].
      unfold nz'. rewrite decide_False; [done|]. intros Heq. apply Hid. rewrite <- Heq, <- Hids.
      by apply list_elem_of_In, in_map, list_elem_of_In.
  - intros id [Hne Hin]%not_elem_of_cons. rewrite Ho by done. by apply lookup_insert_ne.
Qed.

(** ** The group nonce *)

Section nonce.
Context `{Hashes}.

(** What the binding factors make of the nonces of [ids]. *)
Definition nonce_sum (tr : FrostTranscript) (gp : bytes) (nz : string -> Z * Z) (ids : list string) : Z :=
  zsum (map (fun id => (nz id).1 + bindingFactor tr gp id * (nz id).2) ids).

Definition committed (cs : gmap string bytes) (nz : string -> Z * Z) (id : string) : Prop :=
  exists D E, cs !! id = Some (D ++ E) /\ encodes D (nz id).1 /\ encodes E (nz id).2.

Lemma halves_app D E a : encodes D a -> halves (D ++ E) = Ret (D, E).
Proof.
  intros HD%encodes_length. unfold halves. rewrite length_app, HD.
  destruct (Nat.ltb_spec (32 + length E) 32); [lia|].
  by rewrite <- HD, take_app_length, drop_app_length.
Qed.

Lemma nonce_loop_ok tr gp nz ids R r :
  rep R r -> Forall (committed (Commits tr) nz) ids ->
  exists R', nonce_loop tr gp ids R = Ret R' /\ rep R' (r + nonce_sum tr gp nz ids).
Proof.
  revert R r. induction ids as [|id ids IH]; intros R r HR; cbn [nonce_loop].
  { intros _. exists R. split; [done|]. unfold nonce_sum. cbn. by rewrite Z.add_0_r. }
  intros [(D & E & Ec & HD & HE) HF]%Forall_cons. rewrite Ec. cbn [from_option Datatypes.id].
  rewrite (halves_app D E _ HD).
  cbn [mbind outcome_bind].
  destruct (encodes_decode _ _ HD) as (PD & -> & HPD). destruct (encodes_decode _ _ HE) as (PE & -> & HPE).
  cbn [mbind outcome_bind].
  set (rho := bindingFactor tr gp id). assert (Hrho : 0 <= rho) by apply hashed_range.
  destruct (IH (pointAdd R (pointAdd PD (scalarMult rho PE))) (r + ((nz id).1 + rho * (nz id).2)))
    as (R' & -> & HR'); [|done|].
  { apply rep_add; [done|]. apply rep_add; [done|]. by apply rep_mul. }
  exists R'. split; [done|]. eapply rep_cong; [|exact HR']. unfold nonce_sum, zsum. cbn [map foldr].
  fold rho. cong_ring.
Qed.

#[global] Instance nonce_sum_perm tr gp nz : Proper (Permutation ==> eq) (nonce_sum tr gp nz).
Proof. intros a b E. unfold nonce_sum. by rewrite E. Qed.

Definition permutes (order : list string -> list string) : Prop := forall l, order l ≡ₚ l.

Lemma aggregateNonce_ok order gp m cs nz ids :
  permutes order -> keys cs ≡ₚ ids -> ids <> [] -> Forall (committed cs nz) ids ->
  exists R, aggregateNonce order gp m cs = Ret R /\
    rep R (nonce_sum (transcript_of m cs ∅) gp nz ids).
Proof.
  intros Ho Hp Hne HF. unfold aggregateNonce. rewrite bool_decide_eq_false_2.
  2: { intros ->. unfold keys in Hp. rewrite map_to_list_empty in Hp. by apply Permutation_nil in Hp. }
  cbn [guard].
  destruct (nonce_loop_ok (transcript_of m cs ∅) gp nz (order (keys cs)) identity 0) as (R & ER & HR).
  - apply rep_identity.
  - rewrite (Ho _), Hp. exact HF.
  - exists R. split; [exact ER|]. rewrite (Ho _), Hp in HR. exact HR.
Qed.

(** The challenge is the Ed25519 one, whatever the order of the map. *)
Lemma ComputeChallenge_ok order gp m cs nz ids :
  permutes order -> keys cs ≡ₚ ids -> ids <> [] -> Forall (committed cs nz) ids ->
  exists r, ComputeChallenge order gp m cs = Ret (r, scalarBytes (hashToScalar [r; gp; m])) /\
    encodes r (nonce_sum (transcript_of m cs ∅) gp nz ids).
Proof.
  intros Ho Hp Hne HF. unfold ComputeChallenge.
  destruct (aggregateNonce_ok order gp m cs nz ids Ho Hp Hne HF) as (R & -> & HR).
  cbn [mbind outcome_bind]. destruct (encode_rep R _ HR) as (r & -> & Hr). by exists r.
Qed.

End nonce.

(** ** The aggregator checks each share *)

Lemma encodes_eqb P Q a b :
  rep P a -> rep Q b ->
  exists x y, encode P = Ret x /\ encode Q = Ret y /\ (bytes_equal x y = true <-> cong fl a b).
Proof.
  intros HP HQ. destruct (encode_rep P a HP) as (x & Ex & Hx). destruct (encode_rep Q b HQ) as (y & Ey & Hy).
  exists x, y. split; [done|]. split; [done|]. rewrite bytes_equal_true. split.
  - intros ->. by eapply encodes_inj.
  - intros Hc. by eapply encodes_det.
Qed.

Section aggregator.
Context `{Hashes}.

(** The partial signature the equation asks for. *)
Definition partial (rho d e c lam share : Z) : Z := d + rho * e + c * lam * share.

(** [AddShare] accepts a share exactly when it is that value. *)
Lemma AddShare_ok a id zb R D E d e Ai share lam :
  length zb = 32%nat -> 0 <= agC a ->
  agCommits a !! id = Some (D ++ E) -> encodes D d -> encodes E e ->
  agPubs a !! id = Some Ai -> rep Ai share -> agR a = Some R ->
  size (agXs a) = size (agPubs a) ->
  lagrange (default 0 (agXs a !! id))
    (participantXs (transcript_of (agM a) (agCommits a) (agXs a))) = Ret lam -> 0 <= lam ->
  let rho := bindingFactor (transcript_of (agM a) (agCommits a) (agXs a)) (agPub a) id in
  (cong fl (leToInt zb) (partial rho d e (agC a) lam share) ->
     AddShare a id zb = Ret (set_share a id (leToInt zb mod fl))) /\
  (~ cong fl (leToInt zb) (partial rho d e (agC a) lam share) ->
     exists err, AddShare a id zb = Err err).
Proof.
  intros Hl Hc Ec HD HE Ea Ha ER Hsz El Hlam rho.
  destruct (encodes_decode _ _ HD) as (PD & ED & HPD). destruct (encodes_decode _ _ HE) as (PE & EE & HPE).
  set (zi := leToInt zb mod fl). assert (Hrho : 0 <= rho) by apply hashed_range.
  destruct (encodes_eqb (scalarMult zi basePoint)
    (pointAdd (pointAdd PD (scalarMult rho PE)) (scalarMult (agC a * lam) Ai)) zi
    (d + rho * e + agC a * lam * share)) as (x & y & Ex & Ey & Hxy).
  { apply rep_mul_base, Z.mod_pos_bound, fl_pos. }
  { apply rep_add; [apply rep_add; [done|by apply rep_mul]|]. apply rep_mul; [by apply Z.mul_nonneg_nonneg|done]. }
  unfold zi in Hxy. rewrite (cong_mod fl (leToInt zb)) in Hxy by discriminate.
  fold (partial rho d e (agC a) lam share) in Hxy.
  assert (EA : exists err, AddShare a id zb = if bytes_equal x y then Ret (set_share a id zi) else Err err).
  { eexists. unfold AddShare, scalarFromBytes. rewrite Hl. cbn [guard Nat.eqb negb mbind outcome_bind].
    rewrite Ec, Ea, ER, Hsz, Nat.eqb_refl. cbn [guard negb mbind outcome_bind].
    rewrite (halves_app D E _ HD). cbn [mbind outcome_bind]. rewrite ED, EE.
    cbn [dropped dropped_mult mbind outcome_bind]. rewrite El. cbn [mbind outcome_bind].
    fold rho zi. rewrite Ex, Ey. cbn [mbind outcome_bind]. unfold guard. by destruct (bytes_equal x y). }
  destruct EA as [err ->]. destruct (bytes_equal x y); split; intros Hz; [done| |exfalso; by apply Hxy in Hz|by eexists].
  exfalso. by apply Hz, Hxy.
Qed.

End aggregator.

(** ** Maps filled from the signers *)

Definition fill {A} (g : FrostSigner -> A) (ss : list FrostSigner) (m : gmap string A) : gmap string A :=
  foldl (fun m s => <[fsID s := g s]> m) m ss.

Lemma fill_other {A} (g : FrostSigner -> A) ss m id : id ∉ ids_of ss -> fill g ss m !! id = m !! id.
Proof.
  revert m. induction ss as [|s ss IH]; intros m; cbn [fill foldl map]; [done|].
  intros [Hne Hin]%not_elem_of_cons. fold (fill g ss (<[fsID s := g s]> m)).
  rewrite IH by done. by apply lookup_insert_ne.
Qed.

Lemma elem_of_ids s ss : s ∈ ss -> fsID s ∈ ids_of ss.
Proof. intros Hin. by apply list_elem_of_In, in_map, list_elem_of_In. Qed.

Lemma fill_lookup {A} (g : FrostSigner -> A) ss m s :
  NoDup (ids_of ss) -> s ∈ ss -> fill g ss m !! fsID s = Some (g s).
Proof.
  revert m. induction ss as [|s' ss IH]; intros m; cbn [fill foldl map].
  { by intros _ ?%not_elem_of_nil. }
  intros [Hin Hnd]%NoDup_cons [->|Hs]%elem_of_cons; fold (fill g ss (<[fsID s' := g s']> m)).
  - rewrite fill_other by done. apply lookup_insert_eq.
  - by apply IH.
Qed.

Lemma elem_of_ids_inv id ss : id ∈ ids_of ss -> exists s, s ∈ ss /\ id = fsID s.
Proof.
  intros (s & <- & Hs)%list_elem_of_In%in_map_iff. exists s. split; [by apply list_elem_of_In|done].
Qed.

Lemma keys_fill {A} (g : FrostSigner -> A) ss : NoDup (ids_of ss) -> keys (fill g ss ∅) ≡ₚ ids_of ss.
Proof.
  intros Hnd. apply keys_perm; [done|]. intros id. split.
  - intros Hs. destruct (decide (id ∈ ids_of ss)) as [|Hn]; [done|].
    rewrite fill_other, lookup_empty in Hs by done. by apply is_Some_None in Hs.
  - intros (s & Hs & ->)%elem_of_ids_inv. rewrite fill_lookup by done. by eexists.
Qed.

(** ** The shares of a round *)

Definition share_sum (a : FrostAggregator) : Z := zsum (map snd (map_to_list (agShares a))).

Lemma share_sum_insert a id z : agShares a !! id = None -> share_sum (set_share a id z) = z + share_sum a.
Proof.
  intros Hn. unfold share_sum, set_share. cbn [agShares]. by rewrite map_to_list_insert.
Qed.

Section shares.
Context `{Hashes} (gp : bytes) (f : list Z) (cs : gmap string bytes) (nz : string -> Z * Z).
Context (tr : FrostTranscript) (R : point).
Let c : Z := leToInt (tC tr) mod fl.

Definition lam_of (x : Z) : Z := match lagrange x (participantXs tr) with Ret l => l | _ => 0 end.

(** What the aggregator holds when the shares come in. *)
Record collecting (a : FrostAggregator) : Prop := {
  co_pub : agPub a = gp;
  co_commits : agCommits a = Commits tr;
  co_R : agR a = Some R;
  co_c : agC a = c;
  co_m : agM a = tM tr;
  co_xs : agXs a = Xs tr;
  co_size : size (agXs a) = size (agPubs a);
}.

Record signing (a : FrostAggregator) (s : FrostSigner) : Prop := {
  sg_session : session gp f (Commits tr) nz s;
  sg_pub : exists Ai, agPubs a !! fsID s = Some Ai /\ rep Ai (Share s);
  sg_x : Xs tr !! fsID s = Some (fsX s);
  sg_lam : lagrange (fsX s) (participantXs tr) = Ret (lam_of (fsX s)) /\ 0 <= lam_of (fsX s);
}.

Definition share_of (s : FrostSigner) : Z :=
  partial (bindingFactor tr gp (fsID s)) (nz (fsID s)).1 (nz (fsID s)).2 c (lam_of (fsX s)) (Share s).

Lemma SignShare_ok a s : signing a s ->
  exists z, SignShare s tr = Ret (scalarBytes z) /\ cong fl z (share_of s).
Proof.
  intros [[Hk Hd He (D & E & Hc & _)] _ Hx [El _]].
  exists ((bindingFactor tr gp (fsID s) * (nz (fsID s)).2 + (nz (fsID s)).1 + c * (lam_of (fsX s) * Share s)) mod fl).
  unfold SignShare. rewrite Hd, He, El. rewrite (bool_decide_eq_false_2 (Commits tr = ∅)), (bool_decide_eq_false_2 (Xs tr = ∅)).
  - cbn [guard orb mbind outcome_bind]. rewrite (k_pub _ _ _ Hk). split; [done|].
    rewrite cong_mod by discriminate. unfold share_of, partial. cong_ring.
  - intros Eq. by rewrite Eq, lookup_empty in Hx.
  - intros Eq. by rewrite Eq, lookup_empty in Hc.
Qed.

Lemma AddShare_signed a s z : signing a s -> collecting a -> cong fl z (share_of s) ->
  exists z', AddShare a (fsID s) (scalarBytes z) = Ret (set_share a (fsID s) z') /\ cong fl z' (share_of s).
Proof.
  intros [[Hk Hd He (D & E & Hc & HD & HE)] (Ai & HA & HAi) Hx [El Hlam]] [Hp Hcs HR Hcc Hm Hxs Hsz] Hz.
  assert (Hz' : cong fl (leToInt (scalarBytes z)) (share_of s))
    by (rewrite leToInt_scalar, cong_mod by discriminate; exact Hz).
  exists (leToInt (scalarBytes z) mod fl). split; [|by rewrite cong_mod by discriminate].
  refine (proj1 (AddShare_ok a (fsID s) (scalarBytes z) R D E _ _ Ai (Share s) (lam_of (fsX s))
    (scalarBytes_length z) _ _ HD HE HA HAi HR Hsz _ Hlam) _).
  - rewrite Hcc. apply Z.mod_pos_bound, fl_pos.
  - by rewrite Hcs.
  - rewrite Hxs, Hx, Hcs. exact El.
  - rewrite Hz', Hp, Hcs, Hm, Hcc. done.
Qed.

Lemma add_shares_ok a ss :
  collecting a -> Forall (signing a) ss -> NoDup (ids_of ss) ->
  Forall (fun s => agShares a !! fsID s = None) ss ->
  exists a', add_shares a tr ss = Ret a' /\ agR a' = Some R /\ agPubs a' = agPubs a /\
    size (agShares a') = (length ss + size (agShares a))%nat /\
    cong fl (share_sum a') (zsum (map share_of ss) + share_sum a).
Proof.
  revert a. induction ss as [|s ss IH]; intros a Hco; cbn [add_shares map].
  { intros _ _ _. exists a. by destruct Hco. }
  intros [Hs HF]%Forall_cons [Hid Hnd]%NoDup_cons [Hn Hns]%Forall_cons.
  destruct (SignShare_ok a s Hs) as (z & -> & Hz). cbn [mbind outcome_bind].
  destruct (AddShare_signed a s z Hs Hco Hz) as (z' & -> & Hz'). cbn [mbind outcome_bind].
  destruct (IH (set_share a (fsID s) z')) as (a' & E & ER & Ep & Esz & Es).
  - destruct Hco. by split.
  - eapply Forall_impl; [exact HF|]. intros s' []. by split.
  - done.
  - rewrite Forall_forall in Hns |- *. intros s' Hs'. unfold set_share. cbn [agShares].
    rewrite lookup_insert_ne; [by apply Hns|]. intros Heq. apply Hid. rewrite Heq. by apply elem_of_ids.
  - exists a'. split; [exact E|]. split; [done|]. split; [done|].
    unfold set_share in Esz. cbn [agShares] in Esz. rewrite map_size_insert_None in Esz by done.
    split; [cbn [length]; lia|].
    rewrite Es, share_sum_insert, Hz' by done. unfold zsum. cbn [foldr]. cong_ring.
Qed.

End shares.

(** ** A whole round *)

Lemma add_commits_ok a cs ids :
  NoDup ids ->
  Forall (fun id => (exists b, cs !! id = Some b /\ length b = 64%nat) /\ is_Some (agPubs a !! id) /\
                    agCommits a !! id = None) ids ->
  exists cs', add_commits a cs ids = Ret (set_commits a cs') /\
    forall id, cs' !! id = if decide (id ∈ ids) then cs !! id else agCommits a !! id.
Proof.
  revert a. induction ids as [|id ids IH]; intros a; cbn [add_commits].
  { intros _ _. exists (agCommits a). split; [by destruct a|]. intros id. by rewrite decide_False by apply not_elem_of_nil. }
  intros [Hid Hnd]%NoDup_cons [((b & Hb & Hl) & Hp & Hn) HF]%Forall_cons.
  rewrite Hb. cbn [from_option Datatypes.id]. unfold AddCommit.
  rewrite Hl, (bool_decide_eq_true_2 _ Hp), Hn, (bool_decide_eq_false_2 (is_Some (@None bytes))) by (intros []; done).
  cbn [guard Nat.eqb negb mbind outcome_bind].
  destruct (IH (set_commits a (<[id := b]> (agCommits a))) Hnd) as (cs' & -> & Hcs').
  { rewrite Forall_forall in HF |- *. intros id' Hin. destruct (HF id' Hin) as (H1 & H2 & H3).
    split; [done|]. split; [done|]. cbn [set_commits agCommits]. rewrite lookup_insert_ne; [done|].
    intros ->. done. }
  exists cs'. split; [done|]. intros id'. rewrite Hcs'. cbn [set_commits agCommits].
  destruct (decide (id' = id)) as [->|Hne].
  - rewrite decide_False by done. rewrite decide_True by left. by rewrite lookup_insert_eq.
  - rewrite lookup_insert_ne by done. apply decide_ext. rewrite elem_of_cons. naive_solver.
Qed.

Lemma agg_pubs_lookup gp f ss s :
  NoDup (ids_of ss) -> s ∈ ss -> keyed gp f s ->
  exists Ai, omap decodable (pubs_of ss) !! fsID s = Some Ai /\ rep Ai (Share s).
Proof.
  intros Hnd Hs Hk. destruct (encodes_decode _ _ (k_pubshare _ _ _ Hk)) as (Q & EQ & HQ).
  exists Q. split; [|done]. rewrite lookup_omap. change (pubs_of ss) with (fill PubShare ss ∅).
  rewrite fill_lookup by done. cbn. unfold decodable. by rewrite EQ.
Qed.

Lemma agg_pubs_size gp f ss :
  NoDup (ids_of ss) -> Forall (keyed gp f) ss -> size (omap decodable (pubs_of ss)) = length ss.
Proof.
  intros Hnd HF. rewrite size_keys, <- (length_map fsID ss). apply Permutation_length, keys_perm; [done|].
  intros id. split.
  - intros [x Hx]. rewrite lookup_omap in Hx. apply bind_Some in Hx as (b & Hb & _).
    destruct (decide (id ∈ ids_of ss)) as [|Hn]; [done|]. exfalso.
    change (pubs_of ss) with (fill PubShare ss ∅) in Hb. by rewrite fill_other, lookup_empty in Hb.
  - intros (s & Hs & ->)%elem_of_ids_inv. rewrite Forall_forall in HF.
    destruct (agg_pubs_lookup gp f ss s Hnd Hs (HF s Hs)) as (Ai & -> & _). by eexists.
Qed.

(** The interpolated sum of the partial signatures. *)
Lemma shares_interpolate `{Hashes} gp f nz tr ss ids xs :
  NoDup xs -> Forall index_ok xs -> (length f <= length xs)%nat ->
  ids = ids_of ss -> xs ≡ₚ map fsX ss -> participantXs tr = xs ->
  Forall (keyed gp f) ss ->
  cong fl (zsum (map (share_of gp nz tr) ss))
    (nonce_sum tr gp nz ids + (leToInt (tC tr) mod fl) * peval f 0).
Proof.
  intros Hnd HF Hlen -> Hp Etr Hk. set (c := leToInt (tC tr) mod fl).
  transitivity (nonce_sum tr gp nz (ids_of ss) +
    c * zsum (map (fun x => lag_num x xs * lag_inv fl x xs * peval f x) (map fsX ss))).
  2: { rewrite <- Hp, lagrange_zero; [reflexivity|apply fl_ge_2|by apply spread_indices|done]. }
  assert (Hin : Forall (fun s => fsX s ∈ xs) ss).
  { apply Forall_forall. intros s Hs. rewrite Hp. by apply list_elem_of_In, in_map, list_elem_of_In. }
  clear Hp. unfold nonce_sum. induction ss as [|s ss IH]; cbn [map]; [exists 0; cbn; ring|].
  apply Forall_cons in Hk as [Hk1 Hk], Hin as [Hi1 Hin].
  unfold zsum in *. cbn [foldr]. rewrite (IH Hk Hin). unfold share_of, partial, lam_of. rewrite Etr.
  destruct (lagrange_spec (fsX s) xs Hnd HF Hi1) as (l & -> & _ & ->).
  rewrite (k_share _ _ _ Hk1). fold c. cong_ring.
Qed.

Lemma with_nonces_same {B} (g : FrostSigner -> B) ss ss' :
  (forall s d e, g (with_nonces s d e) = g s) ->
  Forall2 (fun s s' => exists d e, s' = with_nonces s d e) ss ss' -> map g ss' = map g ss.
Proof. intros Hg. induction 1 as [|s s' l l' (d & e & ->) _ IH]; [done|]. cbn. by rewrite Hg, IH. Qed.

Section round.
Context `{Hashes} (gp : bytes) (f : list Z) (ss : list FrostSigner).
Hypothesis Hids : NoDup (ids_of ss).
Hypothesis Hxs : NoDup (map fsX ss).
Hypothesis Hkeyed : Forall (keyed gp f) ss.
Hypothesis Hfresh : Forall (fun s => used s = false) ss.
Hypothesis Hsome : ss <> [].
Hypothesis Hdeg : (length f <= length ss)%nat.

Let agg : FrostAggregator := SetXs (NewFrostAggregator gp (pubs_of ss)) (xs_of ss).

Lemma Hindex : Forall index_ok (map fsX ss).
Proof. rewrite Forall_map. eapply Forall_impl; [exact Hkeyed|]. intros s. apply k_index. Qed.

Lemma round_commits draw : all_drawn draw 0 (2 * length ss) ->
  exists ss' cs nz, commit_all ss draw 0 ∅ = Ret (ss', cs) /\
    Forall2 (fun s s' => exists d e, s' = with_nonces s d e) ss ss' /\
    Forall (session gp f cs nz) ss' /\ keys cs ≡ₚ ids_of ss /\ Forall (committed cs nz) (ids_of ss) /\
    forall order, permutes order -> add_commits agg cs (order (keys cs)) = Ret (set_commits agg cs).
Proof.
  intros Hdraw. destruct (commit_all_ok gp f ss draw 0 ∅ Hids Hkeyed Hfresh Hdraw)
    as (ss' & cs & nz & Ec & H2 & Hses & Hother).
  exists ss', cs, nz. split; [done|]. split; [done|]. split; [done|].
  pose proof (with_nonces_same fsID ss ss' ltac:(done) H2) as Hsame.
  assert (Hcm : Forall (committed cs nz) (ids_of ss)).
  { rewrite <- Hsame, Forall_map. eapply Forall_impl; [exact Hses|]. intros s. apply s_commit. }
  assert (Hk : keys cs ≡ₚ ids_of ss).
  { apply keys_perm; [done|]. intros id. split.
    - intros Hs. destruct (decide (id ∈ ids_of ss)) as [|Hn]; [done|].
      rewrite Hother, lookup_empty in Hs by done. by apply is_Some_None in Hs.
    - intros Hin. rewrite Forall_forall in Hcm. destruct (Hcm id Hin) as (D & E & -> & _). by eexists. }
  split; [done|]. split; [done|]. intros order Horder.
  destruct (add_commits_ok agg cs (order (keys cs))) as (cs' & -> & Hcs').
  - rewrite (Horder _), Hk. exact Hids.
  - rewrite (Horder _), Hk. rewrite Forall_forall in Hcm |- *. rewrite Forall_forall in Hkeyed. intros id Hin.
    destruct (Hcm id Hin) as (D & E & Ed & HD & HE). split; [|split; [|by apply lookup_empty]].
    + exists (D ++ E). split; [done|]. by rewrite length_app, (encodes_length _ _ HD), (encodes_length _ _ HE).
    + apply elem_of_ids_inv in Hin as (s & Hs & ->).
      destruct (agg_pubs_lookup gp f ss s Hids Hs (Hkeyed s Hs)) as (Ai & HA & _). by exists Ai.
  - do 2 f_equal. apply map_eq. intros id. rewrite Hcs'. destruct (decide (id ∈ order (keys cs))) as [|Hn]; [done|].
    rewrite (Horder _), elem_of_keys, <- eq_None_not_Some in Hn. by rewrite Hn.
Qed.

Lemma participant_perm tr cs : Commits tr = cs -> Xs tr = xs_of ss -> keys cs ≡ₚ ids_of ss ->
  participantXs tr ≡ₚ map fsX ss.
Proof.
  intros Ec Ex Hk. unfold participantXs, sortedIDs. rewrite Ec, Ex, sorted_keys_perm, Hk, map_map.
  erewrite map_ext_in; [reflexivity|]. intros s Hs. change (xs_of ss) with (fill fsX ss ∅).
  rewrite fill_lookup; [done|done|]. by apply list_elem_of_In.
Qed.

(** Every signer of the round meets what [SignShare] and [AddShare] need. *)
Lemma round_signing tr cs nz ag ss' :
  Commits tr = cs -> Xs tr = xs_of ss -> keys cs ≡ₚ ids_of ss -> agPubs ag = agPubs agg ->
  Forall2 (fun s s' => exists d e, s' = with_nonces s d e) ss ss' ->
  Forall (session gp f cs nz) ss' -> Forall (signing gp f nz tr ag) ss'.
Proof.
  intros Ec Ex Hk Ep H2 Hses. pose proof (participant_perm tr cs Ec Ex Hk) as Hpx.
  rewrite Forall_forall in Hses |- *. intros s' Hs'.
  destruct (list_elem_of_lookup_1 _ _ Hs') as [i Hi].
  destruct (Forall2_lookup_r _ _ _ _ _ H2 Hi) as (s & Hsi%list_elem_of_lookup_2 & d & e & ->).
  pose proof (proj1 (Forall_forall _ _) Hkeyed s Hsi) as Hks.
  split.
  - rewrite Ec. by apply Hses.
  - rewrite Ep. exact (agg_pubs_lookup gp f ss s Hids Hsi Hks).
  - rewrite Ex. exact (fill_lookup fsX ss ∅ s Hids Hsi).
  - destruct (lagrange_spec (fsX s) (participantXs tr)) as (l & El & [Hl _] & _).
    + by rewrite Hpx.
    + rewrite Hpx. apply Hindex.
    + rewrite Hpx. by apply list_elem_of_In, in_map, list_elem_of_In.
    + unfold lam_of. cbn [fsX with_nonces]. by rewrite El.
Qed.

(** Once the commitments are in, the challenge and the shares, added in any
    order, give a signature that solves the Schnorr equation under the secret
    the signers' polynomial shares. *)
Lemma round_signature order m ss' ss'' cs nz :
  permutes order -> ss'' ≡ₚ ss' ->
  Forall2 (fun s s' => exists d e, s' = with_nonces s d e) ss ss' ->
  Forall (session gp f cs nz) ss' -> keys cs ≡ₚ ids_of ss -> Forall (committed cs nz) (ids_of ss) ->
  exists ag r c a' z rr, Challenge order (set_commits agg cs) m = Ret (ag, r, c) /\
    add_shares ag {| tM := m; Commits := cs; Xs := xs_of ss; tR := r; tC := c |} ss'' = Ret a' /\
    Aggregate a' = Ret (r ++ scalarBytes z) /\
    encodes r rr /\ cong fl z (rr + hashToScalar [r; gp; m] * peval f 0).
Proof.
  intros Horder Hperm H2 Hses Hk Hcm.
  assert (Hids' : ids_of ss' = ids_of ss) by (by apply with_nonces_same).
  assert (Hx' : map fsX ss' = map fsX ss) by (by apply with_nonces_same).
  assert (Hlen : length ss'' = length ss) by (by rewrite Hperm, <- (length_map fsID ss'), Hids', length_map).
  assert (Hne : ids_of ss <> []) by (by destruct ss).
  assert (Hcs0 : bool_decide (cs = ∅) = false).
  { apply bool_decide_eq_false_2. intros ->. unfold keys in Hk. rewrite map_to_list_empty in Hk.
    by apply Permutation_nil in Hk. }
  assert (Hszc : size cs = length ss) by (by rewrite size_keys, Hk, length_map).
  assert (Hszp : size (agPubs agg) = length ss) by (by apply (agg_pubs_size gp f)).
  destruct (ComputeChallenge_ok order gp m cs nz (ids_of ss) Horder Hk Hne Hcm) as (r & Ech & Hr).
  set (c := scalarBytes (hashToScalar [r; gp; m])) in *.
  destruct (encodes_decode _ _ Hr) as (R & ER & HR).
  set (tr := {| tM := m; Commits := cs; Xs := xs_of ss; tR := r; tC := c |}).
  set (ag := set_challenge (set_commits agg cs) R (leToInt c mod fl) m).
  pose proof (participant_perm tr cs eq_refl eq_refl Hk) as Hpx.
  assert (Hndx : NoDup (participantXs tr)) by (by rewrite Hpx).
  assert (Hixx : Forall index_ok (participantXs tr)) by (rewrite Hpx; apply Hindex).
  assert (Hkeyed' : Forall (keyed gp f) ss') by (eapply Forall_impl; [exact Hses|]; intros s; apply s_keyed).
  destruct (add_shares_ok gp f nz tr R ag ss'') as (a' & Eshares & EagR & Epubs & Esz & Esum).
  { split; try done. cbn [agXs agPubs ag set_challenge]. change (agPubs (set_commits agg cs)) with (agPubs agg).
    rewrite Hszp, size_keys. change (agXs (set_commits agg cs)) with (fill fsX ss ∅).
    by rewrite (keys_fill fsX ss Hids), length_map. }
  { rewrite Hperm. by apply (round_signing tr cs nz ag ss'). }
  { by rewrite Hperm, Hids'. }
  { apply Forall_forall. intros s _. by apply lookup_empty. }
  exists ag, r, c, a', (share_sum a' mod fl), (nonce_sum (transcript_of m cs ∅) gp nz (ids_of ss)).
  split; [|split; [exact Eshares|split; [|split; [done|]]]].
  - unfold Challenge. cbn [agCommits set_commits agPub agPubs]. rewrite Hcs0, Hszc, Hszp, Nat.eqb_refl.
    cbn [orb negb guard]. change (agPub agg) with gp. rewrite Ech. cbn [mbind outcome_bind]. by rewrite ER.
  - unfold Aggregate. rewrite Esz, Epubs. change (agPubs ag) with (agPubs agg). rewrite Hszp, Hlen.
    change (size (agShares ag)) with 0%nat. rewrite Nat.add_0_r, Nat.eqb_refl. cbn [negb guard].
    fold (share_sum a'). rewrite EagR. cbn [mbind outcome_bind]. by rewrite (rep_encodes R _ r HR Hr).
  - rewrite cong_mod by discriminate. rewrite Esum. change (share_sum ag) with 0. rewrite Z.add_0_r.
    assert (Eperm : zsum (map (share_of gp nz tr) ss'') = zsum (map (share_of gp nz tr) ss'))
      by (apply zsum_perm; by rewrite Hperm).
    rewrite Eperm, (shares_interpolate gp f nz tr ss' (ids_of ss) (participantXs tr)); try done.
    + change (tC tr) with c. unfold c. rewrite leToInt_scalar, !cong_mod by discriminate.
      change (nonce_sum tr gp nz) with (nonce_sum (transcript_of m cs ∅) gp nz). done.
    + rewrite Hpx. by rewrite length_map.
    + by rewrite Hx'.
Qed.

(** The in-process round answers such a signature. *)
Lemma FrostRound_ok order m draw : permutes order -> (2 <= length ss)%nat ->
  all_drawn draw 0 (2 * length ss) ->
  exists ss' r z rr, FrostRound order gp ss m draw = Ret (ss', r ++ scalarBytes z) /\
    encodes r rr /\ cong fl z (rr + hashToScalar [r; gp; m] * peval f 0) /\
    Forall (fun s => used s = true) ss'.
Proof.
  intros Horder Htwo Hdraw. destruct (round_commits draw Hdraw) as (ss' & cs & nz & Ec & H2 & Hses & Hk & Hcm & Ea).
  destruct (round_signature order m ss' ss' cs nz Horder (Permutation_refl _) H2 Hses Hk Hcm)
    as (ag & r & c & a' & z & rr & Ech & Esh & Eag & Hr & Hz).
  exists ss', r, z, rr. split; [|split; [done|split; [done|]]].
  - unfold FrostRound. rewrite (proj2 (Z.ltb_ge (zlen ss) 2)) by (unfold zlen; lia).
    cbn [guard]. rewrite Ec. cbn [mbind outcome_bind]. fold agg. rewrite (Ea _ Horder). cbn [mbind outcome_bind].
    rewrite Ech. cbn [mbind outcome_bind]. rewrite Esh. cbn [mbind outcome_bind]. by rewrite Eag.
  - apply Forall_forall. intros s' Hs'. destruct (list_elem_of_lookup_1 _ _ Hs') as [i Hi].
    by destruct (Forall2_lookup_r _ _ _ _ _ H2 Hi) as (s & _ & d & e & ->).
Qed.

End round.

(** ** Dealer mode *)

Lemma random_scalars_ok draw i n cs : random_scalars draw i n = Ret cs ->
  length cs = n /\ Forall (fun c => 0 <= c < fl) cs.
Proof.
  revert i cs. induction n as [|n IH]; intros i cs; cbn [random_scalars]; [by intros [= <-]|].
  intros E. inv_outcome. destruct (IH _ _ H0) as [Hl HF]. cbn. rewrite Hl. split; [done|].
  constructor; [by eapply random_range|done].
Qed.

Lemma random_scalars_drawn draw i n : all_drawn draw i n -> exists cs, random_scalars draw i n = Ret cs.
Proof.
  revert i. induction n as [|n IH]; intros i Hd; cbn [random_scalars]; [by eexists|].
  destruct (Hd i) as [b ->]; [lia|]. cbn [randomScalar mbind outcome_bind].
  destruct (IH (S i)) as [cs ->]; [|by eexists]. intros j Hj. apply Hd. lia.
Qed.

Lemma eval_loop_nonneg m coeff s x : 0 < m -> 0 <= s -> 0 <= eval_loop m coeff s x.
Proof.
  intros Hm Hs. unfold eval_loop. generalize (s, x) as acc, (Hs : 0 <= (s, x).1). clear s Hs.
  induction coeff as [|c coeff IH]; intros [a xp] Ha; cbn [foldl]; [done|].
  apply IH. cbn [eval_step fst]. by apply Z.mod_pos_bound.
Qed.

Definition indexed (xs : list Z) (ss : list FrostSigner) : Prop :=
  map fsX ss = xs /\ Forall (fun s => fsID s = member_id (fsX s)) ss /\ Forall (fun s => used s = false) ss.

Lemma split_signers_ok gp vk coeff a xs : 0 <= a -> Forall index_ok xs ->
  exists ss, split_signers gp vk coeff a xs = Ret ss /\ indexed xs ss /\
    Forall (keyed gp (a :: coeff)) ss /\
    Forall (fun s => VK s = vk /\ Share s = evalPolyL coeff a (fsX s)) ss.
Proof.
  intros Ha. induction 1 as [|x xs Hx _ (ss & E & (H1 & H2 & H3) & Hk & Hv)]; cbn [split_signers]; [by exists []|].
  assert (Hs : 0 <= evalPolyL coeff a x) by (by apply eval_loop_nonneg).
  destruct (encode_mult _ Hs) as (b & -> & Hb). cbn [mbind outcome_bind]. rewrite E.
  eexists. split; [done|]. split.
  - split; [cbn; by rewrite H1|]. split; by constructor.
  - split; [|by constructor]. constructor; [|done]. split; try done. cbn. by apply eval_loop_cong.
Qed.

Lemma indices_ok n : n < 2 ^ 63 -> Forall index_ok (indices n) /\ NoDup (indices n).
Proof.
  intros Hn. unfold indices. split.
  - apply Forall_map, Forall_forall. intros k Hk%elem_of_seq. unfold index_ok. lia.
  - apply NoDup_fmap; [apply _|apply NoDup_seq].
Qed.

Lemma clamp_byte b : Z.testbit (byte_Z (or_byte 64 (and_byte 63 b))) 6 = true /\
  Z.testbit (byte_Z (or_byte 64 (and_byte 63 b))) 7 = false /\
  64 <= byte_Z (or_byte 64 (and_byte 63 b)) < 128.
Proof. destruct b; vm_compute; intuition discriminate. Qed.

Lemma take_alter_lt {A} (g : A -> A) i n l : (i < n)%nat -> take n (alter g i l) = alter g i (take n l).
Proof.
  revert i n. induction l as [|x l IH]; intros [|i] [|n] Hi; try (done || lia).
  change (x :: take n (alter g i l) = x :: alter g i (take n l)). by rewrite IH by lia.
Qed.

(** A clamped scalar exceeds the order of the group. *)
Lemma clamp_range h : length h = 64%nat -> 2 ^ 254 <= clamp_digest h < 2 ^ 255.
Proof.
  intros Hl. unfold clamp_digest. rewrite !take_alter_lt by lia.
  assert (Hu : length (alter (and_byte 248) 0%nat (take 32 h)) = 32%nat) by (rewrite length_alter, length_take; lia).
  revert Hu. generalize (alter (and_byte 248) 0%nat (take 32 h)) as u. intros u Hu.
  destruct (decide (u = [])) as [->|Hne]; [done|].
  destruct (exists_last Hne) as (l & b & ->). rewrite length_app in Hu. cbn in Hu.
  assert (Hl31 : length l = 31%nat) by lia.
  rewrite (proj2 (top_read l b Hl31)), (proj2 (top_read l _ Hl31)).
  unfold leToInt. rewrite rev_unit, be_Z_cons. pose proof (be_Z_range (rev l)) as Hr.
  unfold zlen in *. rewrite length_rev, Hl31 in *. destruct (clamp_byte b) as (_ & _ & Hb).
  change (256 ^ Z.of_nat 31) with (2 ^ 248) in *. lia.
Qed.

Section dealer.
Context `{HL : HashLaws}.

Lemma ed25519Scalar_range seed : 2 ^ 254 <= ed25519Scalar seed < 2 ^ 255.
Proof. apply clamp_range, sha512_length. Qed.

(** What dealer mode answers, given its coefficients: signers that share the
    seed's scalar on a polynomial with [t] coefficients. *)
Record dealt (seed : bytes) (n : Z) (coeff : list Z) (ss : list FrostSigner) (gp : bytes) : Prop := {
  dl_indexed : indexed (indices n) ss;
  dl_keyed : Forall (keyed gp (ed25519Scalar seed :: coeff)) ss;
  dl_vk : Forall (fun s => VK s = commitments (ed25519Scalar seed :: coeff) /\
                           Share s = evalPolyL coeff (ed25519Scalar seed) (fsX s)) ss;
  dl_pub : encodes gp (ed25519Scalar seed);
  dl_range : Forall (fun c => 0 <= c) (ed25519Scalar seed :: coeff);
}.

Lemma FrostSplit_coeff seed n t draw coeff :
  1 <= t <= n -> n < 2 ^ 63 -> random_scalars draw 0 (Z.to_nat (t - 1)) = Ret coeff ->
  exists ss gp, FrostSplit seed n t draw = Ret (ss, gp) /\ dealt seed n coeff ss gp.
Proof.
  intros Ht Hn Ec. pose proof (ed25519Scalar_range seed) as Ha. unfold FrostSplit.
  destruct (random_scalars_ok _ _ _ _ Ec) as [_ Hc].
  destruct (encode_mult (ed25519Scalar seed)) as (gp & Eg & Hg); [lia|].
  destruct (split_signers_ok gp (commitments (ed25519Scalar seed :: coeff)) coeff (ed25519Scalar seed) (indices n))
    as (ss & Es & Hi & Hk & Hv); [lia|by apply indices_ok|].
  exists ss, gp. split.
  - replace ((t >? n) || (t <? 1)) with false by (symmetry; apply orb_false_iff; lia).
    cbn [guard]. rewrite Ec. cbn [mbind outcome_bind]. rewrite Eg. cbn [mbind outcome_bind]. by rewrite Es.
  - split; try done. constructor; [lia|]. eapply Forall_impl; [exact Hc|]. intros c []. done.
Qed.

Lemma FrostSplit_inv seed n t draw ss gp :
  in_int64 n -> FrostSplit seed n t draw = Ret (ss, gp) ->
  1 <= t <= n /\ exists coeff, dealt seed n coeff ss gp /\ zlen coeff = t - 1.
Proof.
  intros Hn E. pose proof E as E'. unfold FrostSplit in E'. apply guard_ret in E' as [Ht E'].
  apply orb_false_iff in Ht as [Ht1 Ht2]. apply bind_ret in E' as (coeff & Ec & _).
  destruct (FrostSplit_coeff seed n t draw coeff) as (ss' & gp' & E'' & Hd); [lia|apply Hn|done|].
  rewrite E in E''. injection E'' as <- <-. split; [lia|]. exists coeff. split; [done|].
  apply random_scalars_ok in Ec as [Hl _]. unfold zlen. lia.
Qed.

End dealer.

(** Signers with different ids have different indices. *)
Lemma indexed_distinct xs ss us :
  indexed xs ss -> us ⊆ ss -> NoDup (ids_of us) -> NoDup (map fsX us).
Proof.
  intros (_ & Hid & _) Hsub Hnd. assert (E : ids_of us = map member_id (map fsX us)).
  { rewrite map_map. apply map_ext_in. intros s Hs%list_elem_of_In%Hsub. rewrite Forall_forall in Hid. auto. }
  rewrite E in Hnd. by apply NoDup_fmap_1 in Hnd.
Qed.

Lemma Forall_sub {A} (P : A -> Prop) l k : k ⊆ l -> Forall P l -> Forall P k.
Proof. rewrite !Forall_forall. intros Hs HP x Hx. by apply HP, Hs. Qed.

(** ** Feldman's check *)

Lemma commitments_rep cs : Forall (fun c => 0 <= c) cs -> Forall2 rep (commitments cs) cs.
Proof. induction 1 as [|c cs Hc _ IH]; constructor; [by apply rep_mul_base|done]. Qed.

Lemma verify_fold x pts cs P r xp :
  0 <= x -> 0 <= xp -> rep P r -> Forall2 rep pts cs ->
  let res := foldl (verify_step x) (P, xp) pts in rep res.1 (r + xp * peval cs x).
Proof.
  intros Hx Hxp HP H2. revert P r xp Hxp HP. induction H2 as [|Q c pts cs HQ _ IH]; intros P r xp Hxp HP;
    cbn [foldl peval].
  { cbn [fst]. by rewrite Z.mul_0_r, Z.add_0_r. }
  unfold verify_step at 2. cbn [fst snd].
  eapply rep_cong; [|apply IH; [lia|]].
  2: { apply rep_add; [exact HP|]. by apply rep_mul. }
  cong_ring.
Qed.

Lemma ShareVerifies_spec pts cs x share :
  0 <= x -> 0 <= share -> Forall2 rep pts cs ->
  exists b, ShareVerifies pts x share = Ret b /\ (b = true <-> cong fl share (peval cs x)).
Proof.
  intros Hx Hs H2. unfold ShareVerifies.
  pose proof (verify_fold x pts cs identity 0 1 Hx ltac:(lia) rep_identity H2) as HP.
  rewrite Z.add_0_l, Z.mul_1_l in HP.
  destruct (encodes_eqb _ _ _ _ HP (rep_mul_base share Hs)) as (u & v & -> & -> & Huv).
  cbn [mbind outcome_bind]. eexists. split; [done|]. rewrite Huv. split; by intros ->.
Qed.

(** ** Published commitments *)

Lemma hex_points_parse pts cs : Forall2 rep pts cs ->
  exists hs pts', hex_points pts = Ret hs /\ parsePoints hs = Ret pts' /\ Forall2 rep pts' cs.
Proof.
  induction 1 as [|P c pts cs HP _ (hs & pts' & E1 & E2 & H2)]; cbn [hex_points]; [by exists [], []|].
  destruct (encode_rep P c HP) as (b & -> & Hb). rewrite E1. cbn [mbind outcome_bind].
  destruct (encodes_decode _ _ Hb) as (Q & EQ & HQ).
  eexists _, (Q :: pts'). split; [done|]. cbn [parsePoints].
  rewrite to_of_bytes, hex_decode_encode. cbn [of_option mbind outcome_bind]. rewrite EQ, E2. split; [done|].
  by constructor.
Qed.

(** ** Member ids *)

Lemma digits_acc s acc : forallb is_digit s = true -> 0 <= acc ->
  acc <= foldl (fun a d => a * 10 + digit_val d) acc s.
Proof.
  revert acc. induction s as [|b s IH]; cbn [forallb foldl]; intros acc; [lia|].
  intros [Hb Hs]%andb_true_iff Ha. assert (Hd : 0 <= digit_val b).
  { clear - Hb. unfold is_digit in Hb. unfold digit_val. destruct b; first [discriminate Hb|vm_compute; discriminate]. }
  specialize (IH (acc * 10 + digit_val b) Hs ltac:(lia)). lia.
Qed.

Lemma digits_val_ok s acc : forallb is_digit s = true -> 0 <= acc ->
  foldl (fun a d => a * 10 + digit_val d) acc s < 2 ^ 63 ->
  digits_val acc s = Some (foldl (fun a d => a * 10 + digit_val d) acc s).
Proof.
  revert acc. induction s as [|b s IH]; cbn [forallb foldl digits_val]; intros acc; [done|].
  intros [Hb Hs]%andb_true_iff Ha Hlt. rewrite Hb.
  assert (Hd : 0 <= digit_val b).
  { pose proof (digits_acc [b] 0) as H0. cbn in H0. rewrite Hb in H0. specialize (H0 eq_refl). lia. }
  pose proof (digits_acc s (acc * 10 + digit_val b) Hs ltac:(lia)).
  rewrite wrap64_id by (split; lia). apply IH; [done|lia|done].
Qed.

Lemma memberX_id x : 0 <= x < 2 ^ 63 -> memberX (member_id x) = x.
Proof.
  intros Hx. unfold memberX, member_id, dec_Z. rewrite (proj2 (Z.ltb_ge x 0)) by lia.
  destruct (nat_digits_spec x) as (d & r & -> & Hd & Hv & _); [lia|].
  rewrite to_bytes_app, to_of_bytes. change (to_bytes "M" ++ d :: r) with (ch "M" :: d :: r). cbn iota.
  rewrite bool_decide_eq_true_2 by done.
  rewrite (digits_val_ok (d :: r) 0 Hd ltac:(lia)); unfold digits_Z in Hv; rewrite Hv; [done|lia].
Qed.
