(* ===== verification/FrostSpec.v ===== *)
(** * What the threshold signatures promise

    [Ed25519Std] states what RFC 8032 says of a verifier and of a key pair, over
    the group of Edwards.v: the engine's standard library must satisfy it for
    its threshold signatures to be accepted.  [Rfc8032] is an instance of it.

    Theorems: any [t] dealer-mode signers make a signature the ordinary
    verifier accepts under the ordinary public key; the aggregator accepts
    exactly the right partial signature; Feldman's check accepts exactly the
    shares on the polynomial; a 1-of-n split cannot be loaded back. *)
From S2P Require Import Prelude Crypto Encoding Modular Edwards EdwardsTheory EdwardsCodec Frost FrostTheory.

(** ** The standard *)

Class Ed25519Std `{H : Hashes} `{E : Ed25519} : Prop := {
  std_verify pub a r rr m z :
    encodes pub a -> encodes r rr -> 0 <= z < fl ->
    cong fl z (rr + hashToScalar [r; pub; m] * a) ->
    ed_verify pub m (r ++ fillLE 32 z) = true;
  std_public seed : length seed = SeedSize -> encodes (pub_of (ed_keygen seed)) (ed25519Scalar seed);
}.

(** ** RFC 8032, over the model's group *)

Module Rfc8032.

Section rfc.
Context `{HL : HashLaws}.

Definition ret_or {A} (d : A) (o : outcome A) : A := match o with Ret a => a | _ => d end.
Definition mult_bytes (k : Z) : bytes := ret_or [] (encode (scalarMult k basePoint)).

Definition keygen (seed : bytes) : bytes := seed ++ mult_bytes (ed25519Scalar seed).

Definition sign (priv m : bytes) : bytes :=
  let seed := take 32 priv in
  let r := leToInt (sha512 (drop 32 (sha512 seed) ++ m)) mod fl in
  let rb := mult_bytes r in
  rb ++ scalarBytes (r + hashToScalar [rb; pub_of priv; m] * ed25519Scalar seed).

Definition verify (pub m sig : bytes) : bool :=
  match decodePoint pub, decodePoint (take 32 sig) with
  | Ret A, Ret R =>
      let s := leToInt (drop 32 sig) in
      (length sig =? 64)%nat && (s <? fl) &&
      match encode (scalarMult s basePoint),
            encode (pointAdd R (scalarMult (hashToScalar [take 32 sig; pub; m]) A)) with
      | Ret x, Ret y => bytes_equal x y
      | _, _ => false
      end
  | _, _ => false
  end.

Lemma mult_encodes k : 0 <= k -> encodes (mult_bytes k) k.
Proof. intros Hk. destruct (encode_mult k Hk) as (b & Eb & Hb). unfold mult_bytes. by rewrite Eb. Qed.

Lemma scalar_nonneg seed : 0 <= ed25519Scalar seed.
Proof. pose proof (ed25519Scalar_range seed). lia. Qed.

Lemma keygen_public seed : length seed = SeedSize ->
  pub_of (keygen seed) = mult_bytes (ed25519Scalar seed) /\ encodes (pub_of (keygen seed)) (ed25519Scalar seed).
Proof.
  intros Hl. pose proof (mult_encodes (ed25519Scalar seed) (scalar_nonneg seed)) as Hm.
  assert (E : pub_of (keygen seed) = mult_bytes (ed25519Scalar seed)); [|by rewrite E].
  unfold pub_of, keygen. rewrite drop_app_length' by done.
  rewrite take_app_length' by (by rewrite (encodes_length _ _ Hm)). done.
Qed.

Lemma verify_true pub a r rr m z :
  encodes pub a -> encodes r rr -> 0 <= z < fl ->
  cong fl z (rr + hashToScalar [r; pub; m] * a) -> verify pub m (r ++ fillLE 32 z) = true.
Proof.
  intros Hp Hr Hz Hc. unfold verify.
  rewrite take_app_length', drop_app_length' by (by apply encodes_length in Hr).
  destruct (encodes_decode _ _ Hp) as (A & -> & HA). destruct (encodes_decode _ _ Hr) as (R & -> & HR).
  rewrite leToInt_fillLE, Z.mod_small by (change (256 ^ Z.of_nat 32) with (2 ^ 256); unfold fl in Hz; lia).
  rewrite length_app, fillLE_length, (encodes_length _ _ Hr), (proj2 (Z.ltb_lt z fl)) by apply Hz.
  destruct (encodes_eqb (scalarMult z basePoint) (pointAdd R (scalarMult (hashToScalar [r; pub; m]) A)) z
    (rr + hashToScalar [r; pub; m] * a)) as (x & y & -> & -> & Hxy).
  - apply rep_mul_base, Hz.
  - apply rep_add; [done|]. apply rep_mul; [apply hashed_range|done].
  - by apply Hxy.
Qed.

#[global] Instance ed25519 : Ed25519 := {| ed_keygen := keygen; ed_sign := sign; ed_verify := verify |}.

#[global] Instance std : Ed25519Std.
Proof. split; [apply verify_true|apply keygen_public]. Qed.

#[global] Instance laws : Ed25519Laws.
Proof.
  split; cbn.
  - intros seed Hs. unfold keygen. rewrite length_app, Hs.
    by rewrite (encodes_length _ _ (mult_encodes _ (scalar_nonneg seed))).
  - intros priv m (seed & Hs & ->). cbn. unfold sign.
    assert (Es : take 32 (keygen seed) = seed) by (unfold keygen; by apply take_app_length').
    rewrite Es. set (r := leToInt _ mod fl).
    assert (Hr : encodes (mult_bytes r) r) by (apply mult_encodes, Z.mod_pos_bound, fl_pos).
    unfold scalarBytes. apply (verify_true _ (ed25519Scalar seed) _ r); [by apply keygen_public|done| |].
    + apply Z.mod_pos_bound, fl_pos.
    + by rewrite cong_mod by discriminate.
  - intros pub m sig. unfold verify. destruct (decodePoint pub); [|done..].
    destruct (decodePoint (take 32 sig)); [|done..].
    intros [[E _]%andb_true_iff _]%andb_true_iff. by apply Nat.eqb_eq in E.
Qed.

End rfc.

End Rfc8032.

(** ** Share files *)

(** The share file [to shard] writes for a signer. *)
Definition share_file (s : FrostSigner) : outcome FrostShareFile :=
  vk ← hex_points (VK s);
  Ret {| ffID := fsID s; ffX := fsX s; ffY := Some (Share s); ffGroupPub := GroupPub s;
         ffPubShare := PubShare s; ffVK := vk; ffGlobalVK := [] |}.

Section dealer.
Context `{HL : HashLaws} (seed : bytes) (n t : Z) (draw : nat -> option bytes).
Context (ss : list FrostSigner) (gp : bytes).

(** C4. FrostSplit and FrostRound (the trusted-dealer mode): any [t] or more
    (at least two) of the signers dealer mode made from a seed, in any order and
    under any order of map iteration, complete the two-round flow, and the
    64 bytes they obtain are a signature that the standard Ed25519 verifier
    accepts for the message under the seed's ordinary public key; every signer
    that took part is used up. *)
Theorem threshold_signature_verifies `{E : Ed25519} `{S : !Ed25519Std} us order m draw' :
  in_int64 n -> length seed = SeedSize -> FrostSplit seed n t draw = Ret (ss, gp) ->
  us ⊆ ss -> NoDup (map fsID us) -> t <= zlen us -> 2 <= zlen us ->
  permutes order -> all_drawn draw' 0 (2 * length us) ->
  exists us' sig, FrostRound order gp us m draw' = Ret (us', sig) /\
    ed25519_Verify (pub_of (ed_keygen seed)) m sig = Ret true /\
    Forall (fun s => used s = true) us'.
Proof.
  intros Hn Hl Es Hsub Hnd Ht H2 Ho Hd.
  apply FrostSplit_inv in Es as (Htn & coeff & [Hi Hk _ Hg _] & Hc); [|done].
  destruct (FrostRound_ok gp (ed25519Scalar seed :: coeff) us) with (order := order) (m := m) (draw := draw')
    as (us' & r & z & rr & ER & Hr & Hz & Hu); try done.
  - by eapply indexed_distinct.
  - by eapply Forall_sub.
  - destruct Hi as (_ & _ & Hf). by eapply Forall_sub.
  - intros ->. unfold zlen in H2. cbn in H2. lia.
  - unfold zlen in *. cbn [length]. lia.
  - unfold zlen in H2. lia.
  - exists us', (r ++ scalarBytes z). split; [done|]. split; [|done].
    assert (Eg : pub_of (ed_keygen seed) = gp) by (eapply encodes_det; [|by apply std_public|exact Hg]; done).
    rewrite Eg, Verify_len by (by apply encodes_length in Hg). f_equal.
    apply (std_verify gp (ed25519Scalar seed) r rr); [done..|apply Z.mod_pos_bound, fl_pos|].
    rewrite cong_mod, Hz by discriminate. cbn [peval]. rewrite Z.mul_0_l, Z.add_0_r. done.
Qed.

(** ShareVerifies (Feldman's check) on a dealer's commitments accepts a
    share at a signer's index exactly when it is that signer's share modulo the
    group order: every other value is rejected. *)
Theorem ShareVerifies_exact s y :
  in_int64 n -> FrostSplit seed n t draw = Ret (ss, gp) -> s ∈ ss -> 0 <= y ->
  ShareVerifies (VK s) (fsX s) y = Ret (bool_decide (y mod fl = Share s mod fl)).
Proof.
  intros Hn Es Hs Hy. apply FrostSplit_inv in Es as (Htn & coeff & [Hi Hk Hv Hg Hr] & Hc); [|done].
  rewrite Forall_forall in Hk, Hv. destruct (Hv s Hs) as [-> _].
  pose proof (k_index _ _ _ (Hk s Hs)) as [Hx _].
  destruct (ShareVerifies_spec _ _ (fsX s) y Hx Hy (commitments_rep _ Hr)) as (b & -> & Hb). f_equal.
  rewrite <- (k_share _ _ _ (Hk s Hs)), (cong_iff fl) in Hb by discriminate.
  destruct b; symmetry; [by apply bool_decide_eq_true_2, Hb|].
  apply bool_decide_eq_false_2. intros E. by apply Hb in E.
Qed.

(** Share files of dealer mode, written and loaded back: for a threshold
    of two or more, [Signer] accepts the file of every signer, checks it
    against its own commitments, and gives back its id, index, share and keys. *)
Theorem share_file_loads s :
  in_int64 n -> FrostSplit seed n t draw = Ret (ss, gp) -> 2 <= t -> s ∈ ss ->
  exists f s', share_file s = Ret f /\ Signer f = Ret s' /\ fsID s' = fsID s /\ fsX s' = fsX s /\
    Share s' = Share s /\ GroupPub s' = gp /\ PubShare s' = PubShare s /\ used s' = false.
Proof.
  intros Hn Es Ht Hs. apply FrostSplit_inv in Es as (Htn & coeff & [Hi Hk Hv Hg Hr] & Hc); [|done].
  rewrite Forall_forall in Hk, Hv. destruct (Hv s Hs) as [EV ES]. specialize (Hk s Hs).
  destruct (hex_points_parse _ _ (commitments_rep _ Hr)) as (hs & pts & E1 & E2 & Hp).
  unfold share_file. rewrite EV, E1. eexists _, (new_signer (fsID s) (fsX s) (Share s) (GroupPub s) (PubShare s) pts).
  split; [done|]. split; [|by rewrite <- (k_pub _ _ _ Hk)].
  assert (Hrange : 0 <= Share s < fl).
  { rewrite ES. destruct (exists_last (l := coeff)) as (l & c & ->); [intros ->; unfold zlen in Hc; cbn in Hc; lia|].
    unfold evalPolyL, eval_loop. rewrite foldl_app. cbn [foldl]. unfold eval_step at 1.
    destruct (foldl _ _ l) as [u v]. cbn [fst]. by apply Z.mod_pos_bound. }
  assert (Hlens : length (GroupPub s) = 32%nat /\ length (PubShare s) = 32%nat).
  { rewrite (k_pub _ _ _ Hk). split; [by eapply encodes_length|]. eapply encodes_length, k_pubshare, Hk. }
  unfold Signer. cbn [ffY ffGroupPub ffPubShare ffVK ffGlobalVK ffID ffX].
  rewrite (proj1 Hlens), (proj2 Hlens).
  replace ((Share s >=? fl) || (Share s <? 0)) with false by (symmetry; apply orb_false_iff; lia).
  cbn [guard PublicKeySize Nat.eqb negb orb].
  destruct hs as [|h hs]; [by inversion E2; subst; inversion Hp|].
  rewrite E2. cbn [mbind outcome_bind].
  destruct (ShareVerifies_spec pts _ (fsX s) (Share s) (proj1 (k_index _ _ _ Hk)) (proj1 Hrange) Hp) as (b & -> & Hb).
  rewrite (proj2 Hb) by apply Hk. done.
Qed.

(** A split with threshold one (which FrostSplit allows) hands every
    signer the clamped scalar itself, which exceeds the group order: [Signer]
    refuses the share file of every one of them. *)
Theorem share_file_threshold_one s f :
  in_int64 n -> FrostSplit seed n t draw = Ret (ss, gp) -> t = 1 -> s ∈ ss ->
  share_file s = Ret f -> Signer f = Err "frost: bad share value".
Proof.
  intros Hn Es -> Hs Ef. apply FrostSplit_inv in Es as (Htn & coeff & [Hi Hk Hv Hg Hr] & Hc); [|done].
  assert (coeff = []) as -> by (destruct coeff; [done|unfold zlen in Hc; cbn in Hc; lia]).
  rewrite Forall_forall in Hv. destruct (Hv s Hs) as [_ ES].
  unfold share_file in Ef. apply bind_ret in Ef as (vk & _ & [= <-]).
  unfold Signer. cbn [ffY]. rewrite ES. unfold evalPolyL, eval_loop. cbn [foldl fst].
  pose proof (ed25519Scalar_range seed). replace (ed25519Scalar seed >=? fl) with true; [done|].
  symmetry. apply Z.geb_le. unfold fl. lia.
Qed.

End dealer.

(** AddShare (the aggregator's cheater detection): once the commitments,
    indices and challenge of a round are in, a 32-byte answer of a signer is
    accepted exactly when it is, modulo the group order, the partial signature
    that SignShare computes from the signer's share and nonces. *)
Theorem AddShare_exact `{Hashes} gp f nz tr R a s zb :
  collecting gp tr R a -> signing gp f nz tr a s -> length zb = 32%nat ->
  exists z, SignShare s tr = Ret z /\
    (is_ret (AddShare a (fsID s) zb) = true <-> cong fl (leToInt zb) (leToInt z)).
Proof.
  intros Hco Hsg Hl. destruct (SignShare_ok gp f nz tr a s Hsg) as (z & E & Hz).
  exists (scalarBytes z). split; [done|]. rewrite leToInt_scalar, (cong_mod fl z), Hz by discriminate.
  destruct Hsg as [[Hk Hd He (D & Eb & Hc & HD & HE)] (Ai & HA & HAi) Hx [El Hlam]].
  destruct Hco as [Hp Hcs HR Hcc Hm Hxs Hsz].
  destruct (AddShare_ok a (fsID s) zb R D Eb (nz (fsID s)).1 (nz (fsID s)).2 Ai (Share s) (lam_of tr (fsX s)) Hl) as [Hyes Hno]; try done.
  - rewrite Hcc. apply Z.mod_pos_bound, fl_pos.
  - by rewrite Hcs.
  - rewrite Hxs, Hx, Hcs. exact El.
  - rewrite Hcc, Hp, Hcs, Hm in Hyes, Hno. split.
    + intros Hret. destruct (decide (leToInt zb mod fl = share_of gp nz tr s mod fl)) as [Heq|Hne].
      * by apply cong_iff.
      * destruct Hno as [err Eerr]; [by rewrite (cong_iff fl) by discriminate|]. by rewrite Eerr in Hret.
    + intros Hcong. by rewrite (Hyes Hcong).
Qed.

(** ** At concrete inputs *)

Definition draw5 (i : nat) : option bytes := Some (replicate 32 Byte.x05).

Lemma draw5_all i k : all_drawn draw5 i k.
Proof. intros j _. by eexists. Qed.

(** A split of a concrete seed, three signers. *)
Lemma split_example t : 1 <= t <= 3 -> exists ss gp,
  FrostSplit (Toy.seed 7) 3 t draw5 = Ret (ss, gp) /\ map fsID ss = ["M1"; "M2"; "M3"]%string.
Proof.
  intros Ht. destruct (random_scalars_drawn draw5 0 (Z.to_nat (t - 1)) (draw5_all _ _)) as [coeff Ec].
  destruct (FrostSplit_coeff (Toy.seed 7) 3 t draw5 coeff) as (ss & gp & E & [(Hx & Hi & _) _ _ _ _]); [lia|lia|done|].
  exists ss, gp. split; [done|]. transitivity (map member_id (map fsX ss)); [|by rewrite Hx].
  rewrite map_map. apply map_ext_in. intros s Hs%list_elem_of_In. rewrite Forall_forall in Hi. auto.
Qed.

Lemma split_first t : 1 <= t <= 3 -> exists ss gp s,
  FrostSplit (Toy.seed 7) 3 t draw5 = Ret (ss, gp) /\ s ∈ ss.
Proof.
  intros Ht. destruct (split_example t Ht) as (ss & gp & E & Hi). exists ss, gp.
  destruct ss as [|s ss]; [done|]. exists s. split; [done|left].
Qed.

Lemma permutes_id : permutes (fun l => l).
Proof. intros l; reflexivity. Qed.
Lemma permutes_rev : permutes (@rev string).
Proof. intros l. symmetry. apply Permutation_rev. Qed.

Lemma threshold_signature_verifies_witness : exists ss gp us' sig,
  FrostSplit (Toy.seed 7) 3 2 draw5 = Ret (ss, gp) /\
  FrostRound (@rev string) gp (drop 1 ss) [Byte.x2a] draw5 = Ret (us', sig) /\
  @ed25519_Verify Rfc8032.ed25519 (pub_of (@ed_keygen Rfc8032.ed25519 (Toy.seed 7))) [Byte.x2a] sig = Ret true.
Proof.
  destruct (split_example 2 ltac:(lia)) as (ss & gp & E & Hi).
  destruct ss as [|s1 [|s2 [|s3 [|]]]]; [discriminate Hi..| |discriminate Hi].
  injection Hi as H1 H2 H3.
  destruct (threshold_signature_verifies (E := Rfc8032.ed25519) (S := Rfc8032.std)
    (Toy.seed 7) 3 2 draw5 [s1; s2; s3] gp [s2; s3] (@rev string) [Byte.x2a] draw5) as (us' & sig & ER & EV & _).
  - split; lia.
  - reflexivity.
  - exact E.
  - intros x Hx. by right.
  - cbn [map]. rewrite H2, H3. apply (bool_decide_unpack (NoDup ["M2"; "M3"]%string)). vm_compute. exact I.
  - vm_compute. discriminate.
  - vm_compute. discriminate.
  - apply permutes_rev.
  - apply draw5_all.
  - exists [s1; s2; s3], gp, us', sig. split; [exact E|]. split; [exact ER|exact EV].
Defined.

Lemma ShareVerifies_exact_witness : exists ss gp s,
  FrostSplit (Toy.seed 7) 3 2 draw5 = Ret (ss, gp) /\ s ∈ ss /\
  ShareVerifies (VK s) (fsX s) (Share s mod fl + 1) = Ret false.
Proof.
  destruct (split_first 2 ltac:(lia)) as (ss & gp & s & E & Hs). exists ss, gp, s.
  split; [exact E|]. split; [exact Hs|]. pose proof (Z.mod_pos_bound (Share s) fl fl_pos).
  rewrite (ShareVerifies_exact (Toy.seed 7) 3 2 draw5 ss gp s (Share s mod fl + 1) ltac:(split; lia) E Hs ltac:(lia)).
  f_equal. apply bool_decide_eq_false_2. rewrite <- (cong_iff fl) by discriminate.
  rewrite cong_mod by discriminate. intros [k Hk].
  assert (Hd : (fl | 1)) by (exists k; lia). apply Z.divide_pos_le in Hd; [|reflexivity].
  revert Hd. vm_compute. intros Hd. by apply Hd.
Defined.

Lemma share_file_loads_witness : exists ss gp s f s',
  FrostSplit (Toy.seed 7) 3 2 draw5 = Ret (ss, gp) /\ s ∈ ss /\
  share_file s = Ret f /\ Signer f = Ret s' /\ Share s' = Share s.
Proof.
  destruct (split_first 2 ltac:(lia)) as (ss & gp & s & E & Hs).
  destruct (share_file_loads (Toy.seed 7) 3 2 draw5 ss gp s ltac:(split; lia) E ltac:(lia) Hs)
    as (f & s' & Ef & El & _ & _ & ES & _).
  exists ss, gp, s, f, s'. split; [exact E|]. split; [exact Hs|]. split; [exact Ef|]. split; [exact El|exact ES].
Defined.

Lemma share_file_threshold_one_witness : exists ss gp s f,
  FrostSplit (Toy.seed 7) 3 1 draw5 = Ret (ss, gp) /\ s ∈ ss /\
  share_file s = Ret f /\ Signer f = Err "frost: bad share value".
Proof.
  destruct (split_first 1 ltac:(lia)) as (ss & gp & s & E & Hs).
  assert (Hf : exists f, share_file s = Ret f).
  { destruct (FrostSplit_inv (Toy.seed 7) 3 1 draw5 ss gp ltac:(split; lia) E) as (_ & coeff & [_ _ Hv _ Hr] & _).
    rewrite Forall_forall in Hv. destruct (Hv s Hs) as [EV _].
    destruct (hex_points_parse _ _ (commitments_rep _ Hr)) as (hs & _ & E1 & _).
    unfold share_file. rewrite EV, E1. by eexists. }
  destruct Hf as [f Ef]. exists ss, gp, s, f. split; [exact E|]. split; [exact Hs|]. split; [exact Ef|].
  exact (share_file_threshold_one (Toy.seed 7) 3 1 draw5 ss gp s f ltac:(split; lia) E eq_refl Hs Ef).
Defined.

(** A round of one signer, on the constant polynomial 5. *)
Lemma AddShare_exact_witness : exists (a : FrostAggregator) (s : FrostSigner) (tr : FrostTranscript) (z : bytes),
  SignShare s tr = Ret z /\ is_ret (AddShare a (fsID s) z) = true.
Proof.
  destruct (encode_mult 5 ltac:(lia)) as (gp & _ & Hg). destruct (encode_mult 1 ltac:(lia)) as (D & _ & HD).
  set (s := {| fsID := "M1"; fsX := 1; Share := 5; GroupPub := gp; PubShare := gp; VK := []; GlobalVK := [];
               nonce_d := Some 1; nonce_e := Some 1; used := true |}).
  set (tr := {| tM := []; Commits := {["M1"%string := D ++ D]}; Xs := {["M1"%string := 1]}; tR := []; tC := [] |}).
  set (a := {| agPub := gp; agPubs := {["M1"%string := scalarMult 5 basePoint]}; agCommits := Commits tr;
               agShares := ∅; agR := Some basePoint; agC := leToInt (tC tr) mod fl; agM := []; agXs := Xs tr |}).
  assert (Hsg : signing gp [5] (fun _ => (1, 1)) tr a s).
  { split.
    - split; [|reflexivity|reflexivity|].
      + split; [reflexivity| |discriminate|exact Hg|split; [discriminate|reflexivity]].
        cbn [Share fsX s peval]. exists 0. reflexivity.
      + exists D, D. split; [apply lookup_singleton_eq|]. split; exact HD.
    - exists (scalarMult 5 basePoint). split; [apply lookup_singleton_eq|]. apply rep_mul_base. discriminate.
    - apply lookup_singleton_eq.
    - assert (Ep : participantXs tr = [1]).
      { unfold participantXs, sortedIDs, sorted_keys, keys. cbn [Commits tr].
        rewrite map_to_list_singleton. reflexivity. }
      unfold lam_of. rewrite Ep. vm_compute. split; [reflexivity|discriminate]. }
  assert (Hco : collecting gp tr basePoint a).
  { split; reflexivity. }
  destruct (SignShare_ok gp [5] (fun _ => (1, 1)) tr a s Hsg) as (z0 & E0 & _).
  exists a, s, tr, (scalarBytes z0). split; [exact E0|].
  destruct (AddShare_exact gp [5] (fun _ => (1, 1)) tr basePoint a s (scalarBytes z0) Hco Hsg (scalarBytes_length z0))
    as (z & E & Hz). rewrite E0 in E. injection E as <-. apply Hz. reflexivity.
Defined.
