(* ===== verification/Dkg.v ===== *)
(** * Distributed key generation: [dkg.go] and the DKG half of [frost.go]

    Feldman materials, their combination, the in-process ceremony, and the
    state machine of a ceremony participant: the frames it accepts, what it
    records, how it finishes.  A [range] over a map visits the keys in the order
    an argument gives; [ceremony] orders are indexed by the loop.  Sockets,
    goroutines and the retry clock are left out: a run is the sequence of
    frames handled.  What the TLS layer says of the peer (the certificate's
    identity matches the claimed one) is an argument. *)
From S2P Require Import Prelude Crypto Encoding Modular Edwards Frost.

(** ** Materials *)

Record DkgMaterial := { dmID : string; dmCommits : list point; dmShares : gmap string Z }.

Definition DkgGenerate (id : string) (n t : Z) (draw : nat -> option bytes) : outcome DkgMaterial :=
  guard ((t >? n) || (t <? 1)) "frost: need 1 <= t <= n" (
  a ← randomScalar (draw 0%nat);
  coeff ← random_scalars draw 1 (Z.to_nat (t - 1));
  Ret {| dmID := id; dmCommits := commitments (a :: coeff);
         dmShares := foldl (fun m x => <[member_id x := evalPolyL coeff a x]> m) ∅ (indices n) |}).

(** The loop of [DkgFinalize]: [m.Commits[0]] is a panic without commitments. *)
Fixpoint finalize_loop (id : string) (ms : list DkgMaterial) (share : Z) (group : point)
    : outcome (Z * point) :=
  match ms with
  | [] => Ret (share, group)
  | m :: ms =>
      match dmCommits m with
      | [] => Panic
      | c :: _ =>
          s ← of_option "frost: %s missing share for %s" (dmShares m !! id);
          ok ← ShareVerifies (dmCommits m) (memberX id) s;
          guard (negb ok) "frost: %s sent an invalid share" (
          finalize_loop id ms (share + s) (pointAdd group c))
      end
  end.

(** The values of a map, in the order of its keys. *)
Definition values {A} (order : list string -> list string) (m : gmap string A) : list A :=
  omap (fun k => m !! k) (order (keys m)).

Definition DkgFinalize (order : list string -> list string) (id : string) (all : gmap string DkgMaterial)
    : outcome (FrostSigner * bytes) :=
  guard (negb (bool_decide (is_Some (all !! id)))) "frost: no material for %s" (
  '(share, group) ← finalize_loop id (values order all) 0 identity;
  let share := share mod fl in
  gp ← encode group;
  ps ← encode (scalarMult share basePoint);
  gp' ← encode group;
  Ret (new_signer id (memberX id) share gp ps [], gp')).

(** ** Summed commitments *)

(** [acc[j] = acc[j] + pts[j]] with points that may still be unset. *)
Fixpoint add_points (acc : list (option point)) (pts : list point) : outcome (list (option point)) :=
  match pts, acc with
  | [], _ => Ret acc
  | _ :: _, [] => Panic
  | c :: pts, g :: acc =>
      r ← add_points acc pts;
      Ret (Some (match g with None => c | Some g => pointAdd g c end) :: r)
  end.

Fixpoint add_all (acc : list (option point)) (ms : list DkgMaterial) : outcome (list (option point)) :=
  match ms with
  | [] => Ret acc
  | m :: ms => acc ← add_points acc (dmCommits m); add_all acc ms
  end.

(** A point without coordinates cannot be encoded. *)
Fixpoint all_set (ps : list (option point)) : outcome (list point) :=
  match ps with
  | [] => Ret []
  | Some p :: ps => r ← all_set ps; Ret (p :: r)
  | None :: _ => Panic
  end.

Definition set_global (s : FrostSigner) (gv : list DkgCommitJSON) : FrostSigner :=
  {| fsID := fsID s; fsX := fsX s; Share := Share s; GroupPub := GroupPub s; PubShare := PubShare s;
     VK := VK s; GlobalVK := gv; nonce_d := nonce_d s; nonce_e := nonce_e s; used := used s |}.

(** ** The in-process ceremony *)

Fixpoint generate_all (n t : Z) (draws : Z -> nat -> option bytes) (xs : list Z)
    (mat : gmap string DkgMaterial) : outcome (gmap string DkgMaterial) :=
  match xs with
  | [] => Ret mat
  | x :: xs =>
      m ← DkgGenerate (member_id x) n t (draws x);
      generate_all n t draws xs (<[dmID m := m]> mat)
  end.

Inductive loop := Signers | Global | Entries | Finalize (id : string).

Fixpoint finalize_all (ord : loop -> list string -> list string) (mat : gmap string DkgMaterial)
    (ms : list DkgMaterial) (group : bytes) : outcome (list FrostSigner * bytes) :=
  match ms with
  | [] => Ret ([], group)
  | m :: ms =>
      '(s, g) ← DkgFinalize (ord (Finalize (dmID m))) (dmID m) mat;
      '(ss, g) ← finalize_all ord mat ms g;
      Ret (s :: ss, g)
  end.

Definition entries (pts : list string) (ms : list DkgMaterial) : list DkgCommitJSON :=
  map (fun m => {| dcID := dmID m; dcCommits := pts |}) ms.

Definition DkgCeremony (ord : loop -> list string -> list string) (n t : Z) (draws : Z -> nat -> option bytes)
    : outcome (list FrostSigner * bytes) :=
  mat ← generate_all n t draws (indices n) ∅;
  '(signers, group) ← finalize_all ord mat (values (ord Signers) mat) [];
  global ← add_all (replicate (Z.to_nat t) None) (values (ord Global) mat);
  global ← all_set global;
  pts ← hex_points global;
  let gv := entries pts (values (ord Entries) mat) in
  Ret (map (fun s => set_global s gv) signers, group).

(** ** Global vectors of a participant *)

Fixpoint global_loop (out : list point) (ms : list DkgMaterial) : list point :=
  match ms with
  | [] => out
  | m :: ms =>
      match out with
      | [] => global_loop (dmCommits m) ms
      | _ =>
          if negb (length (dmCommits m) =? length out)%nat then []
          else global_loop (zip_with pointAdd out (dmCommits m)) ms
      end
  end.
Definition DkgGlobalVK (order : list string -> list string) (all : gmap string DkgMaterial) : list point :=
  global_loop [] (values order all).

Definition DkgGlobalCommitments (order order' : list string -> list string) (all : gmap string DkgMaterial)
    : outcome (list DkgCommitJSON) :=
  match DkgGlobalVK order all with
  | [] => Ret []
  | global => pts ← hex_points global; Ret (entries pts (values order' all))
  end.

(** ** A ceremony participant *)

Record DkgNode := {
  dnID : string;
  dnN : Z;
  dnT : Z;
  dnAddr : string;
  dnPeers : gmap string string;
  dnSession : bytes;
  dnMat : DkgMaterial;
  dnOwnHex : list string;
  peerCommits : gmap string (list string);
  received : gmap string Z;
  dnDone : Z;
  dnSigner : option FrostSigner;
}.

(** The id checks of [NewDkgNode], over the ids in iteration order. *)
Fixpoint check_ids (n : Z) (seen : list Z) (ids : list string) : bool :=
  match ids with
  | [] => true
  | id :: ids =>
      let x := memberX id in
      if (x <? 1) || (x >? n) || bool_decide (x ∈ seen) then false
      else check_ids n (x :: seen) ids
  end.

Definition session_input (peers : gmap string string) : bytes :=
  concat (map (fun k => to_bytes (k ++ "|" ++ default "" (peers !! k)) ++ [Byte.x00]) (sorted_keys peers)).

Definition NewDkgNode `{Hashes} (order : list string -> list string) (id addr : string) (n t : Z)
    (peers : gmap string string) (draw : nat -> option bytes) : outcome DkgNode :=
  guard ((t <? 2) || (t >? n) || negb (Z.of_nat (size peers) =? n)) "dkg: need 2 <= threshold <= members" (
  guard (negb (bool_decide (is_Some (peers !! id)))) "dkg: own id missing from peers" (
  guard (negb (check_ids n [] (order (keys peers)))) "dkg: member ids must be distinct M1..M%d" (
  let addr := if bool_decide (addr = "") then default "" (peers !! id) else addr in
  mat ← DkgGenerate id n t draw;
  ownHex ← hex_points (dmCommits mat);
  Ret {| dnID := id; dnN := n; dnT := t; dnAddr := addr; dnPeers := peers;
         dnSession := sha256 (session_input peers); dnMat := mat; dnOwnHex := ownHex;
         peerCommits := ∅; received := ∅; dnDone := 0; dnSigner := None |}))).

Definition with_peer (d : DkgNode) (pid : string) (commits : list string) (val : Z) : DkgNode :=
  {| dnID := dnID d; dnN := dnN d; dnT := dnT d; dnAddr := dnAddr d; dnPeers := dnPeers d;
     dnSession := dnSession d; dnMat := dnMat d; dnOwnHex := dnOwnHex d;
     peerCommits := <[pid := commits]> (peerCommits d); received := <[pid := val]> (received d);
     dnDone := dnDone d + 1; dnSigner := dnSigner d |}.

Definition recordPeer (d : DkgNode) (pid : string) (hexCommits : list string) (shareVal : bytes)
    : outcome DkgNode :=
  guard (bool_decide (is_Some (received d !! pid))) "dkg: duplicate exchange from " (
  pts ← parsePoints hexCommits;
  guard (negb (zlen pts =? dnT d)) "dkg: commitment vector from %s has %d points, want %d" (
  match scalarFromBytes shareVal with
  | Ret val =>
      guard ((val <=? 0) || (val >=? fl)) "dkg: bad share value" (
      ok ← ShareVerifies pts (memberX (dnID d)) val;
      guard (negb ok) "dkg: peer share fails commitment verification" (
      Ret (with_peer d pid hexCommits val)))
  | _ => Err "dkg: bad share value"
  end)).

(** The fields of a [CouncilMsg] a DKG exchange uses. *)
Record DkgFrame := {
  xKind : string;
  xSession : bytes;
  xFrom : string;
  xCommits : list string;
  xShareVal : bytes;
}.

Definition dkgExchange : string := "DKG_EXCHANGE".

Definition own_frame (d : DkgNode) (pid : string) : outcome DkgFrame :=
  match dmShares (dnMat d) !! pid with
  | None => Panic
  | Some s => Ret {| xKind := dkgExchange; xSession := dnSession d; xFrom := dnID d;
                     xCommits := dnOwnHex d; xShareVal := scalarBytes s |}
  end.

(** [handleFrame]: [tls] is whether the connection is a TLS one, [peer] what
    the peer's certificate proves of an id. *)
Definition handleFrame (tls : bool) (peer : string -> bool) (d : DkgNode) (m : DkgFrame)
    : DkgNode * outcome DkgFrame :=
  if negb (bool_decide (xKind m = dkgExchange)) || negb (bytes_equal (xSession m) (dnSession d)) then
    (d, Err "dkg: bad session frame")
  else if negb tls then (d, Err "dkg: not a TLS connection")
  else if negb (peer (xFrom m)) then (d, Err "dkg: peer identity mismatch")
  else
    match recordPeer d (xFrom m) (xCommits m) (xShareVal m) with
    | Ret d => (d, own_frame d (xFrom m))
    | Err e => (d, Err e)
    | Panic => (d, Panic)
    end.

(** The dialer's side, on the reply it gets. *)
Definition exchange (d : DkgNode) (pid : string) (resp : DkgFrame) : outcome DkgNode :=
  guard (negb (bool_decide (xKind resp = dkgExchange)) || negb (bytes_equal (xSession resp) (dnSession d)) ||
         negb (bool_decide (xFrom resp = pid))) "dkg: bad exchange reply from " (
  recordPeer d pid (xCommits resp) (xShareVal resp)).

Fixpoint parsed_materials (id : string) (received : gmap string Z) (l : list (string * list string))
    (all : gmap string DkgMaterial) : outcome (gmap string DkgMaterial) :=
  match l with
  | [] => Ret all
  | (pid, hexC) :: l =>
      pts ← parsePoints hexC;
      parsed_materials id received l
        (<[pid := {| dmID := pid; dmCommits := pts;
                     dmShares := match received !! pid with Some v => {[id := v]} | None => ∅ end |}]> all)
  end.

Definition set_signer (d : DkgNode) (s : FrostSigner) : DkgNode :=
  {| dnID := dnID d; dnN := dnN d; dnT := dnT d; dnAddr := dnAddr d; dnPeers := dnPeers d;
     dnSession := dnSession d; dnMat := dnMat d; dnOwnHex := dnOwnHex d;
     peerCommits := peerCommits d; received := received d; dnDone := dnDone d; dnSigner := Some s |}.

Definition finish (ord : loop -> list string -> list string) (d : DkgNode) : outcome (DkgNode * bytes) :=
  all ← parsed_materials (dnID d) (received d) (map_to_list (peerCommits d)) {[dnID d := dnMat d]};
  '(signer, group) ← DkgFinalize (ord (Finalize (dnID d))) (dnID d) all;
  gv ← DkgGlobalCommitments (ord Global) (ord Entries) all;
  Ret (set_signer d (set_global signer gv), group).
