(* ===== verification/DkgTheory.v ===== *)
(** * Key generation without a dealer

    Whatever the order of the materials, the combined share of a participant is
    the value of the sum of the polynomials, and the group key encodes the sum
    of their constant terms: the signers of a ceremony are [keyed], so that
    FrostTheory.v applies to them.  For a participant of the distributed
    ceremony: what it has recorded, after any frames, was verified; two
    participants that finish on the same published vectors agree. *)
From S2P Require Import Prelude Crypto Encoding Json Modular Edwards EdwardsTheory EdwardsCodec Frost.
From S2P Require Import FrostTheory FrostSpec Dkg.

(** ** Sums of polynomials *)

Definition psum (cs : list (list Z)) : list Z := foldr padd [] cs.

Lemma psum_eval cs x : peval (psum cs) x = zsum (map (fun c => peval c x) cs).
Proof. induction cs as [|c cs IH]; [done|]. unfold psum, zsum in *. cbn [foldr map]. by rewrite peval_padd, IH. Qed.

Lemma psum_length cs t : (0 < length cs)%nat -> Forall (fun c => length c = t) cs -> length (psum cs) = t.
Proof.
  intros Hne HF. assert (Hle : forall cs, Forall (fun c => length c = t) cs -> (length (psum cs) <= t)%nat).
  { clear. induction 1 as [|c cs Hc _ IH]; cbn; [lia|]. rewrite padd_length. unfold psum in IH. lia. }
  destruct HF as [|c cs Hc HF]; [cbn in Hne; lia|]. specialize (Hle cs HF).
  cbn. rewrite padd_length. unfold psum in Hle. lia.
Qed.

(** ** Combining materials *)

(** The material [m] publishes the polynomial [c], and holds its value for [id]. *)
Record lies (id : string) (m : DkgMaterial) (c : list Z) : Prop := {
  li_commits : Forall2 rep (dmCommits m) c;
  li_nonempty : c <> [];
  li_share : exists s, dmShares m !! id = Some s /\ 0 <= s /\ cong fl s (peval c (memberX id));
}.

Lemma memberX_nonneg id : in_int64 (memberX id) /\ (0 <= memberX id -> index_ok (memberX id)).
Proof.
  assert (Hd : forall s acc v, in_int64 acc -> digits_val acc s = Some v -> in_int64 v).
  { induction s as [|b s IH]; cbn [digits_val]; intros acc v Ha; [by intros [= <-]|].
    destruct (is_digit b); [|done]. apply IH, wrap64_range. }
  assert (Hi : in_int64 (memberX id)).
  { unfold memberX. destruct (to_bytes id) as [|c [|d s]]; [split; lia..|]. case_bool_decide; [|split; lia].
    destruct (digits_val 0 (d :: s)) as [v|] eqn:E; cbn; [|split; lia]. eapply Hd, E. split; lia. }
  split; [done|]. intros H0. destruct Hi. split; lia.
Qed.

Lemma finalize_loop_ok id ms cs share group g :
  0 <= memberX id -> Forall2 (lies id) ms cs -> 0 <= share -> rep group g ->
  exists share' group', finalize_loop id ms share group = Ret (share', group') /\ 0 <= share' /\
    cong fl share' (share + peval (psum cs) (memberX id)) /\ rep group' (g + peval (psum cs) 0).
Proof.
  intros Hx H2. revert share group g. induction H2 as [|m c ms cs [Hc Hne (s & Es & Hs & Hcs)] _ IH];
    intros share group g Hsh Hg; cbn [finalize_loop].
  { exists share, group. rewrite !Z.add_0_r. done. }
  destruct (ShareVerifies_spec _ _ (memberX id) s Hx Hs Hc) as (b & Eb & Hb).
  rewrite Es. destruct m as [mid pts sh]. cbn [dmCommits] in *.
  destruct Hc as [|P c0 pts c HP Hc]; [done|].
  cbn [of_option mbind outcome_bind]. rewrite Eb, (proj2 Hb Hcs).
  cbn [mbind outcome_bind negb guard].
  destruct (IH (share + s) (pointAdd group P) (g + c0)) as (share' & group' & -> & H1 & H3 & H4);
    [lia|by apply rep_add|].
  exists share', group'. split; [done|]. split; [done|]. split.
  - rewrite H3, Hcs. unfold psum. cbn [foldr]. rewrite peval_padd. cong_ring.
  - eapply rep_cong; [|exact H4]. unfold psum. cbn [foldr]. rewrite peval_padd. cbn [peval]. cong_ring.
Qed.

Lemma values_perm {A} order (m : gmap string A) (ids : list string) f :
  permutes order -> keys m ≡ₚ ids -> (forall id, id ∈ ids -> m !! id = Some (f id)) ->
  values order m ≡ₚ map f ids.
Proof.
  intros Ho Hk Hf. unfold values. rewrite (Ho (keys m)), Hk. clear Hk.
  induction ids as [|id ids IH]; [done|]. cbn [omap list_omap map].
  rewrite Hf by left. constructor. apply IH. intros id' Hin. apply Hf. by right.
Qed.

Lemma DkgFinalize_ok order id all ids mf cf :
  permutes order -> 0 <= memberX id -> keys all ≡ₚ ids -> id ∈ ids ->
  (forall k, k ∈ ids -> all !! k = Some (mf k) /\ lies id (mf k) (cf k)) ->
  exists s gp, DkgFinalize order id all = Ret (s, gp) /\ fsID s = id /\ used s = false /\ fsX s = memberX id /\
    keyed gp (psum (map cf ids)) s /\ encodes gp (peval (psum (map cf ids)) 0) /\ 0 <= Share s < fl.
Proof.
  intros Ho Hx Hk Hid Hall.
  pose proof (values_perm order all ids mf Ho Hk (fun k Hin => proj1 (Hall k Hin))) as Hv.
  apply Permutation_map_inv in Hv as (ids' & Ev & Hp).
  assert (H2 : Forall2 (lies id) (values order all) (map cf ids')).
  { rewrite Ev, Forall2_fmap. apply Forall_Forall2_diag, Forall_forall. intros k Hin.
    apply Hall. by rewrite Hp. }
  destruct (finalize_loop_ok id _ _ 0 identity 0 Hx H2 ltac:(lia) rep_identity)
    as (share & group & EF & Hs & Hshare & Hg).
  rewrite Z.add_0_l in Hshare, Hg.
  assert (Heq : forall x, peval (psum (map cf ids')) x = peval (psum (map cf ids)) x).
  { intros x. rewrite !psum_eval, Hp. done. }
  rewrite Heq in Hshare, Hg. unfold DkgFinalize. rewrite (proj1 (Hall id Hid)), (bool_decide_eq_true_2 _) by by eexists.
  cbn [negb guard]. rewrite EF. cbn [mbind outcome_bind].
  destruct (encode_rep group _ Hg) as (gp & -> & Hgp).
  pose proof (Z.mod_pos_bound share fl fl_pos) as Hr.
  destruct (encode_mult (share mod fl)) as (ps & -> & Hps); [lia|]. cbn [mbind outcome_bind].
  eexists _, gp. split; [done|]. cbn [fsID used fsX new_signer Share]. do 3 (split; [done|]).
  split; [|done]. split; cbn [GroupPub new_signer Share fsX PubShare]; [done| |lia|done|].
  - by rewrite cong_mod by discriminate.
  - by apply memberX_nonneg.
Qed.

Lemma member_ids n : n < 2 ^ 63 ->
  NoDup (map member_id (indices n)) /\ Forall (fun x => memberX (member_id x) = x) (indices n).
Proof.
  intros Hn. destruct (indices_ok n Hn) as [HF Hnd]. split.
  - apply NoDup_fmap_2_strong; [|done]. rewrite Forall_forall in HF. intros x y Hx Hy E.
    apply (f_equal memberX) in E. by rewrite !memberX_id in E by (by apply HF).
  - eapply Forall_impl; [exact HF|]. intros x Hx. by apply memberX_id.
Qed.

(** ** Generation *)

(** An honest material for [n] members: the polynomial [c] of length [t]. *)
Record honest (n t : Z) (m : DkgMaterial) (c : list Z) : Prop := {
  hn_commits : dmCommits m = commitments c;
  hn_length : zlen c = t;
  hn_range : Forall (fun a => 0 <= a) c;
  hn_shares : forall x, x ∈ indices n ->
    exists s, dmShares m !! member_id x = Some s /\ 0 <= s /\ cong fl s (peval c x);
}.

Lemma insert_all_lookup {B} (k : Z -> string) (g : Z -> B) xs (m : gmap string B) x :
  NoDup (map k xs) -> x ∈ xs ->
  foldl (fun (m : gmap string B) x => <[k x := g x]> m) m xs !! k x = Some (g x).
Proof.
  assert (Ho : forall xs m, k x ∉ map k xs -> foldl (fun (m : gmap string B) x => <[k x := g x]> m) m xs !! k x = m !! k x).
  { induction xs0 as [|y ys IH]; intros m0; cbn [map foldl]; [done|]. intros [Hne Hy]%not_elem_of_cons.
    rewrite IH by done. by apply lookup_insert_ne. }
  revert m. induction xs as [|y xs IH]; intros m; cbn [map foldl]; [by intros _ ?%not_elem_of_nil|].
  intros [Hy Hnd]%NoDup_cons [->|Hx]%elem_of_cons.
  - rewrite Ho by done. apply lookup_insert_eq.
  - by apply IH.
Qed.

Lemma DkgGenerate_coeff id n t draw a coeff : 1 <= t <= n -> n < 2 ^ 63 ->
  randomScalar (draw 0%nat) = Ret a -> random_scalars draw 1 (Z.to_nat (t - 1)) = Ret coeff ->
  exists m, DkgGenerate id n t draw = Ret m /\ dmID m = id /\ honest n t m (a :: coeff) /\
    dmShares m = foldl (fun (m : gmap string Z) x => <[member_id x := evalPolyL coeff a x]> m) ∅ (indices n).
Proof.
  intros Ht Hn Ea Ec. unfold DkgGenerate.
  replace ((t >? n) || (t <? 1)) with false by (symmetry; apply orb_false_iff; lia). cbn [guard].
  rewrite Ea. cbn [mbind outcome_bind]. pose proof (random_range _ _ Ea) as [Ha _].
  destruct (random_scalars_ok _ _ _ _ Ec) as [Hl HF]. rewrite Ec. cbn [mbind outcome_bind].
  assert (Hs : forall x, x ∈ indices n ->
    foldl (fun (m : gmap string Z) x => <[member_id x := evalPolyL coeff a x]> m) ∅ (indices n) !! member_id x =
      Some (evalPolyL coeff a x)).
  { intros x Hx. apply (insert_all_lookup member_id (evalPolyL coeff a)); [by apply member_ids|done]. }
  eexists. split; [done|]. split; [done|]. split; [|done].
  split; cbn [dmCommits dmShares]; [done| | |].
  - unfold zlen. cbn [length]. lia.
  - constructor; [done|]. eapply Forall_impl; [exact HF|]. by intros c [].
  - intros x Hx. exists (evalPolyL coeff a x). split; [by apply Hs|].
    split; [by apply eval_loop_nonneg|by apply eval_loop_cong].
Qed.

Lemma DkgGenerate_ok id n t draw : 1 <= t <= n -> n < 2 ^ 63 -> all_drawn draw 0 (Z.to_nat t) ->
  exists m c, DkgGenerate id n t draw = Ret m /\ dmID m = id /\ honest n t m c.
Proof.
  intros Ht Hn Hd. destruct (Hd 0%nat) as [b Eb]; [lia|].
  destruct (random_scalars_drawn draw 1 (Z.to_nat (t - 1))) as [coeff Ec].
  { intros j Hj. apply Hd. lia. }
  destruct (DkgGenerate_coeff id n t draw (leToInt b mod fl) coeff Ht Hn) as (m & E & Eid & Hm & _);
    [by rewrite Eb|done|]. by exists m, (leToInt b mod fl :: coeff).
Qed.

Definition ceremony_drawn (n t : Z) (draws : Z -> nat -> option bytes) : Prop :=
  forall x, x ∈ indices n -> all_drawn (draws x) 0 (Z.to_nat t).

Lemma generate_all_ok n t draws xs mat :
  1 <= t <= n -> n < 2 ^ 63 -> NoDup (map member_id xs) ->
  (forall x, x ∈ xs -> all_drawn (draws x) 0 (Z.to_nat t)) ->
  exists mat' cf, generate_all n t draws xs mat = Ret mat' /\
    (forall x, x ∈ xs -> exists m, mat' !! member_id x = Some m /\ dmID m = member_id x /\
                                   honest n t m (cf (member_id x))) /\
    (forall id, id ∉ map member_id xs -> mat' !! id = mat !! id).
Proof.
  intros Ht Hn. revert mat. induction xs as [|x xs IH]; intros mat; cbn [map generate_all].
  { intros _ _. exists mat, (fun _ => []). split; [done|]. split; [by intros ? ?%not_elem_of_nil|done]. }
  intros [Hx Hnd]%NoDup_cons Hd.
  destruct (DkgGenerate_ok (member_id x) n t (draws x) Ht Hn) as (m & c & -> & Eid & Hm); [apply Hd; left|].
  cbn [mbind outcome_bind]. rewrite Eid.
  destruct (IH (<[member_id x := m]> mat) Hnd) as (mat' & cf & -> & H1 & H2).
  { intros y Hy. apply Hd. by right. }
  exists mat', (fun id => if decide (id = member_id x) then c else cf id). split; [done|]. split.
  - intros y [->|Hy]%elem_of_cons.
    + exists m. rewrite H2, lookup_insert_eq, decide_True by done. done.
    + rewrite decide_False; [by apply H1|]. intros E. apply Hx. rewrite <- E.
      by apply list_elem_of_In, in_map, list_elem_of_In.
  - intros id [Hne Hid]%not_elem_of_cons. rewrite H2 by done. by apply lookup_insert_ne.
Qed.

(** ** Summed commitments *)

Definition orep (o : option point) (a : Z) : Prop :=
  match o with None => a = 0 | Some P => rep P a end.

Lemma add_points_ok acc a pts c :
  Forall2 orep acc a -> Forall2 rep pts c -> length acc = length pts ->
  exists r, add_points acc pts = Ret (map Some r) /\ Forall2 rep r (padd a c).
Proof.
  intros Ha. revert pts c. induction Ha as [|g x acc a Hg _ IH]; intros pts c Hp Hl.
  { destruct Hp; [|done]. exists []. by split. }
  destruct Hp as [|P y pts c HP Hp]; [done|]. cbn [add_points].
  destruct (IH pts c Hp) as (r & -> & Hr); [cbn in Hl; lia|]. cbn [mbind outcome_bind].
  exists ((match g with None => P | Some g => pointAdd g P end) :: r). split; [done|]. cbn [padd].
  constructor; [|done]. destruct g; [by apply rep_add|]. cbn in Hg. by rewrite Hg, Z.add_0_l.
Qed.

Lemma orep_some r a : Forall2 rep r a -> Forall2 orep (map Some r) a.
Proof. induction 1; constructor; done. Qed.

Lemma add_all_some r a ms cs :
  Forall2 rep r a -> Forall2 (fun m c => Forall2 rep (dmCommits m) c /\ length (dmCommits m) = length r) ms cs ->
  exists r', add_all (map Some r) ms = Ret (map Some r') /\ length r' = length r /\
    exists f, Forall2 rep r' f /\ forall x, peval f x = peval a x + peval (psum cs) x.
Proof.
  intros Ha H2. revert r a cs Ha H2. induction ms as [|m ms IH]; intros r a cs Ha H2; inversion H2 as [|? c ? cs' [Hc Hl] H2']; subst.
  { exists r. split; [done|]. split; [done|]. exists a. split; [done|]. intros x. cbn. ring. }
  cbn [add_all]. destruct (add_points_ok (map Some r) a (dmCommits m) c) as (r1 & -> & H1);
    [by apply orep_some|done|by rewrite length_map|].
  cbn [mbind outcome_bind].
  assert (Hl1 : length r1 = length r).
  { rewrite (Forall2_length _ _ _ H1), padd_length, <- (Forall2_length _ _ _ Hc), <- (Forall2_length _ _ _ Ha). lia. }
  destruct (IH r1 (padd a c) cs' H1) as (r' & -> & Hl' & f & Hf & Ef).
  { eapply Forall2_impl; [exact H2'|]. intros ? ? []. split; [done|]. by rewrite Hl1. }
  exists r'. split; [done|]. split; [lia|]. exists f. split; [done|]. intros x. rewrite Ef.
  unfold psum. cbn [foldr]. rewrite !peval_padd. ring.
Qed.

Lemma peval_zeros k x : peval (replicate k 0) x = 0.
Proof. induction k as [|k IH]; cbn [replicate peval]; [done|]. rewrite IH. ring. Qed.

Lemma all_set_some r : all_set (map Some r) = Ret r.
Proof. induction r as [|P r IH]; [done|]. cbn [map all_set]. by rewrite IH. Qed.

Lemma add_all_ok t ms cs :
  (0 < length ms)%nat ->
  Forall2 (fun m c => Forall2 rep (dmCommits m) c /\ length (dmCommits m) = t) ms cs ->
  exists r, (acc ← add_all (replicate t None) ms; all_set acc) = Ret r /\ length r = t /\
    exists f, Forall2 rep r f /\ forall x, peval f x = peval (psum cs) x.
Proof.
  intros Hne H2. inversion H2 as [|m c ms' cs' [Hc Hl] H2']; subst ms cs; [cbn in Hne; lia|]. cbn [add_all].
  destruct (add_points_ok (replicate t None) (replicate t 0) (dmCommits m) c) as (r1 & -> & H1).
  { clear. induction t; cbn; constructor; done. }
  { done. }
  { by rewrite length_replicate. }
  cbn [mbind outcome_bind].
  assert (Hl1 : length r1 = t).
  { rewrite (Forall2_length _ _ _ H1), padd_length, length_replicate, <- (Forall2_length _ _ _ Hc). lia. }
  destruct (add_all_some r1 _ ms' cs' H1) as (r & -> & Hr & f & Hf & Ef).
  { by rewrite Hl1. }
  cbn [mbind outcome_bind]. rewrite all_set_some. exists r. split; [done|]. split; [lia|].
  exists f. split; [done|]. intros x. rewrite Ef. unfold psum. cbn [foldr]. rewrite !peval_padd, peval_zeros. ring.
Qed.

(** ** The ceremony *)

Definition all_permute (ord : loop -> list string -> list string) : Prop := forall l, permutes (ord l).

Lemma honest_lies n t m c x : 1 <= t -> n < 2 ^ 63 -> x ∈ indices n -> honest n t m c -> lies (member_id x) m c.
Proof.
  intros Ht Hn Hx [Hc Hl Hr Hs]. split.
  - rewrite Hc. by apply commitments_rep.
  - intros ->. unfold zlen in Hl. cbn in Hl. lia.
  - destruct (Hs x Hx) as (s & ? & ? & ?). exists s.
    destruct (member_ids n Hn) as [_ HF]. rewrite Forall_forall in HF. by rewrite HF.
Qed.

(** Everything the ceremony's loops need of the materials, by member id. *)
Record ceremony_mats (n t : Z) (mat : gmap string DkgMaterial) (mf : string -> DkgMaterial)
    (cf : string -> list Z) : Prop := {
  cm_keys : keys mat ≡ₚ map member_id (indices n);
  cm_mat : forall x, x ∈ indices n -> mat !! member_id x = Some (mf (member_id x)) /\
    dmID (mf (member_id x)) = member_id x /\ honest n t (mf (member_id x)) (cf (member_id x));
}.

Definition good_signer (n : Z) (gp : bytes) (F : list Z) (s : FrostSigner) : Prop :=
  keyed gp F s /\ used s = false /\ 0 <= Share s < fl /\ exists x, x ∈ indices n /\ fsID s = member_id x /\ fsX s = x.

Lemma ceremony_finalize n t mat mf cf order x :
  1 <= t -> n < 2 ^ 63 -> ceremony_mats n t mat mf cf -> permutes order -> x ∈ indices n ->
  let F := psum (map cf (map member_id (indices n))) in
  exists s gp, DkgFinalize order (member_id x) mat = Ret (s, gp) /\ fsID s = member_id x /\
    good_signer n gp F s /\ encodes gp (peval F 0).
Proof.
  intros Ht Hn [Hk Hm] Ho Hx F. destruct (member_ids n Hn) as [Hnd HF]. rewrite Forall_forall in HF.
  assert (Hx0 : 0 <= x) by (destruct (indices_ok n Hn) as [Hi _]; rewrite Forall_forall in Hi; apply Hi; done).
  destruct (DkgFinalize_ok order (member_id x) mat (map member_id (indices n)) mf cf Ho) as (s & gp & E & Hid & Hu & HX & Hkd & Hg & Hr).
  - by rewrite HF.
  - exact Hk.
  - by apply list_elem_of_In, in_map, list_elem_of_In.
  - intros k (y & <- & Hy%list_elem_of_In)%list_elem_of_In%in_map_iff.
    destruct (Hm y Hy) as (H1 & _ & H3). split; [done|]. 
    destruct H3 as [Hc Hl Hrg Hs]. destruct (honest_lies n t (mf (member_id y)) (cf (member_id y)) x Ht Hn Hx) as [A B C];
      [done|]. by split.
  - exists s, gp. split; [done|]. split; [done|]. split; [|done]. do 3 (split; [done|]). exists x.
    split; [done|]. split; [done|]. by rewrite HX, HF.
Qed.

Lemma finalize_all_ok n t mat mf cf ord xs gp0 :
  1 <= t -> n < 2 ^ 63 -> ceremony_mats n t mat mf cf -> all_permute ord -> xs ⊆ indices n ->
  let F := psum (map cf (map member_id (indices n))) in
  exists ss gp, finalize_all ord mat (map mf (map member_id xs)) gp0 = Ret (ss, gp) /\
    ids_of ss = map member_id xs /\
    (xs <> [] -> encodes gp (peval F 0) /\ Forall (good_signer n gp F) ss) /\ (xs = [] -> gp = gp0).
Proof.
  intros Ht Hn Hcm Ho Hsub F. revert gp0 Hsub. induction xs as [|x xs IH]; intros gp0 Hsub; cbn [map finalize_all].
  { exists [], gp0. by repeat split. }
  assert (Hx : x ∈ indices n) by (apply Hsub; left).
  destruct (cm_mat _ _ _ _ _ Hcm x Hx) as (_ & -> & _).
  destruct (ceremony_finalize n t mat mf cf (ord (Finalize (member_id x))) x Ht Hn Hcm (Ho _) Hx)
    as (s & gp & -> & Hid & Hgs & Hg). cbn [mbind outcome_bind].
  destruct (IH gp) as (ss & gp' & -> & Hids & Hne & Hnil); [intros y Hy; apply Hsub; by right|].
  cbn [mbind outcome_bind]. exists (s :: ss), gp'. split; [done|]. split; [cbn; by rewrite Hid, Hids|].
  split; [|done]. intros _. destruct xs as [|y xs].
  - rewrite (Hnil eq_refl). destruct ss; [|done]. split; [done|]. by constructor.
  - destruct (Hne ltac:(done)) as [Hg' Hss]. split; [done|]. constructor; [|done].
    by rewrite <- (encodes_det gp gp' _ _ (reflexivity _) Hg Hg').
Qed.

Lemma values_ids n t mat mf cf order :
  ceremony_mats n t mat mf cf -> permutes order ->
  exists xs, values order mat = map mf (map member_id xs) /\ xs ≡ₚ indices n.
Proof.
  intros [Hk Hm] Ho.
  assert (Hv : values order mat ≡ₚ map (fun x => mf (member_id x)) (indices n)).
  { rewrite <- (map_map member_id mf). apply values_perm; [done..|].
    intros k (y & <- & Hy%list_elem_of_In)%list_elem_of_In%in_map_iff. by apply Hm. }
  destruct (Permutation_map_inv _ _ Hv) as (xs & E & Hp).
  exists xs. rewrite map_map. by split.
Qed.

(** The summed commitments are those of the summed polynomial. *)
Lemma ceremony_global n t mat mf cf order :
  1 <= t <= n -> n < 2 ^ 63 -> ceremony_mats n t mat mf cf -> permutes order ->
  exists r f, (acc ← add_all (replicate (Z.to_nat t) None) (values order mat); all_set acc) = Ret r /\
    length r = Z.to_nat t /\ Forall2 rep r f /\
    forall x, peval f x = peval (psum (map cf (map member_id (indices n)))) x.
Proof.
  intros Ht Hn Hcm Ho. destruct (values_ids n t mat mf cf order Hcm Ho) as (xs & -> & Hp).
  assert (Hlen : length xs = Z.to_nat n) by (rewrite Hp; unfold indices; by rewrite length_map, length_seq).
  destruct (add_all_ok (Z.to_nat t) (map mf (map member_id xs)) (map cf (map member_id xs))) as (r & E & Hl & f & Hf & Ef).
  - rewrite !length_map. lia.
  - rewrite !map_map, Forall2_fmap. apply Forall_Forall2_diag, Forall_forall. intros x Hx. rewrite Hp in Hx.
    destruct (cm_mat _ _ _ _ _ Hcm x Hx) as (_ & _ & [Hc Hlc Hr _]). rewrite Hc. split; [by apply commitments_rep|].
    unfold commitments. rewrite length_map. unfold zlen in Hlc. lia.
  - exists r, f. do 3 (split; [done|]). intros x. by rewrite Ef, !psum_eval, Hp.
Qed.

Lemma hex_ascii b : forallb (fun c => byte_Z c <? 128) (hex_encode b) = true.
Proof.
  unfold hex_encode. induction b as [|x b IH]; [done|]. cbn [map concat]. rewrite forallb_app, IH, andb_true_r. by destruct x.
Qed.

Lemma hex_points_valid pts hs : hex_points pts = Ret hs -> Forall valid_string hs.
Proof.
  revert hs. induction pts as [|P pts IH]; intros hs E; cbn [hex_points] in E; [by injection E as <-|].
  apply bind_ret in E as (b & _ & E). apply bind_ret in E as (hs' & E' & [= <-]). constructor; [|by apply IH].
  unfold valid_string. rewrite to_of_bytes. apply ascii_valid, hex_ascii.
Qed.

Lemma hex_points_ok pts cs : Forall2 rep pts cs -> exists hs, hex_points pts = Ret hs.
Proof. intros H2. destruct (hex_points_parse pts cs H2) as (hs & _ & E & _). by exists hs. Qed.

(** The vectors a ceremony publishes: one for every member, the commitments of [F]. *)
Definition publishes (n : Z) (F : list Z) (gs : list DkgCommitJSON) : Prop :=
  exists hs pts f xs, parsePoints hs = Ret pts /\ Forall2 rep pts f /\ (forall x, peval f x = peval F x) /\ pts <> [] /\
    Forall valid_string hs /\ xs ≡ₚ indices n /\ gs = map (fun x => {| dcID := member_id x; dcCommits := hs |}) xs.

Lemma entries_ids n t mat mf cf hs xs : ceremony_mats n t mat mf cf -> xs ⊆ indices n ->
  entries hs (map mf (map member_id xs)) = map (fun x => {| dcID := member_id x; dcCommits := hs |}) xs.
Proof.
  intros Hcm Hsub. unfold entries. rewrite !map_map. apply map_ext_in. intros x Hx%list_elem_of_In.
  by destruct (cm_mat _ _ _ _ _ Hcm x (Hsub x Hx)) as (_ & -> & _).
Qed.

Lemma DkgCeremony_full ord n t draws :
  1 <= t <= n -> n < 2 ^ 63 -> all_permute ord -> ceremony_drawn n t draws ->
  exists ss gp F, DkgCeremony ord n t draws = Ret (ss, gp) /\ ids_of ss ≡ₚ map member_id (indices n) /\
    Forall (good_signer n gp F) ss /\ encodes gp (peval F 0) /\ zlen F = t /\
    Forall (fun s => publishes n F (GlobalVK s)) ss.
Proof.
  intros Ht Hn Ho Hd. destruct (member_ids n Hn) as [Hnd _]. unfold DkgCeremony.
  destruct (generate_all_ok n t draws (indices n) ∅ Ht Hn Hnd Hd) as (mat & cf & -> & H1 & H2).
  cbn [mbind outcome_bind]. set (mf := fun id => default {| dmID := ""; dmCommits := []; dmShares := ∅ |} (mat !! id)).
  assert (Hcm : ceremony_mats n t mat mf cf).
  { split.
    - apply keys_perm; [done|]. intros id. split.
      + intros Hs. destruct (decide (id ∈ map member_id (indices n))) as [|Hn']; [done|].
        rewrite H2, lookup_empty in Hs by done. by apply is_Some_None in Hs.
      + intros (x & <- & Hx%list_elem_of_In)%list_elem_of_In%in_map_iff. destruct (H1 x Hx) as (m & -> & _). by eexists.
    - intros x Hx. destruct (H1 x Hx) as (m & Em & ? & ?). unfold mf. by rewrite Em. }
  destruct (values_ids n t mat mf cf (ord Signers) Hcm (Ho _)) as (xs & -> & Hp).
  destruct (finalize_all_ok n t mat mf cf ord xs [] (proj1 Ht) Hn Hcm Ho) as (ss & gp & -> & Hids & Hne & _).
  { intros x. by rewrite Hp. }
  cbn [mbind outcome_bind].
  destruct (ceremony_global n t mat mf cf (ord Global) Ht Hn Hcm (Ho _)) as (r & f & E & Hl & Hf & Ef).
  apply bind_ret in E as (acc & -> & E). cbn [mbind outcome_bind]. rewrite E. cbn [mbind outcome_bind].
  destruct (hex_points_parse r f Hf) as (hs & pts & Ehs & Epts & Hpts). rewrite Ehs. cbn [mbind outcome_bind].
  destruct (values_ids n t mat mf cf (ord Entries) Hcm (Ho _)) as (es & -> & Hes).
  set (F := psum (map cf (map member_id (indices n)))) in *.
  assert (Hi0 : (0 < length (indices n))%nat) by (unfold indices; rewrite length_map, length_seq; lia).
  assert (Hxs0 : xs <> []) by (intros ->; apply Permutation_length in Hp; cbn in Hp; lia).
  destruct (Hne Hxs0) as [Hg Hgs].
  eexists _, gp, F. split; [done|]. split; [|split; [|split; [done|split]]].
  - rewrite map_map. change (ids_of ss ≡ₚ map member_id (indices n)). by rewrite Hids, Hp.
  - apply Forall_map. eapply Forall_impl; [exact Hgs|]. intros s ([] & Hu & Hr & x & Hx & Hi & HX).
    split; [by split|]. split; [done|]. split; [done|]. by exists x.
  - unfold zlen. unfold F. rewrite (psum_length _ (Z.to_nat t)).
    + lia.
    + rewrite !length_map. lia.
    + rewrite map_map. apply Forall_map, Forall_forall. intros x Hx.
      destruct (cm_mat _ _ _ _ _ Hcm x Hx) as (_ & _ & [_ Hlc _ _]). unfold zlen in Hlc. lia.
  - rewrite (entries_ids n t mat mf cf hs es Hcm) by (intros x; by rewrite Hes). apply Forall_map, Forall_forall. intros s _.
    exists hs, pts, f, es. do 3 (split; [done|]). split; [|split; [by eapply hex_points_valid|by split]].
    intros ->. apply Forall2_length in Hf, Hpts. cbn in Hpts. lia.
Qed.

Lemma DkgCeremony_ok ord n t draws :
  1 <= t <= n -> n < 2 ^ 63 -> all_permute ord -> ceremony_drawn n t draws ->
  exists ss gp F, DkgCeremony ord n t draws = Ret (ss, gp) /\ ids_of ss ≡ₚ map member_id (indices n) /\
    Forall (good_signer n gp F) ss /\ encodes gp (peval F 0) /\ zlen F = t.
Proof.
  intros Ht Hn Ho Hd. destruct (DkgCeremony_full ord n t draws Ht Hn Ho Hd) as (ss & gp & F & ? & ? & ? & ? & ? & _).
  by exists ss, gp, F.
Qed.

(** ** A participant's record *)

(** What the frames of a run do to a participant. *)
Inductive node_step (d : DkgNode) : DkgNode -> Prop :=
| step_serve tls peer m d' r : handleFrame tls peer d m = (d', r) -> node_step d d'
| step_dial pid resp d' : exchange d pid resp = Ret d' -> node_step d d'.

Record node_inv (d : DkgNode) : Prop := {
  ni_id : 1 <= memberX (dnID d) <= dnN d;
  ni_t : 2 <= dnT d <= dnN d;
  ni_done : dnDone d = Z.of_nat (size (received d));
  ni_dom : forall pid, is_Some (peerCommits d !! pid) <-> is_Some (received d !! pid);
  ni_share : forall pid hexes v, peerCommits d !! pid = Some hexes -> received d !! pid = Some v ->
    0 < v < fl /\ exists pts, parsePoints hexes = Ret pts /\ zlen pts = dnT d /\
      ShareVerifies pts (memberX (dnID d)) v = Ret true;
}.

Lemma check_ids_range n seen ids id : check_ids n seen ids = true -> id ∈ ids -> 1 <= memberX id <= n.
Proof.
  revert seen. induction ids as [|k ids IH]; intros seen; cbn [check_ids]; [by intros _ ?%not_elem_of_nil|].
  destruct (_ || _ || _) eqn:E; [done|]. intros Hc [->|Hin]%elem_of_cons; [|by eapply IH].
  apply orb_false_iff in E as [E _]. apply orb_false_iff in E. lia.
Qed.

Lemma NewDkgNode_inv `{Hashes} order id addr n t peers draw d :
  permutes order -> NewDkgNode order id addr n t peers draw = Ret d ->
  node_inv d /\ dnID d = id /\ dnN d = n /\ dnT d = t /\ dnPeers d = peers /\
  DkgGenerate id n t draw = Ret (dnMat d) /\ received d = ∅.
Proof.
  intros Ho. unfold NewDkgNode. intros E. inv_outcome. cbn.
  apply negb_false_iff in H1, H2. apply bool_decide_eq_true in H1.
  apply orb_false_iff in H0 as [[E1 E2]%orb_false_iff _].
  split; [|done]. split; cbn; [|lia|done| |done].
  - eapply check_ids_range; [exact H2|]. rewrite (Ho _). by apply elem_of_keys.
  - intros pid. rewrite !lookup_empty. split; by intros [? ?].
Qed.

Lemma recordPeer_inv d pid hexes sv d' :
  node_inv d -> recordPeer d pid hexes sv = Ret d' -> node_inv d'.
Proof.
  intros [Hid Ht Hdone Hdom Hsh] E. unfold recordPeer in E.
  apply guard_ret in E as [Hnew E]. apply bool_decide_eq_false in Hnew.
  apply bind_ret in E as (pts & Ep & E). apply guard_ret in E as [Hl E].
  destruct (scalarFromBytes sv) as [v| |]; [|done..].
  apply guard_ret in E as [Hv E]. apply bind_ret in E as (ok & Ev & E). apply guard_ret in E as [Hok E].
  injection E as <-. apply negb_false_iff in Hok, Hl. subst ok. apply Z.eqb_eq in Hl. apply orb_false_iff in Hv.
  split; cbn; [done|done| | |].
  - rewrite map_size_insert_None by (by apply eq_None_not_Some). lia.
  - intros pid'. destruct (decide (pid' = pid)) as [->|Hne]; [by rewrite !lookup_insert_eq|].
    by rewrite !lookup_insert_ne.
  - intros pid' hexes' v'. destruct (decide (pid' = pid)) as [->|Hne].
    + rewrite !lookup_insert_eq. intros [= <-] [= <-]. split; [lia|]. by exists pts.
    + rewrite !lookup_insert_ne by done. apply Hsh.
Qed.

Lemma recordPeer_keeps d pid hexes sv d' : recordPeer d pid hexes sv = Ret d' ->
  d' = with_peer d pid hexes (default 0 (received d' !! pid)).
Proof.
  intros E. unfold recordPeer in E. inv_outcome. destruct (scalarFromBytes sv) as [v| |]; [|done..].
  inv_outcome. cbn. by rewrite lookup_insert_eq.
Qed.

Lemma node_step_record d d' : node_step d d' -> d' = d \/ exists pid hexes sv, recordPeer d pid hexes sv = Ret d'.
Proof.
  intros [tls peer m d1 r E|pid resp d1 E].
  - unfold handleFrame in E. destruct (_ || _) in E; [left; by injection E|].
    destruct (negb tls) in E; [left; by injection E|]. destruct (negb (peer _)) in E; [left; by injection E|].
    destruct (recordPeer _ _ _ _) as [d2| |] eqn:Er in E; injection E as <- _; [right|by left..]. by do 3 eexists.
  - unfold exchange in E. apply guard_ret in E as [_ E]. right. by do 3 eexists.
Qed.

(** DkgNode, under any sequence of served frames and dialled replies,
    honest or not: the completed-pair counter equals the number of recorded
    shares; a share is recorded exactly when a commitment vector is; and every
    recorded share is a canonical non-zero scalar that lies, at this member's
    index, on the recorded vector, which has threshold-many valid points. *)
Theorem DkgNode_invariant `{Hashes} order id addr n t peers draw d0 d :
  permutes order -> NewDkgNode order id addr n t peers draw = Ret d0 -> rtc node_step d0 d ->
  dnDone d = Z.of_nat (size (received d)) /\
  (forall pid, is_Some (peerCommits d !! pid) <-> is_Some (received d !! pid)) /\
  forall pid hexes v, peerCommits d !! pid = Some hexes -> received d !! pid = Some v ->
    0 < v < fl /\ exists pts, parsePoints hexes = Ret pts /\ zlen pts = t /\
      ShareVerifies pts (memberX id) v = Ret true.
Proof.
  intros Ho E0 Hr. destruct (NewDkgNode_inv _ _ _ _ _ _ _ _ Ho E0) as (Hi & Eid & _ & Et & _).
  assert (Hinv : node_inv d /\ dnID d = id /\ dnT d = t).
  { clear E0. induction Hr as [d|d d1 d2 Hstep _ IH]; [done|].
    destruct (node_step_record _ _ Hstep) as [->|(pid & hexes & sv & Er)]; [by apply IH|].
    apply IH; [by eapply recordPeer_inv|by rewrite (recordPeer_keeps _ _ _ _ _ Er)..]. }
  destruct Hinv as ([_ _ H1 H2 H3] & <- & <-). done.
Qed.

(** handleFrame does not check that the sender is a member of the ceremony:
    an authenticated sender outside it, with a well-formed vector and a share
    on it, is recorded and counted as a completed pair, and then the member
    crashes on the share it has not got for it. *)
Theorem handleFrame_outsider d peer m d1 :
  dnPeers d !! xFrom m = None -> dmShares (dnMat d) !! xFrom m = None ->
  xKind m = dkgExchange -> xSession m = dnSession d -> peer (xFrom m) = true ->
  recordPeer d (xFrom m) (xCommits m) (xShareVal m) = Ret d1 ->
  handleFrame true peer d m = (d1, Panic) /\ dnDone d1 = dnDone d + 1.
Proof.
  intros _ Hs Hk Hse Hp Er. unfold handleFrame. rewrite Hk, Hse, Hp, bytes_equal_refl, bool_decide_eq_true_2 by done.
  cbn [negb orb]. rewrite Er. pose proof (recordPeer_keeps _ _ _ _ _ Er) as Ed. split.
  - f_equal. unfold own_frame. rewrite Ed. cbn. by rewrite Hs.
  - rewrite Ed. cbn. done.
Qed.

(** Enough of the signers of a ceremony sign. *)
Lemma good_signers_sign `{Hs : Hashes} `{E : Ed25519} `{S : !Ed25519Std} n gp F ss us order m draw :
  Forall (good_signer n gp F) ss -> encodes gp (peval F 0) ->
  us ⊆ ss -> NoDup (map fsID us) -> zlen F <= zlen us -> 2 <= zlen us ->
  permutes order -> all_drawn draw 0 (2 * length us) ->
  exists us' sig, FrostRound order gp us m draw = Ret (us', sig) /\ ed25519_Verify gp m sig = Ret true.
Proof.
  intros Hss Hg Hsub Hnd Htu H2 Hord Hdr. pose proof (Forall_sub _ _ _ Hsub Hss) as Hus.
  destruct (FrostRound_ok gp F us) with (order := order) (m := m) (draw := draw) as (us' & r & z & rr & ER & Hr & Hz & _); try done.
  - assert (Em : map fsID us = map member_id (map fsX us)).
    { rewrite map_map. apply map_ext_in. intros s Hsin%list_elem_of_In. rewrite Forall_forall in Hus.
      destruct (Hus s Hsin) as (_ & _ & _ & x & _ & -> & ->). done. }
    rewrite Em in Hnd. by apply NoDup_fmap_1 in Hnd.
  - eapply Forall_impl; [exact Hus|]. by intros s [].
  - eapply Forall_impl; [exact Hus|]. by intros s (_ & ? & _).
  - intros ->. unfold zlen in H2. cbn in H2. lia.
  - unfold zlen in *. lia.
  - unfold zlen in H2. lia.
  - exists us', (r ++ scalarBytes z). split; [done|]. rewrite Verify_len by (by apply encodes_length in Hg). f_equal.
    apply (std_verify gp (peval F 0) r rr); [done..|apply Z.mod_pos_bound, fl_pos|]. by rewrite cong_mod, Hz by discriminate.
Qed.

(** DkgCeremony (key generation without a dealer): for every order of its
    map iterations, any [t] or more (at least two) of its signers complete a
    signing round, and the signature verifies, with the standard verifier, under
    the group key the ceremony returned. *)
Theorem DkgCeremony_signs `{Hs : Hashes} `{E : Ed25519} `{S : !Ed25519Std} ord n t draws :
  1 <= t <= n -> n < 2 ^ 63 -> all_permute ord -> ceremony_drawn n t draws ->
  exists ss gp, DkgCeremony ord n t draws = Ret (ss, gp) /\ zlen ss = n /\
    forall us order m draw, us ⊆ ss -> NoDup (map fsID us) -> t <= zlen us -> 2 <= zlen us ->
      permutes order -> all_drawn draw 0 (2 * length us) ->
      exists us' sig, FrostRound order gp us m draw = Ret (us', sig) /\ ed25519_Verify gp m sig = Ret true.
Proof.
  intros Ht Hn Ho Hd. destruct (DkgCeremony_ok ord n t draws Ht Hn Ho Hd) as (ss & gp & F & Ec & Hids & Hss & Hg & HF).
  exists ss, gp. split; [done|]. split.
  { unfold zlen. apply Permutation_length in Hids. unfold indices in Hids. rewrite !length_map, length_seq in Hids. lia. }
  intros us order m draw Hsub Hnd Htu H2 Hord Hdr. eapply good_signers_sign; try done. lia.
Qed.

(** ** Agreement *)

(** The vectors a participant has recorded are those of the polynomials
    [polys], by member id; its own material is honest. *)
Record published (polys : gmap string (list Z)) (d : DkgNode) : Prop := {
  pb_own : exists c, polys !! dnID d = Some c /\ honest (dnN d) (dnT d) (dnMat d) c;
  pb_canonical : member_id (memberX (dnID d)) = dnID d;
  pb_peers : forall pid hexes, peerCommits d !! pid = Some hexes ->
    pid <> dnID d /\ exists c pts, polys !! pid = Some c /\ parsePoints hexes = Ret pts /\ Forall2 rep pts c;
  (** what [RunOn] waits for: one exchange with every other member *)
  pb_done : dnDone d = Z.of_nat (size polys) - 1;
}.

Definition poly_of (polys : gmap string (list Z)) (id : string) : list Z := default [] (polys !! id).
Definition group_poly (polys : gmap string (list Z)) : list Z := psum (map (poly_of polys) (keys polys)).

Lemma parsed_materials_ok id rc l all :
  NoDup (map fst l) -> Forall (fun p => is_ret (parsePoints p.2) = true) l ->
  exists all', parsed_materials id rc l all = Ret all' /\
    (forall pid hexes, (pid, hexes) ∈ l -> exists pts, parsePoints hexes = Ret pts /\
       all' !! pid = Some {| dmID := pid; dmCommits := pts;
                             dmShares := match rc !! pid with Some v => {[id := v]} | None => ∅ end |}) /\
    (forall pid, pid ∉ map fst l -> all' !! pid = all !! pid).
Proof.
  revert all. induction l as [|[pid hexes] l IH]; intros all; cbn [map parsed_materials].
  { intros _ _. exists all. split; [done|]. split; [by intros ? ? ?%not_elem_of_nil|done]. }
  intros [Hp Hnd]%NoDup_cons [Hr HF]%Forall_cons. cbn [snd] in Hr.
  destruct (parsePoints hexes) as [pts| |] eqn:Ep; [|done..]. cbn [mbind outcome_bind].
  match goal with |- context [parsed_materials _ _ _ ?a] => destruct (IH a Hnd HF) as (all' & -> & H1 & H2) end.
  exists all'. split; [done|]. split.
  - intros pid' hexes' [[= -> ->]|Hin]%elem_of_cons; [|by apply H1].
    exists pts. split; [done|]. rewrite H2 by done. apply lookup_insert_eq.
  - intros pid' [Hne Hin]%not_elem_of_cons. rewrite H2 by done. by apply lookup_insert_ne.
Qed.

(** Counting the exchanges is enough: every other member has been recorded. *)
Lemma published_complete polys d : node_inv d -> published polys d ->
  forall id, is_Some (polys !! id) <-> id = dnID d \/ is_Some (peerCommits d !! id).
Proof.
  intros [_ _ Hdone Hdom _] [(c & Hc & _) _ Hp Hd].
  assert (Hsub : {[dnID d]} ∪ dom (peerCommits d) ⊆ dom polys).
  { intros id [->%elem_of_singleton|[hexes Hh]%elem_of_dom]%elem_of_union; apply elem_of_dom; [by eexists|].
    destruct (Hp id hexes Hh) as (_ & c' & _ & ? & _). by eexists. }
  assert (Hdisj : {[dnID d]} ## dom (peerCommits d)).
  { intros id ->%elem_of_singleton [hexes Hh]%elem_of_dom. by destruct (Hp _ _ Hh). }
  assert (Esz : size (dom (peerCommits d)) = size (received d)).
  { rewrite <- size_dom. f_equal. apply set_eq. intros id. by rewrite !elem_of_dom, Hdom. }
  assert (Heq : {[dnID d]} ∪ dom (peerCommits d) ≡ dom polys).
  { apply set_subseteq_size_equiv; [done|]. rewrite size_union, size_singleton, Esz, size_dom by done. lia. }
  intros id. rewrite <- !elem_of_dom, <- Heq, elem_of_union, elem_of_singleton. done.
Qed.

Lemma global_loop_rep out a ms cs : Forall2 rep out a -> Forall2 (fun m c => Forall2 rep (dmCommits m) c) ms cs ->
  exists f, Forall2 rep (global_loop out ms) f.
Proof.
  intros Ho H2. revert out a Ho. induction H2 as [|m c ms cs Hm _ IH]; intros out a Ho; cbn [global_loop]; [by exists a|].
  destruct out as [|P out]; [by eapply IH|]. case_if; [by exists []|].
  apply (IH _ (zip_with Z.add a c)). clear - Ho Hm. revert c Hm. generalize (dmCommits m) as pts.
  induction Ho as [|Q x os a HQ _ IHo]; intros pts c Hm; [constructor|].
  destruct Hm as [|R y pts c HR Hm]; constructor; [by apply rep_add|by apply IHo].
Qed.

Section agreement.
Context (polys : gmap string (list Z)) (d : DkgNode) (ord : loop -> list string -> list string).
Hypothesis Hinv : node_inv d.
Hypothesis Hpub : published polys d.
Hypothesis Hord : all_permute ord.
Hypothesis Hn : dnN d < 2 ^ 63.

Lemma own_index : memberX (dnID d) ∈ indices (dnN d).
Proof.
  destruct Hinv as [Hid _ _ _ _]. unfold indices. apply list_elem_of_In, in_map_iff.
  exists (Z.to_nat (memberX (dnID d))). split; [lia|]. apply in_seq. lia.
Qed.

(** The materials [finish] combines. *)
Lemma finish_materials : exists all mf,
  parsed_materials (dnID d) (received d) (map_to_list (peerCommits d)) {[dnID d := dnMat d]} = Ret all /\
  keys all ≡ₚ keys polys /\
  forall id, id ∈ keys polys -> all !! id = Some (mf id) /\ lies (dnID d) (mf id) (poly_of polys id).
Proof.
  pose proof (published_complete polys d Hinv Hpub) as Hcomp.
  destruct Hinv as [Hid Ht _ Hdom Hsh], Hpub as [(c & Hc & Hh) Hcan Hp _].
  destruct (parsed_materials_ok (dnID d) (received d) (map_to_list (peerCommits d)) {[dnID d := dnMat d]})
    as (all & E & H1 & H2).
  { apply NoDup_fst_map_to_list. }
  { apply Forall_forall. intros [pid hexes] Hin%elem_of_map_to_list. cbn [snd].
    destruct (Hp pid hexes Hin) as (_ & c' & pts & _ & -> & _). done. }
  assert (Hown : all !! dnID d = Some (dnMat d)).
  { rewrite H2; [apply lookup_singleton_eq|]. intros Hin. apply (elem_of_keys (peerCommits d)) in Hin as [hexes Hx].
    by destruct (Hp _ _ Hx). }
  assert (Hall : forall id, is_Some (polys !! id) -> exists m, all !! id = Some m /\ lies (dnID d) m (poly_of polys id)).
  { intros id Hs. destruct (decide (id = dnID d)) as [->|Hne].
    - exists (dnMat d). split; [done|]. unfold poly_of. rewrite Hc. cbn. rewrite <- Hcan at 1.
      eapply (honest_lies (dnN d) (dnT d)); [lia|done|apply own_index|done].
    - apply Hcomp in Hs as [->|[hexes Hx]]; [done|].
      destruct (H1 id hexes) as (pts & Epts & Em); [by apply elem_of_map_to_list|].
      destruct (Hp id hexes Hx) as (_ & c' & pts' & Hc' & Ep' & Hrep). rewrite Epts in Ep'. injection Ep' as <-.
      destruct (proj1 (Hdom id) ltac:(by eexists)) as [v Hv].
      destruct (Hsh id hexes v Hx Hv) as (Hvr & pts' & Ep' & Hlen & Hver). rewrite Epts in Ep'. injection Ep' as <-.
      exists {| dmID := id; dmCommits := pts; dmShares := {[dnID d := v]} |}. split; [by rewrite Em, Hv|].
      unfold poly_of. rewrite Hc'. split; cbn.
      + done.
      + intros ->. inversion Hrep; subst. unfold zlen in Hlen. cbn in Hlen. lia.
      + exists v. split; [apply lookup_singleton_eq|]. split; [lia|].
        destruct (ShareVerifies_spec pts c' (memberX (dnID d)) v ltac:(lia) ltac:(lia) Hrep) as (b & Eb & Hb).
        rewrite Hver in Eb. injection Eb as <-. by apply Hb. }
  set (mf := fun id => default (dnMat d) (all !! id)). exists all, mf. split; [done|]. split.
  - apply keys_perm; [apply keys_NoDup|]. intros id. rewrite elem_of_keys. split.
    + intros Hs. apply Hcomp. destruct (decide (id ∈ map fst (map_to_list (peerCommits d)))) as [Hin|Hout].
      * right. by apply elem_of_keys.
      * left. rewrite H2 in Hs by done. destruct Hs as [m Hm]. by apply lookup_singleton_Some in Hm as [<- _].
    + intros Hs. destruct (Hall id Hs) as (m & -> & _). by eexists.
  - intros id Hin%elem_of_keys. destruct (Hall id Hin) as (m & Em & Hl). unfold mf. by rewrite Em.
Qed.

Lemma finish_ok : exists d' s gp, finish ord d = Ret (d', gp) /\ dnSigner d' = Some s /\ fsID s = dnID d /\
  good_signer (dnN d) gp (group_poly polys) s /\ encodes gp (peval (group_poly polys) 0).
Proof.
  destruct finish_materials as (all & mf & E & Hk & Hall). unfold finish. rewrite E. cbn [mbind outcome_bind].
  assert (Hid : dnID d ∈ keys polys).
  { apply elem_of_keys. destruct (pb_own _ _ Hpub) as (c & Hc & _). by eexists. }
  destruct (DkgFinalize_ok (ord (Finalize (dnID d))) (dnID d) all (keys polys) mf (poly_of polys))
    as (s & gp & -> & Es & Hu & HX & Hkd & Hg & Hsr); [apply Hord|destruct (ni_id _ Hinv); lia|done..|].
  cbn [mbind outcome_bind].
  assert (Hgv : exists gv, DkgGlobalCommitments (ord Global) (ord Entries) all = Ret gv).
  { unfold DkgGlobalCommitments, DkgGlobalVK.
    pose proof (values_perm (ord Global) all (keys polys) mf (Hord _) Hk (fun k Hin => proj1 (Hall k Hin))) as Hv.
    apply Permutation_map_inv in Hv as (ids' & -> & Hp).
    destruct (global_loop_rep [] [] (map mf ids') (map (poly_of polys) ids')) as [f Hf]; [constructor| |].
    { rewrite Forall2_fmap. apply Forall_Forall2_diag, Forall_forall. intros k Hin. rewrite <- Hp in Hin.
      apply (Hall k Hin). }
    destruct (global_loop [] (map mf ids')) as [|P l]; [by eexists|].
    destruct (hex_points_ok _ _ Hf) as [hs ->]. by eexists. }
  destruct Hgv as [gv ->]. cbn [mbind outcome_bind]. eexists _, _, gp. split; [done|]. split; [done|].
  split; [done|]. split; [|done]. split; [destruct Hkd; by split|]. split; [done|]. split; [done|].
  exists (memberX (dnID d)). split; [by apply own_index|]. split; [|done]. cbn [fsID set_global]. by rewrite Es, (pb_canonical _ _ Hpub).
Qed.

End agreement.

(** ** An honest exchange *)

Lemma recordPeer_honest d pid n m c hexes s :
  received d !! pid = None -> honest n (dnT d) m c -> hex_points (dmCommits m) = Ret hexes ->
  0 <= memberX (dnID d) -> cong fl s (peval c (memberX (dnID d))) -> s mod fl <> 0 ->
  recordPeer d pid hexes (scalarBytes s) = Ret (with_peer d pid hexes (s mod fl)).
Proof.
  intros Hnew [Hc Hl Hr _] Eh Hx Hs Hnz. unfold recordPeer. rewrite Hnew, bool_decide_eq_false_2 by (by intros [? ?]).
  destruct (hex_points_parse (dmCommits m) c) as (hs & pts & Eh' & Ep & Hp); [rewrite Hc; by apply commitments_rep|].
  rewrite Eh in Eh'. injection Eh' as <-. cbn [guard]. rewrite Ep. cbn [mbind outcome_bind].
  pose proof (Forall2_length _ _ _ Hp) as Hlp. unfold zlen in *. rewrite Hlp, Hl, Z.eqb_refl. cbn [negb guard].
  rewrite scalar_roundtrip. pose proof (Z.mod_pos_bound s fl fl_pos) as Hb.
  replace ((s mod fl <=? 0) || (s mod fl >=? fl)) with false by (symmetry; apply orb_false_iff; lia).
  cbn [guard].
  destruct (ShareVerifies_spec pts c (memberX (dnID d)) (s mod fl) Hx ltac:(lia) Hp) as (b & -> & Hbb).
  rewrite (proj2 Hbb) by (by rewrite cong_mod by discriminate). done.
Qed.

Lemma NewDkgNode_ok `{Hashes} order id addr n t peers draw m c :
  2 <= t <= n -> Z.of_nat (size peers) = n -> is_Some (peers !! id) -> check_ids n [] (order (keys peers)) = true ->
  DkgGenerate id n t draw = Ret m -> honest n t m c ->
  exists d, NewDkgNode order id addr n t peers draw = Ret d /\ dnID d = id /\ dnN d = n /\ dnT d = t /\ dnMat d = m /\
    hex_points (dmCommits m) = Ret (dnOwnHex d) /\ dnSession d = sha256 (session_input peers) /\
    received d = ∅ /\ peerCommits d = ∅ /\ dnDone d = 0.
Proof.
  intros Ht Hsz Hid Hck Em [Hc _ Hr _]. unfold NewDkgNode. rewrite Hsz, Z.eqb_refl, (bool_decide_eq_true_2 _ Hid), Hck, Em.
  replace ((t <? 2) || (t >? n) || negb true) with false by (symmetry; rewrite !orb_false_iff; cbn; lia).
  cbn [guard negb mbind outcome_bind]. destruct (hex_points_ok (dmCommits m) c) as [hs Eh]; [rewrite Hc; by apply commitments_rep|].
  rewrite Eh. cbn [mbind outcome_bind]. eexists. by split_and!.
Qed.

(** The distributed ceremony: two participants that have each completed
    their N-1 exchanges, with whatever shares passed the checks, against the
    same published vectors, both finish; they get the same group key, which
    encodes the sum of the secrets, and shares of one polynomial. *)
Theorem dkg_members_agree `{Hashes} polys order id1 id2 addr1 addr2 n t peers draw1 draw2 a1 a2 d1 d2 ord1 ord2 :
  permutes order -> all_permute ord1 -> all_permute ord2 -> n < 2 ^ 63 ->
  NewDkgNode order id1 addr1 n t peers draw1 = Ret a1 -> rtc node_step a1 d1 -> published polys d1 ->
  NewDkgNode order id2 addr2 n t peers draw2 = Ret a2 -> rtc node_step a2 d2 -> published polys d2 ->
  exists d1' d2' s1 s2 gp, finish ord1 d1 = Ret (d1', gp) /\ finish ord2 d2 = Ret (d2', gp) /\
    dnSigner d1' = Some s1 /\ dnSigner d2' = Some s2 /\ encodes gp (peval (group_poly polys) 0) /\
    keyed gp (group_poly polys) s1 /\ keyed gp (group_poly polys) s2.
Proof.
  intros Ho Ho1 Ho2 Hn E1 R1 P1 E2 R2 P2.
  assert (Hreach : forall id addr draw a d, NewDkgNode order id addr n t peers draw = Ret a -> rtc node_step a d ->
    node_inv d /\ dnN d = n).
  { intros id addr draw a d E Hr. destruct (NewDkgNode_inv _ _ _ _ _ _ _ _ Ho E) as (Hi & _ & En & _). clear E.
    induction Hr as [d|d d' d'' Hs _ IH]; [done|].
    destruct (node_step_record _ _ Hs) as [->|(pid & hexes & sv & Er)]; [by apply IH|].
    apply IH; [by eapply recordPeer_inv|by rewrite (recordPeer_keeps _ _ _ _ _ Er)]. }
  destruct (Hreach _ _ _ _ _ E1 R1) as [I1 N1], (Hreach _ _ _ _ _ E2 R2) as [I2 N2].
  destruct (finish_ok polys d1 ord1 I1 P1 Ho1 ltac:(lia)) as (d1' & s1 & gp1 & F1 & S1 & _ & [K1 _] & G1).
  destruct (finish_ok polys d2 ord2 I2 P2 Ho2 ltac:(lia)) as (d2' & s2 & gp2 & F2 & S2 & _ & [K2 _] & G2).
  assert (gp1 = gp2) as <- by (by eapply encodes_det; [reflexivity|exact G1|exact G2]).
  exists d1', d2', s1, s2, gp1. done.
Qed.

(** ** At concrete inputs: a ceremony of two *)

Definition a5 : Z := leToInt (replicate 32 Byte.x05) mod fl.
Definition peers2 : gmap string string := {["M1" := "h1"; "M2" := "h2"]}%string.
Definition polys2 : gmap string (list Z) := {["M1" := [a5; a5]; "M2" := [a5; a5]]}%string.

Lemma a5_draw i : randomScalar (draw5 i) = Ret a5.
Proof. reflexivity. Qed.
Lemma a5_draws : random_scalars draw5 1 (Z.to_nat (2 - 1)) = Ret [a5].
Proof. reflexivity. Qed.
Lemma a5_share : eval_loop fl [a5] a5 1 mod fl <> 0 /\ eval_loop fl [a5] a5 2 mod fl <> 0.
Proof. split; intros E; vm_compute in E; discriminate E. Qed.

Lemma a5_outsider :
  foldl (fun (m : gmap string Z) x => <[member_id x := evalPolyL [a5] a5 x]> m) ∅ (indices 2) !! "M9"%string = None.
Proof. vm_compute. reflexivity. Qed.

Lemma a5_pos : 0 <= a5 < fl.
Proof. apply Z.mod_pos_bound, fl_pos. Qed.

#[global] Opaque a5.

Lemma node_example id x : id = member_id x -> x ∈ indices 2 -> is_Some (peers2 !! id) ->
  exists d m, NewDkgNode (fun l => l) id "" 2 2 peers2 draw5 = Ret d /\ dnID d = id /\ dnN d = 2 /\ dnT d = 2 /\
    dnMat d = m /\ honest 2 2 m [a5; a5] /\ dmShares m !! "M9"%string = None /\
    hex_points (dmCommits m) = Ret (dnOwnHex d) /\ dnSession d = sha256 (session_input peers2) /\ received d = ∅ /\ peerCommits d = ∅ /\ dnDone d = 0.
Proof.
  intros Eid Hx Hp.
  destruct (DkgGenerate_coeff id 2 2 draw5 a5 [a5]) as (m & Em & _ & Hm & Esh); [lia|lia|apply a5_draw|apply a5_draws|].
  destruct (NewDkgNode_ok (fun l => l) id "" 2 2 peers2 draw5 m [a5; a5]) as (d & E & ? & ? & ? & ? & ?);
    [lia|reflexivity|exact Hp|vm_compute; reflexivity|exact Em|exact Hm|].
  exists d, m. assert (E9 := a5_outsider). rewrite <- Esh in E9. split_and!; tauto.
Qed.

(** One of the two, after the exchange. *)
Lemma pair_example me other x : me <> other -> me = member_id x -> x ∈ indices 2 ->
  (exists y, other = member_id y /\ y ∈ indices 2) ->
  is_Some (peers2 !! me) -> is_Some (peers2 !! other) -> polys2 !! me = Some [a5; a5] -> polys2 !! other = Some [a5; a5] ->
  eval_loop fl [a5] a5 x mod fl <> 0 -> memberX me = x ->
  exists a d, NewDkgNode (fun l => l) me "" 2 2 peers2 draw5 = Ret a /\ rtc node_step a d /\ published polys2 d /\
    is_Some (received d !! other).
Proof.
  intros Hne Eme Hx (y & Eo & Hy) Hp1 Hp2 Hq1 Hq2 Hnz Hmx.
  destruct (node_example me x Eme Hx Hp1) as (a & m & Ea & Eid & En & Et & Em & Hm & _ & _ & _ & Erc & Epc & Ed).
  destruct (node_example other y Eo Hy Hp2) as (b & mb & _ & _ & _ & _ & _ & Hmb & _ & Ehb & _).
  set (s := eval_loop fl [a5] a5 x).
  assert (Hx0 : 0 <= x) by (destruct (indices_ok 2 ltac:(lia)) as [Hi _]; rewrite Forall_forall in Hi; by apply Hi).
  assert (Er : recordPeer a other (dnOwnHex b) (scalarBytes s) = Ret (with_peer a other (dnOwnHex b) (s mod fl))).
  { eapply recordPeer_honest; [by rewrite Erc|by rewrite Et|exact Ehb|by rewrite Eid, Hmx| |done].
    rewrite Eid, Hmx. by apply eval_loop_cong. }
  exists a, (with_peer a other (dnOwnHex b) (s mod fl)). split; [done|]. split; [|split].
  - apply rtc_once. apply (step_dial a other {| xKind := dkgExchange; xSession := dnSession a; xFrom := other;
      xCommits := dnOwnHex b; xShareVal := scalarBytes s |}).
    unfold exchange. cbn [xKind xSession xFrom xCommits xShareVal].
    rewrite bytes_equal_refl, !bool_decide_eq_true_2 by done. cbn [negb orb guard]. exact Er.
  - split; cbn [dnID with_peer peerCommits dnDone dnN dnT dnMat]; rewrite ?Eid.
    + exists [a5; a5]. rewrite En, Et, Em. split; [exact Hq1|exact Hm].
    + by rewrite Hmx.
    + intros pid hexes. rewrite Epc. intros Hl. apply lookup_insert_Some in Hl as [[<- <-]|[_ Hl]]; [|by rewrite lookup_empty in Hl].
      split; [done|]. exists [a5; a5].
      destruct (hex_points_parse (dmCommits mb) [a5; a5]) as (hs & pts & Eh' & Ep & Hp).
      { rewrite (hn_commits _ _ _ _ Hmb). apply commitments_rep, Hmb. }
      rewrite Ehb in Eh'. injection Eh' as <-. exists pts. split; [exact Hq2|]. split; [exact Ep|exact Hp].
    + rewrite Ed. vm_compute. reflexivity.
  - cbn. rewrite lookup_insert_eq. by eexists.
Qed.

Lemma pair1 : exists a d, NewDkgNode (fun l => l) "M1" "" 2 2 peers2 draw5 = Ret a /\ rtc node_step a d /\
  published polys2 d /\ is_Some (received d !! "M2"%string).
Proof.
  apply (pair_example "M1" "M2" 1).
  - discriminate.
  - reflexivity.
  - left.
  - exists 2. split; [reflexivity|right; left].
  - by eexists.
  - by eexists.
  - reflexivity.
  - reflexivity.
  - apply a5_share.
  - reflexivity.
Qed.

Lemma pair2 : exists a d, NewDkgNode (fun l => l) "M2" "" 2 2 peers2 draw5 = Ret a /\ rtc node_step a d /\
  published polys2 d /\ is_Some (received d !! "M1"%string).
Proof.
  apply (pair_example "M2" "M1" 2).
  - discriminate.
  - reflexivity.
  - right; left.
  - exists 1. split; [reflexivity|left].
  - by eexists.
  - by eexists.
  - reflexivity.
  - reflexivity.
  - apply a5_share.
  - reflexivity.
Qed.

Lemma all_permute_id : all_permute (fun _ l => l).
Proof. intros l k. reflexivity. Qed.

Lemma DkgNode_invariant_witness : exists a d,
  NewDkgNode (fun l => l) "M1" "" 2 2 peers2 draw5 = Ret a /\ rtc node_step a d /\
  dnDone d = Z.of_nat (size (received d)) /\ is_Some (peerCommits d !! "M2"%string).
Proof.
  destruct pair1 as (a & d & E & R & _ & Hs). exists a, d. split; [exact E|]. split; [exact R|].
  destruct (DkgNode_invariant (fun l => l) "M1" "" 2 2 peers2 draw5 a d permutes_id E R) as (H1 & H2 & _).
  split; [exact H1|]. apply H2. exact Hs.
Defined.

Lemma dkg_members_agree_witness : exists a1 d1 a2 d2 d1' d2' gp,
  NewDkgNode (fun l => l) "M1" "" 2 2 peers2 draw5 = Ret a1 /\ rtc node_step a1 d1 /\
  NewDkgNode (fun l => l) "M2" "" 2 2 peers2 draw5 = Ret a2 /\ rtc node_step a2 d2 /\
  finish (fun _ l => l) d1 = Ret (d1', gp) /\ finish (fun _ l => l) d2 = Ret (d2', gp).
Proof.
  destruct pair1 as (a1 & d1 & E1 & R1 & P1 & _). destruct pair2 as (a2 & d2 & E2 & R2 & P2 & _).
  destruct (dkg_members_agree polys2 (fun l => l) "M1" "M2" "" "" 2 2 peers2 draw5 draw5 a1 a2 d1 d2
    (fun _ l => l) (fun _ l => l) permutes_id all_permute_id all_permute_id ltac:(lia) E1 R1 P1 E2 R2 P2)
    as (d1' & d2' & s1 & s2 & gp & F1 & F2 & _).
  exists a1, d1, a2, d2, d1', d2', gp. split; [exact E1|]. split; [exact R1|]. split; [exact E2|].
  split; [exact R2|]. split; [exact F1|exact F2].
Defined.

Lemma DkgCeremony_signs_witness : exists ss gp us' sig,
  DkgCeremony (fun _ l => l) 2 2 (fun _ => draw5) = Ret (ss, gp) /\
  FrostRound (fun l => l) gp ss [Byte.x2a] draw5 = Ret (us', sig) /\
  @ed25519_Verify Rfc8032.ed25519 gp [Byte.x2a] sig = Ret true.
Proof.
  assert (Hd : ceremony_drawn 2 2 (fun _ => draw5)) by (intros x _; apply draw5_all).
  destruct (DkgCeremony_signs (E := Rfc8032.ed25519) (S := Rfc8032.std) (fun _ l => l) 2 2 (fun _ => draw5)
    ltac:(lia) ltac:(lia) all_permute_id Hd) as (ss & gp & Ec & Hl & Hround).
  destruct (DkgCeremony_ok (fun _ l => l) 2 2 (fun _ => draw5) ltac:(lia) ltac:(lia) all_permute_id Hd)
    as (ss' & gp' & F & Ec' & Hids & _). rewrite Ec in Ec'. injection Ec' as <- <-.
  destruct (Hround ss (fun l => l) [Byte.x2a] draw5) as (us' & sig & ER & EV).
  - intros x Hx. exact Hx.
  - rewrite Hids. apply member_ids. lia.
  - rewrite Hl. lia.
  - rewrite Hl. lia.
  - apply permutes_id.
  - apply draw5_all.
  - exists ss, gp, us', sig. split; [exact Ec|]. split; [exact ER|exact EV].
Defined.

(** A sender outside the ceremony crashes the member. *)
Lemma handleFrame_outsider_witness : exists d d1 m,
  NewDkgNode (fun l => l) "M1" "" 2 2 peers2 draw5 = Ret d /\ dnPeers d !! xFrom m = None /\
  handleFrame true (fun _ => true) d m = (d1, Panic) /\ dnDone d1 = dnN d - 1.
Proof.
  destruct (node_example "M1" 1 eq_refl ltac:(left) ltac:(by eexists))
    as (d & m & Ed & Eid & En & Et & Em & Hm & E9 & Eh & Es & Erc & Epc & Edn).
  destruct (NewDkgNode_inv _ _ _ _ _ _ _ _ permutes_id Ed) as (_ & _ & _ & _ & Ep & _).
  set (s := eval_loop fl [a5] a5 1).
  set (fr := {| xKind := dkgExchange; xSession := dnSession d; xFrom := "M9"; xCommits := dnOwnHex d;
                xShareVal := scalarBytes s |}).
  assert (Er : recordPeer d (xFrom fr) (xCommits fr) (xShareVal fr) = Ret (with_peer d "M9" (dnOwnHex d) (s mod fl))).
  { eapply recordPeer_honest; [by rewrite Erc|by rewrite Et|exact Eh|rewrite Eid; discriminate| |apply a5_share].
    rewrite Eid. by apply eval_loop_cong. }
  destruct (handleFrame_outsider d (fun _ => true) fr (with_peer d "M9" (dnOwnHex d) (s mod fl))) as [H1 H2].
  - rewrite Ep. reflexivity.
  - rewrite Em. exact E9.
  - reflexivity.
  - reflexivity.
  - reflexivity.
  - exact Er.
  - exists d, (with_peer d "M9" (dnOwnHex d) (s mod fl)), fr. split; [exact Ed|].
    split; [rewrite Ep; reflexivity|]. split; [exact H1|]. rewrite H2, Edn, En. reflexivity.
Defined.
