(* ===== verification/Reshare.v ===== *)
(** * Membership rotation with a fixed group key: [reshare.go]

    [ReshareSplit] on the side of an old member, [ReshareCombine] on the side of
    a new one.  The theorem: when enough old members split their shares, the
    shares the new members combine lie on one fresh polynomial with the same
    secret, so they sign under the same group key; the checks accept what an
    honest member sends. *)
From S2P Require Import Prelude Crypto Encoding Modular Edwards EdwardsTheory EdwardsCodec Frost.
From S2P Require Import FrostTheory FrostSpec Dkg DkgTheory.

Record ReshareCommit := { rcFrom : string; rcCommits : list string }.

Definition ReshareSplit (me : string) (y : option Z) (oldSet newSet : list Z) (tNew : Z)
    (draw : nat -> option bytes) : outcome (ReshareCommit * gmap Z Z) :=
  match y with
  | None => Err "reshare: bad share"
  | Some y =>
      guard ((y <=? 0) || (y >=? fl)) "reshare: bad share" (
      guard ((tNew <? 1) || (tNew >? zlen newSet)) "reshare: bad new threshold" (
      let xi := memberX me in
      guard (xi =? 0) "reshare: bad member id" (
      lam ← lagrange xi oldSet;
      let a0 := (lam * y) mod fl in
      coeff ← random_scalars draw 0 (Z.to_nat (tNew - 1));
      let shares := foldl (fun m j => <[j := evalPolyL coeff a0 j]> m) ∅ newSet in
      hexC ← hex_points (commitments (a0 :: coeff));
      Ret ({| rcFrom := me; rcCommits := hexC |}, shares))))
  end.

(** The loop of [ReshareCombine]; [combined] is [None] while it is nil. *)
Fixpoint combine_loop (newIndex : Z) (commits : gmap string ReshareCommit) (subShares : gmap string (option Z))
    (froms : list string) (y : Z) (combined : option (list (option point)))
    : outcome (Z * option (list (option point))) :=
  match froms with
  | [] => Ret (y, combined)
  | from :: froms =>
      match commits !! from with
      | None => Panic
      | Some rc =>
          pts ← parsePoints (rcCommits rc);
          match subShares !! from with
          | Some (Some g) =>
              ok ← ShareVerifies pts newIndex g;
              guard (negb ok) "reshare: unverifiable sub-share from " (
              let len := match combined with Some c => length c | None => 0%nat end in
              guard ((0 <? length pts)%nat && (0 <? len)%nat && negb (length pts =? len)%nat)
                "reshare: commitment length mismatch" (
              c ← add_points (match combined with Some c => c | None => replicate (length pts) None end) pts;
              combine_loop newIndex commits subShares froms (y + g) (Some c)))
          | _ => Err "reshare: missing sub-share from "
          end
      end
  end.

Definition ReshareCombine (me : string) (newIndex : Z) (commits : gmap string ReshareCommit)
    (subShares : gmap string (option Z)) (groupPub : bytes) : outcome FrostSigner :=
  guard (newIndex <=? 0) "reshare: bad new index" (
  guard ((size commits =? 0)%nat || negb (size commits =? size subShares)%nat)
    "reshare: commit/share count mismatch" (
  '(y, combined) ← combine_loop newIndex commits subShares (sorted_keys commits) 0 None;
  let y := y mod fl in
  ps ← encode (scalarMult y basePoint);
  vk ← all_set (default [] combined);
  Ret (new_signer me newIndex y groupPub ps vk))).

(** ** An honest split *)

(** [rc] and [sh] publish and evaluate the polynomial [g] of length [t]. *)
Record splits (t : nat) (newSet : list Z) (rc : ReshareCommit) (sh : gmap Z Z) (g : list Z) : Prop := {
  sp_length : length g = t;
  sp_points : exists pts, parsePoints (rcCommits rc) = Ret pts /\ Forall2 rep pts g;
  sp_shares : forall j, j ∈ newSet -> exists v, sh !! j = Some v /\ 0 <= v /\ cong fl v (peval g j);
}.

Lemma ReshareSplit_ok me y oldSet newSet tNew draw :
  0 < y < fl -> 1 <= tNew <= zlen newSet -> 0 < memberX me ->
  NoDup newSet -> NoDup oldSet -> Forall index_ok oldSet -> memberX me ∈ oldSet ->
  all_drawn draw 0 (Z.to_nat (tNew - 1)) ->
  exists rc sh g, ReshareSplit me (Some y) oldSet newSet tNew draw = Ret (rc, sh) /\
    splits (Z.to_nat tNew) newSet rc sh g /\
    cong fl (peval g 0) (lag_num (memberX me) oldSet * lag_inv fl (memberX me) oldSet * y).
Proof.
  intros Hy Ht Hx Hnd Hno Hix Hin Hd. unfold ReshareSplit.
  replace ((y <=? 0) || (y >=? fl)) with false by (symmetry; apply orb_false_iff; lia).
  replace ((tNew <? 1) || (tNew >? zlen newSet)) with false by (symmetry; apply orb_false_iff; lia).
  replace (memberX me =? 0) with false by lia. cbn [guard].
  destruct (lagrange_spec (memberX me) oldSet Hno Hix Hin) as (lam & -> & Hlam & Hc). cbn [mbind outcome_bind].
  destruct (random_scalars_drawn draw 0 _ Hd) as [coeff Ec]. destruct (random_scalars_ok _ _ _ _ Ec) as [Hl HF].
  rewrite Ec. cbn [mbind outcome_bind]. set (a0 := (lam * y) mod fl).
  assert (Ha : 0 <= a0) by (apply Z.mod_pos_bound, fl_pos).
  assert (Hr : Forall (fun c => 0 <= c) (a0 :: coeff)).
  { constructor; [done|]. eapply Forall_impl; [exact HF|]. by intros c []. }
  destruct (hex_points_parse _ _ (commitments_rep _ Hr)) as (hs & pts & -> & Ep & Hp). cbn [mbind outcome_bind].
  eexists _, _, (a0 :: coeff). split; [done|]. split; [split; cbn [rcCommits]|].
  - cbn [length]. lia.
  - by exists pts.
  - intros j Hj. exists (evalPolyL coeff a0 j). split; [|split; [by apply eval_loop_nonneg|by apply eval_loop_cong]].
    assert (Hg : forall l (m : gmap Z Z), j ∈ l \/ m !! j = Some (evalPolyL coeff a0 j) ->
      foldl (fun m j => <[j := evalPolyL coeff a0 j]> m) m l !! j = Some (evalPolyL coeff a0 j)).
    { induction l as [|k l IH]; intros m [Hm|Hm]; cbn [foldl]; [by apply not_elem_of_nil in Hm|done|..]; apply IH.
      - apply elem_of_cons in Hm as [->|Hm]; [right; apply lookup_insert_eq|by left].
      - right. destruct (decide (k = j)) as [->|Hne]; [apply lookup_insert_eq|by rewrite lookup_insert_ne]. }
    apply Hg. by left.
  - cbn [peval]. rewrite Z.mul_0_l, Z.add_0_r. unfold a0. by rewrite cong_mod, Hc by discriminate.
Qed.

(** ** Combining *)

Section combine.
Context (t : nat) (newSet : list Z) (j : Z) (commits : gmap string ReshareCommit) (subs : gmap string (option Z)).
Context (cf : string -> list Z).
Hypothesis Ht : (0 < t)%nat.
Hypothesis Hj : 0 <= j.

Definition sent (from : string) : Prop :=
  exists rc g, commits !! from = Some rc /\ subs !! from = Some (Some g) /\ 0 <= g /\
    cong fl g (peval (cf from) j) /\ length (cf from) = t /\
    exists pts, parsePoints (rcCommits rc) = Ret pts /\ Forall2 rep pts (cf from).

Lemma combine_loop_ok froms y c a :
  Forall sent froms -> 0 <= y -> Forall2 rep c a -> length c = t ->
  exists y' c' f, combine_loop j commits subs froms y (Some (map Some c)) = Ret (y', Some (map Some c')) /\
    0 <= y' /\ cong fl y' (y + peval (psum (map cf froms)) j) /\
    Forall2 rep c' f /\ length c' = t /\ (forall x, peval f x = peval a x + peval (psum (map cf froms)) x).
Proof.
  intros HF. revert y c a. induction HF as [|from froms (rc & g & Erc & Eg & Hg & Hcg & Hlen & pts & Ep & Hp) _ IH];
    intros y c a Hy Hc Hl; cbn [combine_loop map].
  { exists y, c, a. do 2 (split; [done|]). split; [cbn; by rewrite Z.add_0_r|]. do 2 (split; [done|]).
    intros x. cbn. by rewrite Z.add_0_r. }
  rewrite Erc, Ep. cbn [mbind outcome_bind]. rewrite Eg.
  destruct (ShareVerifies_spec pts _ j g Hj Hg Hp) as (b & -> & Hb). rewrite (proj2 Hb Hcg). cbn [mbind outcome_bind negb guard].
  pose proof (Forall2_length _ _ _ Hp) as Hlp. rewrite length_map, Hl, Hlp, Hlen, Nat.eqb_refl, andb_false_r. cbn [guard].
  destruct (add_points_ok (map Some c) a pts (cf from)) as (r & -> & Hr); [by apply orep_some|done|rewrite length_map; lia|].
  cbn [mbind outcome_bind].
  destruct (IH (y + g) r (padd a (cf from))) as (y' & c' & f & -> & H1 & H2 & H3 & H4 & H5); [lia|done| |].
  { rewrite (Forall2_length _ _ _ Hr), padd_length, <- (Forall2_length _ _ _ Hc). lia. }
  exists y', c', f. do 2 (split; [done|]). split; [|split; [done|split; [done|]]].
  - rewrite H2, Hcg. unfold psum. cbn [foldr]. rewrite peval_padd. cong_ring.
  - intros x. rewrite H5. unfold psum. cbn [foldr]. rewrite !peval_padd. ring.
Qed.

Lemma combine_all_ok froms :
  froms <> [] -> Forall sent froms ->
  exists y' c' f, combine_loop j commits subs froms 0 None = Ret (y', Some (map Some c')) /\
    0 <= y' /\ cong fl y' (peval (psum (map cf froms)) j) /\
    Forall2 rep c' f /\ (forall x, peval f x = peval (psum (map cf froms)) x).
Proof.
  intros Hne HF. destruct HF as [|from froms (rc & g & Erc & Eg & Hg & Hcg & Hlen & pts & Ep & Hp) HF]; [done|].
  cbn [combine_loop map]. rewrite Erc, Ep. cbn [mbind outcome_bind]. rewrite Eg.
  destruct (ShareVerifies_spec pts _ j g Hj Hg Hp) as (b & -> & Hb). rewrite (proj2 Hb Hcg). cbn [mbind outcome_bind negb guard].
  rewrite andb_false_r. cbn [andb guard].
  destruct (add_points_ok (replicate (length pts) None) (replicate (length pts) 0) pts (cf from)) as (r & -> & Hr).
  { clear. induction (length pts); cbn; constructor; done. }
  { done. }
  { by rewrite length_replicate. }
  cbn [mbind outcome_bind].
  destruct (combine_loop_ok froms (0 + g) r (padd (replicate (length pts) 0) (cf from)) HF)
    as (y' & c' & f & -> & H1 & H2 & H3 & _ & H5); [lia|done| |].
  { rewrite (Forall2_length _ _ _ Hr), padd_length, length_replicate, (Forall2_length _ _ _ Hp). lia. }
  exists y', c', f. do 2 (split; [done|]). split; [|split; [done|]].
  - rewrite H2, Hcg. unfold psum. cbn [foldr]. rewrite peval_padd. cong_ring.
  - intros x. rewrite H5. unfold psum. cbn [foldr]. rewrite !peval_padd, peval_zeros. ring.
Qed.

End combine.

(** ** A rotation *)

(** Every old member splits; what a new member at index [j] receives. *)
Fixpoint split_all (old : list FrostSigner) (oldSet newSet : list Z) (tNew : Z)
    (draws : string -> nat -> option bytes)
    : outcome (gmap string ReshareCommit * gmap string (gmap Z Z)) :=
  match old with
  | [] => Ret (∅, ∅)
  | s :: old =>
      '(rc, sh) ← ReshareSplit (fsID s) (Some (Share s)) oldSet newSet tNew (draws (fsID s));
      '(cm, sm) ← split_all old oldSet newSet tNew draws;
      Ret (<[fsID s := rc]> cm, <[fsID s := sh]> sm)
  end.
Definition sub_shares (sm : gmap string (gmap Z Z)) (j : Z) : gmap string (option Z) := (fun sh => sh !! j) <$> sm.

Record old_member (gp : bytes) (f : list Z) (s : FrostSigner) : Prop := {
  om_keyed : keyed gp f s;
  om_range : 0 < Share s < fl;
  om_index : 0 < fsX s /\ memberX (fsID s) = fsX s;
}.

Section rotation.
Context (gp : bytes) (f : list Z) (oldSet newSet : list Z) (tNew : Z) (draws : string -> nat -> option bytes).
Hypothesis Hnew : NoDup newSet.
Hypothesis Hnidx : Forall index_ok newSet.
Hypothesis Ht : 1 <= tNew <= zlen newSet.
Hypothesis Hold : NoDup oldSet.
Hypothesis Hoidx : Forall index_ok oldSet.
Hypothesis Hdraw : forall id, all_drawn (draws id) 0 (Z.to_nat (tNew - 1)).

Lemma split_all_ok old : NoDup (ids_of old) -> Forall (old_member gp f) old -> map fsX old ⊆ oldSet ->
  exists cm sm cf, split_all old oldSet newSet tNew draws = Ret (cm, sm) /\
    keys cm ≡ₚ ids_of old /\ keys sm ≡ₚ ids_of old /\
    (forall id, id ∈ ids_of old -> exists rc sh, cm !! id = Some rc /\ sm !! id = Some sh /\
       splits (Z.to_nat tNew) newSet rc sh (cf id)) /\
    cong fl (zsum (map (fun id => peval (cf id) 0) (ids_of old)))
            (zsum (map (fun s => lag_num (fsX s) oldSet * lag_inv fl (fsX s) oldSet * peval f (fsX s)) old)).
Proof.
  induction old as [|s old IH]; cbn [map split_all].
  { intros _ _ _. exists ∅, ∅, (fun _ => []). split; [done|]. unfold keys. rewrite !map_to_list_empty.
    do 2 (split; [done|]). split; [by intros ? ?%not_elem_of_nil|]. done. }
  intros [Hid Hnd]%NoDup_cons [[Hk Hr [Hx HX]] HF]%Forall_cons Hsub.
  destruct (ReshareSplit_ok (fsID s) (Share s) oldSet newSet tNew (draws (fsID s)) Hr Ht) as (rc & sh & g & -> & Hsp & Hg);
    try done; [lia|rewrite HX; apply Hsub; left|]. cbn [mbind outcome_bind].
  destruct (IH Hnd HF) as (cm & sm & cf & -> & Hkc & Hks & Hall & Hsum); [intros x Hin; apply Hsub; by right|].
  cbn [mbind outcome_bind].
  set (cf' := fun id => if decide (id = fsID s) then g else cf id).
  assert (Hcf : forall id, id ∈ ids_of old -> cf' id = cf id).
  { intros id Hin. unfold cf'. rewrite decide_False; [done|]. by intros ->. }
  assert (Hkk : forall {A} (m : gmap string A) v, keys m ≡ₚ ids_of old -> keys (<[fsID s := v]> m) ≡ₚ fsID s :: ids_of old).
  { intros A m v Hm. apply keys_perm; [by constructor|]. intros id. rewrite elem_of_cons, <- Hm, elem_of_keys.
    rewrite lookup_insert_is_Some. destruct (decide (id = fsID s)) as [->|]; naive_solver. }
  exists (<[fsID s := rc]> cm), (<[fsID s := sh]> sm), cf'. split; [done|]. split; [by apply Hkk|].
  split; [by apply Hkk|]. split.
  - intros id [->|Hin]%elem_of_cons.
    + exists rc, sh. rewrite !lookup_insert_eq. unfold cf'. by rewrite decide_True.
    + destruct (Hall id Hin) as (rc' & sh' & Hc & Hs & Hspl). exists rc', sh'.
      rewrite !lookup_insert_ne by (by intros Heq; apply Hid; rewrite Heq). by rewrite (Hcf id Hin).
  - unfold zsum in *. cbn [foldr].
    rewrite (map_ext_in _ (fun id => peval (cf id) 0)) by (intros id Hin%list_elem_of_In; by rewrite (Hcf id Hin)).
    rewrite Hsum. unfold cf'. rewrite decide_True by done. rewrite Hg, HX, (k_share _ _ _ Hk). done.
Qed.

(** A new member's combined share lies on the sum of the split polynomials. *)
Lemma ReshareCombine_ok cm sm cf ids me j :
  ids <> [] -> NoDup ids -> keys cm ≡ₚ ids -> keys sm ≡ₚ ids ->
  (forall id, id ∈ ids -> exists rc sh, cm !! id = Some rc /\ sm !! id = Some sh /\
     splits (Z.to_nat tNew) newSet rc sh (cf id)) ->
  j ∈ newSet -> 0 < j ->
  exists s, ReshareCombine me j cm (sub_shares sm j) gp = Ret s /\ fsID s = me /\ fsX s = j /\ used s = false /\
    keyed gp (psum (map cf ids)) s.
Proof.
  intros Hne Hnd Hkc Hks Hall Hjn Hj. unfold ReshareCombine.
  replace (j <=? 0) with false by lia.
  assert (Hsz : size cm = length ids /\ size (sub_shares sm j) = length ids).
  { unfold sub_shares. rewrite map_size_fmap, !size_keys, Hkc, Hks. done. }
  destruct Hsz as [-> ->]. rewrite Nat.eqb_refl.
  replace (length ids =? 0)%nat with false by (symmetry; apply Nat.eqb_neq; by destruct ids).
  cbn [guard orb negb].
  assert (Hps : sorted_keys cm ≡ₚ ids) by (by rewrite sorted_keys_perm).
  destruct (combine_all_ok (Z.to_nat tNew) j cm (sub_shares sm j) cf) with (froms := sorted_keys cm)
    as (y & c' & fc & -> & Hy & Hcy & Hc & Hf); [lia|lia| | |].
  { intros E. rewrite E in Hps. by apply Permutation_nil in Hps. }
  { apply Forall_forall. intros id Hin. rewrite Hps in Hin.
    destruct (Hall id Hin) as (rc & sh & Hrc & Hsh & [Hl (pts & Ep & Hp) Hv]).
    destruct (Hv j Hjn) as (v & Ev & Hv0 & Hcv). exists rc, v. unfold sub_shares. rewrite lookup_fmap, Hsh. cbn.
    rewrite Ev. do 5 (split; [done|]). by exists pts. }
  cbn [mbind outcome_bind]. pose proof (Z.mod_pos_bound y fl fl_pos).
  destruct (encode_mult (y mod fl)) as (ps & -> & Hps'); [lia|]. cbn [mbind outcome_bind from_option Datatypes.id].
  rewrite all_set_some. cbn [mbind outcome_bind]. eexists. split; [done|]. do 3 (split; [done|]).
  rewrite Forall_forall in Hnidx.
  split; cbn [GroupPub new_signer Share fsX PubShare]; [done| |lia|done|by apply Hnidx].
  rewrite cong_mod, Hcy by discriminate. by rewrite !psum_eval, Hps.
Qed.

End rotation.

(** The new members that combine, with the ids and indices [ms]. *)
Fixpoint combine_members (ms : list (string * Z)) (cm : gmap string ReshareCommit) (sm : gmap string (gmap Z Z))
    (gp : bytes) : outcome (list FrostSigner) :=
  match ms with
  | [] => Ret []
  | (me, j) :: ms =>
      s ← ReshareCombine me j cm (sub_shares sm j) gp; ss ← combine_members ms cm sm gp; Ret (s :: ss)
  end.

(** C31. Resharing keeps the group key: when at least threshold-many old
    members (their shares of any origin on one polynomial) split over their
    set, every new member's ReshareCombine accepts what it received; and any
    [tNew] or more (at least two) of the new members complete a signing round
    whose signature verifies under the unchanged group key. *)
Theorem reshare_signs `{Hs : Hashes} `{E : Ed25519} `{S : !Ed25519Std} gp f old newSet tNew draws :
  encodes gp (peval f 0) -> Forall (old_member gp f) old -> NoDup (map fsID old) -> NoDup (map fsX old) ->
  (0 < length old)%nat -> (length f <= length old)%nat ->
  NoDup newSet -> Forall (fun j => 0 < j < 2 ^ 63) newSet -> 1 <= tNew <= zlen newSet ->
  (forall id, all_drawn (draws id) 0 (Z.to_nat (tNew - 1))) ->
  exists cm sm, split_all old (map fsX old) newSet tNew draws = Ret (cm, sm) /\
    forall ms order m draw, NoDup (map fst ms) -> NoDup (map snd ms) -> map snd ms ⊆ newSet ->
      tNew <= zlen ms -> 2 <= zlen ms -> permutes order -> all_drawn draw 0 (2 * length ms) ->
      exists us us' sig, combine_members ms cm sm gp = Ret us /\
        FrostRound order gp us m draw = Ret (us', sig) /\ ed25519_Verify gp m sig = Ret true.
Proof.
  intros Hg Hold Hnd Hndx Hne Hdeg Hnew Hnidx Ht Hd.
  assert (Hnidx' : Forall index_ok newSet) by (eapply Forall_impl; [exact Hnidx|]; unfold index_ok; lia).
  assert (Hoidx : Forall index_ok (map fsX old)).
  { apply Forall_map. eapply Forall_impl; [exact Hold|]. intros s [Hk _ _]. apply k_index in Hk. done. }
  destruct (split_all_ok gp f (map fsX old) newSet tNew draws Hnew Ht Hndx Hoidx Hd old Hnd Hold)
    as (cm & sm & cf & E1 & Hkc & Hks & Hall & Hsum); [done|].
  exists cm, sm. split; [done|]. intros ms order m draw Hm1 Hm2 Hsub Htm H2 Ho Hdr.
  set (F := psum (map cf (map fsID old))).
  assert (HF0 : cong fl (peval F 0) (peval f 0)).
  { unfold F. rewrite psum_eval, map_map, Hsum.
    rewrite <- (map_map fsX (fun x => lag_num x (map fsX old) * lag_inv fl x (map fsX old) * peval f x)).
    apply lagrange_zero; [apply fl_ge_2|by apply spread_indices|by rewrite length_map]. }
  assert (Hcomb : exists us, combine_members ms cm sm gp = Ret us /\ map fsID us = map fst ms /\ map fsX us = map snd ms /\
    Forall (keyed gp F) us /\ Forall (fun s => used s = false) us).
  { clear Hm1 Hm2 Htm H2 Hdr. induction ms as [|[me j] ms IH]; cbn [combine_members]; [by exists []|].
    assert (Hj : j ∈ newSet) by (apply Hsub; left). rewrite Forall_forall in Hnidx.
    destruct (ReshareCombine_ok gp newSet tNew Hnidx' Ht cm sm cf (map fsID old) me j) as (s & -> & Eid & EX & Eu & Ek);
      try done; [by destruct old; cbn in Hne; try lia|by apply Hnidx|]. cbn [mbind outcome_bind].
    destruct IH as (us & -> & Hi & HX & Hk & Hu); [intros x Hx; apply Hsub; by right|]. cbn [mbind outcome_bind].
    exists (s :: us). cbn [map fst snd]. rewrite Eid, EX, Hi, HX. do 3 (split; [done|]). split; by constructor. }
  destruct Hcomb as (us & Ec & Hi & HX & Hk & Hu). assert (Hlen : length us = length ms) by (by rewrite <- (length_map fsX), HX, length_map).
  destruct (FrostRound_ok gp F us) with (order := order) (m := m) (draw := draw) as (us' & r & z & rr & ER & Hr & Hz & _);
    try done; try (by rewrite ?Hi, ?HX).
  - intros ->. cbn in Hlen. unfold zlen in H2. rewrite <- Hlen in H2. cbn in H2. lia.
  - unfold F. rewrite (psum_length _ (Z.to_nat tNew)); [unfold zlen in *; lia|by rewrite !length_map|].
    apply Forall_map, Forall_forall. intros id Hin. destruct (Hall id Hin) as (rc & sh & _ & _ & [Hl _ _]). done.
  - rewrite Hlen. unfold zlen in H2. lia.
  - by rewrite Hlen.
  - exists us, us', (r ++ scalarBytes z). split; [done|]. split; [done|].
    rewrite Verify_len by (by apply encodes_length in Hg). f_equal.
    apply (std_verify gp (peval f 0) r rr); [done..|apply Z.mod_pos_bound, fl_pos|].
    by rewrite cong_mod, Hz, HF0 by discriminate.
Qed.

(** ** At a concrete input *)

Lemma eval_a5 x : x = 1 \/ x = 2 -> 0 < eval_loop fl [a5] a5 x < fl.
Proof.
  intros Hx. pose proof (eval_loop_range fl [a5] a5 x fl_pos a5_pos) as Hr. destruct a5_share as [H1 H2].
  assert (eval_loop fl [a5] a5 x <> 0); [|lia]. intros E.
  destruct Hx as [-> | ->]; rewrite E in *; [by apply H1|by apply H2].
Qed.

(** A member with a share of the polynomial [a5 + a5*x]. *)
Lemma old_example gp x : x = 1 \/ x = 2 -> memberX (member_id x) = x -> exists s,
  old_member gp [a5; a5] s /\ used s = false /\ fsID s = member_id x /\ fsX s = x.
Proof.
  intros Hx HX. pose proof (eval_a5 x Hx) as He. destruct (encode_mult (eval_loop fl [a5] a5 x)) as (ps & _ & Hps); [lia|].
  exists (new_signer (member_id x) x (eval_loop fl [a5] a5 x) gp ps []).
  split; [|split_and!; reflexivity]. split.
  - split; [reflexivity| |cbn [Share new_signer]; lia|exact Hps|cbn [fsX new_signer]; unfold index_ok; lia].
    cbn [Share fsX new_signer]. apply eval_loop_cong. reflexivity.
  - exact He.
  - cbn [fsX fsID new_signer]. split; [lia|exact HX].
Qed.

Lemma reshare_signs_witness : exists gp old cm sm us us' sig,
  map fsID old = ["M1"; "M2"]%string /\
  split_all old (map fsX old) [2; 3; 4] 2 (fun _ => draw5) = Ret (cm, sm) /\
  combine_members [("M3"%string, 3); ("M4"%string, 4)] cm sm gp = Ret us /\
  FrostRound (fun l => l) gp us [Byte.x2a] draw5 = Ret (us', sig) /\
  @ed25519_Verify Rfc8032.ed25519 gp [Byte.x2a] sig = Ret true.
Proof.
  destruct (encode_mult a5 (proj1 a5_pos)) as (gp & _ & Hgp).
  destruct (old_example gp 1 (or_introl eq_refl) eq_refl) as (s1 & H1 & _ & I1 & X1).
  destruct (old_example gp 2 (or_intror eq_refl) eq_refl) as (s2 & H2 & _ & I2 & X2).
  change (member_id 1) with "M1"%string in I1. change (member_id 2) with "M2"%string in I2.
  destruct (reshare_signs (E := Rfc8032.ed25519) (S := Rfc8032.std) gp [a5; a5] [s1; s2] [2; 3; 4] 2 (fun _ => draw5))
    as (cm & sm & Es & Hsign).
  - cbn [peval]. rewrite Z.mul_0_l, Z.add_0_r. exact Hgp.
  - constructor; [exact H1|]. constructor; [exact H2|]. constructor.
  - cbn [map]. rewrite I1, I2. apply (bool_decide_unpack (NoDup ["M1"; "M2"]%string)). vm_compute. exact I.
  - cbn [map]. rewrite X1, X2. apply (bool_decide_unpack (NoDup [1; 2])). vm_compute. exact I.
  - cbn. lia.
  - cbn. lia.
  - apply (bool_decide_unpack (NoDup [2; 3; 4])). vm_compute. exact I.
  - repeat constructor.
  - split; vm_compute; discriminate.
  - intros id. apply draw5_all.
  - destruct (Hsign [("M3"%string, 3); ("M4"%string, 4)] (fun l => l) [Byte.x2a] draw5) as (us & us' & sig & Ec & ER & EV).
    + apply (bool_decide_unpack (NoDup ["M3"; "M4"]%string)). vm_compute. exact I.
    + apply (bool_decide_unpack (NoDup [3; 4])). vm_compute. exact I.
    + intros x Hx. right. exact Hx.
    + vm_compute. discriminate.
    + vm_compute. discriminate.
    + apply permutes_id.
    + apply draw5_all.
    + exists gp, [s1; s2], cm, sm, us, us', sig. cbn [map]. rewrite I1, I2. split; [reflexivity|].
      split; [exact Es|]. split; [exact Ec|]. split; [exact ER|exact EV].
Defined.
