(* ===== verification/Identity.v ===== *)
(** * Workload identity: [identity.go], [mtls.go]

    [crypto/x509] is an interface: the operations the source calls, on the
    fields it sets or reads, and the documented laws it relies on (what
    [CreateCertificate] and [CreateRevocationList] write, the parsers read back).
    Time is the number of nanoseconds since the Unix epoch, in UTC.

    Theorems: a revocation list made by appending lists exactly the old serials
    and the new ones, and a leaf is reported revoked exactly when its serial is
    on the list. *)
From S2P Require Import Prelude Crypto.

(** ** The calendar *)

Definition day_ns : Z := 86400 * 10 ^ 9.

(** The days since 1970-01-01 of a proleptic Gregorian date, months 1 to 12. *)
Definition days_of_date (y m d : Z) : Z :=
  let y := if m <=? 2 then y - 1 else y in
  let era := y / 400 in
  let yoe := y mod 400 in
  let doy := (153 * (if m >? 2 then m - 3 else m + 9) + 2) / 5 + d - 1 in
  era * 146097 + (yoe * 365 + yoe / 4 - yoe / 100 + doy) - 719468.

Definition date_of_days (z : Z) : Z * Z * Z :=
  let z := z + 719468 in
  let era := z / 146097 in
  let doe := z mod 146097 in
  let yoe := (doe - doe / 1460 + doe / 36524 - doe / 146096) / 365 in
  let doy := doe - (365 * yoe + yoe / 4 - yoe / 100) in
  let mp := (5 * doy + 2) / 153 in
  let d := doy - (153 * mp + 2) / 5 + 1 in
  let m := if mp <? 10 then mp + 3 else mp - 9 in
  (yoe + era * 400 + (if m <=? 2 then 1 else 0), m, d).

(** [t.AddDate(years, 0, 0)]: February 29 becomes March 1 in a common year. *)
Definition AddYears (t years : Z) : Z :=
  let '(y, m, d) := date_of_days (t / day_ns) in
  days_of_date (y + years) m d * day_ns + t mod day_ns.

Example add_ten_years : AddYears (days_of_date 2024 2 29 * day_ns + 5) 10 = days_of_date 2034 3 1 * day_ns + 5.
Proof. reflexivity. Qed.

(** ** Certificates and revocation lists *)

Record Certificate := {
  SerialNumber : Z;
  CommonName : string;
  DNSNames : list string;
  NotBefore : Z;
  NotAfter : Z;
  KeyUsage : Z;
  ExtKeyUsage : list Z;
  BasicConstraintsValid : bool;
  IsCA : bool;
  CRLDistributionPoints : list string;
  PublicKey : bytes;
}.

Record RevocationList := {
  rlIssuer : string;
  rlNumber : Z;
  rlThisUpdate : Z;
  rlNextUpdate : Z;
  rlEntries : list (Z * Z);
}.

Definition KeyUsageDigitalSignature : Z := 1.
Definition KeyUsageCertSign : Z := 32.
Definition KeyUsageCRLSign : Z := 64.
Definition ExtKeyUsageServerAuth : Z := 1.
Definition ExtKeyUsageClientAuth : Z := 2.

(** The operations of [crypto/x509]. *)
Class X509 := {
  CreateCertificate : Certificate -> Certificate -> bytes -> slice -> outcome bytes;
  ParseCertificate : bytes -> outcome Certificate;
  CreateRevocationList : RevocationList -> Certificate -> slice -> outcome bytes;
  ParseRevocationList : bytes -> outcome RevocationList;
  CheckSignatureFrom : RevocationList -> bytes -> Certificate -> outcome unit;
  CertVerify : Certificate -> bytes -> list Certificate -> Z -> outcome unit;
}.

(** X.509 times have a resolution of a second. *)
Definition whole_second (t : Z) : Z := t / 10 ^ 9 * 10 ^ 9.

Definition same_entries (a b : list (Z * Z)) : Prop :=
  b = map (fun e => (e.1, whole_second e.2)) a.

Class X509Laws `{X : X509} : Prop := {
  parse_created tmpl parent pub key der :
    CreateCertificate tmpl parent pub key = Ret der ->
    exists c, ParseCertificate der = Ret c /\ SerialNumber c = SerialNumber tmpl /\
      CommonName c = CommonName tmpl /\ DNSNames c = DNSNames tmpl /\ IsCA c = IsCA tmpl /\
      KeyUsage c = KeyUsage tmpl /\ CRLDistributionPoints c = CRLDistributionPoints tmpl /\
      NotBefore c = whole_second (NotBefore tmpl) /\ NotAfter c = whole_second (NotAfter tmpl) /\
      PublicKey c = pub;
  parse_list tmpl ca key der :
    CreateRevocationList tmpl ca key = Ret der ->
    exists rl, ParseRevocationList der = Ret rl /\ same_entries (rlEntries tmpl) (rlEntries rl) /\
      rlNumber rl = rlNumber tmpl /\ rlIssuer rl = rlIssuer tmpl /\
      rlThisUpdate rl = whole_second (rlThisUpdate tmpl) /\ rlNextUpdate rl = whole_second (rlNextUpdate tmpl);
  list_signed tmpl ca key der rl ca' :
    CreateRevocationList tmpl ca key = Ret der -> ParseRevocationList der = Ret rl ->
    IsCA ca' = true -> Z.land (KeyUsage ca') KeyUsageCRLSign <> 0 ->
    PublicKey ca' = pub_of (sb key) -> CheckSignatureFrom rl der ca' = Ret tt;
}.

Section identity.
Context `{X509}.

(** ** Issuing *)

Definition ca_template (name : string) (notBefore notAfter : Z) : Certificate :=
  {| SerialNumber := 1; CommonName := name; DNSNames := []; NotBefore := notBefore; NotAfter := notAfter;
     KeyUsage := Z.lor (Z.lor KeyUsageCertSign KeyUsageCRLSign) KeyUsageDigitalSignature;
     ExtKeyUsage := []; BasicConstraintsValid := true; IsCA := true; CRLDistributionPoints := [];
     PublicKey := [] |}.

Definition NewIdentityCA (key : slice) (name : string) (notBefore notAfter : Z)
    : outcome (Certificate * bytes) :=
  let tmpl := ca_template name notBefore notAfter in
  pub ← ed25519_Public key;
  der ← CreateCertificate tmpl tmpl pub key;
  cert ← ParseCertificate der;
  Ret (cert, der).

Definition ParseIdentityCA (der : bytes) : outcome Certificate := ParseCertificate der.

Definition IssueWorkloadCertWithDP (now : Z) (ca : Certificate) (caKey : slice) (subject : bytes)
    (identity : string) (serial ttl : Z) (crlDP : string) : outcome bytes :=
  let tmpl :=
    {| SerialNumber := serial; CommonName := identity; DNSNames := [identity]; NotBefore := now;
       NotAfter := now + ttl; KeyUsage := KeyUsageDigitalSignature;
       ExtKeyUsage := [ExtKeyUsageClientAuth; ExtKeyUsageServerAuth]; BasicConstraintsValid := false;
       IsCA := false;
       CRLDistributionPoints := if bool_decide (crlDP <> ""%string) then [crlDP] else [];
       PublicKey := [] |} in
  CreateCertificate tmpl ca subject caKey.

Definition IssueWorkloadCert (now : Z) (ca : Certificate) (caKey : slice) (subject : bytes)
    (identity : string) (serial ttl : Z) : outcome bytes :=
  IssueWorkloadCertWithDP now ca caKey subject identity serial ttl "".

(** ** Revocation lists *)

Record RevokedCert := { rcSerial : Z; RevokedAt : Z }.

Definition NewCRL (ca : Certificate) (caKey : slice) (number : Z) (revoked : list RevokedCert)
    (thisUpdate nextUpdate : Z) : outcome bytes :=
  CreateRevocationList
    {| rlIssuer := CommonName ca; rlNumber := number; rlThisUpdate := thisUpdate;
       rlNextUpdate := nextUpdate; rlEntries := map (fun r => (rcSerial r, RevokedAt r)) revoked |} ca caKey.

Definition VerifyCRL (crlDER caDER : bytes) (now : Z) : outcome RevocationList :=
  rl ← ParseRevocationList crlDER;
  ca ← ParseCertificate caDER;
  _ ← CheckSignatureFrom rl crlDER ca;
  guard ((now <? rlThisUpdate rl) || (now >? rlNextUpdate rl))
    "CRL validity window (%s .. %s) does not cover %s" (
  Ret rl).

Definition CheckRevoked (leafDER crlDER : bytes) : outcome bool :=
  leaf ← ParseCertificate leafDER;
  rl ← ParseRevocationList crlDER;
  Ret (existsb (fun e => e.1 =? SerialNumber leaf) (rlEntries rl)).

(** [seen] is filled from the old list only. *)
Definition combined_entries (old : list (Z * Z)) (revoked : list RevokedCert) : list (Z * Z) :=
  let seen : gset Z := list_to_set (map fst old) in
  foldl (fun combined r =>
    if bool_decide (rcSerial r ∈ seen) then combined
    else combined ++ [(rcSerial r, RevokedAt r)]) old revoked.

Definition AppendRevocation (ca : Certificate) (caKey : slice) (oldCRL : bytes) (number : Z)
    (revoked : list RevokedCert) (thisUpdate nextUpdate : Z) : outcome bytes :=
  old ← ParseRevocationList oldCRL;
  CreateRevocationList
    {| rlIssuer := CommonName ca; rlNumber := number; rlThisUpdate := thisUpdate;
       rlNextUpdate := nextUpdate; rlEntries := combined_entries (rlEntries old) revoked |} ca caKey.

Definition VerifyWorkloadChain (leafDER caDER : bytes) (now : Z) : outcome unit :=
  leaf ← ParseCertificate leafDER;
  ca ← ParseCertificate caDER;
  CertVerify leaf leafDER [ca] now.

(** ** Transport *)

Record TLSConfig := {
  tlsCertificate : bytes;
  tlsKey : slice;
  RootCAs : list Certificate;
  ClientCAs : list Certificate;
  RequireAndVerifyClientCert : bool;
  MinVersion : Z;
}.
Definition VersionTLS13 : Z := 772.

Definition MutualTLSConfig (caDER leafDER : bytes) (key : slice) : outcome TLSConfig :=
  ca ← ParseCertificate caDER;
  Ret {| tlsCertificate := leafDER; tlsKey := key; RootCAs := [ca]; ClientCAs := [ca];
         RequireAndVerifyClientCert := true; MinVersion := VersionTLS13 |}.

Definition VerifyPeerIdentity (peer : Certificate) (want : string) : outcome unit :=
  guard (negb (bool_decide (CommonName peer = want))) "x509: NameMismatch" (Ret tt).

(** ** The combined list *)

Lemma combined_app (old : list (Z * Z)) revoked acc :
  foldl (fun combined r => if bool_decide (rcSerial r ∈ (list_to_set (map fst old) : gset Z)) then combined
                           else combined ++ [(rcSerial r, RevokedAt r)]) acc revoked =
  acc ++ map (fun r => (rcSerial r, RevokedAt r)) (filter (fun r => rcSerial r ∉ map fst old) revoked).
Proof.
  revert acc. induction revoked as [|r revoked IH]; intros acc; cbn [foldl]; [by rewrite app_nil_r|].
  rewrite IH. destruct (decide (rcSerial r ∈ map fst old)) as [Hin|Hn].
  - rewrite bool_decide_eq_true_2 by (by rewrite elem_of_list_to_set).
    rewrite filter_cons_False; [done|]. intros Hn. by apply Hn.
  - rewrite bool_decide_eq_false_2 by (by rewrite elem_of_list_to_set).
    rewrite filter_cons_True by done. cbn [map]. by rewrite <- app_assoc.
Qed.

Lemma combined_spec (old : list (Z * Z)) revoked :
  combined_entries old revoked =
    old ++ map (fun r => (rcSerial r, RevokedAt r)) (filter (fun r => rcSerial r ∉ map fst old) revoked).
Proof. apply combined_app. Qed.

Lemma combined_serials (old : list (Z * Z)) revoked s :
  s ∈ map fst (combined_entries old revoked) <-> s ∈ map fst old \/ s ∈ map rcSerial revoked.
Proof.
  rewrite combined_spec, map_app, elem_of_app, map_map. cbn. split.
  - intros [?|Hs]; [by left|]. right. apply list_elem_of_fmap in Hs as (r & -> & Hr).
    apply list_elem_of_filter in Hr as [_ Hr]. apply list_elem_of_fmap. by exists r.
  - intros [?|Hs]; [by left|]. destruct (decide (s ∈ map fst old)) as [?|Hn]; [by left|].
    right. apply list_elem_of_fmap in Hs as (r & -> & Hr). apply list_elem_of_fmap. exists r.
    split; [done|]. by apply list_elem_of_filter.
Qed.

Lemma same_entries_serials a b : same_entries a b -> map fst b = map fst a.
Proof. intros ->. by rewrite map_map. Qed.

Lemma revoked_serial l s : existsb (fun e : Z * Z => e.1 =? s) l = bool_decide (s ∈ map fst l).
Proof.
  destruct (existsb _ l) eqn:E; symmetry.
  - apply bool_decide_eq_true_2. apply existsb_exists in E as (e & He & Es%Z.eqb_eq).
    apply list_elem_of_fmap. exists e. split; [done|]. by apply list_elem_of_In.
  - apply bool_decide_eq_false_2. intros Hs. apply list_elem_of_fmap in Hs as (e & -> & He%list_elem_of_In).
    assert (existsb (fun e0 : Z * Z => e0.1 =? e.1) l = true); [|congruence].
    apply existsb_exists. exists e. split; [done|]. apply Z.eqb_refl.
Qed.

Context {XL : X509Laws}.

(** Revocation by re-signing: when [AppendRevocation] answers, a workload
    certificate that [IssueWorkloadCert] made is reported revoked against the
    new list exactly when its serial was on the old list or is among the serials
    appended; no old entry is ever lost. *)
Theorem AppendRevocation_spec now ca caKey subject identity serial ttl leaf old oldCRL number revoked t1 t2 crl :
  IssueWorkloadCert now ca caKey subject identity serial ttl = Ret leaf ->
  ParseRevocationList oldCRL = Ret old ->
  AppendRevocation ca caKey oldCRL number revoked t1 t2 = Ret crl ->
  CheckRevoked leaf crl =
    Ret (bool_decide (serial ∈ map fst (rlEntries old) \/ serial ∈ map rcSerial revoked)).
Proof.
  intros Hl Ho Ha. unfold AppendRevocation in Ha. rewrite Ho in Ha. cbn [mbind outcome_bind] in Ha.
  apply parse_created in Hl as (c & Hc & Hs & _). apply parse_list in Ha as (rl & Hrl & He & _).
  unfold CheckRevoked. rewrite Hc, Hrl. cbn [mbind outcome_bind SerialNumber] in *. rewrite Hs. f_equal.
  rewrite revoked_serial, (same_entries_serials _ _ He). apply bool_decide_ext. cbn [rlEntries].
  apply combined_serials.
Qed.

(** A list issued by a CA made here verifies under that CA within its window. *)
Lemma NewCRL_verifies key seed name nb na ca caDER number revoked t1 t2 crl now `{Ed25519Laws} :
  length seed = SeedSize -> key = Some (ed_keygen seed) ->
  NewIdentityCA key name nb na = Ret (ca, caDER) ->
  NewCRL ca key number revoked t1 t2 = Ret crl ->
  whole_second t1 <= now <= whole_second t2 ->
  exists rl, VerifyCRL crl caDER now = Ret rl /\ map fst (rlEntries rl) = map rcSerial revoked /\ rlNumber rl = number.
Proof.
  intros Hs -> Hca Hcrl Hnow. unfold NewIdentityCA in Hca.
  rewrite Public_real in Hca by (by exists seed). cbn [mbind outcome_bind] in Hca.
  apply bind_ret in Hca as (der & Hder & Hca). apply bind_ret in Hca as (c & Hc & [= <- <-]).
  pose proof Hder as Hder'. apply parse_created in Hder' as (c' & Hc' & _ & _ & _ & Hisca & Hku & _ & _ & _ & Hpk).
  rewrite Hc in Hc'. injection Hc' as <-.
  pose proof Hcrl as Hp. apply parse_list in Hp as (rl & Hrl & He & Hn & _ & H1 & H2).
  exists rl. unfold VerifyCRL. rewrite Hrl, Hc. cbn [mbind outcome_bind].
  rewrite (list_signed _ _ _ _ _ c Hcrl Hrl); [|done|by rewrite Hku|done]. cbn [mbind outcome_bind].
  cbn [rlThisUpdate rlNextUpdate] in H1, H2. rewrite H1, H2.
  replace ((now <? whole_second t1) || (now >? whole_second t2)) with false by lia. cbn [guard].
  split; [done|]. split; [|done]. rewrite (same_entries_serials _ _ He). cbn [rlEntries]. by rewrite map_map.
Qed.

(** [AppendRevocation] drops a serial only when the old list already has
    it: a serial given twice in one call is listed twice. *)
Theorem combined_duplicates old r :
  rcSerial r ∉ map fst old ->
  combined_entries old [r; r] = old ++ [(rcSerial r, RevokedAt r); (rcSerial r, RevokedAt r)].
Proof. intros Hn. rewrite combined_spec. do 2 (rewrite filter_cons_True by done). done. Qed.

End identity.

(** ** An instance of the interface *)

Module ToyX509.

#[local] Program Instance byte_countable : Countable byte := inj_countable byte_Z (fun z => Some (Z_byte z)) _.
Next Obligation. intros b. cbn. by rewrite Z_byte_Z. Qed.

(** Any value of a countable type as bytes, one for each binary digit. *)
Fixpoint digits (p : positive) : bytes :=
  match p with xH => [] | xO p => Byte.x00 :: digits p | xI p => Byte.x01 :: digits p end.
Definition undigits : bytes -> positive := foldr (fun b p => match b with Byte.x00 => xO p | _ => xI p end) xH.
Definition pickle {A} `{Countable A} (a : A) : bytes := digits (encode a).
Definition unpickle {A} `{Countable A} (b : bytes) : option A := decode (undigits b).

Lemma pickle_unpickle {A} `{Countable A} (a : A) : unpickle (pickle a) = Some a.
Proof.
  unfold unpickle, pickle. etrans; [|apply decode_encode]. f_equal.
  induction (encode a) as [p IH|p IH|]; cbn; by rewrite ?IH.
Qed.

(** A certificate with whole seconds. *)
Definition cert_tuple (c : Certificate) :=
  (SerialNumber c, CommonName c, DNSNames c, whole_second (NotBefore c), whole_second (NotAfter c),
   (KeyUsage c, ExtKeyUsage c, BasicConstraintsValid c, IsCA c, CRLDistributionPoints c)).
Abbreviation cert_type := (Z * string * list string * Z * Z * (Z * list Z * bool * bool * list string))%type.
Abbreviation list_type := (string * Z * Z * Z * list (Z * Z))%type.

Definition create (tmpl parent : Certificate) (pub : bytes) (key : slice) : outcome bytes :=
  Ret (pickle ((cert_tuple tmpl, pub) : cert_type * bytes)).
Definition parse (der : bytes) : outcome Certificate :=
  match unpickle (A := cert_type * bytes) der with
  | Some ((sn, cn, dns, nb, na, (ku, eku, bcv, isca, dp)), pub) =>
      Ret {| SerialNumber := sn; CommonName := cn; DNSNames := dns; NotBefore := nb; NotAfter := na;
             KeyUsage := ku; ExtKeyUsage := eku; BasicConstraintsValid := bcv; IsCA := isca;
             CRLDistributionPoints := dp; PublicKey := pub |}
  | None => Err "x509: malformed certificate"
  end.

Definition create_list (tmpl : RevocationList) (ca : Certificate) (key : slice) : outcome bytes :=
  Ret (pickle (((rlIssuer tmpl, rlNumber tmpl, whole_second (rlThisUpdate tmpl),
        whole_second (rlNextUpdate tmpl), map (fun e => (e.1, whole_second e.2)) (rlEntries tmpl)),
        pub_of (sb key)) : list_type * bytes)).
Definition parse_list (der : bytes) : outcome RevocationList :=
  match unpickle (A := list_type * bytes) der with
  | Some ((i, n, t1, t2, es), _) =>
      Ret {| rlIssuer := i; rlNumber := n; rlThisUpdate := t1; rlNextUpdate := t2; rlEntries := es |}
  | None => Err "x509: malformed crl"
  end.
Definition check (rl : RevocationList) (der : bytes) (ca : Certificate) : outcome unit :=
  match unpickle (A := list_type * bytes) der with
  | Some (_, pub) => if bytes_equal pub (PublicKey ca) then Ret tt else Err "x509: ed25519 verification failure"
  | None => Err "x509: malformed crl"
  end.
Definition verify (leaf : Certificate) (der : bytes) (roots : list Certificate) (now : Z) : outcome unit :=
  if (NotBefore leaf <=? now) && (now <=? NotAfter leaf) then Ret tt else Err "x509: expired".

#[global] Instance x509 : X509 :=
  {| CreateCertificate := create; ParseCertificate := parse; CreateRevocationList := create_list;
     ParseRevocationList := parse_list; CheckSignatureFrom := check; CertVerify := verify |}.

#[global] Instance laws : X509Laws.
Proof.
  split.
  - intros tmpl parent pub key der [= <-]. eexists. split.
    { cbn [ParseCertificate x509]. unfold parse. rewrite pickle_unpickle. unfold cert_tuple. reflexivity. }
    done.
  - intros tmpl ca key der [= <-]. eexists. split.
    { cbn [ParseRevocationList x509]. unfold parse_list. rewrite pickle_unpickle. reflexivity. }
    done.
  - intros tmpl ca key der rl ca' [= <-] _ _ _ Hp. cbn [CheckSignatureFrom x509]. unfold check.
    rewrite pickle_unpickle, Hp, bytes_equal_refl. done.
Qed.

Definition key : slice := Some (Toy.key 3).
Definition ca : Certificate := ca_template "to identity CA" 0 (10 ^ 18).
Definition old : RevocationList :=
  {| rlIssuer := "to identity CA"; rlNumber := 1; rlThisUpdate := 0; rlNextUpdate := 10 ^ 15;
     rlEntries := [(4, 0); (5, 0)] |}.
Definition oldDER : bytes := match create_list old ca key with Ret b => b | _ => [] end.
Definition revoked : list RevokedCert := [{| rcSerial := 7; RevokedAt := 10 ^ 9 |}; {| rcSerial := 4; RevokedAt := 3 |}].

End ToyX509.

Lemma AppendRevocation_spec_witness : exists leaf crl,
  IssueWorkloadCert 0 ToyX509.ca ToyX509.key [] "vpn" 7 3600 = Ret leaf /\
  AppendRevocation ToyX509.ca ToyX509.key ToyX509.oldDER 2 ToyX509.revoked 0 (10 ^ 15) = Ret crl /\
  CheckRevoked leaf crl = Ret true.
Proof.
  assert (El : exists leaf, IssueWorkloadCert 0 ToyX509.ca ToyX509.key [] "vpn" 7 3600 = Ret leaf).
  { eexists. unfold IssueWorkloadCert, IssueWorkloadCertWithDP. cbn [CreateCertificate ToyX509.x509].
    unfold ToyX509.create. reflexivity. }
  assert (Eo : ParseRevocationList ToyX509.oldDER = Ret ToyX509.old).
  { cbn [ParseRevocationList ToyX509.x509]. unfold ToyX509.parse_list, ToyX509.oldDER, ToyX509.create_list.
    rewrite ToyX509.pickle_unpickle. reflexivity. }
  assert (Ea : exists crl, AppendRevocation ToyX509.ca ToyX509.key ToyX509.oldDER 2 ToyX509.revoked 0 (10 ^ 15) = Ret crl).
  { eexists. unfold AppendRevocation. rewrite Eo. cbn [mbind outcome_bind CreateRevocationList ToyX509.x509].
    unfold ToyX509.create_list. reflexivity. }
  destruct El as [leaf El], Ea as [crl Ea].
  exists leaf, crl. split; [exact El|]. split; [exact Ea|].
  rewrite (AppendRevocation_spec 0 ToyX509.ca ToyX509.key [] "vpn" 7 3600 leaf ToyX509.old ToyX509.oldDER 2
    ToyX509.revoked 0 (10 ^ 15) crl El Eo Ea). vm_compute. reflexivity.
Defined.

Lemma combined_duplicates_witness :
  combined_entries [(4, 0)] [{| rcSerial := 7; RevokedAt := 2 |}; {| rcSerial := 7; RevokedAt := 2 |}] =
    [(4, 0); (7, 2); (7, 2)].
Proof.
  rewrite (combined_duplicates [(4, 0)] {| rcSerial := 7; RevokedAt := 2 |}); [reflexivity|].
  apply (bool_decide_unpack _). vm_compute. exact I.
Defined.
