(* ===== verification/Council.v ===== *)
(** * The recovery council: [council.go]

    A council is a list of members, the epoch it last signed and its group key;
    a member without a share is unavailable.  Signing a handoff runs the
    two-round flow of Frost.v over the shares selected, and uses them up.
    Recovery rolls the timeline back, hands it over to a fresh root under the
    council's signature, and re-issues what the compromise touched.  Random
    draws, the clock and the order of each [range] over a map are arguments; the
    index of a member stands for its pointer.

    CouncilTheory.v proves what a recovery promises. *)
From S2P Require Import Prelude Crypto Encoding Json Timeline Graph TrustState Edwards Frost Identity.

(** ** Members *)

Record CouncilMember := {
  mID : string;
  mKey : slice;
  mShare : option FrostSigner;
}.

Record Council := {
  members : list CouncilMember;
  cEpoch : Z;
  cGroup : slice;
}.

(** The shares loaded, in member order. *)
Definition holders (ms : list CouncilMember) : list FrostSigner := omap mShare ms.

Definition NewCouncil (ms : list CouncilMember) : Council :=
  {| members := ms; cEpoch := 0; cGroup := GroupPub <$> head (holders ms) |}.

Definition CouncilGroupPub (c : Council) : slice := cGroup c.
Definition shareHolders (c : Council) : list CouncilMember :=
  filter (fun m => is_Some (mShare m)) (members c).
Definition memberIDs (c : Council) : list string := omap (fun m => fsID <$> mShare m) (shareHolders c).

Definition set_member (ms : list CouncilMember) (i : nat) (s : FrostSigner) : list CouncilMember :=
  alter (fun m => {| mID := mID m; mKey := mKey m; mShare := Some s |}) i ms.

(** ** The signing ceremony *)

(** The loaded shares whose id is wanted; [pubs], [xs] and [byID] are filled
    from them in member order. *)
Definition wanted (ids : list string) (ms : list CouncilMember) : list FrostSigner :=
  filter (fun s => fsID s ∈ ids) (holders ms).

Fixpoint by_id (ids : list string) (i : nat) (ms : list CouncilMember) (acc : gmap string nat)
    : gmap string nat :=
  match ms with
  | [] => acc
  | m :: ms =>
      by_id ids (S i) ms
        (match mShare m with
         | Some s => if decide (fsID s ∈ ids) then <[fsID s := i]> acc else acc
         | None => acc
         end)
  end.

Definition member_xs (ss : list FrostSigner) : gmap string Z :=
  foldl (fun m s => <[fsID s := memberX (fsID s)]> m) ∅ ss.

Definition signer_at (ms : list CouncilMember) (byID : gmap string nat) (id : string) : option FrostSigner :=
  i ← byID !! id; m ← ms !! i; mShare m.

Section council.
Context `{Hashes} `{Ed25519} `{X509}.

(** Round one, over the ids in iteration order; [k] counts the draws. *)
Fixpoint commit_loop (byID : gmap string nat) (ids : list string) (draw : nat -> option bytes) (k : nat)
    (ms : list CouncilMember) (commits : gmap string bytes)
    : list CouncilMember * outcome (gmap string bytes) :=
  match ids with
  | [] => (ms, Ret commits)
  | id :: ids =>
      match signer_at ms byID id with
      | None => (ms, Panic)
      | Some s =>
          let '(s, de) := Commit s (draw k) (draw (S k)) in
          let ms := set_member ms (default 0%nat (byID !! id)) s in
          match de with
          | Ret de => commit_loop byID ids draw (S (S k)) ms (<[id := de]> commits)
          | Err e => (ms, Err e)
          | Panic => (ms, Panic)
          end
      end
  end.

(** Round two. *)
Fixpoint sign_loop (byID : gmap string nat) (ids : list string) (ms : list CouncilMember)
    (trans : FrostTranscript) (agg : FrostAggregator) : outcome FrostAggregator :=
  match ids with
  | [] => Ret agg
  | id :: ids =>
      match signer_at ms byID id with
      | None => Panic
      | Some s =>
          z ← SignShare s trans;
          agg ← AddShare agg id z;
          sign_loop byID ids ms trans agg
      end
  end.

Definition with_sig (fc : FrostCommit) (sig : bytes) (ms : list string) : FrostCommit :=
  {| fcEpoch := fcEpoch fc; fcCheckpoint := fcCheckpoint fc; fcPrev := fcPrev fc; fcNewPub := fcNewPub fc;
     fcPayload := fcPayload fc; fcSig := Some sig; fcMembers := ms |}.

Definition handoff (epoch : Z) (checkpoint : slice) (prev : Z) (newPub payload : slice) : FrostCommit :=
  {| fcEpoch := epoch; fcCheckpoint := checkpoint; fcPrev := prev; fcNewPub := newPub;
     fcPayload := payload; fcSig := None; fcMembers := [] |}.

(** From the commitments on: the aggregate signature. *)
Definition ceremony (order : range_order) (group : bytes) (ss : list FrostSigner) (byID : gmap string nat)
    (ms : list CouncilMember) (commits : gmap string bytes) (desc : bytes) : outcome bytes :=
  let agg := SetXs (NewFrostAggregator group (pubs_of ss)) (member_xs ss) in
  agg ← add_commits agg commits (order 1%nat (keys commits));
  '(agg, r, cb) ← Challenge (order 2%nat) agg desc;
  let trans := {| tM := desc; Commits := commits; Xs := member_xs ss; tR := r; tC := cb |} in
  agg ← sign_loop byID (order 3%nat (keys byID)) ms trans agg;
  Aggregate agg.

(** [(nil, false)] is [None]; the council keeps the shares it used up. *)
Definition SignCommit (order : range_order) (draw : nat -> option bytes) (c : Council) (epoch : Z)
    (checkpoint : slice) (prev : Z) (newPub payload : slice) (min : Z) (ids : list string)
    : outcome (Council * option FrostCommit) :=
  if negb (epoch =? wrap64 (prev + 1)) then Ret (c, None)
  else if zlen (holders (members c)) <? min then Ret (c, None)
  else
    let fc := handoff epoch checkpoint prev newPub payload in
    let ss := wanted ids (members c) in
    let byID := by_id ids 0 (members c) ∅ in
    if Z.of_nat (size (pubs_of ss)) <? min then Ret (c, None)
    else
      let desc := descriptor fc in
      let '(ms, commits) := commit_loop byID (order 0%nat (keys byID)) draw 0 (members c) ∅ in
      let c' := {| members := ms; cEpoch := cEpoch c; cGroup := cGroup c |} in
      match commits with
      | Panic => Panic
      | Err _ => Ret (c', None)
      | Ret commits =>
          match ceremony order (sb (cGroup c)) ss byID ms commits desc with
          | Panic => Panic
          | Err _ => Ret (c', None)
          | Ret sig =>
              let fc := with_sig fc sig (order 4%nat (keys byID)) in
              ok ← Valid fc (sb (cGroup c)) min;
              if negb ok then Ret (c', None)
              else Ret ({| members := ms; cEpoch := epoch; cGroup := cGroup c |}, Some fc)
          end
      end.

(** ** The canonical fork *)

(** One chain: [Some prev] when every commit of it is contiguous and valid. *)
Fixpoint chain_epoch (groupPub : bytes) (min : Z) (first : bool) (prev : Z) (chain : list FrostCommit)
    : outcome (option Z) :=
  match chain with
  | [] => Ret (Some prev)
  | fc :: chain =>
      if negb (fcEpoch fc =? if first then 1 else wrap64 (prev + 1)) then Ret None
      else
        ok ← Valid fc groupPub min;
        if negb ok then Ret None else chain_epoch groupPub min false (fcEpoch fc) chain
  end.

Fixpoint highest (groupPub : bytes) (min : Z) (best : option (list FrostCommit)) (bestEpoch : Z)
    (chains : list (list FrostCommit)) : outcome (option (list FrostCommit)) :=
  match chains with
  | [] => Ret best
  | chain :: chains =>
      r ← chain_epoch groupPub min true 0 chain;
      match r, chain with
      | Some prev, _ :: _ =>
          if prev >? bestEpoch then highest groupPub min (Some chain) prev chains
          else highest groupPub min best bestEpoch chains
      | _, _ => highest groupPub min best bestEpoch chains
      end
  end.

Definition HighestValidEpoch (chains : list (list FrostCommit)) (groupPub : bytes) (min : Z)
    : outcome (option (list FrostCommit)) := highest groupPub min None (-1) chains.

(** ** Evidence *)

Definition evidenceBadIndex (evidence : option TrustEvent) : outcome Z :=
  match evidence with
  | None => Err "council: evidence is not a DETECTED event"
  | Some e =>
      guard (negb (bool_decide (EType e = EvDetected))) "council: evidence is not a DETECTED event" (
      match evidence_unmarshal (sb (EPayload e)) with
      | None => Err "council: malformed evidence payload"
      | Some z => guard (z <? 0) "council: malformed evidence payload" (Ret z)
      end)
  end.

(** [tl.Events()[badIdx-1].Hash()] *)
Definition rollbackCheckpoint (tl : Timeline) (badIdx : Z) : outcome slice :=
  if badIdx <=? 0 then Ret None
  else
    match Events tl !! Z.to_nat (badIdx - 1) with
    | Some e => Ret (Some (Hash e))
    | None => Panic
    end.

Definition prefixForCheck (tl : Timeline) (badIdx : Z) : outcome Timeline :=
  match Rollback tl badIdx with
  | Err _ => NewTimeline None
  | r => r
  end.

(** ** The recovery middle *)

Record Fork4 := {
  rfFork : Timeline;
  rfAffected : gset string;
  rfIdentities : gset string;
  rfCert : bytes;
  rfPub : bytes;
}.

Definition adopt (fork : Timeline) (key : bytes) (council : slice) : Timeline :=
  {| events := events fork; tkey := Some key; tpub := pub_of key; tstart := tstart fork;
     councilPub := council; rotations := rotations fork; algo := algo fork |}.

Definition recoverRollback (order : range_order) (tl : Timeline) (badIdx : Z) (newRootSeed : bytes)
    (epoch now : Z) : outcome Fork4 :=
  let newRoot := ed_keygen newRootSeed in
  '(_, certDER) ← NewIdentityCA (Some newRoot)
    ("to root epoch " ++ of_bytes (dec_Z (wrap64 (epoch + 1)))) now (AddYears now 10);
  fork ← Rollback tl badIdx;
  let fork := adopt fork newRoot (councilPub tl) in
  '(affected, identities) ← InvalidationSet order tl badIdx;
  Ret {| rfFork := fork; rfAffected := affected; rfIdentities := identities; rfCert := certDER;
         rfPub := tpub fork |}.

(** The payloads [json.Marshal] makes of [issuePayload] (an empty [via] is
    omitted) and of the anonymous struct of a revocation. *)
Definition issue_json (cert id : string) : json :=
  JObj [jfield "cert_id" (jstring cert); jfield "identity" (jstring id)].
Definition revoke_json (cert : string) : json := JObj [jfield "cert_id" (jstring cert)].

Definition reissued_id (id : string) (epoch : Z) : string :=
  id ++ "-re" ++ of_bytes (dec_Z (wrap64 (epoch + 1))).

(** An append whose error is ignored. *)
Definition try_append (fork : Timeline) (typ : string) (payload : bytes) : outcome (Timeline * bool) :=
  match Append fork typ (Some payload) 0 with
  | Ret (t, _) => Ret (t, true)
  | Err _ => Ret (fork, false)
  | Panic => Panic
  end.

Fixpoint reissue_loop (epoch : Z) (ids : list string) (fork : Timeline) : outcome (Timeline * list string) :=
  match ids with
  | [] => Ret (fork, [])
  | id :: ids =>
      let newID := reissued_id id epoch in
      '(fork, ok) ← try_append fork EvIssue (print (issue_json newID id));
      '(fork, issued) ← reissue_loop epoch ids fork;
      Ret (fork, if ok : bool then newID :: issued else issued)
  end.

Fixpoint revoke_loop (cids : list string) (fork : Timeline) : outcome Timeline :=
  match cids with
  | [] => Ret fork
  | cid :: cids =>
      '(fork, _) ← try_append fork EvRevoke (print (revoke_json cid));
      revoke_loop cids fork
  end.

Definition reissueOnFork (oIds oAff : list string -> list string) (fork : Timeline)
    (affected identities : gset string) (epoch : Z) : outcome (Timeline * list string) :=
  '(fork, issued) ← reissue_loop epoch (oIds (elements identities)) fork;
  fork ← revoke_loop (oAff (elements affected)) fork;
  Ret (fork, issued).

(** ** Recovery *)

Record RecoveryReport := {
  rrCommit : FrostCommit;
  rrTimeline : Timeline;
  rrIssued : list string;
  rrVerify : VerifyReport;
  rrRootSeed : slice;
}.

(** The orders of the maps a recovery ranges over. *)
Record Orders := {
  oInvalid : range_order;
  oSign : range_order;
  oIds : list string -> list string;
  oAff : list string -> list string;
}.

(** [json.Marshal] of a map writes the keys in order. *)
Definition commit_json (fc : FrostCommit) : json :=
  JObj [jfield "checkpoint" (jslice (fcCheckpoint fc)); jfield "epoch" (jint (fcEpoch fc));
        jfield "new_pub" (jslice (fcNewPub fc))].

Definition finishRecovery (o : Orders) (seed : option bytes) (now : Z) (draw : nat -> option bytes)
    (c : Council) (tl : Timeline) (badIdx minVotes : Z) (ids : list string)
    : outcome (Council * outcome RecoveryReport) :=
  match seed with
  | None => Ret (c, Err "rand")
  | Some seed =>
      match recoverRollback (oInvalid o) tl badIdx seed (cEpoch c) now with
      | Panic => Panic
      | Err e => Ret (c, Err e)
      | Ret rf =>
          let prevEpoch := cEpoch c in
          checkpoint ← rollbackCheckpoint tl badIdx;
          '(c, commit) ← SignCommit (oSign o) draw c (wrap64 (cEpoch c + 1)) checkpoint (cEpoch c)
            (Some (rfPub rf)) (Some (rfCert rf)) minVotes ids;
          match commit with
          | None => Ret (c, Err "council: commit failed")
          | Some commit =>
              match Append (rfFork rf) EvRecovery (Some (print (fc_json commit))) 0 with
              | Panic => Panic
              | Err e => Ret (c, Err e)
              | Ret (fork, _) =>
                  '(fork, issued) ← reissueOnFork (oIds o) (oAff o) fork (rfAffected rf) (rfIdentities rf) prevEpoch;
                  pre ← prefixForCheck tl badIdx;
                  let preState := Fold pre in
                  let r1 := VerifyRecovery preState (Fold fork) (rfAffected rf) (rfIdentities rf) in
                  let r2 := VerifyRecovery preState (Fold fork) (rfAffected rf) (rfIdentities rf) in
                  if negb (Bool.eqb (Pass (Some r1)) (Pass (Some r2))) then
                    Ret (c, Err "council: cross-check disagreement")
                  else
                    match Append fork EvCommit (Some (print (commit_json commit))) 0 with
                    | Panic => Panic
                    | Err e => Ret (c, Err e)
                    | Ret (fork, _) =>
                        Ret (c, Ret {| rrCommit := commit; rrTimeline := fork; rrIssued := issued;
                                       rrVerify := r1; rrRootSeed := Some seed |})
                    end
              end
          end
      end
  end.

Definition Recover (o : Orders) (seed : option bytes) (now : Z) (draw : nat -> option bytes)
    (c : Council) (tl : Timeline) (evidence : option TrustEvent) (minVotes : Z)
    : outcome (Council * outcome RecoveryReport) :=
  match evidenceBadIndex evidence with
  | Panic => Panic
  | Err e => Ret (c, Err e)
  | Ret badIdx =>
      ok ← VerifyPrefix tl badIdx;
      if negb ok then Ret (c, Err "council: prefix failed verification")
      else if zlen (shareHolders c) <? minVotes then Ret (c, Err "BLOCKED: awaiting quorum")
      else finishRecovery o seed now draw c tl badIdx minVotes (map fsID (holders (members c)))
  end.

End council.
