(* ===== verification/CouncilTheory.v ===== *)
(** * What the council promises: theorems about Council.v

    The canonical fork is the longest valid chain of handoffs; a quorum of
    members signs a handoff the timeline accepts, and uses its shares up; a
    recovery hands a compromised timeline over to a fresh root, and the result
    verifies under the old start key. *)
From S2P Require Import Prelude Crypto Encoding Json Timeline TimelineTheory Graph TrustState.
From S2P Require Import Modular Edwards EdwardsTheory EdwardsCodec Frost FrostTheory FrostSpec Identity Council.

(** ** The canonical fork *)

Section chains.
Context `{HL : HashLaws} `{EL : Ed25519Laws} (groupPub : bytes) (min : Z).
Hypothesis Hgroup : length groupPub = PublicKeySize.

(** Commits numbered one after the other from [prev], every one valid. *)
Fixpoint handoffs (prev : Z) (chain : list FrostCommit) : Prop :=
  match chain with
  | [] => True
  | fc :: chain => fcEpoch fc = prev + 1 /\ Valid fc groupPub min = Ret true /\ handoffs (prev + 1) chain
  end.

Lemma Valid_ret fc : exists b, Valid fc groupPub min = Ret b.
Proof. rewrite Valid_spec by done. by eexists. Qed.

Lemma chain_epoch_spec first prev chain :
  0 <= prev -> prev + zlen chain < 2 ^ 63 -> (first = true -> prev = 0) ->
  exists r, chain_epoch groupPub min first prev chain = Ret r /\
    forall p, r = Some p <-> handoffs prev chain /\ p = prev + zlen chain.
Proof.
  revert first prev. induction chain as [|fc chain IH]; intros first prev Hp Hl Hf; cbn [chain_epoch handoffs].
  { exists (Some prev). split; [done|]. intros p. unfold zlen. cbn. split; [intros [= <-]; split; [done|lia]|].
    intros [_ ->]. f_equal. lia. }
  assert (Hz : zlen (fc :: chain) = 1 + zlen chain) by (unfold zlen; cbn; lia). rewrite Hz in *.
  assert (He : (if first then 1 else wrap64 (prev + 1)) = prev + 1).
  { destruct first; [by rewrite Hf|]. apply wrap64_id. unfold in_int64, zlen in *. lia. }
  rewrite He. destruct (Z.eqb_spec (fcEpoch fc) (prev + 1)) as [Ee|Ee]; cbn [negb].
  2: { exists None. split; [done|]. intros p. split; [done|]. by intros [[? _] _]. }
  destruct (Valid_ret fc) as [b Ev]. rewrite Ev. cbn [mbind outcome_bind]. destruct b; cbn [negb].
  2: { exists None. split; [done|]. intros p. split; [done|]. by intros [(_ & ? & _) _]. }
  destruct (IH false (fcEpoch fc)) as (r & Er & Hr); [lia|lia|done|]. exists r. split; [done|].
  intros p. rewrite Hr, Ee. split; intros [H1 ->]; (split; [naive_solver|lia]).
Qed.

(** The best so far: its epoch is its length. *)
Definition best_ok (best : option (list FrostCommit)) (e : Z) : Prop :=
  match best with None => e = -1 | Some c => e = zlen c /\ c <> [] /\ handoffs 0 c end.

Definition candidate (c : list FrostCommit) : Prop := c <> [] /\ handoffs 0 c.

Lemma highest_spec chains best e :
  Forall (fun c => zlen c < 2 ^ 63) chains -> best_ok best e ->
  exists r, highest groupPub min best e chains = Ret r /\
    (forall c, r = Some c -> (c ∈ chains \/ best = Some c) /\ candidate c /\ e <= zlen c) /\
    (forall c, c ∈ chains -> candidate c -> exists c', r = Some c' /\ zlen c <= zlen c') /\
    (r = None -> best = None).
Proof.
  revert best e. induction chains as [|chain chains IH]; intros best e HF Hb; cbn [highest].
  { exists best. split; [done|]. split; [|split; [|done]].
    - intros c ->. destruct Hb as (-> & ? & ?). split; [by right|]. split; [done|lia].
    - by intros c ?%not_elem_of_nil. }
  apply Forall_cons in HF as [Hl HF]. destruct (chain_epoch_spec true 0 chain) as (p & -> & Hp); [lia|lia|done|].
  cbn [mbind outcome_bind]. rewrite Z.add_0_l in Hp.
  assert (Hskip : forall P : Prop, ~ candidate chain \/ (exists b, best = Some b /\ zlen chain <= e) ->
    P = (exists r, highest groupPub min best e chains = Ret r /\
    (forall c, r = Some c -> (c ∈ chain :: chains \/ best = Some c) /\ candidate c /\ e <= zlen c) /\
    (forall c, c ∈ chain :: chains -> candidate c -> exists c', r = Some c' /\ zlen c <= zlen c') /\
    (r = None -> best = None)) -> P).
  { intros P Hno ->. destruct (IH best e HF Hb) as (r & Er & H1 & H2 & H3). exists r. split; [done|].
    split; [|split; [|done]].
    - intros c Hc. destruct (H1 c Hc) as ([?|?] & ? & ?); [split; [left; by right|done]|split; [by right|done]].
    - intros c [->|Hc]%elem_of_cons Hcand; [|by apply H2]. destruct Hno as [Hno|(b & -> & Hle)]; [by destruct Hno|].
      destruct r as [c'|]; [|by specialize (H3 eq_refl)].
      exists c'. split; [done|]. destruct (H1 c' eq_refl) as (_ & _ & ?). lia. }
  destruct p as [p|].
  - destruct (proj1 (Hp p) eq_refl) as [Hgood ->]. destruct chain as [|fc chain].
    { eapply Hskip; [|reflexivity]. left. by intros [? _]. }
    destruct (Z.gtb_spec (zlen (fc :: chain)) e) as [Hgt|Hle].
    + destruct (IH (Some (fc :: chain)) (zlen (fc :: chain)) HF) as (r & Er & H1 & H2 & H3); [done|].
      exists r. split; [done|]. split; [|split].
      * intros c Hc. destruct (H1 c Hc) as ([?|[= <-]] & ? & ?); [split; [left; by right|split; [done|lia]]|].
        split; [left; by left|split; [done|lia]].
      * intros c [->|Hc]%elem_of_cons Hcand; [|by apply H2]. destruct r as [c'|]; [|by specialize (H3 eq_refl)].
        exists c'. split; [done|]. by destruct (H1 c' eq_refl) as (_ & _ & ?).
      * intros ->. by specialize (H3 eq_refl).
    + eapply Hskip; [|reflexivity]. right. destruct best as [b|]; [by exists b|].
      cbn in Hb. subst e. unfold zlen in Hle. lia.
  - eapply Hskip; [|reflexivity]. left. intros [_ Hg].
    assert (exists q : Z, None = Some q) as [? [=]]. exists (zlen chain). by apply Hp.
Qed.

(** HighestValidEpoch (which fork is canonical): it never panics under a
    group key of the right length; it answers a chain exactly when some
    non-empty chain is made of valid, threshold-signed handoffs with epochs
    1, 2, 3, ...; and then the answer is such a chain, given, and no other such
    chain reaches a higher epoch. *)
Theorem HighestValidEpoch_spec chains :
  Forall (fun c => zlen c < 2 ^ 63) chains ->
  exists r, HighestValidEpoch chains groupPub min = Ret r /\
    (is_Some r <-> exists c, c ∈ chains /\ candidate c) /\
    (forall c, r = Some c -> c ∈ chains /\ candidate c /\
       forall c', c' ∈ chains -> candidate c' -> zlen c' <= zlen c).
Proof.
  intros HF. destruct (highest_spec chains None (-1) HF) as (r & Er & H1 & H2 & _); [done|].
  exists r. split; [done|]. split.
  - split; [intros [c ->]; destruct (H1 c eq_refl) as ([?|?] & ? & _); [by exists c|done]|].
    intros (c & Hc & Hcand). destruct (H2 c Hc Hcand) as (c' & -> & _). by eexists.
  - intros c ->. destruct (H1 c eq_refl) as ([?|?] & ? & _); [|done]. split; [done|]. split; [done|].
    intros c' Hc' Hcand'. destruct (H2 c' Hc' Hcand') as (c'' & [= <-] & ?). done.
Qed.

End chains.

(** ** The signing ceremony *)

Lemma fill_perm {A} (g : FrostSigner -> A) ss ss' :
  NoDup (ids_of ss) -> ss ≡ₚ ss' -> fill g ss ∅ = fill g ss' ∅.
Proof.
  intros Hnd Hp. assert (Hnd' : NoDup (ids_of ss')) by (by rewrite <- Hp).
  apply map_eq. intros id. destruct (decide (id ∈ ids_of ss)) as [Hin|Hn].
  - apply elem_of_ids_inv in Hin as (s & Hs & ->). rewrite fill_lookup by done.
    rewrite fill_lookup; [done..|by rewrite <- Hp].
  - rewrite !fill_other; [done|by rewrite <- Hp|done].
Qed.

Lemma fill_ext {A} (g h : FrostSigner -> A) ss m : Forall (fun s => g s = h s) ss -> fill g ss m = fill h ss m.
Proof.
  intros HF. revert m. induction HF as [|s ss Es _ IH]; intros m; [done|]. cbn [fill foldl]. rewrite Es. apply IH.
Qed.

Lemma by_id_spec ids pre suf acc :
  NoDup (ids_of (wanted ids suf)) ->
  (forall id, id ∉ ids_of (wanted ids suf) -> by_id ids (length pre) suf acc !! id = acc !! id) /\
  (forall s, s ∈ wanted ids suf -> exists i m, by_id ids (length pre) suf acc !! fsID s = Some i /\
     (pre ++ suf) !! i = Some m /\ mShare m = Some s).
Proof.
  revert pre acc. induction suf as [|m suf IH]; intros pre acc Hnd; cbn [by_id].
  { split; [done|]. by intros s ?%not_elem_of_nil. }
  assert (Eapp : pre ++ m :: suf = (pre ++ [m]) ++ suf) by (by rewrite <- app_assoc).
  assert (Elen : S (length pre) = length (pre ++ [m])) by (rewrite length_app; cbn; lia).
  rewrite Eapp, Elen. unfold wanted in *. cbn [holders omap list_omap] in *.
  destruct (mShare m) as [s|] eqn:Es; [|by apply IH].
  destruct (decide (fsID s ∈ ids)) as [Hin|Hn].
  - rewrite filter_cons_True in Hnd by done. rewrite filter_cons_True by done. cbn [map] in *.
    apply NoDup_cons in Hnd as [Hs Hnd]. destruct (IH (pre ++ [m]) (<[fsID s := length pre]> acc) Hnd) as [H1 H2]. split.
    + intros id [Hne Hid]%not_elem_of_cons. rewrite H1 by done. by apply lookup_insert_ne.
    + intros s' [->|Hs']%elem_of_cons; [|by apply H2]. exists (length pre), m. rewrite H1 by done.
      split; [apply lookup_insert_eq|]. split; [|done]. rewrite <- Eapp. by apply list_lookup_middle.
  - rewrite filter_cons_False in Hnd by done. rewrite filter_cons_False by done. by apply IH.
Qed.

Lemma Forall2_weaken {A B} (P Q : A -> B -> Prop) l k :
  Forall2 P l k -> (forall x y, x ∈ l -> P x y -> Q x y) -> Forall2 Q l k.
Proof.
  induction 1 as [|x y l k Hx _ IH]; intros HPQ; constructor; [apply HPQ; [left|done]|].
  apply IH. intros a b Ha. apply HPQ. by right.
Qed.

Lemma Forall2_perm {A B} (P : A -> B -> Prop) l0 l k :
  Forall2 P l0 k -> l ≡ₚ l0 -> exists k', Forall2 P l k' /\ k' ≡ₚ k.
Proof.
  intros H2 Hp. revert k H2. induction Hp as [|x l l0 _ IH|x y l|l l1 l0 _ IH1 _ IH2] using Permutation_ind; intros k H2.
  - exists k. done.
  - inversion H2 as [|? b ? k0 Hx H2']; subst. destruct (IH k0 H2') as (k' & Hk' & Hp'). exists (b :: k').
    split; [by constructor|by constructor].
  - inversion H2 as [|? b ? k0 Hx H2']; subst. inversion H2' as [|? b' ? k1 Hy H2'']; subst.
    exists (b' :: b :: k1). split; [by repeat constructor|constructor].
  - destruct (IH2 k H2) as (k1 & Hk1 & Hp1). destruct (IH1 k1 Hk1) as (k2 & Hk2 & Hp2). exists k2.
    split; [done|by etransitivity].
Qed.

(** The signers the map [byID] leads to. *)
Definition holds (ms : list CouncilMember) (byID : gmap string nat) : list string -> list FrostSigner -> Prop :=
  Forall2 (fun id s => signer_at ms byID id = Some s /\ fsID s = id).

Definition apart (byID : gmap string nat) (ids : list string) : Prop :=
  forall id id' i, id ∈ ids -> id' ∈ ids -> byID !! id = Some i -> byID !! id' = Some i -> id = id'.

Lemma signer_at_inv ms byID id s :
  signer_at ms byID id = Some s -> exists i m, byID !! id = Some i /\ ms !! i = Some m /\ mShare m = Some s.
Proof. unfold signer_at. intros (i & Hi & (m & Hm & Hs)%bind_Some)%bind_Some. eauto. Qed.

Lemma signer_at_intro ms byID id i m s :
  byID !! id = Some i -> ms !! i = Some m -> mShare m = Some s -> signer_at ms byID id = Some s.
Proof. intros Hi Hm Hs. unfold signer_at. rewrite Hi. cbn. by rewrite Hm. Qed.

Lemma set_member_same ms i m s : ms !! i = Some m ->
  exists m', set_member ms i s !! i = Some m' /\ mShare m' = Some s.
Proof. intros Hm. unfold set_member. rewrite list_lookup_alter_eq, Hm. by eexists. Qed.

Lemma set_member_other ms i j s : i <> j -> set_member ms i s !! j = ms !! j.
Proof. intros Hne. unfold set_member. by rewrite list_lookup_alter_ne. Qed.

Lemma Commit_id s d e : fsID (Commit s d e).1 = fsID s.
Proof. unfold Commit. destruct (used s); [done|]. by destruct (randomScalar d), (randomScalar e). Qed.

Section ceremony.
Context `{HL : HashLaws}.

Lemma commit_loop_ok byID ids ss draw k ms cs ss' cs' :
  NoDup ids -> apart byID ids -> holds ms byID ids ss -> commit_all ss draw k cs = Ret (ss', cs') ->
  exists ms', commit_loop byID ids draw k ms cs = (ms', Ret cs') /\ holds ms' byID ids ss' /\
    forall i, (forall id, id ∈ ids -> byID !! id <> Some i) -> ms' !! i = ms !! i.
Proof.
  intros Hnd Hap Hh. revert k ms cs ss' cs' Hnd Hap Hh. induction ids as [|id ids IH] in ss |- *;
    intros k ms cs ss' cs' Hnd Hap Hh Ec; inversion Hh as [|? s ? ss1 [Hs Hid] Hh' E1 E2]; subst; cbn [commit_loop commit_all] in *.
  { injection Ec as <- <-. exists ms. split; [done|]. split; [constructor|done]. }
  destruct (Commit s (draw k) (draw (S k))) as [s1 r] eqn:E. rewrite Hs.
  apply bind_ret in Ec as (de & -> & Ec). apply bind_ret in Ec as ([ss2 cs2] & Ec & [= <- <-]).
  apply NoDup_cons in Hnd as [Hn Hnd]. rewrite E.
  destruct (signer_at_inv _ _ _ _ Hs) as (i & m & Hi & Hm & Hsh). rewrite Hi. cbn [from_option Datatypes.id].
  assert (Hoth : forall id', id' ∈ ids -> byID !! id' <> Some i).
  { intros id' Hin' Hi'. assert (fsID s = id') as <-; [|done]. apply (Hap _ _ i); [by left|by right|done..]. }
  destruct (IH ss1 (S (S k)) (set_member ms i s1) (<[fsID s1 := de]> cs) ss2 cs2) as (ms' & El & Hl & Ho).
  - done.
  - intros a b j Ha Hb. apply Hap; by right.
  - eapply Forall2_weaken; [exact Hh'|]. intros id' s' Hin' [Hs' Hid']. split; [|done].
    destruct (signer_at_inv _ _ _ _ Hs') as (j & m' & Hj & Hm' & Hsh').
    apply (signer_at_intro _ _ _ j m'); [done| |done]. rewrite set_member_other; [done|].
    intros ->. by apply (Hoth id').
  - done.
  - exists ms'. pose proof (Commit_id s (draw k) (draw (S k))) as Eid. rewrite E in Eid. cbn [fst] in Eid.
    rewrite Eid in El. split; [done|]. split.
    + constructor; [|done]. split; [|done]. destruct (set_member_same ms i m s1 Hm) as (m1 & Hm1 & Hs1).
      apply (signer_at_intro _ _ _ i m1); [done| |done]. rewrite Ho; done.
    + intros j Hj. rewrite Ho; [|intros id' Hid'; apply Hj; by right]. apply set_member_other.
      intros ->. apply (Hj (fsID s)); [left|done].
Qed.

Lemma sign_loop_ok byID ids ss ms tr agg :
  holds ms byID ids ss -> sign_loop byID ids ms tr agg = add_shares agg tr ss.
Proof.
  intros Hh. revert agg. induction Hh as [|id s ids ss [Hs Hid] _ IH]; intros agg; cbn [sign_loop add_shares]; [done|].
  rewrite Hs, Hid. destruct (SignShare s tr) as [z| |]; [|done..]. cbn [mbind outcome_bind].
  destruct (AddShare agg id z); [|done..]. apply IH.
Qed.

End ceremony.

(** A council ready to sign: the shares of [ids] belong to one polynomial, none
    is used up, and they are enough. *)
Record quorum (gp : bytes) (f : list Z) (ids : list string) (min : Z) (c : Council) : Prop := {
  q_group : cGroup c = Some gp;
  q_secret : encodes gp (peval f 0);
  q_ids : NoDup (ids_of (wanted ids (members c)));
  q_keyed : Forall (keyed gp f) (wanted ids (members c));
  q_canon : Forall (fun s => fsID s = member_id (fsX s)) (wanted ids (members c));
  q_fresh : Forall (fun s => used s = false) (wanted ids (members c));
  q_min : min <= zlen (wanted ids (members c));
  q_deg : (length f <= length (wanted ids (members c)))%nat;
  q_some : wanted ids (members c) <> [];
}.

Section quorum.
Context `{HL : HashLaws} `{EL : Ed25519Laws} {Std : Ed25519Std}.
Context (gp : bytes) (f : list Z) (ids : list string) (min : Z) (c : Council).
Hypothesis Hq : quorum gp f ids min c.

Let ss : list FrostSigner := wanted ids (members c).
Let byID : gmap string nat := by_id ids 0 (members c) ∅.

Lemma byID_at s : s ∈ ss -> signer_at (members c) byID (fsID s) = Some s.
Proof.
  intros Hs. destruct (by_id_spec ids [] (members c) ∅ (q_ids _ _ _ _ _ Hq)) as [_ H2].
  destruct (H2 s Hs) as (i & m & Hi & Hm & Hsh). by apply (signer_at_intro _ _ _ i m).
Qed.

Lemma byID_none id : id ∉ ids_of ss -> byID !! id = None.
Proof. intros Hn. destruct (by_id_spec ids [] (members c) ∅ (q_ids _ _ _ _ _ Hq)) as [H1 _]. by apply H1. Qed.

Lemma byID_keys : keys byID ≡ₚ ids_of ss.
Proof.
  apply keys_perm; [apply Hq|]. intros id. split.
  - intros Hs. destruct (decide (id ∈ ids_of ss)) as [|Hn]; [done|]. rewrite byID_none in Hs by done. by apply is_Some_None in Hs.
  - intros (s & Hs & ->)%elem_of_ids_inv. apply byID_at, signer_at_inv in Hs as (i & ? & -> & _). by eexists.
Qed.

Lemma byID_apart l : l ⊆ ids_of ss -> apart byID l.
Proof.
  intros Hl a b i Ha Hb Ha' Hb'. apply Hl, elem_of_ids_inv in Ha as (s & Hs & ->). apply Hl, elem_of_ids_inv in Hb as (s' & Hs' & ->).
  apply byID_at, signer_at_inv in Hs as (j & m & Hj & Hm & Hsh). apply byID_at, signer_at_inv in Hs' as (j' & m' & Hj' & Hm' & Hsh').
  congruence.
Qed.

Lemma byID_holds : holds (members c) byID (ids_of ss) ss.
Proof.
  assert (Hall : forall l, l ⊆ ss -> holds (members c) byID (ids_of l) l).
  { induction l as [|s l IH]; intros Hl; [constructor|]. constructor.
    - split; [|done]. apply byID_at, Hl. by left.
    - apply IH. intros x Hx. apply Hl. by right. }
  by apply Hall.
Qed.

Lemma same_ids_holds ms l ts : holds ms byID l ts -> ids_of ts = l.
Proof. induction 1 as [|id s l ts [_ Eid] _ IH]; [done|]. cbn. by rewrite Eid, IH. Qed.

Lemma sub_keyed ts : ts ≡ₚ ss ->
  NoDup (ids_of ts) /\ NoDup (map fsX ts) /\ Forall (keyed gp f) ts /\ Forall (fun s => used s = false) ts /\
  ts <> [] /\ (length f <= length ts)%nat /\ pubs_of ss = pubs_of ts /\ member_xs ss = xs_of ts.
Proof.
  intros Hp. pose proof Hq as [Hg Hsec Hids Hk Hc Hf Hmin Hdeg Hne]. fold ss in Hids, Hk, Hc, Hf, Hdeg, Hne.
  split; [by rewrite Hp|]. split.
  { assert (Eids : ids_of ss = map member_id (map fsX ss)).
    { rewrite map_map. apply map_ext_in. intros s Hs%list_elem_of_In. rewrite Forall_forall in Hc. auto. }
    rewrite Eids in Hids. apply NoDup_fmap_1 in Hids. by rewrite Hp. }
  split; [by rewrite Hp|]. split; [by rewrite Hp|].
  split; [intros ->; by apply Permutation_nil in Hp|]. split; [by rewrite Hp|].
  split; [by apply (fill_perm PubShare)|].
  transitivity (fill fsX ss ∅); [|by apply (fill_perm fsX)]. apply (fill_ext (fun s => memberX (fsID s))).
  rewrite Forall_forall in *. intros s Hs. rewrite (Hc s Hs). apply memberX_id. apply (k_index _ _ _ (Hk s Hs)).
Qed.

(** The ceremony answers a signature the standard verifier accepts. *)
Lemma ceremony_ok order draw desc :
  valid_order order -> all_drawn draw 0 (2 * length ss) ->
  exists ms' commits sig,
    commit_loop byID (order 0%nat (keys byID)) draw 0 (members c) ∅ = (ms', Ret commits) /\
    ceremony order gp ss byID ms' commits desc = Ret sig /\
    ed_verify gp desc sig = true /\
    (forall s, s ∈ ss -> exists s', signer_at ms' byID (fsID s) = Some s' /\ fsID s' = fsID s /\ used s' = true) /\
    (forall i, (forall id, byID !! id <> Some i) -> ms' !! i = members c !! i).
Proof.
  intros Ho Hd. pose proof byID_keys as Hkeys.
  assert (Hp0 : order 0%nat (keys byID) ≡ₚ ids_of ss) by (by rewrite (Ho _)).
  destruct (Forall2_perm _ _ _ _ byID_holds Hp0) as (ts & Hts & Hpt).
  destruct (sub_keyed ts Hpt) as (Hnd & Hndx & Hk & Hf & Hne & Hdeg & Epub & Exs).
  destruct (round_commits gp f ts Hnd Hk Hf draw) as (ts' & cs & nz & Ec & H2 & Hses & Hkc & Hcm & Ea).
  { intros j Hj. apply Hd. by rewrite <- Hpt. }
  destruct (commit_loop_ok byID (order 0%nat (keys byID)) ts draw 0 (members c) ∅ ts' cs) as (ms' & El & Hl & Hoth); try done.
  { rewrite Hp0. apply Hq. }
  { apply byID_apart. intros x Hx. by rewrite <- Hp0. }
  pose proof (with_nonces_same fsID ts ts' ltac:(done) H2) as Hsame.
  destruct (Forall2_perm _ _ (order 3%nat (keys byID)) _ Hl) as (ts'' & Hts'' & Hpt''); [by rewrite !(Ho _)|].
  destruct (round_signature gp f ts Hnd Hndx Hk Hf Hne Hdeg (order 2%nat) desc ts' ts'' cs nz)
    as (ag & r & cb & a' & z & rr & Ech & Esh & Eag & Hr & Hz); try done; [intros l; apply Ho|].
  exists ms', cs, (r ++ scalarBytes z). split; [done|]. split; [|split; [|split]].
  - unfold ceremony. rewrite Epub, Exs, (Ea (order 1%nat)) by (intros l; apply Ho). cbn [mbind outcome_bind].
    rewrite Ech. cbn [mbind outcome_bind]. rewrite (sign_loop_ok _ _ _ _ _ _ Hts''), Esh. cbn [mbind outcome_bind]. done.
  - apply (std_verify gp (peval f 0) r rr); [apply Hq|done|apply Z.mod_pos_bound, fl_pos|].
    by rewrite cong_mod, Hz by discriminate.
  - intros s Hs. assert (Hin : fsID s ∈ order 0%nat (keys byID)) by (rewrite Hp0; by apply elem_of_ids).
    apply list_elem_of_lookup_1 in Hin as [i Hi]. destruct (Forall2_lookup_l _ _ _ _ _ Hl Hi) as (s' & Hs' & Hat & Hid).
    exists s'. split; [done|]. split; [done|]. destruct (Forall2_lookup_r _ _ _ _ _ H2 Hs') as (s0 & _ & d & e & ->). done.
  - intros i Hi. apply Hoth. intros id _. apply Hi.
Qed.

Lemma pubs_size : size (pubs_of ss) = length ss.
Proof. rewrite size_keys. change (pubs_of ss) with (fill PubShare ss ∅). by rewrite (keys_fill PubShare ss (q_ids _ _ _ _ _ Hq)), length_map. Qed.

Lemma wanted_holders l : zlen (wanted ids l) <= zlen (holders l).
Proof. unfold zlen, wanted. pose proof (length_filter (fun s => fsID s ∈ ids) (holders l)). lia. Qed.

Lemma SignCommit_ok order draw epoch checkpoint prev newPub payload :
  valid_order order -> all_drawn draw 0 (2 * length ss) ->
  in_int64 epoch -> epoch = prev + 1 -> length (sb newPub) = PublicKeySize ->
  exists c' fc, SignCommit order draw c epoch checkpoint prev newPub payload min ids = Ret (c', Some fc) /\
    fcEpoch fc = epoch /\ fcCheckpoint fc = checkpoint /\ fcPrev fc = prev /\ fcNewPub fc = newPub /\
    fcPayload fc = payload /\ fcMembers fc ≡ₚ ids_of ss /\ (exists sig, fcSig fc = Some sig) /\
    Valid fc gp min = Ret true /\
    cEpoch c' = epoch /\ cGroup c' = Some gp /\
    (forall s, s ∈ ss -> exists s', signer_at (members c') byID (fsID s) = Some s' /\ fsID s' = fsID s /\ used s' = true) /\
    (forall i, (forall id, byID !! id <> Some i) -> members c' !! i = members c !! i).
Proof.
  intros Ho Hd He -> Hl. unfold SignCommit. rewrite wrap64_id, Z.eqb_refl by done. cbn [negb].
  pose proof (q_min _ _ _ _ _ Hq) as Hmin. pose proof (wanted_holders (members c)) as Hh. fold ss byID in Hmin, Hh |- *.
  destruct (Z.ltb_spec (zlen (holders (members c))) min); [lia|].
  rewrite pubs_size. fold (zlen ss). destruct (Z.ltb_spec (zlen ss) min); [lia|].
  set (fc := handoff _ _ _ _ _). destruct (ceremony_ok order draw (descriptor fc) Ho Hd) as (ms' & cs & sig & El & Ecer & Hv & Hu & Hoth).
  rewrite El, (q_group _ _ _ _ _ Hq). cbn [sb default from_option Datatypes.id]. rewrite Ecer.
  assert (Hm : order 4%nat (keys byID) ≡ₚ ids_of ss) by (by rewrite (Ho _), byID_keys).
  assert (Hval : Valid (with_sig fc sig (order 4%nat (keys byID))) gp min = Ret true).
  { unfold Valid. cbn [fcMembers fcNewPub fcSig with_sig fc handoff].
    replace (zlen (order 4%nat (keys byID)) <? min) with false.
    2: { symmetry. apply Z.ltb_ge. unfold zlen in *. by rewrite Hm, length_map. }
    rewrite Hl. cbn [PublicKeySize Nat.eqb negb orb]. rewrite Verify_len by (by eapply encodes_length, Hq).
    by f_equal. }
  rewrite Hval. cbn [mbind outcome_bind negb]. do 2 eexists. split; [done|]. cbn [fcEpoch fcCheckpoint fcPrev fcNewPub fcPayload fcMembers fcSig with_sig fc handoff cEpoch cGroup members].
  split_and!; try done. by exists sig.
Qed.

(** A quorum of council members signs: when at least [min] selected members
    hold unused shares of the council's key, for every order of the map
    iterations, SignCommit answers a handoff with exactly the epoch, checkpoint,
    new key and payload asked for, listing the members that signed, whose
    threshold signature is valid under the council's group key; the council's
    epoch moves on, the shares that signed are used up, and no other member's
    share is touched. *)
Theorem SignCommit_signs order draw epoch checkpoint newPub payload :
  valid_order order -> all_drawn draw 0 (2 * length (wanted ids (members c))) ->
  in_int64 epoch -> length (sb newPub) = PublicKeySize ->
  exists c' fc, SignCommit order draw c epoch checkpoint (epoch - 1) newPub payload min ids = Ret (c', Some fc) /\
    (fcEpoch fc = epoch /\ fcCheckpoint fc = checkpoint /\ fcNewPub fc = newPub /\ fcPayload fc = payload /\
     fcMembers fc ≡ₚ ids_of (wanted ids (members c))) /\
    Valid fc gp min = Ret true /\ cEpoch c' = epoch /\
    (forall s, s ∈ wanted ids (members c) -> exists i m s', members c' !! i = Some m /\ mShare m = Some s' /\
       fsID s' = fsID s /\ used s' = true) /\
    (forall i m s, members c !! i = Some m -> mShare m = Some s -> fsID s ∉ ids -> members c' !! i = Some m).
Proof.
  intros Ho Hd He Hl. destruct (SignCommit_ok order draw epoch checkpoint (epoch - 1) newPub payload Ho Hd He ltac:(lia) Hl)
    as (c' & fc & Es & E1 & E2 & _ & E3 & E4 & E5 & _ & Hv & Ee & _ & Hu & Hoth).
  exists c', fc. split_and!; try done.
  - intros s Hs. destruct (Hu s Hs) as (s' & Hat & Hid & Hus). apply signer_at_inv in Hat as (i & m & _ & Hm & Hsh).
    by exists i, m, s'.
  - intros i m s Hm Hsh Hn. rewrite <- Hm. apply Hoth. intros id Hi.
    assert (Hin : id ∈ ids_of ss) by (rewrite <- byID_keys; apply elem_of_keys; by eexists).
    apply elem_of_ids_inv in Hin as (s1 & Hs1 & ->). pose proof (byID_at s1 Hs1) as Hat.
    apply signer_at_inv in Hat as (j & m1 & Hj & Hm1 & Hsh1). assert (j = i) as -> by congruence.
    assert (s1 = s) as -> by congruence. apply Hn. unfold ss, wanted in Hs1. by apply list_elem_of_filter in Hs1 as [? _].
Qed.

End quorum.

(** ** Shares are single-use *)

Section used_up.
Context `{HL : HashLaws} `{EL : Ed25519Laws}.

Lemma signer_at_other ms byID i id s s0 :
  signer_at ms byID id = Some s -> byID !! id <> Some i -> signer_at (set_member ms i s0) byID id = Some s.
Proof.
  intros (j & m & Hj & Hm & Hs)%signer_at_inv Hne. apply (signer_at_intro _ _ _ j m); [done| |done].
  rewrite set_member_other; [done|]. congruence.
Qed.

Lemma Commit_cases s d e :
  (exists b, Commit s d e = (with_nonces s (nonce_d (Commit s d e).1) (nonce_e (Commit s d e).1), Ret b) /\ used s = false) \/
  (exists s' err, Commit s d e = (s', Err err)).
Proof.
  unfold Commit. destruct (used s); [right; by do 2 eexists|].
  destruct d as [d|]; cbn [randomScalar]; [|right; by do 2 eexists].
  destruct e as [e|]; cbn [randomScalar]; [|right; by do 2 eexists].
  left. destruct (encode_mult (leToInt d mod fl)) as (D & -> & _); [apply Z.mod_pos_bound, fl_pos|].
  destruct (encode_mult (leToInt e mod fl)) as (D2 & -> & _); [apply Z.mod_pos_bound, fl_pos|].
  cbn [mbind outcome_bind]. by eexists.
Qed.

Lemma commit_loop_used byID ids draw k ms cs u :
  NoDup ids -> apart byID ids -> (forall id, id ∈ ids -> is_Some (signer_at ms byID id)) ->
  (exists id, id ∈ ids /\ signer_at ms byID id = Some u /\ used u = true) ->
  exists ms' err, commit_loop byID ids draw k ms cs = (ms', Err err).
Proof.
  revert k ms cs. induction ids as [|id ids IH]; intros k ms cs Hnd Hap Hall (x & Hx & Hux & Hu); [by apply not_elem_of_nil in Hx|].
  apply NoDup_cons in Hnd as [Hn Hnd]. cbn [commit_loop]. destruct (Hall id) as [s Hs]; [by left|]. rewrite Hs.
  destruct (signer_at_inv _ _ _ _ Hs) as (i & m & Hi & _). rewrite Hi. cbn [from_option Datatypes.id].
  destruct (Commit_cases s (draw k) (draw (S k))) as [(b & E1 & Hf)|(s1 & err & ->)]; [|by do 2 eexists].
  rewrite E1. apply elem_of_cons in Hx as [->|Hx]; [congruence|].
  assert (Hne : forall id', id' ∈ ids -> byID !! id' <> Some i).
  { intros id' Hin' Hi'. assert (id = id') as <-; [|done]. apply (Hap _ _ i); [by left|by right|done..]. }
  apply IH; [done|intros a c j Ha Hc; apply Hap; by right|..].
  - intros id' Hin'. destruct (Hall id') as [s' Hs']; [by right|]. exists s'. apply signer_at_other; auto.
  - exists x. split; [done|]. split; [apply signer_at_other; auto|done].
Qed.

Lemma byID_found ids ms s : NoDup (ids_of (wanted ids ms)) -> s ∈ wanted ids ms ->
  signer_at ms (by_id ids 0 ms ∅) (fsID s) = Some s.
Proof.
  intros Hnd Hs. destruct (by_id_spec ids [] ms ∅ Hnd) as [_ H2].
  destruct (H2 s Hs) as (i & m & Hi & Hm & Hsh). by apply (signer_at_intro _ _ _ i m).
Qed.

Lemma byID_dom ids ms id : NoDup (ids_of (wanted ids ms)) -> is_Some (by_id ids 0 ms ∅ !! id) <-> id ∈ ids_of (wanted ids ms).
Proof.
  intros Hnd. destruct (by_id_spec ids [] ms ∅ Hnd) as [H1 _]. split.
  - intros Hs. destruct (decide (id ∈ ids_of (wanted ids ms))) as [|Hn]; [done|].
    specialize (H1 id Hn). cbn [length] in H1. rewrite H1, lookup_empty in Hs. by apply is_Some_None in Hs.
  - intros (s & Hs & ->)%elem_of_ids_inv. destruct (signer_at_inv _ _ _ _ (byID_found _ _ _ Hnd Hs)) as (i & _ & -> & _). by eexists.
Qed.

(** A used share blocks every ceremony: if one of the selected members has
    signed before, SignCommit answers no commit, whatever the epoch, the
    threshold, the other members and the randomness, and leaves the epoch as it
    was: a council recovers once per loading of its shares. *)
Theorem SignCommit_used order draw c epoch checkpoint prev newPub payload min ids s :
  valid_order order -> NoDup (ids_of (wanted ids (members c))) ->
  s ∈ wanted ids (members c) -> used s = true ->
  exists c', SignCommit order draw c epoch checkpoint prev newPub payload min ids = Ret (c', None) /\
    cEpoch c' = cEpoch c.
Proof.
  intros Ho Hnd Hs Hu. unfold SignCommit. destruct (epoch =? _); cbn [negb]; [|by eexists].
  destruct (_ <? min); [by eexists|]. destruct (_ <? min); [by eexists|].
  set (byID := by_id ids 0 (members c) ∅). set (l := order 0%nat (keys byID)).
  assert (Hl : forall id, id ∈ l <-> id ∈ ids_of (wanted ids (members c))).
  { intros id. unfold l. rewrite (Ho _), elem_of_keys. by apply byID_dom. }
  destruct (commit_loop_used byID l draw 0 (members c) ∅ s) as (ms' & err & ->).
  - unfold l. rewrite (Ho _). apply keys_NoDup.
  - intros a b i Ha Hb Ea Eb. apply Hl, elem_of_ids_inv in Ha as (s1 & Hs1 & ->). apply Hl, elem_of_ids_inv in Hb as (s2 & Hs2 & ->).
    destruct (signer_at_inv _ _ _ _ (byID_found _ _ _ Hnd Hs1)) as (j & m & Hj & Hm & Hsh).
    destruct (signer_at_inv _ _ _ _ (byID_found _ _ _ Hnd Hs2)) as (j' & m' & Hj' & Hm' & Hsh'). unfold byID in Ea, Eb. congruence.
  - intros id Hid. apply Hl, elem_of_ids_inv in Hid as (s1 & Hs1 & ->). exists s1. by apply byID_found.
  - exists (fsID s). split; [apply Hl; by apply elem_of_ids|]. split; [by apply byID_found|done].
  - by eexists.
Qed.

End used_up.
