(* ===== verification/Recovery.v ===== *)
(** * Recovery end to end: theorems about [Recover] of Council.v

    A timeline whose keys were compromised is rolled back, handed over to a
    fresh root under the council's signature, and re-issued.  The theorems
    compose those of TimelineTheory.v and TrustState.v (rollback, blast radius,
    recovery checks) with those of CouncilTheory.v (the handoff's signature). *)
From S2P Require Import Prelude Crypto Encoding Json Timeline TimelineTheory TimelineFile Graph TrustState.
From S2P Require Import Modular Edwards Frost FrostTheory FrostSpec Identity Council CouncilTheory.

(** ** The payloads decode to what was encoded *)

Lemma decode_list_strings l : decode_list (decode_string "") (JArr (map jstring l)) = Some l.
Proof.
  cbn [decode_list]. induction l as [|s l IH]; [done|]. cbn [map mapM]. rewrite decode_jstring. cbn. by rewrite IH.
Qed.

Lemma norm_strings l : Forall valid_string l -> norm (JArr (map jstring l)) = JArr (map jstring l).
Proof.
  intros HF. cbn [norm]. f_equal. induction HF as [|s l Hs _ IH]; [done|]. cbn [map]. by rewrite IH, norm_jstring.
Qed.

Lemma wf_strings l : wf (JArr (map jstring l)).
Proof. cbn. induction l; cbn; auto. Qed.

Lemma depth_strings l : (depth (JArr (map jstring l)) <= 1)%nat.
Proof.
  cbn [depth]. apply le_n_S, list_max_le. rewrite map_map. apply Forall_map, Forall_forall. intros s _. cbn. lia.
Qed.

Lemma fc_json_ok c : wf (fc_json c) /\ (depth (fc_json c) <= 3)%nat.
Proof.
  split; [unfold fc_json, jfield; cbn [wf all_of snd]; split_and!; first [exact I|apply wf_jint|apply wf_jslice|apply wf_strings]|].
  pose proof (depth_strings (fcMembers c)) as Hd. unfold fc_json. cbn [depth].
  etransitivity; [apply (le_n_S _ 2), list_max_le|lia]. unfold jfield. cbn [map snd].
  assert (Hs : forall s, (depth (jslice s) <= 2)%nat) by (intros [s|]; cbn; lia).
  repeat (apply Forall_cons; split); try apply Hs; try (cbn; lia); [|constructor].
  by etransitivity; [exact Hd|lia].
Qed.

Lemma fc_decode c c0 :
  in_int64 (fcEpoch c) -> in_int64 (fcPrev c) -> Forall valid_string (fcMembers c) ->
  decode_struct fc_names fc_set c0 (norm (fc_json c)) = Some c.
Proof.
  intros He Hp Hm. assert (En : norm (fc_json c) = fc_json c).
  { unfold fc_json, jfield. cbn [norm map fst snd]. rewrite !coerce_ascii by done.
    rewrite !norm_jslice, !norm_jint. change (JArr (map norm (map jstring (fcMembers c)))) with (norm (JArr (map jstring (fcMembers c)))).
    by rewrite norm_strings. }
  rewrite En. unfold fc_json. cbn [mbind option_bind]. rewrite decode_struct_obj. destruct c0 as [e0 k0 p0 n0 l0 s0 m0].
  do 6 struct_step fc_set. struct_step_with fc_set ltac:(rewrite decode_list_strings). by destruct c.
Qed.

Lemma fc_roundtrip c :
  in_int64 (fcEpoch c) -> in_int64 (fcPrev c) -> Forall valid_string (fcMembers c) ->
  fc_unmarshal (print (fc_json c)) = Some c.
Proof.
  intros He Hp Hm. unfold fc_unmarshal. destruct (fc_json_ok c) as [Hw Hd]. rewrite parse_print by (pose proof nesting_room; lia || done).
  by apply fc_decode.
Qed.

Lemma issue_roundtrip c i : valid_string c -> valid_string i ->
  issue_unmarshal (print (issue_json c i)) = Some {| pCertID := c; pIdentity := i; pVia := "" |}.
Proof.
  intros Hc Hi. unfold issue_unmarshal. rewrite parse_print.
  - assert (En : norm (issue_json c i) = issue_json c i).
    { unfold issue_json, jfield. cbn [norm map fst snd]. rewrite !coerce_ascii by done. by rewrite !norm_jstring. }
    rewrite En. unfold issue_json. cbn [mbind option_bind]. rewrite decode_struct_obj. do 2 struct_step issue_set. done.
  - cbn. auto.
  - pose proof nesting_room. cbn. lia.
Qed.

Lemma revoke_roundtrip c : valid_string c -> revoke_unmarshal (print (revoke_json c)) = Some c.
Proof.
  intros Hc. unfold revoke_unmarshal. rewrite parse_print.
  - assert (En : norm (revoke_json c) = revoke_json c).
    { unfold revoke_json, jfield. cbn [norm map fst snd]. rewrite !coerce_ascii by done. by rewrite norm_jstring. }
    rewrite En. unfold revoke_json. cbn [mbind option_bind]. rewrite decode_struct_obj.
    rewrite decode_member_cons by (apply (bool_decide_unpack _); vm_compute; exact I). apply decode_jstring.
  - cbn. auto.
  - pose proof nesting_room. cbn. lia.
Qed.

(** ** Appending to a live chain *)

(** The effect of a re-issue and of a revocation on the certificates. *)
Definition put_issue (m : gmap string Cert) (cid id : string) : gmap string Cert :=
  match m !! cid with
  | Some c => if Revoked c then m else <[cid := {| Identity := id; Revoked := false |}]> m
  | None => <[cid := {| Identity := id; Revoked := false |}]> m
  end.
Definition put_revoke (m : gmap string Cert) (cid : string) : gmap string Cert :=
  match m !! cid with
  | Some c => <[cid := {| Identity := Identity c; Revoked := true |}]> m
  | None => m
  end.

Section recovery.
Context `{HL : HashLaws} `{EL : Ed25519Laws}.

(** A timeline that holds the key its chain ends under. *)
Record live (t : Timeline) : Prop := {
  lv_key : exists priv, tkey t = Some priv /\ real_key priv /\ tpub t = pub_of priv;
  lv_start : keys_ok t;
  lv_chain : Chain (councilPub t) (algo t) None (startPub t) (events t) (tpub t);
}.

Lemma live_verifies t : live t -> Verify t = Ret true.
Proof. intros [_ Hk Hc]. apply Verify_good; [done|]. by exists (tpub t). Qed.

(** Append succeeds on a live timeline; what it does to the fold is given by
    the event alone. *)
Lemma live_append t typ payload :
  live t -> typ <> EvRecovery -> typ <> EvKeyRotate ->
  exists t' e h, Append t typ payload 0 = Ret (t', h) /\ live t' /\ t' = with_events t (events t ++ [e]) /\
    EType e = typ /\ EPayload e = payload.
Proof.
  intros [(priv & Hk & Hr & Hp) Hok Hc] Hn1 Hn2.
  destruct (append_some t priv typ payload 0 Hk (real_key_length _ Hr)) as (t' & h & Ea).
  pose proof Ea as Ea'. apply append_ret in Ea' as (sig & priv' & Hk' & _ & -> & -> & _).
  rewrite Hk in Hk'. injection Hk' as <-. eexists _, _, h. split; [exact Ea|]. split; [|done].
  split; [by exists priv|done|]. cbn. eapply Chain_snoc; [exact Hc|]. apply accept_plain; try done.
  - by apply thead_linked.
  - rewrite Hp. by apply signed_event.
Qed.

Lemma Fold_snoc t es e : fold_certs (events (with_events t (es ++ [e]))) = fold_event (fold_certs es) e.
Proof. apply fold_certs_snoc. Qed.

Lemma issue_event e cid id m : EType e = EvIssue -> EPayload e = Some (print (issue_json cid id)) ->
  valid_string cid -> valid_string id -> fold_event m e = put_issue m cid id.
Proof.
  intros Ht Hp Hc Hi. unfold fold_event, issued. rewrite Ht, decide_True, Hp by done.
  cbn [sb default from_option Datatypes.id]. by rewrite issue_roundtrip.
Qed.

Lemma revoke_event e cid m : EType e = EvRevoke -> EPayload e = Some (print (revoke_json cid)) ->
  valid_string cid -> fold_event m e = put_revoke m cid.
Proof.
  intros Ht Hp Hc. unfold fold_event, issued, revoked. rewrite Ht, decide_False, decide_True, Hp by done.
  cbn [sb default from_option Datatypes.id]. by rewrite revoke_roundtrip.
Qed.

Lemma quiet_event e m : EType e <> EvIssue -> EType e <> EvRevoke -> fold_event m e = m.
Proof. intros H1 H2. unfold fold_event, issued, revoked. by rewrite !decide_False. Qed.

(** What a chain of appends keeps. *)
Record extends (t t' : Timeline) : Prop := {
  ex_events : events t `prefix_of` events t';
  ex_key : tkey t' = tkey t;
  ex_pub : tpub t' = tpub t;
  ex_start : tstart t' = tstart t;
  ex_council : councilPub t' = councilPub t;
}.

Lemma extends_refl t : extends t t.
Proof. by split. Qed.

Lemma extends_trans t1 t2 t3 : extends t1 t2 -> extends t2 t3 -> extends t1 t3.
Proof. intros [] []. split; by etransitivity. Qed.

Lemma extends_append t e t' : extends (with_events t (events t ++ [e])) t' -> extends t t'.
Proof. intros [He ? ? ? ?]. split; try done. etransitivity; [|exact He]. by exists [e]. Qed.

Lemma reissue_loop_ok epoch ids t :
  live t -> Forall valid_string ids -> Forall (fun i => valid_string (reissued_id i epoch)) ids ->
  exists t', reissue_loop epoch ids t = Ret (t', map (fun i => reissued_id i epoch) ids) /\ live t' /\ extends t t' /\
    fold_certs (events t') = foldl (fun m i => put_issue m (reissued_id i epoch) i) (fold_certs (events t)) ids.
Proof.
  intros Hl HF HF'. induction HF as [|i ids Hi _ IH] in t, Hl, HF' |- *; cbn [reissue_loop map foldl].
  { exists t. split; [done|]. split; [done|]. split; [apply extends_refl|done]. }
  apply Forall_cons in HF' as [Hn HF']. unfold try_append.
  destruct (live_append t EvIssue (Some (print (issue_json (reissued_id i epoch) i))) Hl) as (t1 & e & h & -> & Hl1 & -> & Ht & Hp); [done..|].
  cbn [mbind outcome_bind]. destruct (IH _ Hl1 HF') as (t2 & -> & Hl2 & Hx & Ef). cbn [mbind outcome_bind].
  exists t2. split; [done|]. split; [done|]. split; [by eapply extends_append|].
  rewrite Ef, Fold_snoc. by rewrite (issue_event e (reissued_id i epoch) i).
Qed.

Lemma revoke_loop_ok cids t :
  live t -> Forall valid_string cids ->
  exists t', revoke_loop cids t = Ret t' /\ live t' /\ extends t t' /\
    fold_certs (events t') = foldl put_revoke (fold_certs (events t)) cids.
Proof.
  intros Hl HF. induction HF as [|i ids Hi _ IH] in t, Hl |- *; cbn [revoke_loop foldl].
  { exists t. split; [done|]. split; [done|]. split; [apply extends_refl|done]. }
  unfold try_append.
  destruct (live_append t EvRevoke (Some (print (revoke_json i))) Hl) as (t1 & e & h & -> & Hl1 & -> & Ht & Hp); [done..|].
  cbn [mbind outcome_bind]. destruct (IH _ Hl1) as (t2 & -> & Hl2 & Hx & Ef).
  exists t2. split; [done|]. split; [done|]. split; [by eapply extends_append|].
  rewrite Ef, Fold_snoc. by rewrite (revoke_event e i).
Qed.

(** ** The folds, pointwise *)

Lemma put_revoke_lookup m cid c : put_revoke m cid !! c =
  if decide (c = cid) then (fun x => {| Identity := Identity x; Revoked := true |}) <$> m !! c else m !! c.
Proof.
  unfold put_revoke. destruct (m !! cid) as [x|] eqn:Ex; case_decide as Hd; subst.
  - by rewrite lookup_insert_eq, Ex.
  - by rewrite lookup_insert_ne.
  - by rewrite Ex.
  - done.
Qed.

Lemma revokes_lookup cids m c : foldl put_revoke m cids !! c =
  if decide (c ∈ cids) then (fun x => {| Identity := Identity x; Revoked := true |}) <$> m !! c else m !! c.
Proof.
  revert m. induction cids as [|cid cids IH]; intros m; cbn [foldl].
  { rewrite decide_False; [done|apply not_elem_of_nil]. }
  rewrite IH, put_revoke_lookup. destruct (decide (c = cid)) as [->|Hne].
  - rewrite (decide_True (P := cid ∈ cid :: cids)) by left. case_decide; [|done]. by destruct (m !! cid).
  - destruct (decide (c ∈ cids)) as [Hin|Hn].
    + by rewrite (decide_True (P := c ∈ cid :: cids)) by (by right).
    + rewrite (decide_False (P := c ∈ cid :: cids)); [done|]. by intros [?|?]%elem_of_cons.
Qed.

Lemma reissued_inj epoch : Inj (=) (=) (fun i => reissued_id i epoch).
Proof.
  intros a b Eq. unfold reissued_id in Eq. apply (f_equal to_bytes) in Eq. rewrite !to_bytes_app in Eq.
  apply app_inv_tail in Eq. by apply (inj to_bytes).
Qed.

Lemma issues_other epoch ids m c : c ∉ map (fun i => reissued_id i epoch) ids ->
  foldl (fun m i => put_issue m (reissued_id i epoch) i) m ids !! c = m !! c.
Proof.
  revert m. induction ids as [|i ids IH]; intros m; cbn [foldl map]; [done|].
  intros [Hne Hn]%not_elem_of_cons. rewrite IH by done. unfold put_issue.
  destruct (m !! reissued_id i epoch) as [x|]; [destruct (Revoked x); [done|]|]; by rewrite lookup_insert_ne.
Qed.

Lemma issues_lookup epoch ids m i : i ∈ ids -> NoDup ids -> m !! reissued_id i epoch = None ->
  foldl (fun m i => put_issue m (reissued_id i epoch) i) m ids !! reissued_id i epoch =
    Some {| Identity := i; Revoked := false |}.
Proof.
  revert m. induction ids as [|j ids IH]; intros m Hin Hnd Hm; cbn [foldl]; [by apply not_elem_of_nil in Hin|].
  apply NoDup_cons in Hnd as [Hj Hnd]. apply elem_of_cons in Hin as [->|Hin].
  - rewrite issues_other.
    + unfold put_issue. by rewrite Hm, lookup_insert_eq.
    + intros (k & Ek & Hk)%list_elem_of_fmap. by apply (reissued_inj epoch) in Ek as ->.
  - apply IH; [done|done|]. unfold put_issue. rewrite <- Hm.
    assert (Hne : reissued_id j epoch <> reissued_id i epoch) by (intros Eq%(reissued_inj epoch); by subst).
    destruct (m !! reissued_id j epoch) as [x|]; [destruct (Revoked x); [done|]|]; by rewrite lookup_insert_ne.
Qed.

Lemma issues_revoked epoch ids m c x : m !! c = Some x -> Revoked x = true ->
  foldl (fun m i => put_issue m (reissued_id i epoch) i) m ids !! c = Some x.
Proof.
  intros Hm Hr. revert m Hm. induction ids as [|i ids IH]; intros m Hm; cbn [foldl]; [done|]. apply IH.
  unfold put_issue. destruct (decide (c = reissued_id i epoch)) as [->|Hne].
  - by rewrite Hm, Hr.
  - destruct (m !! reissued_id i epoch) as [y|]; [destruct (Revoked y); [done|]|]; by rewrite lookup_insert_ne.
Qed.

(** ** The handoff *)

Lemma handoff_append f newRoot gp fc min e :
  writable f -> tstart f <> None -> algo f = algoSHA256 -> real_key newRoot ->
  last (events f) = Some e -> fcCheckpoint fc = Some (Hash e) -> fcNewPub fc = Some (pub_of newRoot) ->
  length gp = PublicKeySize -> councilPub f = Some gp -> fcMembers fc <> [] -> Valid fc gp min = Ret true ->
  in_int64 (fcEpoch fc) -> in_int64 (fcPrev fc) -> Forall valid_string (fcMembers fc) ->
  let t1 := adopt f newRoot (Some gp) in
  exists t2 ev h, Append t1 EvRecovery (Some (print (fc_json fc))) 0 = Ret (t2, h) /\ live t2 /\
    t2 = with_events t1 (events t1 ++ [ev]) /\ EType ev = EvRecovery.
Proof.
  intros (p & _ & _ & _ & Hok & _ & Hc) Hst Ha Hr Hlast Hcp Hnp Hl Hcouncil Hne Hv He Hpr Hm t1.
  destruct (append_some t1 newRoot EvRecovery (Some (print (fc_json fc))) 0 eq_refl (real_key_length _ Hr)) as (t2 & h & Ea).
  pose proof Ea as Ea'. apply append_ret in Ea' as (sig & priv' & Hk' & _ & -> & -> & _).
  cbn in Hk'. injection Hk' as <-. eexists _, _, h. split; [exact Ea|]. split; [|done].
  assert (Hs : startPub t1 = startPub f) by (unfold startPub, t1, adopt; cbn; by destruct (tstart f)).
  split; [by exists newRoot|unfold keys_ok in *; by rewrite <- Hs in Hok|].
  change (Chain (Some gp) (algo f) None (startPub t1) (events f ++ [{| EType := EvRecovery; ETimestamp := 0;
    EPayload := Some (print (fc_json fc)); EParentHash := thead t1; ESignature := Some (ed_sign newRoot
      (canonical {| EType := EvRecovery; ETimestamp := 0; EPayload := Some (print (fc_json fc));
                    EParentHash := thead t1; ESignature := None |})) |}]) (pub_of newRoot)).
  rewrite Hs. rewrite Hcouncil in Hc. eapply Chain_snoc; [exact Hc|]. apply accept_recover.
  - apply (thead_linked t1). done.
  - done.
  - exists fc. cbn [EPayload sb default from_option Datatypes.id]. rewrite fc_roundtrip by done.
    split; [done|]. split; [done|]. rewrite Hnp. split; [done|]. split; [apply pub_of_length|]. split; [done|].
    rewrite Valid_spec in Hv by done. injection Hv as Hv. apply andb_true_iff in Hv as [_ Hv]. split; [done|].
    rewrite Hcp, Ha. unfold prev_of. rewrite Hlast. done.
  - by apply signed_event.
Qed.

End recovery.

Lemma Runes_app s t l l' : Runes s l -> forallb (fun r => match r with Some _ => true | None => false end) l = true ->
  Runes t l' -> Runes (s ++ t) (l ++ l').
Proof.
  induction 1 as [|b s l Hb Hl IH|c s l Hc Hl IH]; [done..|]. intros Hv Ht. rewrite <- app_assoc. cbn [app].
  constructor; [done|]. by apply IH.
Qed.

Lemma valid_app s t : valid_string s -> valid_string t -> valid_string (s ++ t)%string.
Proof.
  unfold valid_string. intros Hs Ht. rewrite to_bytes_app. unfold utf8_valid in *.
  rewrite (runes_eq _ _ (Runes_app _ _ _ _ (runes_spec _) Hs (runes_spec (to_bytes t)))).
  by rewrite forallb_app, Hs, Ht.
Qed.

Lemma dec_valid z : valid_string (of_bytes (dec_Z z)).
Proof.
  unfold valid_string. rewrite to_of_bytes. apply ascii_valid, forallb_forall. intros b Hb.
  assert (Hd : forall n, 0 <= n -> forall b, In b (nat_digits n) -> byte_Z b < 128).
  { intros n Hn x Hx. destruct (nat_digits_spec n Hn) as (d & r & E & Hdig & _). rewrite E in Hx.
    pose proof (proj1 (forallb_forall _ _) Hdig x Hx) as Hxd. revert Hxd. clear. unfold is_digit. destruct x; vm_compute; congruence. }
  apply Z.ltb_lt. unfold dec_Z in Hb. destruct (z <? 0) eqn:Ez.
  - destruct Hb as [<-|Hb]; [by vm_compute|]. apply (Hd (- z)); [lia|done].
  - apply (Hd z); [lia|done].
Qed.

Lemma reissued_valid i epoch : valid_string i -> valid_string (reissued_id i epoch).
Proof. intros Hi. unfold reissued_id. apply valid_app; [done|]. apply valid_app; [by vm_compute|]. apply dec_valid. Qed.

Lemma member_id_valid x : valid_string (member_id x).
Proof. unfold member_id. apply valid_app; [by vm_compute|apply dec_valid]. Qed.

(** ** The state after a recovery *)

Section state.
Context `{HL : HashLaws} (epoch : Z) (m : gmap string Cert) (ids affs : list string) (affected identities : gset string).
Hypothesis Hids : ids ≡ₚ elements identities.
Hypothesis Haffs : affs ≡ₚ elements affected.
(** The ids of the new certificates are new. *)
Hypothesis Hfresh : forall i, i ∈ identities -> m !! reissued_id i epoch = None.

Definition recovered : gmap string Cert :=
  foldl put_revoke (foldl (fun m i => put_issue m (reissued_id i epoch) i) m ids) affs.

Lemma in_ids i : i ∈ ids <-> i ∈ identities.
Proof. rewrite Hids. apply elem_of_elements. Qed.
Lemma in_affs i : i ∈ affs <-> i ∈ affected.
Proof. rewrite Haffs. apply elem_of_elements. Qed.
Lemma ids_distinct : NoDup ids.
Proof. rewrite Hids. apply NoDup_elements. Qed.

Lemma recovered_revoked c x : c ∈ affected -> recovered !! c = Some x -> Revoked x = true.
Proof.
  intros Hc. unfold recovered. rewrite revokes_lookup, decide_True by (by apply in_affs).
  intros (y & _ & ->)%fmap_Some. done.
Qed.

Lemma recovered_new i : i ∈ identities ->
  recovered !! reissued_id i epoch =
    Some {| Identity := i; Revoked := bool_decide (reissued_id i epoch ∈ affected) |}.
Proof.
  intros Hi. unfold recovered. rewrite revokes_lookup.
  rewrite (issues_lookup epoch ids m i) by (by apply in_ids || apply ids_distinct || apply Hfresh).
  destruct (decide (reissued_id i epoch ∈ affs)) as [Ha|Hn].
  - rewrite bool_decide_eq_true_2; [done|by apply in_affs].
  - rewrite bool_decide_eq_false_2; [done|]. intros Ha. by apply Hn, in_affs.
Qed.

Lemma recovered_other c : c ∉ map (fun i => reissued_id i epoch) ids ->
  recovered !! c = if decide (c ∈ affs) then (fun x => {| Identity := Identity x; Revoked := true |}) <$> m !! c else m !! c.
Proof. intros Hn. unfold recovered. by rewrite revokes_lookup, issues_other. Qed.

Lemma not_reissued c x : m !! c = Some x -> c ∉ map (fun i => reissued_id i epoch) ids.
Proof. intros Hm (i & -> & Hi)%list_elem_of_fmap. rewrite Hfresh in Hm; [done|]. by apply in_ids. Qed.

Lemma recovered_checks :
  let r := VerifyRecovery {| Certs := m |} {| Certs := recovered |} affected identities in
  Checks r !! "P3"%string = Some true /\ Checks r !! "P5"%string = Some true.
Proof.
  destruct (VerifyRecovery_checks {| Certs := m |} {| Certs := recovered |} affected identities) as [H3 H5].
  cbn [Certs] in *. split; [apply H3|apply H5; split].
  - intros c x Hc [Hr Hf]. rewrite recovered_other in Hf by (by eapply not_reissued).
    rewrite Hc in Hf. destruct (decide (c ∈ affs)); cbn in Hf; destruct Hf as [?|?]; congruence.
  - intros c x Hc. destruct (decide (c ∈ affected)) as [?|Hn]; [by left|]. right.
    rewrite recovered_other by (by eapply not_reissued). rewrite decide_False; [done|]. by rewrite in_affs.
  - intros c x Hx. destruct (decide (c ∈ map (fun i => reissued_id i epoch) ids)) as [Hin|Hn].
    + right. apply list_elem_of_fmap in Hin as (i & -> & Hi%in_ids). rewrite recovered_new in Hx by done.
      by injection Hx as <-.
    + left. rewrite recovered_other in Hx by done. destruct (m !! c) as [y|]; [by eexists|]. by destruct (decide (c ∈ affs)).
Qed.

End state.

(** ** Recovery of a compromised timeline *)

(** Every certificate and identity an event names is valid UTF-8, as the JSON
    decoder leaves it. *)
Definition named_ok (e : TrustEvent) : Prop :=
  (forall p, issued e = Some p -> valid_string (pCertID p) /\ valid_string (pIdentity p)) /\
  (forall r, revoked e = Some r -> valid_string r).

Lemma named_via es a b : Forall named_ok es -> valid_string a -> rtc (via es) a b -> valid_string b.
Proof.
  intros HF Ha Hr. revert Ha. induction Hr as [|a b c (e & p & He & Hi & _ & _ & <-) _ IH]; [done|]. intros _. apply IH.
  rewrite Forall_forall in HF. destruct (HF e He) as [H1 _]. by destruct (H1 p Hi).
Qed.

Lemma elem_of_window {A} n (l : list A) x : x ∈ drop n l -> x ∈ l.
Proof. intros Hx. rewrite <- (take_drop n l). apply elem_of_app. by right. Qed.

Lemma invalid_named order t badIdx certs ids :
  valid_order order -> 0 <= badIdx <= zlen (events t) -> Forall named_ok (events t) ->
  InvalidationSet order t badIdx = Ret (certs, ids) ->
  (forall c, c ∈ certs -> valid_string c) /\ (forall i, i ∈ ids -> valid_string i).
Proof.
  intros Ho Hb HF E. destruct (InvalidationSet_ret order t badIdx Ho Hb) as (certs' & ids' & E' & Hc & Hi).
  rewrite E in E'. injection E' as <- <-. pose proof HF as HF'. rewrite Forall_forall in HF'. split.
  - intros c (c0 & (e & He & Hn) & Hr)%Hc. eapply named_via; [exact HF| |exact Hr].
    apply elem_of_window, HF' in He as [H1 H2].
    destruct Hn as [(p & Hp & <-)|Hn]; [by destruct (H1 _ Hp)|by apply H2].
  - intros i (e & p & He & Hp & <-)%Hi.
    apply elem_of_window, HF' in He as [H1 _]. by destruct (H1 _ Hp).
Qed.

Lemma holders_length c : zlen (shareHolders c) = zlen (holders (members c)).
Proof.
  unfold zlen, shareHolders, holders. f_equal. induction (members c) as [|x l IH]; [done|]. cbn [omap list_omap].
  destruct (mShare x) as [s|] eqn:Es.
  - rewrite filter_cons_True by (by rewrite Es). cbn [length]. by rewrite IH.
  - rewrite filter_cons_False; [done|]. rewrite Es. by apply is_Some_None.
Qed.

Lemma steps_algo `{HL : HashLaws} `{EL : Ed25519Laws} t t' : rtc TStep t t' -> algo t' = algo t.
Proof.
  induction 1 as [|t t1 t2 Hs _ IH]; [done|]. rewrite IH. destruct Hs as [t typ p ts t1 h _ _ Ea|t nk ts t1 h _ Er|t pub]; [..|done].
  - by apply append_ret in Ea as (? & ? & _ & _ & _ & -> & _).
  - unfold RotateKey in Er. destruct (tkey t); [|done]. inv_outcome.
    match goal with Ha : append _ _ _ _ = Ret _ |- _ => apply append_ret in Ha as (? & ? & _ & _ & _ & -> & _) end. done.
Qed.

Section recover.
Context `{HL : HashLaws} `{EL : Ed25519Laws} {Std : Ed25519Std} `{X : X509}.
Context (priv : bytes) (t0 t : Timeline) (badIdx : Z) (gp : bytes) (poly : list Z) (c : Council) (minVotes : Z).
Context (o : Orders) (seed : bytes) (now : Z) (draw : nat -> option bytes) (ca : Certificate) (der : bytes).

(** A SHA-256 timeline the engine built, anchored to the council's key. *)
Hypothesis Hpriv : real_key priv.
Hypothesis Hnew : NewTimeline (Some priv) = Ret t0.
Hypothesis Hreach : rtc TStep t0 t.
Hypothesis Hevents : Forall event_ok (events t).
Hypothesis Hnames : Forall named_ok (events t).
Hypothesis Hcf : collision_free sha256 (map signedBytes (events t)).
Hypothesis Hbad : 0 < badIdx <= zlen (events t).
Hypothesis Hrot : badIdx <= first_rotation t.
Hypothesis Hanchor : councilPub t = Some gp.
(** A quorum, fresh randomness, the maps in some order. *)
Hypothesis Hquorum : quorum gp poly (map fsID (holders (members c))) minVotes c.
Hypothesis Hepoch : 0 <= cEpoch c < 2 ^ 63 - 1.
Hypothesis Hseed : length seed = SeedSize.
Hypothesis Hdraw : all_drawn draw 0 (2 * length (wanted (map fsID (holders (members c))) (members c))).
Hypothesis Hinv : valid_order (oInvalid o).
Hypothesis Hsign : valid_order (oSign o).
Hypothesis HoIds : permutes (oIds o).
Hypothesis HoAff : permutes (oAff o).
(** [crypto/x509] makes the new root's certificate. *)
Hypothesis Hca : NewIdentityCA (Some (ed_keygen seed))
  ("to root epoch " ++ of_bytes (dec_Z (wrap64 (cEpoch c + 1)))) now (AddYears now 10) = Ret (ca, der).

Let pre : gmap string Cert := fold_certs (take (Z.to_nat badIdx) (events t)).

(** The middle: a fork under the new root, and the blast radius. *)
Lemma middle_ok : exists f certs ids,
  Rollback t badIdx = Ret f /\ writable f /\ tstart f <> None /\ startPub f = startPub t /\
  councilPub f = Some gp /\ algo f = algoSHA256 /\ events f = take (Z.to_nat badIdx) (events t) /\
  InvalidationSet (oInvalid o) t badIdx = Ret (certs, ids) /\
  (forall x, x ∈ certs -> valid_string x) /\ (forall i, i ∈ ids -> valid_string i) /\
  recoverRollback (oInvalid o) t badIdx seed (cEpoch c) now =
    Ret {| rfFork := adopt f (ed_keygen seed) (Some gp); rfAffected := certs; rfIdentities := ids;
           rfCert := der; rfPub := pub_of (ed_keygen seed) |}.
Proof.
  destruct (Rollback_writable priv algoSHA256 t0 t badIdx) as (f & Ef & Hev & Hw & Hst & Hsp & Hcp & Ha); try done.
  destruct (InvalidationSet_ret (oInvalid o) t badIdx Hinv) as (certs & ids & Ei & _); [lia|].
  destruct (invalid_named (oInvalid o) t badIdx certs ids) as [H1 H2]; [done|lia|done..|].
  exists f, certs, ids. split; [done|]. split; [done|]. split; [done|]. split; [done|]. split; [by rewrite Hcp|].
  split. { rewrite Ha, (steps_algo t0 t Hreach). unfold NewTimeline, newTimeline in Hnew.
    rewrite Public_real in Hnew by done. by injection Hnew as <-. }
  split; [done|]. split; [done|]. split; [done|]. split; [done|].
  unfold recoverRollback. rewrite Hca. cbn [mbind outcome_bind]. rewrite Ef. cbn [mbind outcome_bind].
  rewrite Hanchor, Ei. cbn [mbind outcome_bind]. done.
Qed.

Lemma checkpoint_ok : exists e, events t !! Z.to_nat (badIdx - 1) = Some e /\
  rollbackCheckpoint t badIdx = Ret (Some (Hash e)) /\ last (take (Z.to_nat badIdx) (events t)) = Some e.
Proof.
  destruct (lookup_lt_is_Some_2 (events t) (Z.to_nat (badIdx - 1))) as [e He]; [unfold zlen in Hbad; lia|].
  exists e. split; [done|]. split.
  - unfold rollbackCheckpoint, Events. destruct (Z.leb_spec badIdx 0); [lia|]. by rewrite He.
  - replace (Z.to_nat badIdx) with (S (Z.to_nat (badIdx - 1))) by lia.
    rewrite (take_S_r _ _ e) by done. by rewrite last_snoc.
Qed.

Lemma built_prefix : VerifyPrefix t badIdx = Ret true.
Proof.
  destruct (newTimeline_writable priv algoSHA256 Hpriv) as (t0' & E' & Hw & _).
  unfold NewTimeline in Hnew. rewrite Hnew in E'. injection E' as <-.
  assert (Hst : tstart t0 <> None).
  { unfold newTimeline in Hnew. rewrite Public_real in Hnew by done. by injection Hnew as <-. }
  destruct (steps_writable _ _ Hreach Hw Hst) as [Hwt _]. destruct (writable_good _ Hwt) as [Hok Hg].
  apply Verify_prefixes; [done|]. by apply Verify_good.
Qed.

Lemma quorum_group : length gp = PublicKeySize.
Proof. by eapply encodes_length, Hquorum. Qed.

(** Signing the handoff, and appending it. *)
Lemma handoff_ok f e : writable f -> tstart f <> None -> algo f = algoSHA256 -> councilPub f = Some gp ->
  last (events f) = Some e ->
  exists c' fc t2 ev h,
    SignCommit (oSign o) draw c (wrap64 (cEpoch c + 1)) (Some (Hash e)) (cEpoch c)
      (Some (pub_of (ed_keygen seed))) (Some der) minVotes (map fsID (holders (members c))) = Ret (c', Some fc) /\
    Append (adopt f (ed_keygen seed) (Some gp)) EvRecovery (Some (print (fc_json fc))) 0 = Ret (t2, h) /\
    Valid fc gp minVotes = Ret true /\ fcEpoch fc = cEpoch c + 1 /\ cEpoch c' = cEpoch c + 1 /\ live t2 /\
    t2 = with_events (adopt f (ed_keygen seed) (Some gp)) (events f ++ [ev]) /\ EType ev = EvRecovery.
Proof.
  intros Hw Hst Ha Hcp Hlast. assert (Hs : in_int64 (cEpoch c + 1)) by (unfold in_int64; lia).
  rewrite (wrap64_id _ Hs).
  destruct (SignCommit_ok gp poly (map fsID (holders (members c))) minVotes c Hquorum (oSign o) draw (cEpoch c + 1)
    (Some (Hash e)) (cEpoch c) (Some (pub_of (ed_keygen seed))) (Some der)) as
    (c' & fc & Es & E1 & E2 & E3 & E4 & E5 & E6 & _ & Hv & Ee & _ & _); [done|done|done|done|apply pub_of_length|].
  destruct (handoff_append f (ed_keygen seed) gp fc minVotes e) as (t2 & ev & h & Eap & Hl & -> & Ht); try done.
  - by exists seed.
  - apply quorum_group.
  - intros En. rewrite En in E6. apply Permutation_nil in E6. pose proof (q_some _ _ _ _ _ Hquorum) as Hne.
    by destruct (wanted _ _).
  - by rewrite E1.
  - rewrite E3. unfold in_int64. lia.
  - rewrite E6. apply Forall_map. eapply Forall_impl; [exact (q_canon _ _ _ _ _ Hquorum)|]. intros s Eid.
    cbn beta in Eid. rewrite Eid. apply member_id_valid.
  - eexists c', fc, _, ev, h. split; [done|]. split; [exact Eap|]. done.
Qed.

Lemma reissue_ok t2 certs ids :
  live t2 -> fold_certs (events t2) = pre ->
  (forall x, x ∈ certs -> valid_string x) -> (forall i, i ∈ ids -> valid_string i) ->
  exists t4 issued, reissueOnFork (oIds o) (oAff o) t2 certs ids (cEpoch c) = Ret (t4, issued) /\ live t4 /\
    extends t2 t4 /\
    fold_certs (events t4) = recovered (cEpoch c) pre (oIds o (elements ids)) (oAff o (elements certs)).
Proof.
  intros Hl2 Hf2 Hvc Hvi. destruct (reissue_loop_ok (cEpoch c) (oIds o (elements ids)) _ Hl2) as (t3 & E3 & Hl3 & Hx3 & Hf3).
  { rewrite (HoIds _). apply Forall_forall. intros i Hi%elem_of_elements. auto. }
  { rewrite (HoIds _). apply Forall_forall. intros i Hi%elem_of_elements. by apply reissued_valid, Hvi. }
  destruct (revoke_loop_ok (oAff o (elements certs)) t3 Hl3) as (t4 & E4 & Hl4 & Hx4 & Hf4).
  { rewrite (HoAff _). apply Forall_forall. intros i Hi%elem_of_elements. auto. }
  eexists t4, _. split; [unfold reissueOnFork; rewrite E3; cbn [mbind outcome_bind]; rewrite E4; reflexivity|].
  split; [done|]. split; [by eapply extends_trans|]. unfold recovered. by rewrite Hf4, Hf3, Hf2.
Qed.

Lemma Recover_run ev :
  EType ev = EvDetected -> evidence_unmarshal (sb (EPayload ev)) = Some badIdx ->
  exists c' rep certs ids,
    Recover o (Some seed) now draw c t (Some ev) minVotes = Ret (c', Ret rep) /\
    InvalidationSet (oInvalid o) t badIdx = Ret (certs, ids) /\
    (Valid (rrCommit rep) gp minVotes = Ret true /\ fcEpoch (rrCommit rep) = cEpoch c + 1 /\ cEpoch c' = cEpoch c + 1) /\
    take (Z.to_nat badIdx) (events t) `prefix_of` events (rrTimeline rep) /\
    live (rrTimeline rep) /\ startPub (rrTimeline rep) = startPub t /\
    tpub (rrTimeline rep) = pub_of (ed_keygen seed) /\
    Certs (Fold (rrTimeline rep)) = recovered (cEpoch c) pre (oIds o (elements ids)) (oAff o (elements certs)) /\
    rrVerify rep = VerifyRecovery {| Certs := pre |} (Fold (rrTimeline rep)) certs ids.
Proof.
  intros Ht Hp. destruct middle_ok as (f & certs & ids & Ef & Hw & Hst & Hsp & Hcp & Ha & Hev & Ei & Hvc & Hvi & Emid).
  destruct checkpoint_ok as (e & _ & Ecp & Hlast). rewrite <- Hev in Hlast.
  destruct (handoff_ok f e Hw Hst Ha Hcp Hlast) as (c' & fc & t2 & re & h & Es & Eap & Hv & Ee & Ee' & Hl2 & E2 & Hre).
  assert (Hf2 : fold_certs (events t2) = pre).
  { rewrite E2, Fold_snoc, quiet_event by (by rewrite Hre). by rewrite Hev. }
  destruct (reissue_ok t2 certs ids Hl2 Hf2 Hvc Hvi) as (t4 & issued & E4 & Hl4 & Hx4 & Hf4).
  destruct (live_append t4 EvCommit (Some (print (commit_json fc))) Hl4) as (t5 & ce & h5 & E5 & Hl5 & E5' & Hce & _); [done..|].
  assert (Hf5 : Fold t5 = Fold t4).
  { unfold Fold. by rewrite E5', Fold_snoc, quiet_event by (by rewrite Hce). }
  eexists c', {| rrCommit := fc; rrTimeline := t5 |}, certs, ids. split.
  { unfold Recover, evidenceBadIndex. rewrite bool_decide_eq_true_2, Hp by done. cbn [negb guard].
    rewrite (proj2 (Z.ltb_ge badIdx 0)) by lia. cbn [guard].
    rewrite built_prefix. cbn [mbind outcome_bind negb].
    rewrite holders_length. pose proof (q_min _ _ _ _ _ Hquorum).
    pose proof (wanted_holders (map fsID (holders (members c))) (members c)).
    rewrite (proj2 (Z.ltb_ge _ minVotes)) by lia. unfold finishRecovery. rewrite Emid, Ecp.
    cbn [mbind outcome_bind rfPub rfCert rfFork rfAffected rfIdentities]. rewrite Es. cbn [mbind outcome_bind].
    rewrite Eap, E4. cbn [mbind outcome_bind]. unfold prefixForCheck. rewrite Ef. cbn [mbind outcome_bind].
    rewrite Bool.eqb_reflx. cbn [negb]. rewrite E5. reflexivity. }
  cbn [rrCommit rrTimeline rrVerify]. split; [done|]. split; [done|].
  destruct Hx4 as [Hpre Hk Hpub Hstart _]. rewrite E2 in Hpre, Hpub, Hstart. cbn in Hpre, Hpub, Hstart.
  split; [rewrite E5'; cbn; etransitivity; [|by exists [ce]]; rewrite <- Hev; etransitivity; [by exists [re]|exact Hpre]|].
  split; [done|].
  split. { rewrite <- Hsp, E5'. unfold startPub. cbn. rewrite Hstart. by destruct (tstart f). }
  split; [by rewrite E5'|]. rewrite Hf5. split; [done|]. unfold Fold at 1. by rewrite Hev.
Qed.


End recover.

(** ** What recovery does not survive *)

Section limits.
Context `{HL : HashLaws} `{EL : Ed25519Laws} `{X : X509}.

(** Evidence with a bad index past the end of the chain is not refused:
    the prefix check clamps the index and passes, a quorum is counted, and the
    recovery then panics on the index, instead of answering an error. *)
Theorem Recover_index_panics o seed now draw c t ev minVotes badIdx ca der :
  EType ev = EvDetected -> evidence_unmarshal (sb (EPayload ev)) = Some badIdx ->
  keys_ok t -> Verify t = Ret true -> zlen (events t) < badIdx -> minVotes <= zlen (holders (members c)) ->
  NewIdentityCA (Some (ed_keygen seed))
    ("to root epoch " ++ of_bytes (dec_Z (wrap64 (cEpoch c + 1)))) now (AddYears now 10) = Ret (ca, der) ->
  Recover o (Some seed) now draw c t (Some ev) minVotes = Panic.
Proof.
  intros Ht Hp Hk Hv Hb Hm Hca. unfold Recover, evidenceBadIndex. rewrite bool_decide_eq_true_2, Hp by done.
  cbn [negb guard]. assert (0 <= zlen (events t)) by (unfold zlen; lia).
  rewrite (proj2 (Z.ltb_ge badIdx 0)) by lia. cbn [guard].
  rewrite (Verify_prefixes t badIdx Hk Hv). cbn [mbind outcome_bind negb].
  rewrite holders_length, (proj2 (Z.ltb_ge _ minVotes)) by lia. unfold finishRecovery, recoverRollback. rewrite Hca.
  cbn [mbind outcome_bind]. unfold Rollback. destruct (Z.leb_spec badIdx 0); [lia|].
  rewrite lookup_ge_None_2; [done|]. unfold zlen in Hb. lia.
Qed.

Lemma handoffKey_length e pub : length pub = PublicKeySize -> length (handoffKey e pub) = PublicKeySize.
Proof.
  intros Hl. unfold handoffKey. case_decide.
  - destruct (rot_unmarshal _) as [p|]; [|done]. destruct (Nat.eqb_spec (length (sb p)) PublicKeySize); done.
  - case_decide; [|done]. destruct (fc_unmarshal _) as [fc|]; [|done].
    destruct (Nat.eqb_spec (length (sb (fcNewPub fc))) PublicKeySize); done.
Qed.

Lemma Fork_inv t h f : Fork t h = Ret f -> keys_ok t ->
  algo f = algo t /\ keys_ok f /\ tstart f <> None /\ exists e, last (events f) = Some e /\ Hash e = h.
Proof.
  unfold Fork. destruct (find_last (events t) h) as [idx|] eqn:Ef; [|done]. intros [= <-] Hk. cbn.
  split; [done|]. split; [|split; [done|]].
  - assert (Hg : forall es pub, length pub = PublicKeySize ->
      length (foldl (fun pub e => handoffKey e pub) pub es) = PublicKeySize).
    { induction es as [|e es IH]; intros pub Hl; [exact Hl|]. apply IH. by apply handoffKey_length. }
    exact (Hg _ _ Hk).
  - apply find_last_some in Ef as (e & He & Hh). exists e. split; [|done]. rewrite (take_S_r _ _ e) by done. apply last_snoc.
Qed.

Lemma Append_extends t typ p t' h : Append t typ p 0 = Ret (t', h) ->
  extends t t' /\ algo t' = algo t /\ exists e, events t' = events t ++ [e] /\ EType e = typ /\ EPayload e = p.
Proof.
  intros (sig & priv & _ & _ & _ & -> & _)%append_ret. cbn. split; [split; [by eexists|done..]|]. split; [done|].
  eexists. split; [done|]. done.
Qed.

(** The tail only appends. *)
Definition grows (t t' : Timeline) : Prop :=
  extends t t' /\ algo t' = algo t /\ (Forall event_ok (events t) -> Forall event_ok (events t')).

Lemma grows_refl t : grows t t.
Proof. split; [apply extends_refl|done]. Qed.

Lemma grows_trans t1 t2 t3 : grows t1 t2 -> grows t2 t3 -> grows t1 t3.
Proof. intros (? & ? & ?) (? & ? & ?). split; [by eapply extends_trans|]. split; [congruence|auto]. Qed.

Lemma Append_grows t typ p t' h : valid_string typ -> Append t typ p 0 = Ret (t', h) -> grows t t'.
Proof.
  intros Hv Ea. pose proof Ea as (Hx & Ha & _)%Append_extends. split; [done|]. split; [done|]. intros He.
  apply append_ret in Ea as (sig & priv & _ & _ & _ & -> & _). cbn. apply Forall_app. split; [done|].
  constructor; [|constructor]. split; [done|]. split; vm_compute; congruence.
Qed.

Lemma try_append_grows t typ p t' b : valid_string typ -> try_append t typ p = Ret (t', b) -> grows t t'.
Proof.
  unfold try_append. intros Hv. destruct (Append t typ (Some p) 0) as [[t1 h]| |] eqn:Ea; intros [= <- <-].
  - by eapply Append_grows.
  - apply grows_refl.
Qed.

Lemma reissue_loop_grows epoch ids t t' l : reissue_loop epoch ids t = Ret (t', l) -> grows t t'.
Proof.
  revert t l. induction ids as [|i ids IH]; intros t l E1; cbn [reissue_loop] in E1.
  { injection E1 as <- <-. apply grows_refl. }
  apply bind_ret in E1 as ([t3 b] & E3 & E1). apply bind_ret in E1 as ([t4 l4] & E4 & [= <- <-]).
  apply (grows_trans _ t3); [by eapply (try_append_grows _ EvIssue)|by eapply IH].
Qed.

Lemma revoke_loop_grows cids t t' : revoke_loop cids t = Ret t' -> grows t t'.
Proof.
  revert t. induction cids as [|i cids IH]; intros t E1; cbn [revoke_loop] in E1.
  { injection E1 as <-. apply grows_refl. }
  apply bind_ret in E1 as ([t3 b] & E3 & E1). apply (grows_trans _ t3); [by eapply (try_append_grows _ EvRevoke)|by apply IH].
Qed.

Lemma reissue_grows oI oA t certs ids epoch t' issued :
  reissueOnFork oI oA t certs ids epoch = Ret (t', issued) -> grows t t'.
Proof.
  unfold reissueOnFork. intros E0. apply bind_ret in E0 as ([t1 l] & E1 & E0). apply bind_ret in E0 as (t2 & E2 & [= <- <-]).
  apply (grows_trans _ t1); [by eapply reissue_loop_grows|by eapply revoke_loop_grows].
Qed.

(** What a recovery that answers has done: the fork at the checkpoint, under the
    new root, with the handoff as its next event, and appends after it. *)
Lemma Recover_inv o seed now draw c t ev minVotes badIdx c' rep :
  evidence_unmarshal (sb (EPayload ev)) = Some badIdx -> 0 < badIdx ->
  Recover o (Some seed) now draw c t (Some ev) minVotes = Ret (c', Ret rep) ->
  exists e f c1 np pl fc re, events t !! Z.to_nat (badIdx - 1) = Some e /\ Fork t (Hash e) = Ret f /\
    SignCommit (oSign o) draw c (wrap64 (cEpoch c + 1)) (Some (Hash e)) (cEpoch c) np pl minVotes
      (map fsID (holders (members c))) = Ret (c1, Some fc) /\
    grows (adopt f (ed_keygen seed) (councilPub t)) (rrTimeline rep) /\
    events f ++ [re] `prefix_of` events (rrTimeline rep) /\
    EType re = EvRecovery /\ EPayload re = Some (print (fc_json fc)) /\ rrCommit rep = fc /\
    exists ce, last (events (rrTimeline rep)) = Some ce /\ EType ce = EvCommit /\ EPayload ce = Some (print (commit_json fc)).
Proof.
  intros Hp Hb Er. unfold Recover, evidenceBadIndex in Er. rewrite Hp in Er.
  destruct (negb _); [done|]. cbn [guard] in Er. rewrite (proj2 (Z.ltb_ge badIdx 0)) in Er by lia. cbn [guard] in Er.
  apply bind_ret in Er as (ok & _ & Er). destruct ok; [|done]. cbn [negb] in Er. destruct (_ <? minVotes); [done|].
  unfold finishRecovery in Er. destruct (recoverRollback _ _ _ _ _ _) as [rf| |] eqn:Erf; [|done..].
  unfold recoverRollback in Erf. apply bind_ret in Erf as ([ca der] & _ & Erf).
  apply bind_ret in Erf as (f & Ef & Erf). apply bind_ret in Erf as ([certs ids] & _ & [= <-]).
  cbn [rfFork rfAffected rfIdentities rfCert rfPub] in Er.
  unfold Rollback in Ef. unfold rollbackCheckpoint, Events in Er. destruct (Z.leb_spec badIdx 0); [lia|].
  destruct (events t !! Z.to_nat (badIdx - 1)) as [e|]; [|done]. cbn [mbind outcome_bind] in Er.
  apply bind_ret in Er as ([c1 fc] & Es & Er). destruct fc as [fc|]; [|done].
  destruct (Append (adopt _ _ _) EvRecovery _ 0) as [[t2 h2]| |] eqn:Ea; [|done..].
  pose proof Ea as (_ & _ & re & Ere & Ht & Hpl)%Append_extends. apply (Append_grows _ EvRecovery) in Ea; [|done].
  apply bind_ret in Er as ([t4 issued] & E4 & Er). apply reissue_grows in E4.
  apply bind_ret in Er as (pre & _ & Er). destruct (negb _); [done|].
  destruct (Append t4 EvCommit _ 0) as [[t5 h5]| |] eqn:E5; [|done..].
  pose proof E5 as (_ & _ & ce & Ece & Htc & Hpc)%Append_extends.
  apply (Append_grows _ EvCommit) in E5; [|done]. injection Er as <- <-. cbn [rrTimeline].
  pose proof (grows_trans _ _ _ E4 E5) as Hg.
  eexists e, f, c1, _, _, fc, re. split; [done|]. split; [exact Ef|]. split; [exact Es|].
  split; [by eapply grows_trans|]. split; [cbn in Ere; rewrite <- Ere; apply (ex_events _ _ (proj1 Hg))|].
  do 3 (split; [done|]). exists ce. by rewrite Ece, last_snoc.
Qed.

(** The recovered fork can be written to a file when the timeline could. *)
Lemma Recover_storable o seed now draw c t ev minVotes badIdx c' rep :
  evidence_unmarshal (sb (EPayload ev)) = Some badIdx -> 0 < badIdx ->
  Recover o (Some seed) now draw c t (Some ev) minVotes = Ret (c', Ret rep) ->
  real_key (ed_keygen seed) -> keys_ok t -> sized (councilPub t) PublicKeySize -> Forall event_ok (events t) ->
  storable (rrTimeline rep) /\ algo (rrTimeline rep) = algo t /\ councilPub (rrTimeline rep) = councilPub t.
Proof.
  intros Hp Hb Er Hr Hk Hc He. destruct (Recover_inv _ _ _ _ _ _ _ _ _ _ _ Hp Hb Er) as
    (e & f & c1 & np & pl & fc & re & _ & Ef & _ & ([Hev Hkey Hpub Hst Hcp] & Ha & Hok) & _).
  pose proof (Fork_inv t (Hash e) f Ef Hk) as (Haf & Hkf & Hstf & _).
  unfold storable. rewrite Hkey, Hpub, Hst, Hcp. cbn [adopt tpub tstart councilPub tkey sized].
  split; [|by rewrite Ha, <- Haf]. split; [apply pub_of_length|]. split.
  { unfold keys_ok, startPub in Hkf. by destruct (tstart f). }
  split; [done|]. split; [by apply real_key_length|]. apply Hok. cbn [adopt events].
  unfold Fork in Ef. destruct (find_last _ _); [|done]. injection Ef as <-. cbn [events]. by apply Forall_take.
Qed.

Lemma SignCommit_inv order draw c epoch cp prev np pl min ids c' fc :
  valid_order order -> in_int64 epoch -> in_int64 prev ->
  (forall s, s ∈ holders (members c) -> valid_string (fsID s)) ->
  SignCommit order draw c epoch cp prev np pl min ids = Ret (c', Some fc) ->
  fcCheckpoint fc = cp /\ fc_unmarshal (print (fc_json fc)) = Some fc.
Proof.
  intros Ho He Hp Hs. unfold SignCommit. destruct (negb _); [done|]. destruct (_ <? min); [done|].
  destruct (_ <? min); [done|]. destruct (commit_loop _ _ _ _ _ _) as [ms [cs| |]]; [|done..].
  destruct (ceremony _ _ _ _ _ _ _) as [sig| |]; [|done..]. intros E0. apply bind_ret in E0 as (ok & Hok & E0).
  destruct ok; [|done]. injection E0 as <- <-. split; [done|]. apply fc_roundtrip; [done|done|].
  cbn [fcMembers with_sig]. rewrite (Ho _). apply Forall_forall. intros id Hin%elem_of_keys.
  assert (Hall : forall l n acc, (forall s, s ∈ holders l -> valid_string (fsID s)) ->
    is_Some (by_id ids n l acc !! id) -> valid_string id \/ is_Some (acc !! id)).
  { induction l as [|m l IH]; intros n acc Hv; cbn [by_id]; [by right|]. intros Hi.
    assert (Hv' : forall s, s ∈ holders l -> valid_string (fsID s)).
    { intros s Hsl. apply Hv. unfold holders. cbn [omap list_omap]. destruct (mShare m); [by right|done]. }
    destruct (IH _ _ Hv' Hi) as [?|Hacc]; [by left|]. destruct (mShare m) as [s|] eqn:Em; [|by right].
    case_decide; [|by right]. destruct (decide (id = fsID s)) as [->|Hne].
    - left. apply Hv. unfold holders. cbn [omap list_omap]. rewrite Em. left.
    - right. by rewrite lookup_insert_ne in Hacc. }
  destruct (Hall (members c) 0%nat ∅ Hs Hin) as [?|Hn]; [done|]. rewrite lookup_empty in Hn. by apply is_Some_None in Hn.
Qed.

Lemma dual_handoff_fails f t5 t1 re e fc :
  keys_ok f -> tstart f <> None -> algo t5 = algoDual -> tstart t1 = tstart f -> extends t1 t5 ->
  events f ++ [re] `prefix_of` events t5 -> last (events f) = Some e ->
  EType re = EvRecovery -> fc_unmarshal (sb (EPayload re)) = Some fc -> length (sb (fcCheckpoint fc)) = 32%nat ->
  Verify t5 = Ret false.
Proof.
  intros Hk Hst Ha Hs [_ _ _ Hst5 _] [es Ees] Hlast Ht Hfc Hl.
  assert (Hk5 : keys_ok t5).
  { unfold keys_ok, startPub in *. rewrite Hst5, Hs. by destruct (tstart f). }
  destruct (Verify_total t5 Hk5) as [[|] Hv]; [exfalso|done]. apply Verify_good in Hv as [pub Hc]; [|done].
  rewrite Ees, <- app_assoc, Ha in Hc. apply Chain_app in Hc as (p1 & _ & Hc). cbn [app] in Hc.
  inversion Hc as [|? ? ? p2 ? ? Hacc _]; subst. inversion Hacc as [_ Hn|? _ Hr|np _ _ (fc' & Hfc' & _ & _ & _ & _ & _ & Hcp) _];
    [done|by rewrite Ht in Hr|]. rewrite Hfc in Hfc'. injection Hfc' as <-.
  unfold prev_of in Hcp. rewrite Hlast in Hcp. cbn [prevDigest hashWith] in Hcp.
  apply (f_equal length) in Hcp. rewrite length_app, sha256_length, sha3_256_length in Hcp. rewrite Hl in Hcp. discriminate Hcp.
Qed.

(** A recovery of a dual-hash timeline cannot verify: whatever Recover
    answers for a chain hashed with SHA-256 and SHA3-256 and a bad index above
    zero, the handoff in it binds the 32-byte SHA-256 checkpoint where
    verification compares the 64-byte dual digest, so the canonical fork it
    reports as recovered fails [Verify]. *)
Theorem Recover_dual_unverifiable o seed now draw c t ev minVotes badIdx c' rep :
  algo t = algoDual -> keys_ok t -> valid_order (oSign o) -> in_int64 (cEpoch c) ->
  (forall s, s ∈ holders (members c) -> valid_string (fsID s)) ->
  evidence_unmarshal (sb (EPayload ev)) = Some badIdx -> 0 < badIdx ->
  Recover o seed now draw c t (Some ev) minVotes = Ret (c', Ret rep) ->
  Verify (rrTimeline rep) = Ret false.
Proof.
  intros Ha Hk Ho He Hs Hp Hb Er.
  assert (exists sd, seed = Some sd) as [sd ->].
  { destruct seed as [sd|]; [by exists sd|]. unfold Recover, evidenceBadIndex in Er. rewrite Hp in Er.
    destruct (negb _); [done|]. cbn [guard] in Er. rewrite (proj2 (Z.ltb_ge badIdx 0)) in Er by lia. cbn [guard] in Er.
    apply bind_ret in Er as (ok & _ & Er). destruct (negb ok); [done|]. by destruct (_ <? minVotes). }
  destruct (Recover_inv _ _ _ _ _ _ _ _ _ _ _ Hp Hb Er) as
    (e & f & c1 & np & pl & fc & re & _ & Ef & Es & (Hx & Hax & _) & Hpre & Ht & Hpl & _).
  destruct (Fork_inv t (Hash e) f Ef Hk) as (Ha' & Hk' & Hst & e' & Hlast & Hh).
  destruct (SignCommit_inv _ _ _ _ _ _ _ _ _ _ _ _ Ho (wrap64_range _) He Hs Es) as [Ecp Efc].
  apply (dual_handoff_fails f (rrTimeline rep) (adopt f (ed_keygen sd) (councilPub t)) re e' fc); try done.
  - by rewrite Hax, <- Ha, <- Ha'.
  - by rewrite Hpl.
  - rewrite Ecp. apply sha256_length.
Qed.

End limits.

(** ** At a concrete input *)

(** A hash whose collisions on a short chain are plain: the first 32 bytes. *)
Module Trunc.
Definition h (b : bytes) : bytes := take 32 (b ++ replicate 32 Byte.x00).
#[local] Instance hashes : Hashes := {| sha256 := h; sha3_256 := h; sha512 := Toy.sha512 |}.
#[local] Instance hash_laws : HashLaws.
Proof.
  assert (Hh : forall b, length (h b) = 32%nat) by (intros b; unfold h; rewrite length_take, length_app, length_replicate; lia).
  split; [apply Hh|apply Hh|]. intros b. apply Toy.spread_length.
Qed.
End Trunc.

Definition member_of (s : FrostSigner) : CouncilMember := {| mID := fsID s; mKey := None; mShare := Some s |}.

Lemma holders_of ss : holders (map member_of ss) = ss.
Proof. unfold holders. induction ss as [|s ss IH]; [done|]. cbn. by rewrite IH. Qed.

Lemma wanted_all ms : wanted (map fsID (holders ms)) ms = holders ms.
Proof.
  unfold wanted. assert (Hall : forall (l : list FrostSigner) (ids : list string), (forall s, s ∈ l -> fsID s ∈ ids) -> filter (fun s => fsID s ∈ ids) l = l).
  { induction l as [|s l IH]; intros ids Hin; [done|]. rewrite filter_cons_True by (apply Hin; left).
    f_equal. apply IH. intros x Hx. apply Hin. by right. }
  apply Hall. intros s Hs. by apply elem_of_ids.
Qed.

(** Three members of a dealt key with threshold two. *)
Lemma council_ready `{HL : HashLaws} : exists gp poly ss,
  quorum gp poly (map fsID (holders (members (NewCouncil (map member_of ss))))) 2 (NewCouncil (map member_of ss)) /\
  length ss = 3%nat.
Proof.
  destruct (random_scalars_drawn draw5 0 1 (draw5_all _ _)) as [coeff Ec].
  destruct (FrostSplit_coeff (Toy.seed 7) 3 2 draw5 coeff) as (ss & gp & Es & [(Hx & Hi & Hf) Hk _ Hg _]); [lia|lia|done|].
  assert (Hl : length ss = 3%nat) by (by rewrite <- (length_map fsX), Hx).
  exists gp, (ed25519Scalar (Toy.seed 7) :: coeff), ss. split; [|done].
  pose proof (random_scalars_ok _ _ _ _ Ec) as [Hc _]. cbn [NewCouncil members]. split.
  all: rewrite ?wanted_all; change (members (NewCouncil (map member_of ss))) with (map member_of ss); rewrite ?holders_of.
  - cbn [NewCouncil cGroup]. rewrite holders_of. destruct ss as [|s ss]; [done|]. cbn. f_equal.
    apply Forall_cons in Hk as [Hks _]. apply Hks.
  - cbn [peval]. by rewrite Z.mul_0_l, Z.add_0_r.
  - assert (Em : ids_of ss = map member_id (map fsX ss)).
    { rewrite map_map. apply map_ext_in. intros s Hs%list_elem_of_In. rewrite Forall_forall in Hi. auto. }
    rewrite Em, Hx. apply (bool_decide_unpack _). vm_compute. exact I.
  - done.
  - done.
  - done.
  - unfold zlen. rewrite Hl. vm_compute. discriminate.
  - rewrite Hl. cbn. lia.
  - by destruct ss.
Qed.

Definition chain_key `{Ed25519} : bytes := ed_keygen (Toy.seed 1).

(** A key generation and an issuance, anchored to the council. *)
Lemma small_chain `{HL : HashLaws} `{EL : Ed25519Laws} gp : gp <> [] -> exists t0 t s1 s2,
  NewTimeline (Some chain_key) = Ret t0 /\ rtc TStep t0 t /\ councilPub t = Some gp /\ rotations t = [] /\
  let e1 := {| EType := EvKeyGen; ETimestamp := 0; EPayload := None; EParentHash := None; ESignature := Some s1 |} in
  events t = [e1; {| EType := EvIssue; ETimestamp := 0; EPayload := Some (print (issue_json "c1" "alice"));
                     EParentHash := Some (sha256 (signedBytes e1)); ESignature := Some s2 |}].
Proof.
  intros Hne. assert (Hr : real_key chain_key) by (by exists (Toy.seed 1)). pose proof (real_key_length _ Hr) as Hl.
  unfold NewTimeline, newTimeline. rewrite Public_real by done. cbn [mbind outcome_bind].
  set (t0 := {| events := [] |}). set (t1 := SetCouncilPub t0 gp).
  destruct (append_some t1 chain_key EvKeyGen None 0 eq_refl Hl) as (t2 & h2 & E2). pose proof E2 as E2'.
  apply append_ret in E2' as (s1 & ? & _ & _ & _ & Et2 & _).
  destruct (append_some t2 chain_key EvIssue (Some (print (issue_json "c1" "alice"))) 0) as (t3 & h3 & E3); [by rewrite Et2|done|].
  pose proof E3 as E3'. apply append_ret in E3' as (s2 & ? & _ & _ & _ & Et3 & _).
  exists t0, t3, s1, s2. split; [done|]. split.
  { eapply rtc_l; [apply (anchor_step t0 gp)|]. eapply rtc_l; [by apply (append_step t1 EvKeyGen None 0 t2 h2)|].
    eapply rtc_l; [by apply (append_step t2 EvIssue (Some (print (issue_json "c1" "alice"))) 0 t3 h3)|apply rtc_refl]. }
  rewrite Et3, Et2. cbn. split; [by destruct gp|]. split; [done|]. done.
Qed.

Definition plain_orders : Orders :=
  {| oInvalid := fun _ l => l; oSign := fun _ l => l; oIds := fun l => l; oAff := fun l => l |}.

Lemma plain_valid : valid_order (fun _ (l : list string) => l).
Proof. intros n l. reflexivity. Qed.

(** The evidence that names an index. *)
Definition evidence_at (badIdx : Z) : TrustEvent :=
  {| EType := EvDetected; ETimestamp := 0; EPayload := Some (print (JObj [jfield "bad_index" (jint badIdx)]));
     EParentHash := None; ESignature := None |}.

Lemma toy_ca `{EL : Ed25519Laws} seed name : length seed = SeedSize ->
  exists ca der, NewIdentityCA (H := ToyX509.x509) (Some (ed_keygen seed)) name 0 (AddYears 0 10) = Ret (ca, der).
Proof.
  intros Hs. unfold NewIdentityCA. rewrite Public_real by (by exists seed). cbn [mbind outcome_bind].
  destruct (CreateCertificate _ _ _ _) as [der| |] eqn:Ed; [|done..]. cbn [mbind outcome_bind].
  destruct (parse_created _ _ _ _ _ Ed) as (cc & -> & _). cbn [mbind outcome_bind]. by exists cc, der.
Qed.

Lemma chain_key_real `{Ed25519} : real_key chain_key.
Proof. exists (Toy.seed 1). split; reflexivity. Qed.

Section small.
Context `{E : Ed25519} (s1 s2 : bytes).

Definition small_events `{Hashes} : list TrustEvent :=
  let e1 := {| EType := EvKeyGen; ETimestamp := 0; EPayload := None; EParentHash := None; ESignature := Some s1 |} in
  [e1; {| EType := EvIssue; ETimestamp := 0; EPayload := Some (print (issue_json "c1" "alice"));
          EParentHash := Some (sha256 (signedBytes e1)); ESignature := Some s2 |}].

Lemma small_ok `{Hashes} : Forall event_ok small_events.
Proof.
  unfold small_events. repeat (apply Forall_cons; split); [..|constructor];
    (split; [vm_compute; reflexivity|split; vm_compute; congruence]).
Qed.

Lemma small_named `{Hashes} : Forall named_ok small_events.
Proof.
  unfold small_events. apply Forall_cons. split; [by split; intros ?|]. apply Forall_cons. split; [|constructor].
  split; [|by intros ?]. unfold issued. cbn [EType]. rewrite decide_True by done. cbn [EPayload sb default from_option Datatypes.id].
  rewrite issue_roundtrip by done. by intros p [= <-].
Qed.

Lemma small_collision_free : collision_free (@sha256 Trunc.hashes) (map signedBytes (small_events (H := Trunc.hashes))).
Proof.
  unfold small_events. cbn [map]. set (a := signedBytes _). set (b := signedBytes {| EType := EvIssue |}).
  assert (Hne : @sha256 Trunc.hashes a <> @sha256 Trunc.hashes b).
  { unfold a, b. cbn [sha256 Trunc.hashes]. unfold signedBytes, canonical, event_json. vm_compute. discriminate. }
  intros x y [->|[->|[]%elem_of_nil]%elem_of_cons]%elem_of_cons [->|[->|[]%elem_of_nil]%elem_of_cons]%elem_of_cons Exy;
    congruence.
Qed.

End small.

Lemma evidence_decodes z : 0 <= z < 2 ^ 62 -> evidence_unmarshal (sb (EPayload (evidence_at z))) = Some z.
Proof.
  intros Hz. unfold evidence_unmarshal, evidence_at. cbn [EPayload sb default from_option Datatypes.id]. rewrite parse_print.
  - assert (En : norm (JObj [jfield "bad_index" (jint z)]) = JObj [jfield "bad_index" (jint z)]).
    { unfold jfield. cbn [norm map fst snd]. by rewrite coerce_ascii, norm_jint. }
    rewrite En. cbn [mbind option_bind]. rewrite decode_struct_obj.
    rewrite decode_member_cons by (apply (bool_decide_unpack _); vm_compute; exact I).
    rewrite decode_jint by (unfold in_int64; lia). done.
  - cbn. split; [apply wf_jint|done].
  - pose proof nesting_room. cbn. lia.
Qed.

Lemma plain_drawn n : all_drawn draw5 0 n.
Proof. apply draw5_all. Qed.


Lemma SignCommit_signs_witness : exists c c' fc gp,
  @SignCommit Toy.hashes (@Rfc8032.ed25519 Toy.hashes) (fun _ l => rev l) draw5 c 1 None (1 - 1)
    (Some (replicate 32 Byte.x07)) None 2 (map fsID (holders (members c))) = Ret (c', Some fc) /\
  @Valid (@Rfc8032.ed25519 Toy.hashes) fc gp 2 = Ret true /\ cEpoch c' = 1.
Proof.
  destruct (@council_ready Toy.hashes Toy.hash_laws) as (gp & poly & ss & Hq & Hl).
  assert (Hrev : valid_order (fun _ (l : list string) => rev l)) by (intros n l; symmetry; apply Permutation_rev).
  destruct (@SignCommit_signs Toy.hashes (@Rfc8032.ed25519 Toy.hashes) (@Rfc8032.std Toy.hashes Toy.hash_laws) gp poly _ 2 (NewCouncil (map member_of ss)) Hq (fun _ l => rev l) draw5 1 None
    (Some (replicate 32 Byte.x07)) None Hrev (plain_drawn _) ltac:(split; lia) eq_refl) as (c' & fc & Es & _ & Hv & He & _).
  exists (NewCouncil (map member_of ss)), c', fc, gp. split; [exact Es|]. split; [exact Hv|exact He].
Defined.

(** A member that has signed before. *)
Definition spent : FrostSigner :=
  {| fsID := "M1"; fsX := 1; Share := 5; GroupPub := []; PubShare := []; VK := []; GlobalVK := [];
     nonce_d := Some 1; nonce_e := Some 1; used := true |}.

Lemma SignCommit_used_witness : exists c',
  @SignCommit Toy.hashes Toy.ed25519 (fun _ l => l) draw5 (NewCouncil [member_of spent]) 1 None 0 None None 1 ["M1"%string]
    = Ret (c', None) /\ cEpoch c' = 0.
Proof.
  destruct (@SignCommit_used Toy.hashes Toy.ed25519 (fun _ l => l) draw5 (NewCouncil [member_of spent])
    1 None 0 None None 1 ["M1"%string] spent plain_valid) as (c' & Es & He).
  - apply (bool_decide_unpack (NoDup (ids_of (wanted ["M1"%string] (members (NewCouncil [member_of spent])))))). vm_compute. exact I.
  - left.
  - reflexivity.
  - exists c'. split; [exact Es|exact He].
Defined.

(** Two forks: one handoff, and two. *)
Definition toy_commit (epoch : Z) : FrostCommit :=
  let fc := handoff epoch None (epoch - 1) (Some (replicate 32 Byte.x07)) None in
  with_sig fc (Toy.sha512 (replicate 32 Byte.x02 ++ descriptor fc)) ["M1"; "M2"]%string.

Lemma HighestValidEpoch_spec_witness :
  HighestValidEpoch (H0 := Toy.ed25519) [[toy_commit 1]; [toy_commit 1; toy_commit 2]; [toy_commit 3]] (replicate 32 Byte.x02) 2
    = Ret (Some [toy_commit 1; toy_commit 2]) /\
  exists r, HighestValidEpoch (H0 := Toy.ed25519) [[toy_commit 1]; [toy_commit 1; toy_commit 2]; [toy_commit 3]] (replicate 32 Byte.x02) 2 = Ret r /\
    forall c, r = Some c -> c ∈ [[toy_commit 1]; [toy_commit 1; toy_commit 2]; [toy_commit 3]].
Proof.
  split; [vm_compute; reflexivity|].
  destruct (@HighestValidEpoch_spec Toy.ed25519 (replicate 32 Byte.x02) 2 eq_refl
    [[toy_commit 1]; [toy_commit 1; toy_commit 2]; [toy_commit 3]]) as (r & Er & _ & Hr).
  - repeat (apply Forall_cons; split); [..|constructor]; vm_compute; reflexivity.
  - exists r. split; [exact Er|]. intros c Hc. destruct (Hr c Hc) as [Hin _]. exact Hin.
Defined.
