(* ===== verification/Pq.v ===== *)
(** * Session keys and sealed boxes: [pq.go], and the AES-GCM boxes of [vault.go]

    AES-256-GCM, HKDF-SHA256, X25519 and ML-KEM-768 are interfaces with the
    laws their standards promise (what is sealed opens again, the two sides of
    an agreement meet).  A random draw is an argument.

    Theorems: both sides of the hybrid handshake derive one session key, a box
    opens to what was sealed in it, and the session box opener panics on a box
    shorter than its nonce. *)
From S2P Require Import Prelude Crypto Encoding.

(** ** The primitives *)

Class Symmetric := {
  gcm_seal : bytes -> bytes -> bytes -> bytes;      (* key, nonce, plaintext *)
  gcm_open : bytes -> bytes -> bytes -> option bytes; (* key, nonce, box *)
  hkdf_sha256 : bytes -> bytes -> nat -> bytes;     (* secret, info, length *)
}.

Class SymmetricLaws `{S : Symmetric} : Prop := {
  gcm_open_seal key nonce p : gcm_open key nonce (gcm_seal key nonce p) = Some p;
  gcm_seal_length key nonce p : length (gcm_seal key nonce p) = (length p + 16)%nat;
  hkdf_length secret info n : length (hkdf_sha256 secret info n) = n;
}.

Class Agreement := {
  x25519_public : bytes -> bytes;
  x25519 : bytes -> bytes -> outcome bytes;              (* private key, peer's public key *)
  mlkem_public : bytes -> bytes;                         (* the encapsulation key *)
  mlkem_parse : bytes -> outcome bytes;                  (* [NewEncapsulationKey768] *)
  mlkem_encapsulate : bytes -> bytes -> bytes * bytes;   (* key, randomness: shared secret, ciphertext *)
  mlkem_decapsulate : bytes -> bytes -> outcome bytes;
}.

Class AgreementLaws `{A : Agreement} : Prop := {
  x25519_agree a b s : x25519 b (x25519_public a) = Ret s -> x25519 a (x25519_public b) = Ret s;
  x25519_public_length a : length (x25519_public a) = 32%nat;
  mlkem_public_parses d : mlkem_parse (mlkem_public d) = Ret (mlkem_public d) /\ mlkem_public d <> [];
  mlkem_agree d r ss ct : mlkem_encapsulate (mlkem_public d) r = (ss, ct) -> mlkem_decapsulate d ct = Ret ss;
}.

Section pq.
Context `{Symmetric} `{Agreement}.

(** ** The hybrid handshake *)

Record PQPublic := { pqX : slice; pqK : slice }.
Record PQKeyPair := { pqDH : bytes; pqDK : bytes }.

(** The two draws of [NewPQKeyPair]. *)
Definition NewPQKeyPair (dh dk : option bytes) : outcome PQKeyPair :=
  dh ← of_option "rand" dh; dk ← of_option "rand" dk; Ret {| pqDH := dh; pqDK := dk |}.

Definition PQPub (p : PQKeyPair) : PQPublic :=
  {| pqX := Some (x25519_public (pqDH p)); pqK := Some (mlkem_public (pqDK p)) |}.

Definition deriveKey (dh ss : bytes) : bytes :=
  hkdf_sha256 (dh ++ ss) (to_bytes "trust-orchestrator/hybrid-v1") 32.

Definition bad_peer (peer : option PQPublic) : bool :=
  match peer with
  | None => true
  | Some p => negb (length (sb (pqX p)) =? 32)%nat || (length (sb (pqK p)) =? 0)%nat
  end.

Definition PQClientShared (r : bytes) (mine : PQKeyPair) (peer : option PQPublic) : outcome (bytes * bytes) :=
  match peer with
  | None => Err "pq: bad peer public key"
  | Some p =>
      guard (bad_peer peer) "pq: bad peer public key" (
      dh ← x25519 (pqDH mine) (sb (pqX p));
      ek ← mlkem_parse (sb (pqK p));
      let '(ss, ct) := mlkem_encapsulate ek r in
      guard ((length ct =? 0)%nat || negb (length ss =? 32)%nat) "pq: ML-KEM encapsulate failed" (
      Ret (ct, deriveKey dh ss)))
  end.

Definition PQServerShared (mine : PQKeyPair) (peer : option PQPublic) (ciphertext : bytes) : outcome bytes :=
  match peer with
  | None => Err "pq: bad peer public key"
  | Some p =>
      guard (bad_peer peer) "pq: bad peer public key" (
      dh ← x25519 (pqDH mine) (sb (pqX p));
      ss ← match mlkem_decapsulate (pqDK mine) ciphertext with
           | Ret ss => Ret ss
           | Err _ => Err "pq: ML-KEM decapsulate: "
           | Panic => Panic
           end;
      Ret (deriveKey dh ss))
  end.

(** ** Sealed frames *)

Definition pqSeal (nonce : option bytes) (key plaintext : bytes) : outcome bytes :=
  guard (negb (length key =? 32)%nat) "pq: session key must be 32 bytes" (
  nonce ← of_option "rand" nonce;
  Ret (nonce ++ gcm_seal key nonce plaintext)).

(** [sealed[:12]] panics on a shorter box. *)
Definition pqOpen (key sealed : bytes) : outcome bytes :=
  guard (negb (length key =? 32)%nat) "pq: session key must be 32" (
  if (length sealed <? 12)%nat then Panic
  else of_option "cipher: message authentication failed" (gcm_open key (take 12 sealed) (drop 12 sealed))).

(** ** The signature envelope *)

Record Sigs := { sgEd25519 : slice; sgMLDSA : slice }.

Definition Sigs_Sign `{Ed25519} (s : Sigs) (priv : slice) (msg : bytes) : outcome Sigs :=
  sig ← ed25519_Sign priv msg; Ret {| sgEd25519 := Some sig; sgMLDSA := sgMLDSA s |}.
Definition Sigs_Verify `{Ed25519} (s : Sigs) (pub msg : bytes) : outcome bool :=
  if negb (length (sb (sgMLDSA s)) =? 0)%nat then Ret false
  else if (length (sb (sgEd25519 s)) =? 0)%nat then Ret false
  else ed25519_Verify pub msg (sb (sgEd25519 s)).

(** ** The boxes of the vault *)

(** [aes.NewCipher] takes keys of 16, 24 or 32 bytes. *)
Definition aes_key_ok (key : bytes) : bool :=
  (length key =? 16)%nat || (length key =? 24)%nat || (length key =? 32)%nat.

Definition aesGCMSeal (nonce : option bytes) (key plain : bytes) : outcome bytes :=
  guard (negb (aes_key_ok key)) "crypto/aes: invalid key size" (
  nonce ← of_option "rand" nonce;
  Ret (nonce ++ gcm_seal key nonce plain)).

Definition aesGCMOpen (key blob : bytes) : outcome bytes :=
  guard (negb (length key =? 32)%nat || (length blob <? 28)%nat) "sealed box: bad key or length" (
  of_option "cipher: message authentication failed" (gcm_open key (take 12 blob) (drop 12 blob))).

(** ** What they promise *)

Context {SL : SymmetricLaws} {AL : AgreementLaws}.

Lemma bad_peer_pub p : bad_peer (Some (PQPub p)) = false.
Proof.
  cbn. rewrite x25519_public_length. destruct (mlkem_public_parses (pqDK p)) as [_ Hne].
  by destruct (mlkem_public (pqDK p)).
Qed.

Lemma deriveKey_length dh ss : length (deriveKey dh ss) = 32%nat.
Proof. apply hkdf_length. Qed.

Lemma PQ_agree r a b ct k :
  PQClientShared r b (Some (PQPub a)) = Ret (ct, k) ->
  PQServerShared a (Some (PQPub b)) ct = Ret k /\ length k = 32%nat /\ ct <> [].
Proof.
  unfold PQClientShared, PQServerShared. rewrite !bad_peer_pub. cbn [guard PQPub pqX pqK sb default from_option Datatypes.id].
  rewrite (proj1 (mlkem_public_parses (pqDK a))). intros E. apply bind_ret in E as (dh & Edh & E).
  cbn [mbind outcome_bind] in E. destruct (mlkem_encapsulate _ _) as [ss c] eqn:Ee.
  apply guard_ret in E as [Hg [= <- <-]]. apply orb_false_iff in Hg as [Hc _].
  rewrite (x25519_agree _ _ _ Edh). cbn [mbind outcome_bind]. rewrite (mlkem_agree _ _ _ _ Ee).
  split; [done|]. split; [apply deriveKey_length|]. by intros ->.
Qed.

Lemma seal_open key nonce p : length key = 32%nat -> length nonce = 12%nat ->
  pqSeal (Some nonce) key p = Ret (nonce ++ gcm_seal key nonce p) /\
  pqOpen key (nonce ++ gcm_seal key nonce p) = Ret p.
Proof.
  intros Hk Hn. unfold pqSeal, pqOpen. rewrite Hk. cbn [Nat.eqb negb guard of_option mbind outcome_bind]. split; [done|].
  rewrite length_app, Hn, gcm_seal_length.
  replace (12 + (length p + 16) <? 12)%nat with false by (symmetry; apply Nat.ltb_ge; lia).
  rewrite <- Hn at 1 2. by rewrite take_app_length, drop_app_length, gcm_open_seal.
Qed.

Lemma box_open key nonce p : length key = 32%nat -> length nonce = 12%nat ->
  exists b, aesGCMSeal (Some nonce) key p = Ret b /\ length b = (28 + length p)%nat /\ aesGCMOpen key b = Ret p.
Proof.
  intros Hk Hn. exists (nonce ++ gcm_seal key nonce p). unfold aesGCMSeal, aesGCMOpen, aes_key_ok. rewrite Hk.
  cbn [Nat.eqb orb negb guard of_option mbind outcome_bind]. split; [done|].
  rewrite length_app, Hn, gcm_seal_length. split; [lia|].
  replace (12 + (length p + 16) <? 28)%nat with false by (symmetry; apply Nat.ltb_ge; lia). cbn [orb guard].
  rewrite <- Hn at 1 2. by rewrite take_app_length, drop_app_length, gcm_open_seal.
Qed.

(** The hybrid session: when the responder accepts an initiator's offer, the
    initiator derives the same 32-byte session key from the answer, and every
    frame either side seals with it (12-byte nonce) opens on the other to
    exactly what was sealed. *)
Theorem hybrid_session r a b ct k :
  PQClientShared r b (Some (PQPub a)) = Ret (ct, k) ->
  exists k', PQServerShared a (Some (PQPub b)) ct = Ret k' /\ k' = k /\
    forall nonce m, length nonce = 12%nat ->
      exists box, pqSeal (Some nonce) k m = Ret box /\ pqOpen k' box = Ret m.
Proof.
  intros E. destruct (PQ_agree r a b ct k E) as (Es & Hk & _). exists k. split; [done|]. split; [done|].
  intros nonce m Hn. destruct (seal_open k nonce m Hk Hn) as [E1 E2]. by eexists.
Qed.

(** A sealed frame shorter than its nonce: with a session key of the right
    length, [pqOpen] panics on every box of fewer than 12 bytes, the empty one
    included, instead of refusing it; it panics on no other box. *)
Theorem pqOpen_panics key sealed :
  length key = 32%nat -> pqOpen key sealed = Panic <-> (length sealed < 12)%nat.
Proof.
  intros Hk. unfold pqOpen. rewrite Hk. cbn [Nat.eqb negb guard].
  destruct (Nat.ltb_spec (length sealed) 12); [done|]. split; [|lia]. by destruct (gcm_open _ _ _).
Qed.

End pq.

(** ** An instance of the interfaces *)

Module ToyBox.

(** A tag of sixteen bytes over key, nonce and plaintext, which is left clear. *)
Definition tag (key nonce p : bytes) : bytes := take 16 (Toy.sha256 (key ++ nonce ++ p)).
Definition seal (key nonce p : bytes) : bytes := tag key nonce p ++ p.
Definition open (key nonce box : bytes) : option bytes :=
  let p := drop 16 box in if bytes_equal (take 16 box) (tag key nonce p) then Some p else None.
Definition hkdf (secret info : bytes) (n : nat) : bytes := take n (Toy.sha256 (secret ++ info) ++ replicate n Byte.x00).

#[global] Instance symmetric : Symmetric := {| gcm_seal := seal; gcm_open := open; hkdf_sha256 := hkdf |}.

Lemma tag_length key nonce p : length (tag key nonce p) = 16%nat.
Proof. unfold tag, Toy.sha256. rewrite length_take, Toy.spread_length. done. Qed.

#[global] Instance symmetric_laws : SymmetricLaws.
Proof.
  split; cbn [gcm_seal gcm_open hkdf_sha256 symmetric].
  - intros key nonce p. unfold open, seal. cbv zeta. rewrite drop_app_length', take_app_length' by exact (tag_length key nonce p).
    by rewrite bytes_equal_refl.
  - intros key nonce p. unfold seal. rewrite length_app, tag_length. lia.
  - intros secret info n. unfold hkdf. rewrite length_take, length_app, length_replicate. lia.
Qed.

(** Agreement by adding byte values: commutative, 32 bytes. *)
Definition add_bytes (a b : bytes) : bytes := be_bytes 32 (be_Z a + be_Z b).
Definition toy_public (a : bytes) : bytes := be_bytes 32 (be_Z a).

#[global] Instance agreement : Agreement :=
  {| x25519_public := toy_public; x25519 := fun a p => Ret (add_bytes (be_bytes 32 (be_Z a)) p);
     mlkem_public := toy_public; mlkem_parse := Ret;
     mlkem_encapsulate := fun ek r => (be_bytes 32 (be_Z r), be_bytes 32 (be_Z r));
     mlkem_decapsulate := fun d ct => Ret ct |}.

#[global] Instance agreement_laws : AgreementLaws.
Proof.
  split; cbn [x25519_public x25519 mlkem_public mlkem_parse mlkem_encapsulate mlkem_decapsulate agreement].
  - intros a b s [= <-]. f_equal. unfold add_bytes, toy_public. by rewrite Z.add_comm.
  - intros a. apply (be_bytes_length 32).
  - intros d. split; [done|]. intros E. apply (f_equal length) in E. unfold toy_public in E. by rewrite be_bytes_length in E.
  - intros d r ss ct [= <- <-]. done.
Qed.

End ToyBox.

Lemma hybrid_session_witness : exists ct k k',
  PQClientShared [Byte.x09] {| pqDH := [Byte.x01]; pqDK := [Byte.x02] |}
    (Some (PQPub {| pqDH := [Byte.x03]; pqDK := [Byte.x04] |})) = Ret (ct, k) /\
  PQServerShared {| pqDH := [Byte.x03]; pqDK := [Byte.x04] |}
    (Some (PQPub {| pqDH := [Byte.x01]; pqDK := [Byte.x02] |})) ct = Ret k' /\ k' = k.
Proof.
  destruct (PQClientShared [Byte.x09] {| pqDH := [Byte.x01]; pqDK := [Byte.x02] |}
    (Some (PQPub {| pqDH := [Byte.x03]; pqDK := [Byte.x04] |}))) as [[ct k]| |] eqn:E; [|vm_compute in E; discriminate E..].
  destruct (hybrid_session [Byte.x09] {| pqDH := [Byte.x03]; pqDK := [Byte.x04] |} {| pqDH := [Byte.x01]; pqDK := [Byte.x02] |} ct k E)
    as (k' & Ek & Hk & _). exists ct, k, k'. split; [reflexivity|]. split; [exact Ek|exact Hk].
Defined.

Lemma pqOpen_panics_witness : pqOpen (replicate 32 Byte.x01) [] = Panic.
Proof. apply (pqOpen_panics (replicate 32 Byte.x01) []); [reflexivity|]. cbn. lia. Defined.
