(* ===== verification/Vault.v ===== *)
(** * Envelope encryption at rest: [vault.go]

    A vault is a data-encryption key and an epoch; a tenant's file holds a
    fresh key sealed under the tenant's subkey of that epoch, and the payload
    sealed under the fresh key.  The vault itself is sealed under a key the
    council holds in Shamir shares.  The 12-byte nonces and the keys drawn at
    random are arguments.

    Theorems: what is sealed opens, under the same tenant and epoch; another
    epoch is refused; opening never panics; any threshold of the shares of the
    key-encryption key reads the key file back. *)
From S2P Require Import Prelude Crypto Encoding Modular Shamir Pq.

Definition vaultMagic : bytes := to_bytes "TOENC2".
Definition keysMagic : bytes := to_bytes "TOKEYS1".

(** [bytes.HasPrefix] *)
Definition has_prefix (b p : bytes) : bool := bytes_equal (take (length p) b) p.

Record Vault := { DEK : bytes; Epoch : Z }.

(** The draws of an envelope: the file key and the two nonces. *)
Record SealDraws := { sdKey : option bytes; sdBox : option bytes; sdData : option bytes }.

Section vault.
Context `{Symmetric}.

Definition NewVault (draw : option bytes) : outcome Vault :=
  dek ← of_option "rand" draw; Ret {| DEK := dek; Epoch := 1 |}.

Definition ShareKEK (kek : bytes) (n k : Z) (draw : nat -> option Z) : outcome (list Shard) :=
  ShamirSplit kek n k draw.
Definition JoinKEK (shares : list (option Shard)) : outcome bytes := ShamirJoin shares.

(** [PutUint64] of an unsigned epoch. *)
Definition epoch_bytes (e : Z) : bytes := be_bytes 8 e.

Definition SubKey (v : Vault) (tenant : string) : bytes :=
  hkdf_sha256 (DEK v) (to_bytes "vault:" ++ to_bytes tenant ++ [Byte.x00] ++ epoch_bytes (Epoch v)) 32.

Definition Seal (v : Vault) (tenant : string) (plain : bytes) (d : SealDraws) : outcome bytes :=
  dk ← of_option "rand" (sdKey d);
  dkBox ← aesGCMSeal (sdBox d) (SubKey v tenant) dk;
  data ← aesGCMSeal (sdData d) dk plain;
  Ret (vaultMagic ++ epoch_bytes (Epoch v) ++ dkBox ++ data).

Definition hdrLen : nat := 14.
Definition dkBoxLen : nat := 60.

Definition Open (v : Vault) (tenant : string) (blob : bytes) : outcome bytes :=
  guard (negb (has_prefix blob vaultMagic)) "vault: not a vault-sealed file" (
  guard (length blob <? hdrLen + dkBoxLen)%nat "vault: truncated envelope" (
  guard (negb (be_Z (take 8 (drop 6 blob)) =? Epoch v))
    "vault: envelope epoch %d != vault epoch %d (stale copy?)" (
  match aesGCMOpen (SubKey v tenant) (take dkBoxLen (drop hdrLen blob)) with
  | Ret dk => aesGCMOpen dk (drop (hdrLen + dkBoxLen) blob)
  | Err _ => Err "vault: dk unwrap failed (wrong tenant or key)"
  | Panic => Panic
  end))).

Definition zeroBytes (b : bytes) : bytes := replicate (length b) Byte.x00.

(** The contents of [gateway.keys]. *)
Definition writeVaultKeyFile (nonce : option bytes) (kek : bytes) (v : Vault) : outcome bytes :=
  box ← aesGCMSeal nonce kek (DEK v ++ epoch_bytes (Epoch v));
  Ret (keysMagic ++ box).

Definition readVaultKeyFile (b kek : bytes) : outcome Vault :=
  guard (negb (has_prefix b keysMagic) || negb (length b =? 75)%nat) "vault: gateway.keys is not a TOKEYS file" (
  match aesGCMOpen kek (drop 7 b) with
  | Ret sek =>
      guard (negb (length sek =? 40)%nat) "vault: gateway.keys holds a wrong-sized key" (
      Ret {| DEK := take 32 sek; Epoch := be_Z (drop 32 sek) |})
  | Err _ => Err "vault: KEK does not open gateway.keys (wrong shares?)"
  | Panic => Panic
  end).

(** ** Well-formed vaults and draws *)

Definition vault_ok (v : Vault) : Prop := length (DEK v) = 32%nat /\ 0 <= Epoch v < 2 ^ 64.

Record drawn (d : SealDraws) (dk n1 n2 : bytes) : Prop := {
  dr_key : sdKey d = Some dk /\ length dk = 32%nat;
  dr_box : sdBox d = Some n1 /\ length n1 = 12%nat;
  dr_data : sdData d = Some n2 /\ length n2 = 12%nat;
}.

Context {SL : SymmetricLaws}.

Lemma has_prefix_app p b : has_prefix (p ++ b) p = true.
Proof. unfold has_prefix. rewrite take_app_length. apply bytes_equal_refl. Qed.

Lemma epoch_bytes_Z e : 0 <= e < 2 ^ 64 -> be_Z (epoch_bytes e) = e.
Proof. intros He. unfold epoch_bytes. rewrite be_Z_bytes. apply Z.mod_small. by change (256 ^ Z.of_nat 8) with (2 ^ 64). Qed.

(** An envelope: its pieces, where they lie. *)
Lemma Seal_shape v tenant plain d dk n1 n2 :
  drawn d dk n1 n2 ->
  exists box data, Seal v tenant plain d = Ret (vaultMagic ++ epoch_bytes (Epoch v) ++ box ++ data) /\
    length box = 60%nat /\ aesGCMOpen (SubKey v tenant) box = Ret dk /\ aesGCMOpen dk data = Ret plain.
Proof.
  intros [[E1 Hk] [E2 H1] [E3 H2]]. unfold Seal. rewrite E1, E2, E3. cbn [of_option mbind outcome_bind].
  destruct (box_open (SubKey v tenant) n1 dk (hkdf_length _ _ _) H1) as (box & -> & Hl & Ho).
  cbn [mbind outcome_bind]. destruct (box_open dk n2 plain Hk H2) as (data & -> & _ & Hd). cbn [mbind outcome_bind].
  exists box, data. split; [done|]. split; [rewrite Hl, Hk; lia|]. done.
Qed.

Lemma Open_pieces v tenant e box data :
  length box = 60%nat -> 0 <= e < 2 ^ 64 ->
  Open v tenant (vaultMagic ++ epoch_bytes e ++ box ++ data) =
    guard (negb (e =? Epoch v)) "vault: envelope epoch %d != vault epoch %d (stale copy?)"
      (match aesGCMOpen (SubKey v tenant) box with
       | Ret dk => aesGCMOpen dk data
       | Err _ => Err "vault: dk unwrap failed (wrong tenant or key)"
       | Panic => Panic
       end).
Proof.
  intros Hb He. unfold Open. rewrite has_prefix_app. cbn [negb guard].
  assert (Hm : length vaultMagic = 6%nat) by reflexivity. assert (He8 : length (epoch_bytes e) = 8%nat) by apply be_bytes_length.
  rewrite !length_app, Hm, He8, Hb. replace (6 + (8 + (60 + length data)) <? hdrLen + dkBoxLen)%nat with false.
  2: { symmetry. apply Nat.ltb_ge. unfold hdrLen, dkBoxLen. lia. }
  cbn [guard]. assert (E1 : drop 6 (vaultMagic ++ epoch_bytes e ++ box ++ data) = epoch_bytes e ++ box ++ data)
    by (by rewrite drop_app_length').
  assert (E2 : drop hdrLen (vaultMagic ++ epoch_bytes e ++ box ++ data) = box ++ data).
  { rewrite app_assoc. apply drop_app_length'. by rewrite length_app, Hm, He8. }
  assert (E3 : drop (hdrLen + dkBoxLen) (vaultMagic ++ epoch_bytes e ++ box ++ data) = data).
  { rewrite <- drop_drop, E2. by apply drop_app_length'. }
  rewrite E1, E2, E3. rewrite (take_app_length' (epoch_bytes e)) by done. rewrite epoch_bytes_Z by done.
  unfold dkBoxLen. by rewrite (take_app_length' box) by done.
Qed.

(** The envelope: what a vault seals for a tenant, the same vault opens for
    that tenant, byte for byte; and a vault of any other epoch refuses it as
    stale whatever its key, so no file written before a rotation opens after. *)
Theorem Open_Seal v tenant plain d dk n1 n2 :
  vault_ok v -> drawn d dk n1 n2 ->
  exists blob, Seal v tenant plain d = Ret blob /\ Open v tenant blob = Ret plain /\
    forall v' tenant', Epoch v' <> Epoch v ->
      Open v' tenant' blob = Err "vault: envelope epoch %d != vault epoch %d (stale copy?)".
Proof.
  intros [_ He] Hd. destruct (Seal_shape v tenant plain d dk n1 n2 Hd) as (box & data & -> & Hl & Hk & Hp).
  eexists. split; [done|]. split.
  - rewrite Open_pieces by done. rewrite Z.eqb_refl. cbn [negb guard]. by rewrite Hk.
  - intros v' tenant' Hne. rewrite Open_pieces by done. destruct (Z.eqb_spec (Epoch v) (Epoch v')); [by symmetry in e|done].
Qed.

(** Opening a file never panics: on every byte string, for every vault and
    tenant, [Open] answers a plaintext or an error. *)
Theorem Open_no_panic v tenant blob : Open v tenant blob <> Panic.
Proof.
  assert (Hb : forall k b, aesGCMOpen k b <> Panic).
  { intros k b. unfold aesGCMOpen, guard. case_if; [done|]. by destruct (gcm_open _ _ _). }
  unfold Open, guard. case_if; [done|]. case_if; [done|]. case_if; [done|].
  destruct (aesGCMOpen _ _) as [dk| |] eqn:E; [apply Hb|done|by apply Hb in E].
Qed.

Lemma key_file_roundtrip v kek nonce : vault_ok v -> length kek = 32%nat -> length nonce = 12%nat ->
  exists b, writeVaultKeyFile (Some nonce) kek v = Ret b /\ length b = 75%nat /\ readVaultKeyFile b kek = Ret v.
Proof.
  intros [Hd He] Hk Hn. unfold writeVaultKeyFile.
  destruct (box_open kek nonce (DEK v ++ epoch_bytes (Epoch v)) Hk Hn) as (box & -> & Hl & Ho). cbn [mbind outcome_bind].
  assert (Hb : length (DEK v ++ epoch_bytes (Epoch v)) = 40%nat) by (rewrite length_app, Hd; unfold epoch_bytes; by rewrite be_bytes_length).
  rewrite Hb in Hl. exists (keysMagic ++ box). assert (Hlen : length (keysMagic ++ box) = 75%nat) by (by rewrite length_app, Hl).
  split; [done|]. split; [done|]. unfold readVaultKeyFile. rewrite has_prefix_app, Hlen. cbn [negb orb Nat.eqb guard].
  rewrite drop_app_length' by done. rewrite Ho, Hb. cbn [Nat.eqb negb guard].
  rewrite take_app_length', drop_app_length' by done. rewrite epoch_bytes_Z by done. by destruct v.
Qed.

(** Threshold as a key store: a vault sealed in [gateway.keys] under a
    32-byte key-encryption key comes back, key and epoch, from the file and any
    [k] or more distinct shares of that key, in any order. *)
Theorem vault_unwrap v kek nonce n k draw shares sel :
  vault_ok v -> length kek = 32%nat -> length nonce = 12%nat -> n <= 256 ->
  ShareKEK kek n k draw = Ret shares -> NoDup sel -> sel ⊆ shares -> k <= zlen sel ->
  exists file kek', writeVaultKeyFile (Some nonce) kek v = Ret file /\
    JoinKEK (map Some sel) = Ret kek' /\ readVaultKeyFile file kek' = Ret v.
Proof.
  intros Hv Hk Hn Hn' Es Hnd Hsub Hz. destruct (key_file_roundtrip v kek nonce Hv Hk Hn) as (file & Ef & _ & Er).
  exists file, kek. split; [done|]. split; [|done]. unfold JoinKEK. by eapply ShamirJoin_split.
Qed.

End vault.

Lemma Open_Seal_witness : exists blob,
  Seal {| DEK := replicate 32 Byte.x01; Epoch := 3 |} "acme" [Byte.x2a]
    {| sdKey := Some (replicate 32 Byte.x02); sdBox := Some (replicate 12 Byte.x03); sdData := Some (replicate 12 Byte.x04) |} = Ret blob /\
  Open {| DEK := replicate 32 Byte.x01; Epoch := 3 |} "acme" blob = Ret [Byte.x2a] /\
  Open {| DEK := replicate 32 Byte.x01; Epoch := 4 |} "acme" blob = Err "vault: envelope epoch %d != vault epoch %d (stale copy?)".
Proof.
  destruct (Open_Seal {| DEK := replicate 32 Byte.x01; Epoch := 3 |} "acme" [Byte.x2a]
    {| sdKey := Some (replicate 32 Byte.x02); sdBox := Some (replicate 12 Byte.x03); sdData := Some (replicate 12 Byte.x04) |}
    (replicate 32 Byte.x02) (replicate 12 Byte.x03) (replicate 12 Byte.x04)) as (blob & Es & Eo & Er).
  - split; [reflexivity|cbn; lia].
  - split; (split; reflexivity).
  - exists blob. split; [exact Es|]. split; [exact Eo|]. apply Er. cbn. lia.
Defined.

Definition wkek : bytes := Byte.x00 :: replicate 31 Byte.x05.
Definition wshares : list Shard :=
  match ShareKEK wkek 5 3 (fun i => Some (77 + Z.of_nat i)) with Ret s => s | _ => [] end.

Lemma vault_unwrap_witness : exists file kek',
  writeVaultKeyFile (Some (replicate 12 Byte.x03)) wkek {| DEK := replicate 32 Byte.x01; Epoch := 3 |} = Ret file /\
  JoinKEK (map Some (drop 2 wshares)) = Ret kek' /\ readVaultKeyFile file kek' = Ret {| DEK := replicate 32 Byte.x01; Epoch := 3 |}.
Proof.
  apply (vault_unwrap {| DEK := replicate 32 Byte.x01; Epoch := 3 |} wkek (replicate 12 Byte.x03) 5 3
    (fun i => Some (77 + Z.of_nat i)) wshares (drop 2 wshares)).
  - split; [reflexivity|cbn; lia].
  - reflexivity.
  - reflexivity.
  - lia.
  - vm_compute. reflexivity.
  - apply (NoDup_fmap_1 SX), (bool_decide_unpack _). vm_compute. exact I.
  - intros x Hx. rewrite <- (take_drop 2 wshares). apply elem_of_app. by right.
  - vm_compute. discriminate.
Defined.
