(* ===== verification/Auth.v ===== *)
(** * Users, bearer tokens, roles and scopes: [auth.go]

    A user holds the hashes of the tokens minted for it, each with the
    organisations it is restricted to.  The 32 random bytes of a token are an
    argument ([None] when the source of randomness fails).

    Theorem: over any history of minted tokens, a string opens an organisation
    exactly when it is one of those tokens and both the user's and the token's
    scope contain the organisation. *)
From S2P Require Import Prelude Crypto Encoding Json.

Definition RoleAdmin : string := "admin".
Definition RoleOperator : string := "operator".
Definition RoleAuditor : string := "auditor".
Definition RoleViewer : string := "viewer".
Definition validRoles (r : string) : bool :=
  bool_decide (r ∈ [RoleAdmin; RoleOperator; RoleAuditor; RoleViewer]).

Record User := {
  uID : string;
  uRole : string;
  uOrgs : list string;
  uTokens : list string;
  uTokenOrgs : gmap string (list string);
}.

#[global] Instance user_eq_dec : EqDecision User.
Proof. solve_decision. Defined.

Definition inOrg (u : User) (org : string) : bool :=
  match uOrgs u with
  | [] => true
  | _ => existsb (fun o => bool_decide (o = org)) (uOrgs u)
  end.

Definition tokenInOrg (u : User) (tokenHashStr org : string) : bool :=
  match uTokenOrgs u !! tokenHashStr with
  | None => true
  | Some scopes => existsb (fun o => bool_decide (o = org)) scopes
  end.

(** [strings.Fields]: the maximal runs of characters that are not white space,
    [cur] the run being read. *)
Definition is_space (c : bytes) : bool :=
  bool_decide (c ∈ map utf8_encode
    [9; 10; 11; 12; 13; 32; 133; 160; 5760; 8192; 8193; 8194; 8195; 8196; 8197; 8198; 8199; 8200;
     8201; 8202; 8232; 8233; 8239; 8287; 12288]).
Definition flush (cur : bytes) (rest : list bytes) : list bytes :=
  match cur with [] => rest | _ => cur :: rest end.
Fixpoint fields_go (fuel : nat) (s cur : bytes) : list bytes :=
  match fuel, s with
  | S fuel, _ :: _ =>
      let n := Nat.max 1 (rune_len s) in
      if is_space (take n s) then flush cur (fields_go fuel (drop n s) [])
      else fields_go fuel (drop n s) (cur ++ take n s)
  | _, _ => flush cur []
  end.
Definition Fields (s : bytes) : list bytes := fields_go (length s) s [].

(** [strings.EqualFold] against an ASCII word. *)
Definition EqualFold (a b : bytes) : bool := bool_decide (fold_name a = fold_name b).

Definition BearerToken (authHeader : string) : outcome string :=
  match Fields (to_bytes authHeader) with
  | [scheme; tok] =>
      if negb (EqualFold scheme (to_bytes "Bearer")) || bool_decide (tok = [])
      then Err "missing or malformed Authorization header" else Ret (of_bytes tok)
  | _ => Err "missing or malformed Authorization header"
  end.

Section auth.
Context `{Hashes}.

Definition sha256Hex (b : bytes) : string := of_bytes (hex_encode (sha256 b)).
Definition tokenHash (raw : string) : string := of_bytes (hex_encode (sha256 (to_bytes raw))).

Definition with_token (u : User) (h : string) (scopes : gmap string (list string)) : User :=
  {| uID := uID u; uRole := uRole u; uOrgs := uOrgs u; uTokens := uTokens u ++ [h]; uTokenOrgs := scopes |}.

Definition NewToken (u : User) (draw : option bytes) (orgs : list string) : outcome (User * string) :=
  b ← of_option "rand" draw;
  let raw := of_bytes (hex_encode b) in
  let h := tokenHash raw in
  Ret (with_token u h (match orgs with [] => uTokenOrgs u | _ => <[h := orgs]> (uTokenOrgs u) end), raw).

(** [subtle.ConstantTimeCompare] is equality of the bytes. *)
Definition Authed (u : User) (raw : string) : bool :=
  let want := tokenHash raw in
  existsb (fun t => bytes_equal (to_bytes t) (to_bytes want)) (uTokens u).

Definition NewUser (id role : string) (orgs : list string) (draw : option bytes) : outcome (User * string) :=
  guard (negb (validRoles role)) "unknown role %q" (
  NewToken {| uID := id; uRole := role; uOrgs := orgs; uTokens := []; uTokenOrgs := ∅ |} draw []).

(** ** The history of an account *)

(** [Account u log]: [u] is a user for whom the tokens of [log] were minted, in
    order, each with its own scope; a bootstrap token is registered by its hash
    ([NewGateway]). *)
Inductive Account : User -> list (string * list string) -> Prop :=
| account_new id role orgs d u raw :
    NewUser id role orgs d = Ret (u, raw) -> Account u [(raw, [])]
| account_token u log d orgs u' raw :
    Account u log -> NewToken u d orgs = Ret (u', raw) -> Account u' (log ++ [(raw, orgs)])
| account_bootstrap u log raw :
    Account u log -> Account (with_token u (tokenHash raw) (uTokenOrgs u)) (log ++ [(raw, [])]).

(** What the two tables of a user say of the minted tokens. *)
Record registered (u : User) (log : list (string * list string)) : Prop := {
  rg_tokens : uTokens u = map (fun p => tokenHash p.1) log;
  rg_scoped : forall raw orgs, (raw, orgs) ∈ log -> orgs <> [] -> uTokenOrgs u !! tokenHash raw = Some orgs;
  rg_free : forall h, (forall raw orgs, (raw, orgs) ∈ log -> orgs <> [] -> tokenHash raw <> h) ->
    uTokenOrgs u !! h = None;
}.

Lemma tokenHash_inj L x y :
  collision_free sha256 L -> to_bytes x ∈ L -> to_bytes y ∈ L -> tokenHash x = tokenHash y -> x = y.
Proof.
  intros HL Hx Hy E%(f_equal to_bytes). unfold tokenHash in E. rewrite !to_of_bytes in E.
  apply (f_equal hex_decode) in E. rewrite !hex_decode_encode in E. injection E as E.
  by apply (inj to_bytes), HL.
Qed.

Lemma NewToken_spec u d orgs u' raw :
  NewToken u d orgs = Ret (u', raw) ->
  u' = with_token u (tokenHash raw) (match orgs with [] => uTokenOrgs u | _ => <[tokenHash raw := orgs]> (uTokenOrgs u) end).
Proof. destruct d as [b|]; [|done]. unfold NewToken. cbn [of_option mbind outcome_bind]. by intros [= <- <-]. Qed.

Lemma registered_step u log raw orgs L :
  collision_free sha256 L -> (forall p, p ∈ log ++ [(raw, orgs)] -> to_bytes p.1 ∈ L) ->
  raw ∉ log.*1 -> registered u log ->
  registered (with_token u (tokenHash raw)
    (match orgs with [] => uTokenOrgs u | _ => <[tokenHash raw := orgs]> (uTokenOrgs u) end)) (log ++ [(raw, orgs)]).
Proof.
  intros HL Hin Hn [Ht Hs Hf].
  assert (Hne : forall r o, (r, o) ∈ log -> tokenHash raw <> tokenHash r).
  { intros r o Hr E. apply Hn. rewrite (tokenHash_inj L raw r HL).
    - apply list_elem_of_fmap. by exists (r, o).
    - apply (Hin (raw, orgs)). set_solver.
    - apply (Hin (r, o)). set_solver.
    - done. }
  split; cbn [with_token uTokens uTokenOrgs].
  - by rewrite Ht, map_app.
  - intros r o [Hr|Hr]%elem_of_app Ho.
    + destruct orgs; [by apply Hs|]. rewrite lookup_insert_ne by (by eapply Hne). by apply Hs.
    + apply list_elem_of_singleton in Hr as [= -> ->]. destruct orgs; [done|]. by rewrite lookup_insert_eq.
  - intros h Hh. assert (uTokenOrgs u !! h = None) by (apply Hf; intros; apply (Hh raw0 orgs0); set_solver).
    destruct orgs as [|o os]; [done|]. rewrite lookup_insert_ne; [done|]. apply (Hh raw (o :: os)); [set_solver|done].
Qed.

Lemma account_registered u log L :
  Account u log -> collision_free sha256 L -> (forall p, p ∈ log -> to_bytes p.1 ∈ L) -> NoDup log.*1 ->
  registered u log.
Proof.
  intros Ha HL. induction Ha as [id role orgs d u raw E|u log d orgs u' raw Ha IH E|u log raw Ha IH]; intros Hin Hnd.
  - unfold NewUser, guard in E. case_if; [done|]. rewrite (NewToken_spec _ _ _ _ _ E).
    apply (registered_step _ [] raw [] L); [done|done|set_solver|]. split; [done|set_solver|done].
  - rewrite fmap_app in Hnd. apply NoDup_app in Hnd as (Hnd & Hd & _). rewrite (NewToken_spec _ _ _ _ _ E).
    apply (registered_step _ _ _ _ L); [done|done| |].
    + intros Hr. apply (Hd raw Hr). set_solver.
    + apply IH; [|done]. intros p Hp. apply Hin. set_solver.
  - rewrite fmap_app in Hnd. apply NoDup_app in Hnd as (Hnd & Hd & _).
    apply (registered_step _ _ raw [] L); [done|done| |].
    + intros Hr. apply (Hd raw Hr). set_solver.
    + apply IH; [|done]. intros p Hp. apply Hin. set_solver.
Qed.

Lemma existsb_scope (org : string) orgs : existsb (fun o => bool_decide (o = org)) orgs = true <-> org ∈ orgs.
Proof.
  rewrite existsb_exists. setoid_rewrite <- list_elem_of_In. setoid_rewrite bool_decide_eq_true. naive_solver.
Qed.

Lemma inOrg_spec u org : inOrg u org = true <-> uOrgs u = [] \/ org ∈ uOrgs u.
Proof.
  unfold inOrg. destruct (uOrgs u) as [|o os]; [naive_solver|]. rewrite existsb_scope. naive_solver.
Qed.

Lemma Authed_spec u raw : Authed u raw = true <-> tokenHash raw ∈ uTokens u.
Proof.
  unfold Authed. rewrite existsb_exists. setoid_rewrite <- list_elem_of_In. split.
  - intros (t & Ht & E%bytes_equal_true). apply (inj to_bytes) in E. by subst.
  - intros Ht. eexists. split; [done|]. apply bytes_equal_refl.
Qed.

Lemma tokenInOrg_spec u log raw orgs org L :
  registered u log -> collision_free sha256 L -> (forall p, p ∈ log -> to_bytes p.1 ∈ L) -> NoDup log.*1 ->
  (raw, orgs) ∈ log -> tokenInOrg u (tokenHash raw) org = true <-> orgs = [] \/ org ∈ orgs.
Proof.
  intros Hr HL Hin Hnd Hp. unfold tokenInOrg. destruct orgs as [|o os].
  - rewrite (rg_free _ _ Hr); [naive_solver|]. intros raw' orgs' Hp' Hne E.
    assert (raw' = raw) as -> by (eapply tokenHash_inj; [done|by apply (Hin _ Hp')|by apply (Hin _ Hp)|done]).
    apply Hne. apply list_elem_of_lookup in Hp as (i & Hi). apply list_elem_of_lookup in Hp' as (j & Hj).
    assert (i = j) as ->; [|congruence].
    eapply (NoDup_lookup log.*1); [done| |]; rewrite list_lookup_fmap; [by rewrite Hi|by rewrite Hj].
  - rewrite (rg_scoped _ _ Hr raw (o :: os)) by done. rewrite existsb_scope. naive_solver.
Qed.

(** Access is exactly what was minted: for a user with any history of
    minted tokens (no hash collision among them, no token minted twice), a
    string is accepted and lets its bearer into an organisation exactly when it
    is one of those tokens, the user's scope is empty or names the organisation,
    and so is or does the token's own. *)
Theorem token_access u log raw org :
  Account u log -> NoDup log.*1 ->
  collision_free sha256 (to_bytes raw :: map (fun p => to_bytes p.1) log) ->
  Authed u raw && inOrg u org && tokenInOrg u (tokenHash raw) org = true <->
  exists orgs, (raw, orgs) ∈ log /\ (uOrgs u = [] \/ org ∈ uOrgs u) /\ (orgs = [] \/ org ∈ orgs).
Proof.
  intros Ha Hnd HL. set (L := to_bytes raw :: _) in HL.
  assert (Hin : forall p, p ∈ log -> to_bytes p.1 ∈ L).
  { intros p Hp. apply elem_of_cons. right. apply list_elem_of_fmap. by exists p. }
  pose proof (account_registered u log L Ha HL Hin Hnd) as Hr.
  rewrite !andb_true_iff, Authed_spec, inOrg_spec, (rg_tokens _ _ Hr). split.
  - intros [[Ht Ho] Hs]. apply list_elem_of_fmap in Ht as ([raw' orgs] & E & Hp).
    assert (raw = raw') as <- by (eapply (tokenHash_inj L); [done|apply elem_of_cons; by left|by apply (Hin _ Hp)|done]).
    exists orgs. split; [done|]. split; [done|]. by eapply tokenInOrg_spec in Hs.
  - intros (orgs & Hp & Ho & Hs). split; [split; [|done]|by eapply tokenInOrg_spec].
    apply list_elem_of_fmap. by exists (raw, orgs).
Qed.

End auth.

(** ** Witness *)

Section witness.
Existing Instance Toy.hashes.

Definition wraw (b : byte) : string := of_bytes (hex_encode [b; b]).
Definition wuser : outcome User :=
  '(u, _) ← NewUser "ops" RoleOperator ["acme"; "beta"]%string (Some [Byte.x01; Byte.x01]);
  '(u, _) ← NewToken u (Some [Byte.x02; Byte.x02]) ["acme"]%string;
  Ret u.

Lemma token_access_witness : exists u, wuser = Ret u /\
  Authed u (wraw Byte.x02) && inOrg u "acme" && tokenInOrg u (tokenHash (wraw Byte.x02)) "acme" = true.
Proof.
  eexists. split; [vm_compute; reflexivity|].
  apply (token_access _ [(wraw Byte.x01, []); (wraw Byte.x02, ["acme"%string])]).
  - apply (account_token _ [(wraw Byte.x01, [])] (Some [Byte.x02; Byte.x02])
      ["acme"%string] _ (wraw Byte.x02) (account_new "ops" RoleOperator ["acme"; "beta"]%string (Some [Byte.x01; Byte.x01]) _ _ eq_refl)).
    vm_compute. reflexivity.
  - apply (bool_decide_unpack _). vm_compute. exact I.
  - apply collision_free_b_spec. vm_compute. reflexivity.
  - exists ["acme"%string]. split; [apply elem_of_cons; right; apply elem_of_cons; by left|].
    split; right; apply elem_of_cons; by left.
Defined.

End witness.
