(* ===== verification/Ratelimit.v ===== *)
(** * Token buckets: [ratelimit.go]

    A limiter is a map from keys to buckets of binary64 tokens.  The times
    [time.Now] answers are arguments, in nanoseconds.

    Theorem: of the requests made at one instant, in any interleaving, each key
    is granted its first [burst] and no more, whatever the others do. *)
From Stdlib Require Import SpecFloat.
From S2P Require Import Prelude Float.

Definition apiRate : f64 := f64_of_Z 20.
Definition apiBurst : f64 := f64_of_Z 40.
Definition wireRate : f64 := f64_of_Z 1.
Definition wireBurst : f64 := f64_of_Z 4.

Record bucket := { tokens : f64; blast : Z }.

Record limiter := { rate : f64; burst : f64; buckets : gmap string bucket }.

Definition newLimiter (r b : f64) : limiter := {| rate := r; burst := b; buckets := ∅ |}.

(** [time.Since]: a difference of times, saturated at the ends of [Duration]. *)
Definition since (now last : Z) : Z := Z.max (- 2 ^ 63) (Z.min (2 ^ 63 - 1) (now - last)).

(** [Duration.Seconds]: whole seconds and the fraction, each converted. *)
Definition Seconds (d : Z) : f64 :=
  fadd (f64_of_Z (Z.quot d 1000000000)) (fdiv (f64_of_Z (Z.rem d 1000000000)) (f64_of_Z 1000000000)).

Definition refill (l : limiter) (b : bucket) (now : Z) : bucket :=
  let t := fadd (tokens b) (fmul (Seconds (since now (blast b))) (rate l)) in
  {| tokens := if flt (burst l) t then burst l else t; blast := now |}.

Definition set_bucket (l : limiter) (key : string) (b : bucket) : limiter :=
  {| rate := rate l; burst := burst l; buckets := <[key := b]> (buckets l) |}.

Definition allow (l : limiter) (key : string) (now : Z) : limiter * bool :=
  let b := match buckets l !! key with
           | None => {| tokens := burst l; blast := now |}
           | Some b => refill l b now
           end in
  if flt (tokens b) (f64_of_Z 1) then (set_bucket l key b, false)
  else (set_bucket l key {| tokens := fsub (tokens b) (f64_of_Z 1); blast := blast b |}, true).

(** Requests in turn, with the answers. *)
Fixpoint requests (l : limiter) (ks : list string) (now : Z) : limiter * list bool :=
  match ks with
  | [] => (l, [])
  | k :: ks =>
      let '(l, ok) := allow l k now in
      let '(l, oks) := requests l ks now in (l, ok :: oks)
  end.

(** The requests of [ks] granted to [k]. *)
Definition granted (k : string) (ks : list string) (oks : list bool) : nat :=
  length (filter (fun p => p = (k, true)) (zip ks oks)).
Definition count (k : string) (ks : list string) : nat := length (filter (eq k) ks).

(** ** Whole tokens *)

(** The arithmetic of a bucket at one instant, on whole numbers of tokens up to
    [n]: no time gives no tokens, a token is there from one up, and it is taken
    off. *)
Definition whole_tokens (r b : f64) (n : nat) : bool :=
  bool_decide (b = f64_of_Z (Z.of_nat n)) &&
  forallb (fun j =>
    let x := f64_of_Z (Z.of_nat j) in
    bool_decide (fadd x (fmul (Seconds 0) r) = x) && negb (flt b x) &&
    Bool.eqb (flt x (f64_of_Z 1)) (j =? 0)%nat &&
    ((j =? 0)%nat || bool_decide (fsub x (f64_of_Z 1) = f64_of_Z (Z.of_nat (Nat.pred j)))))
    (seq 0 (S n)).

Lemma whole_api : whole_tokens apiRate apiBurst 40 = true.
Proof. vm_compute. reflexivity. Qed.
Lemma whole_wire : whole_tokens wireRate wireBurst 4 = true.
Proof. vm_compute. reflexivity. Qed.

Section instant.
Variable r b : f64.
Variable n : nat.
Variable now : Z.
Hypothesis Hw : whole_tokens r b n = true.

Lemma whole_step j : (j <= n)%nat ->
  let x := f64_of_Z (Z.of_nat j) in
  fadd x (fmul (Seconds 0) r) = x /\ flt b x = false /\ flt x (f64_of_Z 1) = (j =? 0)%nat /\
  (j <> 0%nat -> fsub x (f64_of_Z 1) = f64_of_Z (Z.of_nat (Nat.pred j))).
Proof.
  intros Hj x. unfold whole_tokens in Hw. apply andb_prop in Hw as [_ Hf]. rewrite forallb_forall in Hf.
  specialize (Hf j). rewrite in_seq in Hf. specialize (Hf ltac:(lia)). cbv zeta in Hf. fold x in Hf.
  apply andb_prop in Hf as [[[H1%bool_decide_eq_true H2]%andb_prop H3%Bool.eqb_prop]%andb_prop H4].
  split; [done|]. split; [by destruct (flt b x)|]. split; [done|]. intros Hne.
  apply orb_prop in H4 as [H4|H4]; [by apply Nat.eqb_eq in H4|by apply bool_decide_eq_true in H4].
Qed.

(** The bucket of every key holds what its grants at this instant left. *)
Definition held (l : limiter) (g : string -> nat) : Prop :=
  rate l = r /\ burst l = b /\
  forall k, (g k <= n)%nat /\
    match buckets l !! k with
    | None => g k = 0%nat
    | Some bk => bk = {| tokens := f64_of_Z (Z.of_nat (n - g k)); blast := now |}
    end.

Lemma allow_held l g k :
  held l g ->
  exists l', allow l k now = (l', bool_decide (g k < n)%nat) /\
    held l' (fun k' => if decide (k' = k) then Nat.min n (S (g k)) else g k').
Proof.
  intros (Hr & Hb & Hg). destruct (Hg k) as [Hle Hk].
  assert (Hbk : match buckets l !! k with
                | None => {| tokens := burst l; blast := now |}
                | Some b => refill l b now
                end = {| tokens := f64_of_Z (Z.of_nat (n - g k)); blast := now |}).
  { destruct (buckets l !! k) as [bk|].
    - rewrite Hk. unfold refill. cbn [tokens blast]. unfold since. rewrite Z.sub_diag.
      change (Z.max (- 2 ^ 63) (Z.min (2 ^ 63 - 1) 0)) with 0. rewrite Hr, Hb.
      destruct (whole_step (n - g k)) as (-> & -> & _); [lia|done].
    - rewrite Hk, Nat.sub_0_r, Hb. unfold whole_tokens in Hw. apply andb_prop in Hw as [Hb'%bool_decide_eq_true _].
      by rewrite Hb'. }
  unfold allow. rewrite Hbk. cbn [tokens blast].
  destruct (whole_step (n - g k)) as (_ & _ & -> & Hs); [lia|].
  destruct (decide (g k < n)%nat) as [Hlt|Hlt].
  - rewrite (bool_decide_eq_true_2 _ Hlt). replace (n - g k =? 0)%nat with false by (symmetry; apply Nat.eqb_neq; lia).
    eexists. split; [done|]. split; [done|]. split; [done|]. intros k'. cbn [set_bucket buckets].
    destruct (decide (k' = k)) as [->|Hne]; [|rewrite lookup_insert_ne by done; apply Hg].
    rewrite lookup_insert_eq. split; [lia|]. f_equal. rewrite Hs by lia. f_equal. lia.
  - rewrite (bool_decide_eq_false_2 _ Hlt). replace (n - g k =? 0)%nat with true by (symmetry; apply Nat.eqb_eq; lia).
    eexists. split; [done|]. split; [done|]. split; [done|]. intros k'. cbn [set_bucket buckets].
    destruct (decide (k' = k)) as [->|Hne]; [|rewrite lookup_insert_ne by done; apply Hg].
    rewrite lookup_insert_eq. split; [lia|]. by replace (n - Nat.min n (S (g k)))%nat with (n - g k)%nat by lia.
Qed.

Lemma requests_held ks : forall l g l' oks,
  held l g -> requests l ks now = (l', oks) ->
  length oks = length ks /\
  forall k, (granted k ks oks + g k = Nat.min n (count k ks + g k))%nat.
Proof.
  induction ks as [|k0 ks IH]; intros l g l' oks Hl E; cbn [requests] in E.
  - injection E as <- <-. split; [done|]. intros k. destruct Hl as (_ & _ & Hl). destruct (Hl k) as [? _].
    unfold granted, count. cbn. lia.
  - destruct (allow_held l g k0 Hl) as (l1 & Ea & Hl1). rewrite Ea in E.
    destruct (requests l1 ks now) as [l2 oks'] eqn:Er. injection E as <- <-.
    destruct (IH _ _ _ _ Hl1 Er) as [Hlen Hc]. split; [cbn [length]; by rewrite Hlen|]. intros k.
    specialize (Hc k). cbv beta in Hc. destruct Hl as (_ & _ & Hl). destruct (Hl k) as [Hle _].
    unfold granted, count in *. cbn [zip zip_with]. rewrite !filter_cons.
    destruct (decide (k = k0)) as [->|Hne].
    + destruct (decide (g k0 < n)%nat) as [Hlt|Hlt].
      * rewrite (bool_decide_eq_true_2 _ Hlt) in *. rewrite decide_True by done. cbn [length]. lia.
      * rewrite (bool_decide_eq_false_2 _ Hlt) in *. rewrite decide_False by congruence. cbn [length]. lia.
    + by rewrite !decide_False by congruence.
Qed.

End instant.

(** C35. The burst bound: of any interleaving of requests at one instant to a
    limiter of the API's or the wire's rates, each key is granted exactly its
    first 40 (on the wire: 4), however many it makes and whatever the other
    keys do; so no key spends another's budget. *)
Theorem burst_exact ks now api :
  let l := if api : bool then newLimiter apiRate apiBurst else newLimiter wireRate wireBurst in
  let n := if api then 40%nat else 4%nat in
  let '(_, oks) := requests l ks now in
  length oks = length ks /\ forall k, granted k ks oks = Nat.min n (count k ks).
Proof.
  cbv zeta. destruct (requests _ _ _) as [l' oks] eqn:E.
  assert (Hh : held (if api then apiRate else wireRate) (if api then apiBurst else wireBurst)
    (if api then 40 else 4) now (if api then newLimiter apiRate apiBurst else newLimiter wireRate wireBurst) (fun _ => 0%nat)).
  { destruct api; (split; [done|]; split; [done|]; intros k; split; [lia|done]). }
  destruct (requests_held (if api then apiRate else wireRate) (if api then apiBurst else wireBurst)
    (if api then 40 else 4) now (if api as a return (whole_tokens (if a then apiRate else wireRate)
      (if a then apiBurst else wireBurst) (if a then 40 else 4) = true) then whole_api else whole_wire)
    ks _ _ _ _ Hh E) as [Hl Hc].
  split; [done|]. intros k. specialize (Hc k). rewrite !Nat.add_0_r in Hc. by destruct api.
Qed.
