(* ===== verification/Transport.v ===== *)
(** * The score wire: [transport.go]

    A frame is a 4-byte big-endian length and that many bytes of JSON, at most
    2^20.  A connection is the bytes its peer sent before closing; the handler
    is any function of a state.  The text of a [float64] in JSON is
    [strconv]'s: an interface ([FloatText]) with its documented law, that the
    shortest decimal it prints reads back as the same number.

    Theorem: a stream of written frames is served message by message, in order,
    none lost, added or altered, and ends without an error. *)
From Stdlib Require Import SpecFloat.
From S2P Require Import Prelude Crypto Encoding Json Float Timeline TrustState Watchdog.

Class FloatText := {
  (** what [json.Marshal] writes; [None] for the NaN and the infinities *)
  print_f64 : f64 -> option bytes;
  (** [strconv.ParseFloat] at 64 bits; [None] out of range *)
  parse_f64 : bytes -> option f64;
}.

Class FloatTextLaws `{FT : FloatText} : Prop := {
  print_f64_ok x lit : print_f64 x = Some lit -> num_ok lit;
  parse_print_f64 x lit : print_f64 x = Some lit -> parse_f64 lit = Some x;
}.

Record WireMsg := {
  wmNodeID : string;
  wmScore : f64;
  wmPValue : f64;
  wmKind : string;
  wmBadIdx : Z;
  wmEvidence : slice;
}.

#[global] Instance wire_eq_dec : EqDecision WireMsg.
Proof. solve_decision. Defined.

Definition maxFrame : Z := 2 ^ 20.

Section wire.
Context `{FloatText}.

(** [omitempty]: the member is left out when it is zero. *)
Definition omit (empty : bool) (kv : bytes * json) : list (bytes * json) := if empty then [] else [kv].

Definition wire_json (m : WireMsg) : option json :=
  s ← print_f64 (wmScore m);
  p ← print_f64 (wmPValue m);
  Some (JObj (
    [jfield "node_id" (jstring (wmNodeID m)); jfield "score" (JNum s); jfield "p_value" (JNum p);
     jfield "kind" (jstring (wmKind m))] ++
    omit (wmBadIdx m =? 0) (jfield "bad_idx" (jint (wmBadIdx m))) ++
    omit (length (sb (wmEvidence m)) =? 0)%nat (jfield "evidence" (jslice (wmEvidence m))))).

(** The bytes written; [PutUint32] keeps the low 32 bits of the length. *)
Definition WriteWire (m : WireMsg) : outcome bytes :=
  j ← of_option "json: unsupported value" (wire_json m);
  let b := print j in
  Ret (be_bytes 4 (zlen b) ++ b).

Definition wire_names : list string := ["node_id"; "score"; "p_value"; "kind"; "bad_idx"; "evidence"]%string.
Definition wire_zero : WireMsg :=
  {| wmNodeID := ""; wmScore := S754_zero false; wmPValue := S754_zero false; wmKind := ""; wmBadIdx := 0;
     wmEvidence := None |}.

Definition decode_f64 (prev : f64) (v : json) : option f64 :=
  match v with
  | JNull => Some prev
  | JNum lit => parse_f64 lit
  | _ => None
  end.

Definition wire_set (n : string) (v : json) (m : WireMsg) : option WireMsg :=
  let '{| wmNodeID := i; wmScore := s; wmPValue := p; wmKind := k; wmBadIdx := x; wmEvidence := e |} := m in
  let mk i s p k x e :=
    Some {| wmNodeID := i; wmScore := s; wmPValue := p; wmKind := k; wmBadIdx := x; wmEvidence := e |} in
  if decide (n = "node_id"%string) then i ← decode_string i v; mk i s p k x e
  else if decide (n = "score"%string) then s ← decode_f64 s v; mk i s p k x e
  else if decide (n = "p_value"%string) then p ← decode_f64 p v; mk i s p k x e
  else if decide (n = "kind"%string) then k ← decode_string k v; mk i s p k x e
  else if decide (n = "bad_idx"%string) then x ← decode_int64 x v; mk i s p k x e
  else e ← decode_bytes v; mk i s p k x e.

Definition wire_unmarshal (b : bytes) : option WireMsg :=
  v ← parse b; decode_struct wire_names wire_set wire_zero v.

Definition ParseWireFrame (hdr payload : bytes) : outcome WireMsg :=
  guard (negb (length hdr =? 4)%nat) "wire: bad header" (
  let n := be_Z hdr in
  guard (n >? maxFrame) "wire: frame too large" (
  guard (negb (zlen payload mod 2 ^ 32 =? n)) "wire: length mismatch" (
  of_option "json" (wire_unmarshal payload)))).

(** [io.ReadFull] of [n] bytes of what is left of a stream that then ends. *)
Inductive read := Full (b rest : bytes) | EOF | UnexpectedEOF.
Definition ReadFull (n : nat) (stream : bytes) : read :=
  if (n <=? length stream)%nat then Full (take n stream) (drop n stream)
  else match stream with [] => EOF | _ => UnexpectedEOF end.

(** The serving loop: the handler's state, and nil or the error that ended it.
    Each round takes at least the four bytes of a header: [fuel] is the length
    of the stream. *)
Fixpoint serve {S} (fuel : nat) (handler : WireMsg -> S -> S * outcome unit) (stream : bytes) (s : S)
    : S * outcome unit :=
  match fuel with
  | O => (s, Ret tt)
  | Datatypes.S fuel =>
      match ReadFull 4 stream with
      | EOF => (s, Ret tt)
      | UnexpectedEOF => (s, Err "unexpected EOF")
      | Full hdr stream =>
          let n := be_Z hdr in
          if n >? maxFrame then (s, Err "wire: frame too large")
          else
            match ReadFull (Z.to_nat n) stream with
            | EOF => (s, Err "EOF")
            | UnexpectedEOF => (s, Err "unexpected EOF")
            | Full buf stream =>
                match ParseWireFrame hdr buf with
                | Err e => (s, Err e)
                | Panic => (s, Panic)
                | Ret m =>
                    match handler m s with
                    | (s, Ret _) => serve fuel handler stream s
                    | r => r
                    end
                end
            end
      end
  end.
Definition ServeWire {S} (handler : WireMsg -> S -> S * outcome unit) (stream : bytes) (s : S) : S * outcome unit :=
  serve (Datatypes.S (length stream)) handler stream s.

Definition WireMsgFromScore (s : Score) (kind : string) : WireMsg :=
  {| wmNodeID := NodeID s; wmScore := ScoreV s; wmPValue := PValue s; wmKind := kind;
     wmBadIdx := if (0 <? length (sb (Evidence s)))%nat then
                   match evidence_unmarshal (sb (Evidence s)) with Some z => z | None => 0 end
                 else 0;
     wmEvidence := Evidence s |}.

(** ** What is written is read *)

Context {FL : FloatTextLaws}.

(** A message the wire can carry as it is: text that is UTF-8, an index Go can
    hold, no empty evidence that is not nil. *)
Record carried (m : WireMsg) : Prop := {
  ca_node : valid_string (wmNodeID m);
  ca_kind : valid_string (wmKind m);
  ca_idx : in_int64 (wmBadIdx m);
  ca_ev : wmEvidence m <> Some [];
}.

Lemma coerce_name n : forallb (fun b => byte_Z b <? 128) (to_bytes n) = true -> coerce (to_bytes n) = to_bytes n.
Proof. intros Hn. by apply coerce_id, ascii_valid. Qed.

Lemma decode_print_f64 x lit prev : print_f64 x = Some lit -> decode_f64 prev (JNum lit) = Some x.
Proof. apply parse_print_f64. Qed.

Lemma depth_members l : Forall (fun kv => depth kv.2 = 0%nat) l -> (depth (JObj l) <= 1)%nat.
Proof.
  intros Hl. cbn [depth]. apply le_n_S, list_max_le, Forall_map. eapply Forall_impl; [exact Hl|].
  intros kv ->. lia.
Qed.

Lemma wire_roundtrip m j : carried m -> wire_json m = Some j -> wire_unmarshal (print j) = Some m.
Proof.
  intros [Hn Hk Hi He] E. unfold wire_json in E.
  destruct (print_f64 (wmScore m)) as [s|] eqn:Es; [|done]. destruct (print_f64 (wmPValue m)) as [p|] eqn:Ep; [|done].
  cbn [mbind option_bind] in E. injection E as <-.
  pose proof (print_f64_ok _ _ Es). pose proof (print_f64_ok _ _ Ep).
  destruct m as [i x y k b e]. cbn [wmNodeID wmScore wmPValue wmKind wmBadIdx wmEvidence] in *.
  unfold wire_unmarshal. rewrite parse_print.
  2: { unfold omit. repeat case_if; cbn [app wf all_of snd jfield]; split_and!; first [exact I|done|apply wf_jint|apply wf_jslice]. }
  2: { etransitivity; [apply depth_members|pose proof nesting_room; lia].
       unfold omit. repeat case_if; repeat (apply Forall_cons; split); try apply Forall_nil; try done; by destruct e. }
  assert (Hb : b <> 0 \/ b = 0) by lia.
  assert (Hs : e <> None \/ e = None) by (destruct e; auto).
  unfold omit, wire_zero. destruct Hb as [Hb | ->].
  all: try (apply Z.eqb_neq in Hb as Hb'; rewrite Hb').
  all: change (0 =? 0) with true.
  all: destruct e as [[|eb ee]|]; [done| |].
  all: cbn [sb default length Nat.eqb from_option Datatypes.id app].
  all: unfold jfield; cbn [norm map fst snd]; rewrite !coerce_name by reflexivity.
  all: rewrite ?norm_jslice, ?norm_jint, ?norm_jstring by done.
  all: cbn [mbind option_bind]; rewrite decode_struct_obj.
  all: repeat match goal with
       | |- context [(to_bytes ?n, ?v)] => change (to_bytes n, v) with (jfield n v)
       end.
  all: do 2 struct_step_with wire_set ltac:(rewrite ?decode_jstring, ?(decode_print_f64 _ _ _ Es)).
  all: struct_step_with wire_set ltac:(rewrite ?(decode_print_f64 _ _ _ Ep)).
  all: struct_step wire_set.
  all: try (struct_step wire_set); try (struct_step wire_set).
  all: done.
Qed.

(** The reference: messages handled in turn, up to the first error. *)
Fixpoint deliver {S} (handler : WireMsg -> S -> S * outcome unit) (ms : list WireMsg) (s : S) : S * outcome unit :=
  match ms with
  | [] => (s, Ret tt)
  | m :: ms => match handler m s with (s, Ret _) => deliver handler ms s | r => r end
  end.

(** A frame the writer wrote and the reader admits. *)
Definition framed (m : WireMsg) (b : bytes) : Prop :=
  carried m /\ WriteWire m = Ret b /\ zlen b <= 4 + maxFrame.

Lemma framed_parts m b : framed m b -> exists hdr payload, b = hdr ++ payload /\ length hdr = 4%nat /\
  be_Z hdr = zlen payload /\ zlen payload <= maxFrame /\ ParseWireFrame hdr payload = Ret m.
Proof.
  intros (Hc & E & Hl). unfold WriteWire in E. destruct (wire_json m) as [j|] eqn:Ej; [|done].
  cbn [of_option mbind outcome_bind] in E. injection E as <-.
  assert (H4 : length (be_bytes 4 (zlen (print j))) = 4%nat) by apply be_bytes_length.
  assert (Hp : zlen (print j) <= maxFrame) by (unfold zlen in *; cbn [length] in Hl; lia).
  exists (be_bytes 4 (zlen (print j))), (print j).
  assert (Hz : be_Z (be_bytes 4 (zlen (print j))) = zlen (print j)).
  { rewrite be_Z_bytes. apply Z.mod_small. unfold maxFrame in Hp. change (256 ^ Z.of_nat 4) with (2 ^ 32). unfold zlen in *. lia. }
  split_and!; try done. unfold ParseWireFrame. rewrite H4, Hz. cbn [Nat.eqb negb guard].
  assert (zlen (print j) >? maxFrame = false) as -> by (rewrite Z.gtb_ltb; apply Z.ltb_ge; lia).
  rewrite Z.mod_small by (unfold maxFrame in Hp; unfold zlen in *; lia). rewrite Z.eqb_refl. cbn [negb guard].
  by rewrite (wire_roundtrip _ _ Hc Ej).
Qed.

Lemma ReadFull_app n a b : length a = n -> ReadFull n (a ++ b) = Full a b.
Proof.
  intros <-. unfold ReadFull. rewrite length_app. replace (length a <=? length a + length b)%nat with true by (symmetry; apply Nat.leb_le; lia).
  by rewrite take_app_length, drop_app_length.
Qed.

Lemma ReadFull_short n s : (length s < n)%nat -> forall b r, ReadFull n s <> Full b r.
Proof. intros Hl b r. unfold ReadFull. apply Nat.leb_gt in Hl as ->. by destruct s. Qed.

(** A frame cut short is not handled. *)
Lemma serve_torn {S} (handler : WireMsg -> S -> S * outcome unit) m b k fuel s :
  framed m b -> (k < length b)%nat -> fst (serve fuel handler (take k b) s) = s.
Proof.
  intros Hf Hk. destruct fuel as [|fuel]; [done|]. cbn [serve].
  destruct (framed_parts m b Hf) as (hdr & payload & -> & Hh & Hz & Hp & _). rewrite length_app, Hh in Hk.
  destruct (decide (k < 4)%nat) as [Hk4|Hk4].
  - destruct (ReadFull 4 _) as [h r| |] eqn:E; [|done..]. exfalso. revert E. apply ReadFull_short. rewrite length_take. lia.
  - rewrite take_app_ge by lia. rewrite Hh, ReadFull_app by done. rewrite Hz.
    assert (zlen payload >? maxFrame = false) as -> by (rewrite Z.gtb_ltb; apply Z.ltb_ge; lia).
    destruct (ReadFull (Z.to_nat _) _) as [h r| |] eqn:E; [|done..]. exfalso. revert E. apply ReadFull_short.
    rewrite length_take. unfold zlen. lia.
Qed.

Lemma serve_frame {S} (handler : WireMsg -> S -> S * outcome unit) m b rest fuel s :
  framed m b ->
  serve (Datatypes.S fuel) handler (b ++ rest) s =
    match handler m s with (s, Ret _) => serve fuel handler rest s | r => r end.
Proof.
  intros Hf. cbn [serve]. destruct (framed_parts m b Hf) as (hdr & payload & -> & Hh & Hz & Hp & E).
  rewrite <- app_assoc, ReadFull_app by done. rewrite Hz.
  assert (zlen payload >? maxFrame = false) as -> by (rewrite Z.gtb_ltb; apply Z.ltb_ge; lia).
  rewrite ReadFull_app by (unfold zlen; lia). by rewrite E.
Qed.

Lemma framed_length m b : framed m b -> (4 <= length b)%nat.
Proof. intros Hf. destruct (framed_parts m b Hf) as (hdr & payload & -> & Hh & _). rewrite length_app. lia. Qed.

(** The wire is faithful up to the byte it is cut at: when a peer wrote
    frames for messages the wire can carry and the connection ends anywhere in
    that stream, the server has handled exactly the messages whose frames
    arrived whole, in order, as they were written; and a stream that arrived
    whole is served like the messages themselves, its end being no error. *)
Theorem ServeWire_cut {S} (handler : WireMsg -> S -> S * outcome unit) ms frames k :
  Forall2 framed ms frames ->
  exists n, (n <= length ms)%nat /\ (length (concat (take n frames)) <= k)%nat /\
    (n < length ms -> k < length (concat (take (Datatypes.S n) frames)))%nat /\
    forall s, fst (ServeWire handler (take k (concat frames)) s) = fst (deliver handler (take n ms) s) /\
      (length (concat frames) <= k -> ServeWire handler (take k (concat frames)) s = deliver handler ms s)%nat.
Proof.
  intros HF. unfold ServeWire.
  cut (exists n, (n <= length ms)%nat /\ (length (concat (take n frames)) <= k)%nat /\
    (n < length ms -> k < length (concat (take (Datatypes.S n) frames)))%nat /\
    forall s fuel, (length (take k (concat frames)) < fuel)%nat ->
      fst (serve fuel handler (take k (concat frames)) s) = fst (deliver handler (take n ms) s) /\
      (length (concat frames) <= k -> serve fuel handler (take k (concat frames)) s = deliver handler ms s)%nat).
  { intros (n & H1 & H2 & H3 & Hs). exists n. split_and!; try done. intros s. apply Hs. lia. }
  revert k. induction HF as [|m b ms frames Hf HF IH]; intros k.
  - exists 0%nat. split; [cbn; lia|]. split; [cbn; lia|]. split; [cbn; lia|]. intros s [|fuel]; [lia|].
    cbn [concat]. rewrite take_nil. by cbn.
  - pose proof (framed_length m b Hf) as Hb4. cbn [concat]. destruct (decide (k < length b)%nat) as [Hk|Hk].
    + exists 0%nat. split; [cbn; lia|]. split; [cbn; lia|]. split; [cbn [take concat]; rewrite length_app; lia|].
      intros s fuel Hfu. rewrite take_app_le by lia. split; [by eapply serve_torn|]. rewrite length_app. lia.
    + destruct (IH (k - length b)%nat) as (n & H1 & H2 & H3 & Hs). exists (Datatypes.S n). cbn [length].
      split; [lia|]. split; [cbn [take concat]; rewrite length_app; lia|].
      split. { intros Hn. cbn [take concat] in H3 |- *. rewrite length_app. specialize (H3 ltac:(lia)). 
               cbn [take] in H3. lia. }
      intros s [|fuel]; [lia|]. rewrite take_app_ge by lia. intros Hfu. rewrite length_app in Hfu. rewrite (serve_frame _ _ _ _ _ _ Hf).
      cbn [take deliver]. destruct (handler m s) as [s' [[]|e|]]; [|done..].
      rewrite length_app. destruct (Hs s' fuel) as [E1 E2]; [lia|]. split; [done|]. intros Hl. apply E2. lia.
Qed.

End wire.

(** ** A concrete text of floats, and the witness *)

Module ToyFloat.

Definition table : list (f64 * bytes) :=
  [(S754_zero false, to_bytes "0"); (f64_of_Z 1, to_bytes "1"); (f64_of_Z 30, to_bytes "30"); (f64_of_Z 100, to_bytes "100")].

#[global] Instance text : FloatText := {|
  print_f64 x := snd <$> List.find (fun p => bool_decide (p.1 = x)) table;
  parse_f64 b := fst <$> List.find (fun p => bytes_equal p.2 b) table;
|}.

Lemma printed x lit : print_f64 x = Some lit -> (x, lit) ∈ table.
Proof.
  cbn [print_f64 text]. destruct (List.find _ table) as [[y l]|] eqn:E; [|done]. cbn. intros [= <-].
  apply List.find_some in E as [Hi E%bool_decide_eq_true]. cbn in E. subst. by apply list_elem_of_In.
Qed.

#[global] Instance text_laws : FloatTextLaws.
Proof.
  split; intros x lit Hp%printed; repeat (apply elem_of_cons in Hp as [[= -> ->]|Hp]); try (by apply elem_of_nil in Hp).
  - apply (dec_num_ok 0).
  - apply (dec_num_ok 1).
  - apply (dec_num_ok 30).
  - apply (dec_num_ok 100).
  - reflexivity.
  - reflexivity.
  - reflexivity.
  - reflexivity.
Qed.

End ToyFloat.

Definition wmsg (id : string) (score : Z) (idx : Z) : WireMsg :=
  {| wmNodeID := id; wmScore := f64_of_Z score; wmPValue := f64_of_Z 1; wmKind := "live"; wmBadIdx := idx;
     wmEvidence := None |}.
Definition wframe (m : WireMsg) : bytes := match WriteWire m with Ret b => b | _ => [] end.

(** Two frames, the second without its last byte: one message arrives. *)
Lemma ServeWire_cut_witness : exists n, (n < 2)%nat /\
  fst (ServeWire (fun m s => (s ++ [wmNodeID m], Ret tt))
    (take (length (concat [wframe (wmsg "W1" 100 0); wframe (wmsg "W2" 30 7)]) - 1)
      (concat [wframe (wmsg "W1" 100 0); wframe (wmsg "W2" 30 7)])) []) =
  fst (deliver (fun m s => (s ++ [wmNodeID m], Ret tt)) (take n [wmsg "W1" 100 0; wmsg "W2" 30 7]) []).
Proof.
  destruct (ServeWire_cut (fun m s => (s ++ [wmNodeID m], Ret tt)) [wmsg "W1" 100 0; wmsg "W2" 30 7]
    [wframe (wmsg "W1" 100 0); wframe (wmsg "W2" 30 7)]
    (length (concat [wframe (wmsg "W1" 100 0); wframe (wmsg "W2" 30 7)]) - 1)) as (n & Hn & Hl & _ & Hs).
  - repeat (apply Forall2_cons; split); try apply Forall2_nil; try done.
    all: split; [split; [reflexivity|reflexivity|vm_compute; split; [discriminate|reflexivity]|discriminate]|].
    all: split; [reflexivity|apply Z.leb_le; vm_compute; reflexivity].
  - exists n. split.
    + cbn [length] in Hn. destruct (decide (n = 2)%nat) as [-> |]; [|lia].
      exfalso. apply Nat.leb_le in Hl. revert Hl. vm_compute. discriminate.
    + apply Hs.
Defined.
