(* ===== verification/CouncilNet.v ===== *)
(** * The networked council: [councilnet.go]

    A council member is a server that holds one share: it votes for a recovery
    by committing to a nonce, and signs the handoff it voted for; its last epoch
    is kept in a file.  The initiator asks the members in turn.  CouncilWire.v
    has the frames and the sealed sessions messages travel in.

    Each message is served under the member's lock, so that a member's life is a
    sequence of messages.  Random draws, the outcome of a file write and the
    orders of map iteration are arguments.  What a dialled member answers is a
    function of the state of the network ([ask]).  CouncilNetTheory.v proves
    what the protocol promises. *)
From S2P Require Import Prelude Crypto Encoding Json Timeline TimelineFile Graph TrustState.
From S2P Require Import Modular Edwards Frost Identity Council Pq Transport.

(** ** The last committed epoch of a timeline *)

Definition epoch_unmarshal (b : bytes) : option Z :=
  v ← parse b; decode_struct ["epoch"%string] (fun _ v z => decode_int64 z v) 0 v.
Definition epoch_step (e : Z) (ev : TrustEvent) : Z :=
  if decide (EType ev = EvCommit) then
    match epoch_unmarshal (sb (EPayload ev)) with
    | Some z => if z >? e then z else e
    | None => e
    end
  else e.
Definition lastEpoch (es : list TrustEvent) : Z := foldl epoch_step 0 es.

(** ** Messages *)

Definition councilVote : string := "VOTE".
Definition councilVoteResp : string := "VOTE_RESP".
Definition councilCommit : string := "COMMIT_REQ".
Definition councilCommitOk : string := "COMMIT_RESP".
Definition councilPQHello : string := "PQ_HELLO".

Record CouncilMsg := {
  cmKind : string;
  cmNode : string;
  cmEpoch : Z;
  cmPrev : Z;
  cmRoot : slice;
  cmPayload : slice;
  cmBadIndex : Z;
  cmTimeline : bytes;
  cmVote : bool;
  cmCheckpoint : slice;
  cmNewPub : slice;
  cmCommit : slice;
  cmCommitments : gmap string bytes;
  cmR : slice;
  cmC : slice;
  cmFrost : option FrostCommit;
  cmShare : slice;
  cmAffectedCerts : list string;
  cmAffectedIDs : list string;
  cmSig : slice;
  cmPQPub : option PQPublic;
  cmPQCipher : slice;
  cmPQSealed : slice;
  cmError : string;
  cmSession : slice;
  cmFrom : string;
  cmCommits : list string;
  cmShareVal : slice;
}.

Definition msg_zero : CouncilMsg :=
  {| cmKind := ""; cmNode := ""; cmEpoch := 0; cmPrev := 0; cmRoot := None; cmPayload := None; cmBadIndex := 0;
     cmTimeline := []; cmVote := false; cmCheckpoint := None; cmNewPub := None; cmCommit := None;
     cmCommitments := ∅; cmR := None; cmC := None; cmFrost := None; cmShare := None; cmAffectedCerts := [];
     cmAffectedIDs := []; cmSig := None; cmPQPub := None; cmPQCipher := None; cmPQSealed := None; cmError := "";
     cmSession := None; cmFrom := ""; cmCommits := []; cmShareVal := None |}.

(** The answers of a member and the requests of an initiator. *)
Definition vote_resp (id : string) (v : bool) (de : slice) (epoch : Z) (cp : slice) (err : string) : CouncilMsg :=
  {| cmKind := councilVoteResp; cmNode := id; cmEpoch := epoch; cmPrev := 0; cmRoot := None; cmPayload := None;
     cmBadIndex := 0; cmTimeline := []; cmVote := v; cmCheckpoint := cp; cmNewPub := None; cmCommit := de;
     cmCommitments := ∅; cmR := None; cmC := None; cmFrost := None; cmShare := None; cmAffectedCerts := [];
     cmAffectedIDs := []; cmSig := None; cmPQPub := None; cmPQCipher := None; cmPQSealed := None; cmError := err;
     cmSession := None; cmFrom := ""; cmCommits := []; cmShareVal := None |}.
Definition commit_resp (id : string) (share : slice) (err : string) : CouncilMsg :=
  {| cmKind := councilCommitOk; cmNode := id; cmEpoch := 0; cmPrev := 0; cmRoot := None; cmPayload := None;
     cmBadIndex := 0; cmTimeline := []; cmVote := false; cmCheckpoint := None; cmNewPub := None; cmCommit := None;
     cmCommitments := ∅; cmR := None; cmC := None; cmFrost := None; cmShare := share; cmAffectedCerts := [];
     cmAffectedIDs := []; cmSig := None; cmPQPub := None; cmPQCipher := None; cmPQSealed := None; cmError := err;
     cmSession := None; cmFrom := ""; cmCommits := []; cmShareVal := None |}.
Definition vote_req (badIdx : Z) (tl : bytes) : CouncilMsg :=
  {| cmKind := councilVote; cmNode := ""; cmEpoch := 0; cmPrev := 0; cmRoot := None; cmPayload := None;
     cmBadIndex := badIdx; cmTimeline := tl; cmVote := false; cmCheckpoint := None; cmNewPub := None;
     cmCommit := None; cmCommitments := ∅; cmR := None; cmC := None; cmFrost := None; cmShare := None;
     cmAffectedCerts := []; cmAffectedIDs := []; cmSig := None; cmPQPub := None; cmPQCipher := None;
     cmPQSealed := None; cmError := ""; cmSession := None; cmFrom := ""; cmCommits := []; cmShareVal := None |}.
Definition commit_req (epoch prev : Z) (fc : FrostCommit) (tl : bytes) (badIdx : Z) (commits : gmap string bytes)
    (r c : bytes) (certs ids : list string) : CouncilMsg :=
  {| cmKind := councilCommit; cmNode := ""; cmEpoch := epoch; cmPrev := prev; cmRoot := None;
     cmPayload := fcPayload fc; cmBadIndex := badIdx; cmTimeline := tl; cmVote := false;
     cmCheckpoint := fcCheckpoint fc; cmNewPub := fcNewPub fc; cmCommit := None; cmCommitments := commits;
     cmR := Some r; cmC := Some c; cmFrost := Some fc; cmShare := None; cmAffectedCerts := certs;
     cmAffectedIDs := ids; cmSig := None; cmPQPub := None; cmPQCipher := None; cmPQSealed := None; cmError := "";
     cmSession := None; cmFrom := ""; cmCommits := []; cmShareVal := None |}.

(** ** A member *)

Record pendingFrost := { pnEpoch : Z; pnCheckpoint : slice; pnCommit : bytes }.

(** [msFile] is the content of the file at [msPath]. *)
Record CouncilMemberServer := {
  msID : string;
  msShare : option FrostSigner;
  msPath : string;
  msFile : option bytes;
  msEpoch : Z;
  msPending : option pendingFrost;
}.

Definition NewCouncilMemberServer (id : string) (share : option FrostSigner) (path : string) (file : option bytes)
    : CouncilMemberServer :=
  {| msID := match share with
             | Some s => if decide (fsID s = ""%string) then id else fsID s
             | None => id
             end;
     msShare := share; msPath := path; msFile := file;
     msEpoch := match b ← file; epoch_unmarshal b with Some e => e | None => 0 end;
     msPending := None |}.

Definition set_session (s : CouncilMemberServer) (sh : FrostSigner) (p : option pendingFrost) : CouncilMemberServer :=
  {| msID := msID s; msShare := Some sh; msPath := msPath s; msFile := msFile s; msEpoch := msEpoch s;
     msPending := p |}.

(** What a message meets: two draws, an order of iteration, and the epoch file
    after a write that fails ([None]: it succeeds). *)
Record Turn := {
  tnD : option bytes;
  tnE : option bytes;
  tnOrder : list string -> list string;
  tnFailed : option (option bytes);
}.

(** The epoch recorded, written to the file, and the session closed. *)
Definition persistEpoch (s : CouncilMemberServer) (t : Turn) : option bytes :=
  if decide (msPath s = ""%string) then msFile s
  else match tnFailed t with
       | Some rest => rest
       | None => Some (print (JObj [jfield "epoch" (jint (msEpoch s))]))
       end.
Definition committed_epoch (s : CouncilMemberServer) (t : Turn) (epoch : Z) : CouncilMemberServer :=
  let s' := {| msID := msID s; msShare := msShare s; msPath := msPath s; msFile := msFile s; msEpoch := epoch;
               msPending := None |} in
  {| msID := msID s; msShare := msShare s; msPath := msPath s; msFile := persistEpoch s' t; msEpoch := epoch;
     msPending := None |}.

(** [prefixState], [xsOf], [strSet]. *)
Definition prefixState `{Hashes} (tl : Timeline) (badIdx : Z) : outcome State :=
  if badIdx <=? 0 then Ret {| Certs := ∅ |}
  else
    match Events tl !! Z.to_nat (badIdx - 1) with
    | None => Panic
    | Some e =>
        match Fork tl (Hash e) with
        | Ret pre => Ret (Fold pre)
        | Err _ => Ret {| Certs := ∅ |}
        | Panic => Panic
        end
    end.
Definition xsOf (commits : gmap string bytes) : gmap string Z := map_imap (fun id _ => Some (memberX id)) commits.
Definition strSet (ids : list string) : gset string := list_to_set ids.

Section member.
Context `{Hashes} `{Ed25519}.

Definition vote (t : Turn) (s : CouncilMemberServer) (m : CouncilMsg) : outcome (CouncilMemberServer * CouncilMsg) :=
  let refuse e := vote_resp (msID s) false None 0 None e in
  let unverified := refuse "prefix failed verification" in
  match UnmarshalTimeline (cmTimeline m) with
  | Panic => Panic
  | Err _ => Ret (s, unverified)
  | Ret tl =>
      ok ← (if cmBadIndex m <? 0 then Ret false else VerifyPrefix tl (cmBadIndex m));
      if negb ok then Ret (s, unverified)
      else
        match msShare s with
        | None => Ret (s, refuse "no share loaded")
        | Some sh =>
            let epoch := wrap64 (lastEpoch (Events tl) + 1) in
            if epoch <=? msEpoch s then Ret (s, refuse "stale epoch")
            else if used sh then Ret (s, refuse "share already committed (single-use)")
            else
              let '(sh, de) := Commit sh (tnD t) (tnE t) in
              match de with
              | Panic => Panic
              | Err _ => Ret (set_session s sh (msPending s), refuse "commit failed")
              | Ret de =>
                  cp ← rollbackCheckpoint tl (cmBadIndex m);
                  Ret (set_session s sh (Some {| pnEpoch := epoch; pnCheckpoint := cp; pnCommit := de |}),
                       vote_resp (msID s) true (Some de) epoch cp "")
              end
        end
  end.

(** The round-two transcript, and the partial signature for it. *)
Definition partial_signature (t : Turn) (sh : FrostSigner) (m : CouncilMsg) (fc : FrostCommit)
    : outcome (bytes + string) :=
  match ComputeChallenge (tnOrder t) (GroupPub sh) (descriptor fc) (cmCommitments m) with
  | Panic => Panic
  | Err _ => Ret (inr "challenge recompute failed"%string)
  | Ret (r, c) =>
      if negb (bytes_equal r (sb (cmR m))) || negb (bytes_equal c (sb (cmC m)))
      then Ret (inr "transcript challenge mismatch"%string)
      else
        match SignShare sh {| tM := descriptor fc; Commits := cmCommitments m; Xs := xsOf (cmCommitments m);
                              tR := r; tC := c |} with
        | Panic => Panic
        | Err _ => Ret (inr "signing failed"%string)
        | Ret z => Ret (inl z)
        end
  end.

(** The fork shown, against the sets the message names. *)
Definition fork_recovered (m : CouncilMsg) : outcome bool :=
  match UnmarshalTimeline (cmTimeline m) with
  | Panic => Panic
  | Err _ => Ret false
  | Ret fork =>
      ok ← Verify fork;
      if negb ok then Ret false
      else
        pre ← prefixState fork (cmBadIndex m);
        Ret (Pass (Some (VerifyRecovery pre (Fold fork) (strSet (cmAffectedCerts m)) (strSet (cmAffectedIDs m)))))
  end.

Definition commit (t : Turn) (s : CouncilMemberServer) (m : CouncilMsg) : outcome (CouncilMemberServer * CouncilMsg) :=
  let refuse e := Ret (s, commit_resp (msID s) None e) in
  match msPending s, cmFrost m with
  | Some p, Some fc =>
      if (cmEpoch m <=? msEpoch s) || negb (cmPrev m =? wrap64 (cmEpoch m - 1)) then refuse "epoch mismatch"%string
      else if negb (fcEpoch fc =? pnEpoch p) || bool_decide (fcCheckpoint fc = None) ||
              negb (bytes_equal (sb (fcCheckpoint fc)) (sb (pnCheckpoint p)))
      then refuse "handoff does not match voted round"%string
      else
        ok ← fork_recovered m;
        if negb ok then refuse "commit verification failed"%string
        else
          match msShare s with
          | None => if decide (cmCommitments m = ∅) then refuse "our commitment missing from transcript"%string else Panic
          | Some sh =>
              if negb (bool_decide (cmCommitments m !! fsID sh = Some (pnCommit p)))
              then refuse "our commitment missing from transcript"%string
              else
                r ← partial_signature t sh m fc;
                match r with
                | inr e => refuse e
                | inl z => Ret (committed_epoch s t (cmEpoch m), commit_resp (msID s) (Some z) "")
                end
          end
  | _, _ => refuse "no pending session"%string
  end.

Definition dispatch (t : Turn) (s : CouncilMemberServer) (m : CouncilMsg) : outcome (CouncilMemberServer * CouncilMsg) :=
  if decide (cmKind m = councilVote) then vote t s m
  else if decide (cmKind m = councilCommit) then commit t s m
  else Err "councilnet: unknown kind %q".

End member.

(** ** The initiator *)

Record MemberEndpoint := { epAddr : string; epServerName : string; epPubShare : bytes }.

(** The orders of the maps a recovery ranges over. *)
Record RemoteOrders := {
  roInvalid : range_order;
  roKeys : list string -> list string;     (* [keys] of the affected sets *)
  roCommits : list string -> list string;  (* adding the commitments *)
  roNonce : list string -> list string;    (* the aggregate nonce *)
  roMembers : list string -> list string;  (* the signers listed *)
  roIds : list string -> list string;      (* re-issuance *)
  roAff : list string -> list string;      (* revocation *)
}.

Record votes := {
  vtCommits : gmap string bytes;
  vtPubs : gmap string bytes;
  vtXs : gmap string Z;
}.
Definition no_votes : votes := {| vtCommits := ∅; vtPubs := ∅; vtXs := ∅ |}.
Definition count_vote (v : votes) (ep : MemberEndpoint) (resp : CouncilMsg) : votes :=
  {| vtCommits := <[cmNode resp := sb (cmCommit resp)]> (vtCommits v);
     vtPubs := <[cmNode resp := epPubShare ep]> (vtPubs v);
     vtXs := <[cmNode resp := memberX (cmNode resp)]> (vtXs v) |}.

Section initiator.
Context `{Hashes} `{Ed25519} `{X509}.
(** Dial, send one message, read the answer, close. *)
Context {World : Type} (ask : MemberEndpoint -> CouncilMsg -> World -> World * outcome CouncilMsg).

Fixpoint collect_votes (minVotes : Z) (req : CouncilMsg) (eps : list MemberEndpoint) (w : World) (v : votes)
    : World * outcome votes :=
  match eps with
  | [] => (w, Ret v)
  | ep :: eps =>
      if Z.of_nat (size (vtCommits v)) >=? minVotes then (w, Ret v)
      else
        match ask ep req w with
        | (w, Panic) => (w, Panic)
        | (w, Err _) => collect_votes minVotes req eps w v
        | (w, Ret resp) =>
            if negb (cmVote resp) || negb (length (sb (cmCommit resp)) =? 64)%nat
            then collect_votes minVotes req eps w v
            else collect_votes minVotes req eps w (count_vote v ep resp)
        end
  end.

Fixpoint collect_shares (minVotes : Z) (req : CouncilMsg) (eps : list MemberEndpoint) (w : World)
    (agg : FrostAggregator) (shares : gmap string bytes) : World * outcome (FrostAggregator * gmap string bytes) :=
  match eps with
  | [] => (w, Ret (agg, shares))
  | ep :: eps =>
      if Z.of_nat (size shares) >=? minVotes then (w, Ret (agg, shares))
      else
        match ask ep req w with
        | (w, Panic) => (w, Panic)
        | (w, Err _) => collect_shares minVotes req eps w agg shares
        | (w, Ret resp) =>
            if (length (sb (cmShare resp)) =? 0)%nat then collect_shares minVotes req eps w agg shares
            else
              match AddShare agg (cmNode resp) (sb (cmShare resp)) with
              | Panic => (w, Panic)
              | Err _ => collect_shares minVotes req eps w agg shares
              | Ret agg => collect_shares minVotes req eps w agg (<[cmNode resp := sb (cmShare resp)]> shares)
              end
        end
  end.

(** From the signed handoff on. *)
Definition publish (o : RemoteOrders) (tl : Timeline) (badIdx : Z) (rf : Fork4) (fc : FrostCommit)
    : outcome RecoveryReport :=
  '(fork, _) ← Append (rfFork rf) EvRecovery (Some (print (fc_json fc))) 0;
  '(fork, issued) ← reissueOnFork (roIds o) (roAff o) fork (rfAffected rf) (rfIdentities rf) (lastEpoch (Events tl));
  pre ← match Rollback tl badIdx with Ret pre => Ret pre | _ => Panic end;
  let r1 := VerifyRecovery (Fold pre) (Fold fork) (rfAffected rf) (rfIdentities rf) in
  '(fork, _) ← Append fork EvCommit (Some (print (commit_json fc))) 0;
  Ret {| rrCommit := fc; rrTimeline := fork; rrIssued := issued; rrVerify := r1; rrRootSeed := None |}.

(** From the votes on. *)
Definition commit_round (o : RemoteOrders) (tl : Timeline) (badIdx minVotes : Z) (groupPub : bytes)
    (eps : list MemberEndpoint) (rf : Fork4) (v : votes) (w : World) : World * outcome RecoveryReport :=
  let last := lastEpoch (Events tl) in
  let run :=
    checkpoint ← rollbackCheckpoint tl badIdx;
    let fc := handoff (wrap64 (last + 1)) checkpoint last (Some (rfPub rf)) (Some (rfCert rf)) in
    agg ← add_commits (SetXs (NewFrostAggregator groupPub (vtPubs v)) (vtXs v)) (vtCommits v)
      (roCommits o (keys (vtCommits v)));
    '(agg, r, c) ← Challenge (roNonce o) agg (descriptor fc);
    Ret (fc, agg, commit_req (fcEpoch fc) (fcPrev fc) fc (Marshal (rfFork rf) false) badIdx (vtCommits v) r c
                    (roKeys o (elements (rfAffected rf))) (roKeys o (elements (rfIdentities rf)))) in
  match run with
  | Panic => (w, Panic)
  | Err e => (w, Err e)
  | Ret (fc, agg, req) =>
      match collect_shares minVotes req eps w agg ∅ with
      | (w, Panic) => (w, Panic)
      | (w, Err e) => (w, Err e)
      | (w, Ret (agg, shares)) =>
          (w, guard (Z.of_nat (size shares) <? minVotes) "council: fewer than minVotes valid partial signatures" (
              sig ← Aggregate agg;
              let fc := with_sig fc sig (roMembers o (keys shares)) in
              ok ← Valid fc groupPub minVotes;
              guard (negb ok) "council: aggregated signature invalid" (
              publish o tl badIdx rf fc)))
      end
  end.

Definition RemoteRecover (o : RemoteOrders) (seed : option bytes) (now : Z) (tl : Timeline)
    (evidence : option TrustEvent) (groupPub : bytes) (eps : list MemberEndpoint) (minVotes : Z) (w : World)
    : World * outcome RecoveryReport :=
  match badIdx ← evidenceBadIndex evidence; ok ← VerifyPrefix tl badIdx; Ret (badIdx, ok) with
  | Panic => (w, Panic)
  | Err e => (w, Err e)
  | Ret (_, false) => (w, Err "council: prefix failed verification")
  | Ret (badIdx, true) =>
      match collect_votes minVotes (vote_req badIdx (Marshal tl false)) eps w no_votes with
      | (w, Panic) => (w, Panic)
      | (w, Err e) => (w, Err e)
      | (w, Ret v) =>
          if Z.of_nat (size (vtCommits v)) <? minVotes
          then (w, Err "BLOCKED: fewer than minVotes members voted yes")
          else
            match seed with
            | None => (w, Err "rand")
            | Some seed =>
                match recoverRollback (roInvalid o) tl badIdx seed (lastEpoch (Events tl)) now with
                | Panic => (w, Panic)
                | Err e => (w, Err e)
                | Ret rf => commit_round o tl badIdx minVotes groupPub eps rf v w
                end
            end
      end
  end.

End initiator.

(** ** A network of members that can be reached *)

(** The members by address, and the number of draws made; a turn's draws are
    the next two. *)
Record Network := { nwMembers : gmap string CouncilMemberServer; nwDrawn : nat }.

Definition turn_at (order : list string -> list string) (draw : nat -> option bytes) (n : nat) : Turn :=
  {| tnD := draw n; tnE := draw (S n); tnOrder := order; tnFailed := None |}.

(** An address without a member, and a member that closes the connection, are
    errors of the dialling side; a member that crashes is gone. *)
Definition ask_members `{Hashes} `{Ed25519} (order : list string -> list string) (draw : nat -> option bytes)
    (ep : MemberEndpoint) (m : CouncilMsg) (w : Network) : Network * outcome CouncilMsg :=
  match nwMembers w !! epAddr ep with
  | None => (w, Err "dial")
  | Some s =>
      match dispatch (turn_at order draw (nwDrawn w)) s m with
      | Ret (s, resp) =>
          ({| nwMembers := <[epAddr ep := s]> (nwMembers w);
              nwDrawn := if cmVote resp then S (S (nwDrawn w)) else nwDrawn w |}, Ret resp)
      | Err _ => (w, Err "EOF")
      | Panic => ({| nwMembers := delete (epAddr ep) (nwMembers w); nwDrawn := nwDrawn w |}, Err "EOF")
      end
  end.
