(* ===== verification/CouncilNetTheory.v ===== *)
(** * Theorems about the networked council of CouncilNet.v

    A member: one vote and one signature per share, bound to each other; and
    what its checks leave open - the epoch it records, the fork it is shown, an
    index past the end.  The initiator: a quorum of members that can be reached
    restores trust; every vote counted is a signature needed. *)
From S2P Require Import Prelude Crypto Encoding Json Timeline TimelineTheory TimelineFile Graph TrustState.
From S2P Require Import Modular Edwards EdwardsTheory EdwardsCodec Frost FrostTheory FrostSpec Identity Council CouncilTheory.
From S2P Require Import Recovery Pq Transport CouncilNet.

(** ** The last committed epoch *)

Lemma lastEpoch_go es : forall z, z <= foldl epoch_step z es.
Proof.
  induction es as [|e es IH]; intros z; cbn [foldl]; [lia|]. etransitivity; [|apply IH].
  unfold epoch_step. destruct (decide _); [|lia]. destruct (epoch_unmarshal _) as [k|]; [|lia]. destruct (Z.gtb_spec k z); lia.
Qed.

Lemma lastEpoch_nonneg es : 0 <= lastEpoch es.
Proof. apply lastEpoch_go. Qed.

(** ** The life of a member *)

(** The messages a member serves, each with its answer, until it crashes. *)
Fixpoint serve_all `{Hashes} `{Ed25519} (ms : list (Turn * CouncilMsg)) (s : CouncilMemberServer)
    (log : list (CouncilMsg * CouncilMsg)) : list (CouncilMsg * CouncilMsg) :=
  match ms with
  | [] => log
  | (t, m) :: ms =>
      match dispatch t s m with
      | Ret (s, r) => serve_all ms s (log ++ [(m, r)])
      | Err _ => serve_all ms s log
      | Panic => log
      end
  end.

Definition voted (x : CouncilMsg * CouncilMsg) : Prop := cmVote x.2 = true.
Definition signed (x : CouncilMsg * CouncilMsg) : Prop := is_Some (cmShare x.2).
#[global] Instance voted_dec x : Decision (voted x).
Proof. unfold voted. apply _. Defined.
#[global] Instance signed_dec x : Decision (signed x).
Proof. unfold signed. apply _. Defined.

(** A signature request is for the round a vote opened. *)
Definition bound (id : string) (vote sig : CouncilMsg * CouncilMsg) : Prop :=
  exists fc, cmFrost sig.1 = Some fc /\ fcEpoch fc = cmEpoch vote.2 /\
    sb (fcCheckpoint fc) = sb (cmCheckpoint vote.2) /\ cmCommitments sig.1 !! id = Some (sb (cmCommit vote.2)).

Section member.
Context `{Hashes} `{Ed25519}.

(** What a vote changes: nothing, the signer used up, or a session opened. *)
Lemma vote_cases t s m s' r : vote t s m = Ret (s', r) ->
  cmShare r = None /\
  ((s' = s /\ cmVote r = false) \/
   exists sh d e, msShare s = Some sh /\ used sh = false /\
     ((s' = set_session s (with_nonces sh d e) (msPending s) /\ cmVote r = false) \/
      exists p, s' = set_session s (with_nonces sh d e) (Some p) /\ cmVote r = true /\
        cmEpoch r = pnEpoch p /\ cmCheckpoint r = pnCheckpoint p /\ cmCommit r = Some (pnCommit p))).
Proof.
  unfold vote. destruct (UnmarshalTimeline _) as [tl| |]; [|by intros [= <- <-]; split; [|left]|done].
  intros E. apply bind_ret in E as ([] & _ & E); cbn [negb] in E; [|by injection E as <- <-; split; [|left]].
  destruct (msShare s) as [sh|]; [|by injection E as <- <-; split; [|left]].
  destruct (_ <=? _); [by injection E as <- <-; split; [|left]|].
  destruct (used sh) eqn:Eu; [by injection E as <- <-; split; [|left]|].
  destruct (Commit sh (tnD t) (tnE t)) as [sh' de] eqn:Ec.
  assert (exists d e, sh' = with_nonces sh d e) as (d & e & ->).
  { unfold Commit in Ec. rewrite Eu in Ec. destruct (randomScalar (tnD t)), (randomScalar (tnE t)); injection Ec as <- _; by eexists _, _. }
  destruct de as [de| |]; [|injection E as <- <-; split; [done|right]; exists sh, d, e; auto|done].
  apply bind_ret in E as (cp & _ & [= <- <-]). split; [done|right].
  exists sh, d, e. split; [done|]. split; [done|]. right. by eexists.
Qed.

(** A signature closes the session it was asked in. *)
Lemma commit_cases t s m s' r : commit t s m = Ret (s', r) ->
  cmVote r = false /\
  ((s' = s /\ cmShare r = None) \/
   exists p fc sh, msPending s = Some p /\ msShare s = Some sh /\ cmFrost m = Some fc /\
     s' = committed_epoch s t (cmEpoch m) /\ is_Some (cmShare r) /\ fcEpoch fc = pnEpoch p /\
     sb (fcCheckpoint fc) = sb (pnCheckpoint p) /\ cmCommitments m !! fsID sh = Some (pnCommit p)).
Proof.
  unfold commit. destruct (msPending s) as [p|], (cmFrost m) as [fc|];
    try by intros [= <- <-]; split; [|left].
  destruct (_ || _); [by intros [= <- <-]; split; [|left]|].
  destruct (negb _ || _ || _) eqn:Eb; [by intros [= <- <-]; split; [|left]|].
  apply orb_false_iff in Eb as [[E1%negb_false_iff%Z.eqb_eq _]%orb_false_iff E3%negb_false_iff%bytes_equal_true].
  intros E. apply bind_ret in E as ([] & _ & E); cbn [negb] in E; [|by injection E as <- <-; split; [|left]].
  destruct (msShare s) as [sh|]; [|case_decide; [by injection E as <- <-; split; [|left]|done]].
  destruct (negb _) eqn:Eo in E; [by injection E as <- <-; split; [|left]|].
  apply negb_false_iff, bool_decide_eq_true in Eo.
  apply bind_ret in E as ([z|e] & _ & [= <- <-]); split; try done; [|by left].
  right. by exists p, fc, sh.
Qed.

(** The invariant of a member's life; [id] is its share's. *)
Record Life (id : string) (s : CouncilMemberServer) (log : list (CouncilMsg * CouncilMsg)) : Prop := {
  lf_share : exists sh, msShare s = Some sh /\ fsID sh = id /\ (filter voted log <> [] -> used sh = true);
  lf_votes : (length (filter voted log) <= 1)%nat;
  lf_open : forall p, msPending s = Some p -> filter signed log = [] /\ exists x, x ∈ filter voted log /\
    cmEpoch x.2 = pnEpoch p /\ cmCheckpoint x.2 = pnCheckpoint p /\ cmCommit x.2 = Some (pnCommit p);
  lf_signed : (length (filter signed log) <= 1)%nat;
  lf_bound : forall y, y ∈ filter signed log -> exists x, x ∈ filter voted log /\ bound id x y;
}.

Lemma filter_snoc (P : CouncilMsg * CouncilMsg -> Prop) `{!forall x, Decision (P x)} log x :
  filter P (log ++ [x]) = filter P log ++ (if decide (P x) then [x] else []).
Proof. by rewrite filter_app, filter_cons, filter_nil. Qed.

Lemma quiet_life id s s' log x :
  Life id s log -> ~ voted x -> ~ signed x ->
  (exists sh, msShare s' = Some sh /\ fsID sh = id /\ (filter voted log <> [] -> used sh = true)) ->
  msPending s' = msPending s -> Life id s' (log ++ [x]).
Proof.
  intros [Hs Hv Ho Hg Hb] Hnv Hns Hs' Hp. split; rewrite ?filter_snoc, ?decide_False, ?app_nil_r by done; try done.
  by rewrite Hp.
Qed.

Lemma vote_life id t s m s' r log : Life id s log -> vote t s m = Ret (s', r) -> Life id s' (log ++ [(m, r)]).
Proof.
  intros HL E. apply vote_cases in E as [Hns [[-> Hv]|(sh & d & e & Esh & Hu & [[-> Hv]|(p & -> & Hv & E1 & E2 & E3)])]];
    assert (Hns' : ~ signed (m, r)) by (unfold signed; cbn; rewrite Hns; apply is_Some_None).
  - apply (quiet_life id s); try done; [by unfold voted; cbn; rewrite Hv|apply HL].
  - destruct (lf_share _ _ _ HL) as (sh0 & Es0 & Hid & _). rewrite Esh in Es0. injection Es0 as <-.
    apply (quiet_life id s); try done; [by unfold voted; cbn; rewrite Hv|]. by exists (with_nonces sh d e).
  - destruct HL as [(sh0 & Es0 & Hid & Huse) Hvo Ho Hg Hb]. rewrite Esh in Es0. injection Es0 as <-.
    assert (Hnil : filter voted log = []).
    { destruct (filter voted log) eqn:Ef; [done|]. rewrite Huse in Hu; done. }
    assert (Hsn : filter signed log = []).
    { destruct (filter signed log) as [|y l] eqn:Ef; [done|]. destruct (Hb y ltac:(left)) as (x & Hx & _).
      rewrite Hnil in Hx. by apply not_elem_of_nil in Hx. }
    assert (Hvt : voted (m, r)) by done.
    split; rewrite ?filter_snoc, ?Hnil, ?Hsn, ?(decide_True (P := voted _)), ?(decide_False (P := signed _)) by done; cbn; try lia.
    + by exists (with_nonces sh d e).
    + intros q [= <-]. split; [done|]. exists (m, r). split; [by left|done].
    + intros y Hy. by apply not_elem_of_nil in Hy.
Qed.

Lemma commit_life id t s m s' r log : Life id s log -> commit t s m = Ret (s', r) -> Life id s' (log ++ [(m, r)]).
Proof.
  intros HL E. apply commit_cases in E as [Hnv [[-> Hns]|(p & fc & sh & Ep & Esh & Ef & -> & Hs & E1 & E2 & E3)]];
    assert (Hnv' : ~ voted (m, r)) by (unfold voted; cbn; by rewrite Hnv).
  - apply (quiet_life id s); try done; [unfold signed; cbn; rewrite Hns; apply is_Some_None|apply HL].
  - destruct HL as [(sh0 & Es0 & Hid & Huse) Hvo Ho Hg Hb]. rewrite Esh in Es0. injection Es0 as <-.
    destruct (Ho p Ep) as [Hsn (x & Hx & F1 & F2 & F3)]. assert (Hsg : signed (m, r)) by done.
    split; rewrite ?filter_snoc, ?Hsn, ?(decide_False (P := voted _)), ?(decide_True (P := signed _)), ?app_nil_r by done; try done.
    + by exists sh.
    + intros y Hy. apply list_elem_of_singleton in Hy as ->. exists x. split; [done|].
      exists fc. cbn [fst snd]. split; [done|]. split; [congruence|]. split; [by rewrite E2, F2|]. by rewrite <- Hid, E3, F3.
Qed.

Lemma serve_life id ms s log : Life id s log -> exists s', Life id s' (serve_all ms s log).
Proof.
  revert s log. induction ms as [|[t m] ms IH]; intros s log HL; cbn [serve_all]; [by exists s|].
  destruct (dispatch t s m) as [[s' r]| |] eqn:E; [|by apply IH|by exists s]. apply IH. unfold dispatch in E.
  case_decide; [by eapply vote_life|]. case_decide; [by eapply commit_life|done].
Qed.

(** C7. A share signs at most once: whatever messages a member that starts with a share is sent, in whatever order and
    with whatever randomness, it votes at most once and releases at most one partial signature, and that one is for
    a handoff of the epoch and the checkpoint it voted for, over a transcript that holds its own commitment. *)
Theorem member_signs_once id sh path file ms :
  let log := serve_all ms (NewCouncilMemberServer id (Some sh) path file) [] in
  (length (filter voted log) <= 1)%nat /\ (length (filter signed log) <= 1)%nat /\
  forall y, y ∈ filter signed log -> exists x, x ∈ filter voted log /\ bound (fsID sh) x y.
Proof.
  intros log. destruct (serve_life (fsID sh) ms (NewCouncilMemberServer id (Some sh) path file) []) as [s' HL]; [|by destruct HL].
  split; cbn; try lia; try done; [by exists sh|]. intros y Hy. by apply not_elem_of_nil in Hy.
Qed.

End member.

(** ** A member that can be reached answers *)

(** The endpoints asked, in order: those without a member are passed over, the
    others are [us]; what follows is not asked. *)
Inductive picks (down : MemberEndpoint -> Prop) : list MemberEndpoint -> list (MemberEndpoint * FrostSigner) -> Prop :=
| picks_done eps : picks down eps []
| picks_skip ep eps us : down ep -> picks down eps us -> picks down (ep :: eps) us
| picks_take ep sh eps us : picks down eps us -> picks down (ep :: eps) ((ep, sh) :: us).

Lemma picks_weaken (P Q : MemberEndpoint -> Prop) eps us :
  (forall ep, P ep -> Q ep) -> picks P eps us -> picks Q eps us.
Proof. intros HPQ. induction 1; [apply picks_done|apply picks_skip; auto|by apply picks_take]. Qed.

Lemma picks_map P eps us us' : picks P eps us -> map fst us = map fst us' -> picks P eps us'.
Proof.
  intros Hp. revert us'. induction Hp as [eps|ep eps us Hd _ IH|ep sh eps us _ IH]; intros us' E.
  - destruct us'; [apply picks_done|done].
  - apply picks_skip; [done|by apply IH].
  - destruct us' as [|[ep' sh'] us']; [done|]. injection E as <- E. apply picks_take. by apply IH.
Qed.

Definition down (w : Network) (ep : MemberEndpoint) : Prop := nwMembers w !! epAddr ep = None.
Abbreviation addrs us := (map (fun u => epAddr u.1) us).

(** A member with a fresh share that has not committed the next epoch. *)
Record ready (last : Z) (w : Network) (u : MemberEndpoint * FrostSigner) : Prop := {
  rd_server : exists s, nwMembers w !! epAddr u.1 = Some s /\ msShare s = Some u.2 /\ msID s = fsID u.2 /\ msEpoch s <= last;
  rd_pub : epPubShare u.1 = PubShare u.2;
}.

(** A member that has voted: the session it keeps. *)
Record armed (last : Z) (cp : slice) (cs : gmap string bytes) (w : Network) (u : MemberEndpoint * FrostSigner) : Prop := {
  ar_server : exists s de, nwMembers w !! epAddr u.1 = Some s /\ msShare s = Some u.2 /\ msID s = fsID u.2 /\ msEpoch s <= last /\
    msPending s = Some {| pnEpoch := last + 1; pnCheckpoint := cp; pnCommit := de |} /\ cs !! fsID u.2 = Some de;
}.

Section answers.
Context `{HL : HashLaws} `{EL : Ed25519Laws}.
Context (order : list string -> list string) (draw : nat -> option bytes).

(** A commitment is two encoded points. *)
Lemma Commit_ret s d e s' de : used s = false -> Commit s d e = (s', Ret de) ->
  length de = 64%nat /\ exists x y, s' = with_nonces s x y.
Proof.
  intros Hu Er. destruct d as [rd|]; [|unfold Commit in Er; by rewrite Hu in Er].
  destruct e as [re|]; [|unfold Commit in Er; rewrite Hu in Er; by destruct (randomScalar _)].
  destruct (commit_fresh s (Some rd) (Some re) Hu) as (x & y & Db & Eb & Ec & HD & HE); [by eexists..|].
  rewrite Ec in Er. injection Er as <- <-. rewrite length_app, (encodes_length _ _ HD), (encodes_length _ _ HE).
  split; [done|]. by eexists _, _.
Qed.

(** The timeline as the members read it: no key, its start key explicit. *)
Definition shown (t : Timeline) : Timeline :=
  {| events := events t; tkey := None; tpub := tpub t; tstart := Some (startPub t); councilPub := councilPub t;
     rotations := []; algo := algo t |}.

Lemma shown_prefix t n : VerifyPrefix (shown t) n = VerifyPrefix t n.
Proof. done. Qed.

Lemma ready_votes t badIdx cp w u n sh' de :
  storable t -> VerifyPrefix t badIdx = Ret true -> 0 <= badIdx -> rollbackCheckpoint t badIdx = Ret cp ->
  0 <= lastEpoch (events t) < 2 ^ 63 - 1 ->
  ready (lastEpoch (events t)) w u -> used u.2 = false -> Commit u.2 (draw n) (draw (S n)) = (sh', Ret de) ->
  exists s s', nwMembers w !! epAddr u.1 = Some s /\
    dispatch (turn_at order draw n) s (vote_req badIdx (Marshal t false)) =
      Ret (s', vote_resp (fsID u.2) true (Some de) (lastEpoch (events t) + 1) cp "") /\
    msShare s' = Some sh' /\ msID s' = fsID u.2 /\ msEpoch s' <= lastEpoch (events t) /\
    msPending s' = Some {| pnEpoch := lastEpoch (events t) + 1; pnCheckpoint := cp; pnCommit := de |}.
Proof.
  intros Hst Hv Hb Hcp Hl [(s & Hs & Hsh & Hid & He) _] Hu Ec. 
  exists s, (set_session s sh' (Some {| pnEpoch := lastEpoch (events t) + 1; pnCheckpoint := cp; pnCommit := de |})).
  split; [done|]. split; [|done].
  unfold dispatch. cbn [cmKind vote_req]. rewrite decide_True by done. unfold vote. cbn [cmTimeline cmBadIndex vote_req].
  rewrite (Unmarshal_Marshal t false Hst). fold (shown t). rewrite (proj2 (Z.ltb_ge badIdx 0)) by lia.
  rewrite shown_prefix, Hv. cbn [mbind outcome_bind negb]. rewrite Hsh.
  change (Events (shown t)) with (events t). rewrite wrap64_id by (unfold in_int64; lia).
  rewrite (proj2 (Z.leb_gt _ _)) by lia. rewrite Hu. cbn [tnD tnE turn_at]. rewrite Ec.
  change (rollbackCheckpoint (shown t) badIdx) with (rollbackCheckpoint t badIdx). rewrite Hcp.
  cbn [mbind outcome_bind]. by rewrite Hid.
Qed.

(** What a turn of the network leaves of the other members. *)
Lemma ready_other last w u a s n : epAddr u.1 <> a -> ready last w u ->
  ready last {| nwMembers := <[a := s]> (nwMembers w); nwDrawn := n |} u.
Proof. intros Hne [(s0 & H1 & H2) H3]. split; [|done]. exists s0. cbn. by rewrite lookup_insert_ne. Qed.

Lemma down_other w a s n ep : is_Some (nwMembers w !! a) -> down w ep ->
  down {| nwMembers := <[a := s]> (nwMembers w); nwDrawn := n |} ep.
Proof.
  unfold down. intros [x Hx] Hd. cbn. rewrite lookup_insert_ne; [done|]. intros Eq. rewrite <- Eq in Hd. congruence.
Qed.

Lemma commit_all_other ss i cs ss' cs' id :
  commit_all ss draw i cs = Ret (ss', cs') -> id ∉ ids_of ss -> cs' !! id = cs !! id.
Proof.
  revert i cs ss'. induction ss as [|s ss IH]; intros i cs ss'; cbn [commit_all map]; [by intros [= _ <-]|].
  pose proof (Commit_id s (draw i) (draw (S i))) as Hid.
  destruct (Commit s _ _) as [s1 de]. cbn [fst] in Hid. intros Er [Hne Hn]%not_elem_of_cons.
  apply bind_ret in Er as (b & -> & Er). apply bind_ret in Er as ([ss2 cs2] & Er & [= _ <-]).
  rewrite (IH _ _ _ Er Hn), Hid. by apply lookup_insert_ne.
Qed.

(** Round one, over the members that can be reached. *)
Lemma votes_ok t badIdx cp minVotes eps us w v ss' cs :
  storable t -> VerifyPrefix t badIdx = Ret true -> 0 <= badIdx -> rollbackCheckpoint t badIdx = Ret cp ->
  0 <= lastEpoch (events t) < 2 ^ 63 - 1 ->
  picks (down w) eps us -> Forall (ready (lastEpoch (events t)) w) us ->
  Forall (fun s => used s = false) (map snd us) -> NoDup (addrs us) -> NoDup (ids_of (map snd us)) ->
  (forall id, id ∈ ids_of (map snd us) -> vtCommits v !! id = None) ->
  Z.of_nat (size (vtCommits v)) + zlen us = minVotes ->
  commit_all (map snd us) draw (nwDrawn w) (vtCommits v) = Ret (ss', cs) ->
  exists w' v', collect_votes (ask_members order draw) minVotes (vote_req badIdx (Marshal t false)) eps w v = (w', Ret v') /\
    vtCommits v' = cs /\ vtPubs v' = fill PubShare (map snd us) (vtPubs v) /\
    vtXs v' = fill (fun s => memberX (fsID s)) (map snd us) (vtXs v) /\
    (forall a, a ∉ addrs us -> nwMembers w' !! a = nwMembers w !! a) /\
    Forall (armed (lastEpoch (events t)) cp cs w') (zip (map fst us) ss').
Proof.
  intros Hst Hv Hb Hcp Hl Hp. revert v ss' w Hp. induction eps as [|ep eps IH] in us |- *; intros v ss' w Hp Hr Hf Ha Hi Hn Hsz Ec.
  { inversion Hp; subst. cbn in Ec. injection Ec as <- <-. exists w, v. by split_and!. }
  cbn [collect_votes]. destruct us as [|[ep1 sh] us].
  { cbn in Ec. injection Ec as <- <-. unfold zlen in Hsz. cbn in Hsz.
    replace (_ >=? minVotes) with true by (symmetry; apply Z.geb_le; lia). exists w, v. by split_and!. }
  replace (_ >=? minVotes) with false by (symmetry; rewrite Z.geb_leb; apply Z.leb_gt; unfold zlen in Hsz; cbn in Hsz; lia).
  inversion Hp as [|? ? ? Hd Hp'|? ? ? ? Hp']; subst.
  { unfold ask_members at 1. rewrite Hd. by apply IH. }
  apply Forall_cons in Hr as [Hr Hrs]. cbn [map fst snd] in *. apply Forall_cons in Hf as [Hf Hfs].
  apply NoDup_cons in Ha as [Ha Has]. apply NoDup_cons in Hi as [Hi His]. cbn [commit_all] in Ec.
  destruct (Commit sh (draw (nwDrawn w)) (draw (S (nwDrawn w)))) as [sh' de] eqn:Ecm.
  apply bind_ret in Ec as (b & -> & Ec). apply bind_ret in Ec as ([ss2 cs2] & Ec & [= <- <-]). cbn [snd] in *.
  pose proof (Commit_id sh (draw (nwDrawn w)) (draw (S (nwDrawn w)))) as Eid. rewrite Ecm in Eid. cbn [fst] in Eid. rewrite Eid in Ec.
  destruct (Commit_ret sh _ _ _ _ Hf Ecm) as (Hlen & _).
  destruct (ready_votes t badIdx cp w (ep1, sh) (nwDrawn w) sh' b Hst Hv Hb Hcp Hl Hr Hf Ecm) as (s & s' & Hs & Ed & F1 & F2 & F3 & F4).
  cbn [fst snd] in *. unfold ask_members at 1. rewrite Hs, Ed. cbn [cmVote cmCommit vote_resp sb default from_option Datatypes.id negb].
  rewrite Hlen. cbn [Nat.eqb negb orb].
  set (w1 := {| nwMembers := _; nwDrawn := _ |}). set (v1 := count_vote _ _ _).
  assert (Hv1 : vtCommits v1 = <[fsID sh := b]> (vtCommits v)) by done.
  destruct (IH us v1 ss2 w1) as (w' & v' & E1 & E2 & E3 & E4 & E5 & E6); try done.
  - eapply picks_weaken; [|exact Hp']. intros ep'. apply down_other. by eexists.
  - rewrite Forall_forall in Hrs |- *. intros u Hu. apply ready_other; [|by apply Hrs].
    intros Eq. apply Ha. rewrite <- Eq. by apply list_elem_of_fmap_2 with (f := fun u => epAddr u.1).
  - intros id Hid. rewrite Hv1, lookup_insert_ne by (intros <-; done). apply Hn. by right.
  - rewrite Hv1, map_size_insert_None by (apply Hn; left). unfold zlen in *. cbn [length] in *. lia.
  - exists w', v'. split; [done|]. split; [done|]. split.
    { rewrite E3. unfold v1. cbn [count_vote vtPubs cmNode vote_resp fill foldl]. pose proof (rd_pub _ _ _ Hr) as Hpub. cbn [fst snd] in Hpub. by rewrite Hpub. }
    split; [done|]. split.
    { intros a [Hne Hna]%not_elem_of_cons. rewrite E5 by done. cbn. by apply lookup_insert_ne. }
    cbn [map zip_with fst]. constructor; [|done]. split. exists s', b. cbn [fst snd]. rewrite Eid.
    rewrite E5 by done. cbn. rewrite lookup_insert_eq. split_and!; try done.
    rewrite (commit_all_other _ _ _ _ _ _ Ec Hi). apply lookup_insert_eq.
Qed.

(** Round two: an armed member signs the handoff it voted for, whatever fork
    that verifies it is shown. *)
Lemma armed_signs last cp cs gp w u fc tl badIdx r c certs affs epoch z n :
  permutes order -> armed last cp cs w u -> GroupPub u.2 = gp ->
  fcEpoch fc = last + 1 -> fcCheckpoint fc = cp -> cp <> None -> last < epoch < 2 ^ 63 -> - 2 ^ 63 <= last ->
  fork_recovered (commit_req epoch (epoch - 1) fc tl badIdx cs r c certs affs) = Ret true ->
  ComputeChallenge order gp (descriptor fc) cs = Ret (r, c) ->
  SignShare u.2 {| tM := descriptor fc; Commits := cs; Xs := xsOf cs; tR := r; tC := c |} = Ret z ->
  exists s, nwMembers w !! epAddr u.1 = Some s /\
    dispatch (turn_at order draw n) s (commit_req epoch (epoch - 1) fc tl badIdx cs r c certs affs) =
      Ret (committed_epoch s (turn_at order draw n) epoch, commit_resp (fsID u.2) (Some z) "").
Proof.
  intros Hord [(s & de & Hs & Hsh & Hid & He & Hp & Hde)] Hg E1 E2 Hcp Hepoch Hlast Hfork Ech Esh. exists s. split; [done|].
  unfold dispatch. cbn [cmKind commit_req]. rewrite decide_False, decide_True by done.
  unfold commit. rewrite Hp. cbn [cmFrost cmEpoch cmPrev cmCommitments commit_req pnEpoch pnCheckpoint pnCommit].
  rewrite (proj2 (Z.leb_gt _ _)) by lia. rewrite wrap64_id by (unfold in_int64; lia). rewrite Z.eqb_refl. cbn [negb orb].
  rewrite E1, Z.eqb_refl, E2, bool_decide_eq_false_2, bytes_equal_refl by done. cbn [negb orb].
  rewrite Hfork. cbn [mbind outcome_bind negb]. rewrite Hsh, bool_decide_eq_true_2 by done. cbn [negb].
  unfold partial_signature. cbn [tnOrder turn_at cmCommitments cmR cmC commit_req sb default from_option Datatypes.id].
  rewrite Hg, Ech, !bytes_equal_refl. cbn [negb orb]. rewrite Esh. cbn [mbind outcome_bind]. by rewrite Hid.
Qed.

Lemma armed_other last cp cs w u a s n : epAddr u.1 <> a -> armed last cp cs w u ->
  armed last cp cs {| nwMembers := <[a := s]> (nwMembers w); nwDrawn := n |} u.
Proof. intros Hne [(s0 & de & H1 & H2)]. split. exists s0, de. cbn. by rewrite lookup_insert_ne. Qed.

Lemma SignShare_length s tr z : SignShare s tr = Ret z -> length z = 32%nat.
Proof.
  unfold SignShare. destruct (nonce_d s), (nonce_e s); try done. intros Er. apply guard_ret in Er as [_ Er].
  apply bind_ret in Er as (lam & _ & [= <-]). apply scalarBytes_length.
Qed.

Lemma shares_ok last cp cs gp fc tl badIdx r c certs affs epoch minVotes eps us w agg a' shares :
  permutes order -> fcEpoch fc = last + 1 -> fcCheckpoint fc = cp -> cp <> None -> last < epoch < 2 ^ 63 -> - 2 ^ 63 <= last ->
  let req := commit_req epoch (epoch - 1) fc tl badIdx cs r c certs affs in
  let tr := {| tM := descriptor fc; Commits := cs; Xs := xsOf cs; tR := r; tC := c |} in
  fork_recovered req = Ret true -> ComputeChallenge order gp (descriptor fc) cs = Ret (r, c) ->
  picks (down w) eps us -> Forall (armed last cp cs w) us -> Forall (fun s => GroupPub s = gp) (map snd us) ->
  NoDup (addrs us) -> NoDup (ids_of (map snd us)) ->
  (forall id, id ∈ ids_of (map snd us) -> shares !! id = None) -> Z.of_nat (size shares) + zlen us = minVotes ->
  add_shares agg tr (map snd us) = Ret a' ->
  exists w' shares', collect_shares (ask_members order draw) minVotes req eps w agg shares = (w', Ret (a', shares')) /\
    size shares' = (size shares + length us)%nat /\
    (forall id, is_Some (shares' !! id) <-> id ∈ ids_of (map snd us) \/ is_Some (shares !! id)).
Proof.
  intros Hord E1 E2 Hcp Hepoch Hlast req tr Hfork Ech Hp. revert w agg shares Hp.
  induction eps as [|ep eps IH] in us |- *; intros w agg shares Hp Har Hg Ha Hi Hn Hsz Eadd.
  { inversion Hp; subst. injection Eadd as <-. exists w, shares. split; [done|]. split; [cbn; lia|].
    intros id. split; [by right|]. by intros [?%not_elem_of_nil|]. }
  cbn [collect_shares]. destruct us as [|[ep1 sh] us].
  { injection Eadd as <-. unfold zlen in Hsz. cbn in Hsz.
    replace (_ >=? minVotes) with true by (symmetry; apply Z.geb_le; lia). exists w, shares. split; [done|]. split; [cbn; lia|].
    intros id. split; [by right|]. by intros [?%not_elem_of_nil|]. }
  replace (_ >=? minVotes) with false by (symmetry; rewrite Z.geb_leb; apply Z.leb_gt; unfold zlen in Hsz; cbn in Hsz; lia).
  inversion Hp as [|? ? ? Hd Hp'|? ? ? ? Hp']; subst.
  { unfold ask_members at 1. rewrite Hd. by apply IH. }
  apply Forall_cons in Har as [Hr Hrs]. cbn [map fst snd] in *. apply Forall_cons in Hg as [Hg Hgs].
  apply NoDup_cons in Ha as [Ha Has]. apply NoDup_cons in Hi as [Hi His]. cbn [add_shares] in Eadd.
  apply bind_ret in Eadd as (z & Ez & Eadd). apply bind_ret in Eadd as (a1 & Ea & Eadd).
  destruct (armed_signs last (fcCheckpoint fc) cs gp w (ep1, sh) fc tl badIdx r c certs affs epoch z (nwDrawn w))
    as (s & Hs & Ed); try done.
  cbn [fst snd] in *. unfold ask_members at 1. rewrite Hs. fold req in Ed. rewrite Ed.
  cbn [cmVote cmShare cmNode commit_resp sb default from_option Datatypes.id]. rewrite (SignShare_length _ _ _ Ez).
  cbn [Nat.eqb]. rewrite Ea. set (w1 := {| nwMembers := _; nwDrawn := _ |}).
  destruct (IH us w1 a1 (<[fsID sh := z]> shares)) as (w' & shares' & E3 & E4 & E5); try done.
  - eapply picks_weaken; [|exact Hp']. intros ep'. apply down_other. by eexists.
  - rewrite Forall_forall in Hrs |- *. intros u Hu. apply armed_other; [|by apply Hrs].
    intros Eq. apply Ha. rewrite <- Eq. by apply list_elem_of_fmap_2 with (f := fun u => epAddr u.1).
  - intros id Hid. rewrite lookup_insert_ne by (intros <-; done). apply Hn. by right.
  - rewrite map_size_insert_None by (apply Hn; left). unfold zlen in *. cbn [length] in *. lia.
  - exists w', shares'. split; [done|]. split.
    { rewrite E4, map_size_insert_None by (apply Hn; left). cbn [length]. lia. }
    intros id. rewrite E5, elem_of_cons, lookup_insert_is_Some. destruct (decide (fsID sh = id)) as [<-|]; naive_solver.
Qed.

End answers.

(** ** A quorum that can be reached signs *)

Lemma zip_addrs (us : list (MemberEndpoint * FrostSigner)) (ss' : list FrostSigner) :
  length us = length ss' -> map fst (zip (map fst us) ss') = map fst us /\ map snd (zip (map fst us) ss') = ss'.
Proof.
  revert ss'. induction us as [|u us IH]; intros [|s ss'] Hl; try done. injection Hl as Hl.
  destruct (IH ss' Hl) as [E1 E2]. cbn [map zip_with]. cbn [fst snd]. by rewrite E1, E2.
Qed.

Lemma Challenge_computed `{Hashes} o ag0 m ag r c : Challenge o ag0 m = Ret (ag, r, c) ->
  ComputeChallenge o (agPub ag0) m (agCommits ag0) = Ret (r, c).
Proof.
  unfold Challenge. intros Er. apply guard_ret in Er as [_ Er]. apply bind_ret in Er as ([r' c'] & -> & Er).
  by apply bind_ret in Er as (R & _ & [= _ <- <-]).
Qed.

(** The members of a quorum: the endpoints asked and the shares behind them. *)
Record signers (gp : bytes) (f : list Z) (us : list (MemberEndpoint * FrostSigner)) : Prop := {
  sg_secret : encodes gp (peval f 0);
  sg_addrs : NoDup (addrs us);
  sg_ids : NoDup (ids_of (map snd us));
  sg_keyed : Forall (keyed gp f) (map snd us);
  sg_canon : Forall (fun s => fsID s = member_id (fsX s)) (map snd us);
  sg_fresh : Forall (fun s => used s = false) (map snd us);
  sg_some : us <> [];
  sg_deg : (length f <= length us)%nat;
}.

Section quorum_net.
Context `{HL : HashLaws} `{EL : Ed25519Laws} {Std : Ed25519Std}.
Context (gp : bytes) (f : list Z) (us : list (MemberEndpoint * FrostSigner)).
Context (order : list string -> list string) (draw : nat -> option bytes).
Hypothesis Hsg : signers gp f us.
Hypothesis Horder : permutes order.
Hypothesis Hdraw : all_drawn draw 0 (2 * length us).

Let ss : list FrostSigner := map snd us.
Let agg : FrostAggregator := SetXs (NewFrostAggregator gp (pubs_of ss)) (xs_of ss).

Lemma sg_indices : NoDup (map fsX ss).
Proof.
  pose proof (sg_ids _ _ _ Hsg) as Hids. fold ss in Hids. assert (Eids : ids_of ss = map member_id (map fsX ss)).
  { rewrite map_map. apply map_ext_in. intros s Hs%list_elem_of_In. pose proof (sg_canon _ _ _ Hsg) as Hc.
    rewrite Forall_forall in Hc. auto. }
  rewrite Eids in Hids. by apply NoDup_fmap_1 in Hids.
Qed.

Lemma sg_names : fill (fun s => memberX (fsID s)) ss ∅ = xs_of ss.
Proof.
  apply (fill_ext (fun s => memberX (fsID s))). pose proof (sg_canon _ _ _ Hsg) as Hc. pose proof (sg_keyed _ _ _ Hsg) as Hk.
  fold ss in Hc, Hk. rewrite Forall_forall in *. intros s Hs. rewrite (Hc s Hs). apply memberX_id. apply (k_index _ _ _ (Hk s Hs)).
Qed.

Lemma xsOf_quorum cs : keys cs ≡ₚ ids_of ss -> xsOf cs = xs_of ss.
Proof.
  intros Hk. rewrite <- sg_names. apply map_eq. intros id. unfold xsOf. rewrite map_lookup_imap.
  destruct (decide (id ∈ ids_of ss)) as [Hin|Hn].
  - pose proof Hin as Hin'. rewrite <- Hk in Hin'. apply elem_of_keys in Hin' as [b ->].
    apply elem_of_ids_inv in Hin as (s & Hs & ->). by rewrite (fill_lookup _ ss ∅ s (sg_ids _ _ _ Hsg) Hs).
  - rewrite fill_other, lookup_empty by done. rewrite <- Hk, elem_of_keys in Hn. by rewrite (proj2 (eq_None_not_Some _) Hn).
Qed.

Lemma quorum_commits : exists ss' cs nz, commit_all ss draw 0 ∅ = Ret (ss', cs) /\ length us = length ss' /\
  Forall2 (fun s s' => exists d e, s' = with_nonces s d e) ss ss' /\ Forall (session gp f cs nz) ss' /\
  keys cs ≡ₚ ids_of ss /\ Forall (committed cs nz) (ids_of ss) /\
  forall o, permutes o -> add_commits agg cs (o (keys cs)) = Ret (set_commits agg cs).
Proof.
  destruct (round_commits gp f ss (sg_ids _ _ _ Hsg) (sg_keyed _ _ _ Hsg) (sg_fresh _ _ _ Hsg) draw)
    as (ss' & cs & nz & Ec & H2 & Hses & Hk & Hcm & Ea); [unfold ss; by rewrite length_map|].
  exists ss', cs, nz. split; [done|]. split; [|done]. apply Forall2_length in H2. rewrite <- H2. unfold ss. by rewrite length_map.
Qed.

(** Once its members are armed, the quorum signs any handoff of the epoch and
    checkpoint they voted for, whatever fork that verifies they are shown. *)
Lemma quorum_signs o last cp cs nz ss' fc tl badIdx certs affs epoch eps w :
  permutes o -> length us = length ss' -> Forall2 (fun s s' => exists d e, s' = with_nonces s d e) ss ss' ->
  Forall (session gp f cs nz) ss' -> keys cs ≡ₚ ids_of ss -> Forall (committed cs nz) (ids_of ss) ->
  Forall (armed last cp cs w) (zip (map fst us) ss') -> picks (down w) eps us ->
  fcEpoch fc = last + 1 -> fcCheckpoint fc = cp -> cp <> None -> last < epoch < 2 ^ 63 -> - 2 ^ 63 <= last ->
  (forall r c, fork_recovered (commit_req epoch (epoch - 1) fc tl badIdx cs r c certs affs) = Ret true) ->
  exists ag r c w' a' shares sig,
    Challenge o (set_commits agg cs) (descriptor fc) = Ret (ag, r, c) /\
    collect_shares (ask_members order draw) (zlen us) (commit_req epoch (epoch - 1) fc tl badIdx cs r c certs affs) eps w ag ∅
      = (w', Ret (a', shares)) /\
    Aggregate a' = Ret sig /\ ed_verify gp (descriptor fc) sig = true /\
    size shares = length us /\ keys shares ≡ₚ ids_of ss.
Proof.
  intros Ho Hl H2 Hses Hk Hcm Har Hp E1 E2 Hcp Hepoch Hlast Hfork. pose proof sg_indices as Hndx.
  pose proof Hsg as [Hsec Hads Hids Hkeyed Hcanon Hfresh Hne Hdeg]. fold ss in Hids, Hkeyed, Hcanon, Hfresh.
  assert (Hlen : length ss = length us) by (unfold ss; by rewrite length_map).
  assert (Hne' : ss <> []) by (intros En; apply Hne; unfold ss in En; by apply map_eq_nil in En).
  assert (Hdeg' : (length f <= length ss)%nat) by (by rewrite Hlen).
  destruct (round_signature gp f ss Hids Hndx Hkeyed Hfresh Hne' Hdeg' o (descriptor fc) ss' ss' cs nz Ho (Permutation_refl _) H2 Hses Hk Hcm)
    as (ag & r & c & a' & z & rr & Ech & Esh & Eag & Hr & Hz). fold agg in Ech.
  assert (Ecc : ComputeChallenge order gp (descriptor fc) cs = Ret (r, c)).
  { assert (Hin : ids_of ss <> []) by (by destruct ss). apply Challenge_computed in Ech. cbn [agPub agCommits set_commits] in Ech.
    change (agPub agg) with gp in Ech.
    destruct (ComputeChallenge_ok o gp (descriptor fc) cs nz (ids_of ss) Ho Hk Hin Hcm) as (r1 & Ec1 & Hr1).
    destruct (ComputeChallenge_ok order gp (descriptor fc) cs nz (ids_of ss) Horder Hk Hin Hcm) as (r2 & Ec2 & Hr2).
    rewrite Ech in Ec1. injection Ec1 as -> ->. by rewrite Ec2, (encodes_det r2 r1 _ _ (reflexivity _) Hr2 Hr1). }
  destruct (zip_addrs us ss' Hl) as [Ez1 Ez2].
  assert (Ead : addrs (zip (map fst us) ss') = addrs us).
  { transitivity (map epAddr (map fst (zip (map fst us) ss'))); [by rewrite map_map|]. by rewrite Ez1, map_map. }
  pose proof (with_nonces_same fsID ss ss' ltac:(done) H2) as Hsame.
  destruct (shares_ok order draw last cp cs gp fc tl badIdx r c certs affs epoch (zlen us) eps (zip (map fst us) ss') w ag a' ∅)
    as (w' & shares & Ecs & Esz & Hsh); try done.
  { eapply picks_map; [exact Hp|by rewrite Ez1]. }
  { rewrite Ez2. eapply Forall_impl; [exact Hses|]. intros s Hs. apply (k_pub gp f s), (s_keyed _ _ _ _ _ Hs). }
  { by rewrite Ead. }
  { by rewrite Ez2, Hsame. }
  { unfold zlen. rewrite map_size_empty, length_zip_with, length_map. lia. }
  { rewrite Ez2, xsOf_quorum by done. exact Esh. }
  exists ag, r, c, w', a', shares, (r ++ scalarBytes z). split; [done|]. split; [done|]. split; [done|].
  split. { apply (std_verify gp (peval f 0) r rr); [done|done|apply Z.mod_pos_bound, fl_pos|]. by rewrite cong_mod, Hz by discriminate. }
  split; [by rewrite Esz, map_size_empty, length_zip_with, length_map, <- Hl, Nat.min_id|].
  apply keys_perm; [by rewrite <- Hsame, Hsame|]. intros id. rewrite Hsh, Ez2, Hsame, lookup_empty. split; [|by left].
  by intros [?|?%is_Some_None].
Qed.

End quorum_net.

(** ** Recovery over the network *)

Lemma foldl_fixed {A B} (g : A -> B -> A) a l : (forall x, x ∈ l -> g a x = a) -> foldl g a l = a.
Proof. induction l as [|x l IH]; intros Hg; [done|]. cbn [foldl]. rewrite Hg by left. apply IH. intros y Hy. apply Hg. by right. Qed.

(** A state compared with itself passes. *)
Lemma VerifyRecovery_same s certs ids : Pass (Some (VerifyRecovery s s certs ids)) = true.
Proof.
  unfold VerifyRecovery. rewrite (foldl_fixed (check_pre _ _)).
  - rewrite (foldl_fixed (check_post _ _)); [by vm_compute|]. intros [id c] Hin%elem_of_map_to_list. unfold check_post. by rewrite Hin.
  - intros [id c] Hin%elem_of_map_to_list. unfold check_pre. rewrite Hin. rewrite (bool_decide_eq_true_2 (Identity c = Identity c)) by done.
    rewrite (bool_decide_eq_true_2 (Some c = Some c)) by done. destruct (Revoked c); cbn [negb orb andb]; by rewrite andb_false_r.
Qed.

Lemma Fork_head `{Hashes} t e : last (events t) = Some e -> exists f, Fork t (Hash e) = Ret f /\ events f = events t.
Proof.
  intros Hl. destruct (events t) as [|x es _] eqn:Ee using rev_ind; [done|]. rewrite last_snoc in Hl. injection Hl as ->.
  unfold Fork. rewrite Ee, find_last_snoc, bytes_equal_refl. eexists. split; [done|]. cbn [events]. apply take_ge.
  rewrite length_app. cbn. lia.
Qed.

(** A timeline the engine built can be shown. *)
Lemma built_storable `{HL : HashLaws} `{EL : Ed25519Laws} priv t0 t gp :
  real_key priv -> NewTimeline (Some priv) = Ret t0 -> rtc TStep t0 t -> Forall event_ok (events t) ->
  councilPub t = Some gp -> length gp = PublicKeySize -> storable t.
Proof.
  intros Hk Hnew Hr He Hc Hl. destruct (new_origin priv algoSHA256 t0 Hk Hnew) as (Hw0 & Hst0 & _).
  destruct (steps_writable _ _ Hr Hw0 Hst0) as [(q & Eq & Hq & Hp & Hok & _) Hst].
  unfold storable. rewrite Hp, Hc, Eq. split; [apply pub_of_length|]. split; [|split; [done|split; [by apply real_key_length|done]]].
  unfold keys_ok, startPub in Hok. by destruct (tstart t).
Qed.

Section remote.
Context `{HL : HashLaws} `{EL : Ed25519Laws} {Std : Ed25519Std} `{X : X509}.

(** A fork that verifies, shown with its own last index. *)
Lemma fork_shown g badIdx epoch prev fc cs r c certs affs :
  storable g -> good g -> keys_ok g -> 0 < badIdx -> zlen (events g) = badIdx ->
  fork_recovered (commit_req epoch prev fc (Marshal g false) badIdx cs r c certs affs) = Ret true.
Proof.
  intros Hst Hg Hk Hb Hlen. unfold fork_recovered. cbn [cmTimeline cmBadIndex cmAffectedCerts cmAffectedIDs commit_req].
  rewrite (Unmarshal_Marshal g false Hst). fold (shown g).
  rewrite (proj2 (Verify_good (shown g) Hk) Hg). cbn [mbind outcome_bind negb].
  unfold prefixState. rewrite (proj2 (Z.leb_gt _ _)) by lia. change (Events (shown g)) with (events g).
  destruct (lookup_lt_is_Some_2 (events g) (Z.to_nat (badIdx - 1))) as [e He]; [unfold zlen in Hlen; lia|]. rewrite He.
  destruct (Fork_head (shown g) e) as (pre & -> & Epre).
  { cbn [shown events]. rewrite last_lookup, <- He. f_equal. unfold zlen in Hlen. lia. }
  cbn [mbind outcome_bind]. unfold Fold. rewrite Epre. by rewrite VerifyRecovery_same.
Qed.

Context (priv : bytes) (t0 t : Timeline) (badIdx : Z) (gp : bytes) (poly : list Z).
Context (o : RemoteOrders) (seed : bytes) (now : Z) (ca : Certificate) (der : bytes).
Context (order : list string -> list string) (draw : nat -> option bytes).
Context (eps : list MemberEndpoint) (us : list (MemberEndpoint * FrostSigner)) (w : Network) (minVotes : Z).

(** A SHA-256 timeline the engine built, anchored to the council's key. *)
Hypothesis Hpriv : real_key priv.
Hypothesis Hnew : NewTimeline (Some priv) = Ret t0.
Hypothesis Hreach : rtc TStep t0 t.
Hypothesis Hevents : Forall event_ok (events t).
Hypothesis Hnames : Forall named_ok (events t).
Hypothesis Hcf : collision_free sha256 (map signedBytes (events t)).
Hypothesis Hbad : 0 < badIdx <= zlen (events t).
Hypothesis Hrot : badIdx <= first_rotation t.
Hypothesis Hanchor : councilPub t = Some gp.
Hypothesis Hepoch : lastEpoch (events t) < 2 ^ 63 - 1.
Hypothesis Hseed : length seed = SeedSize.
Hypothesis Hca : NewIdentityCA (Some (ed_keygen seed))
  ("to root epoch " ++ of_bytes (dec_Z (wrap64 (lastEpoch (events t) + 1)))) now (AddYears now 10) = Ret (ca, der).
(** The maps in some order. *)
Hypothesis Hinv : valid_order (roInvalid o).
Hypothesis HoCommits : permutes (roCommits o).
Hypothesis HoNonce : permutes (roNonce o).
Hypothesis HoMembers : permutes (roMembers o).
Hypothesis HoIds : permutes (roIds o).
Hypothesis HoAff : permutes (roAff o).
Hypothesis Horder : permutes order.
(** The first endpoints that can be reached are a quorum of fresh members. *)
Hypothesis Hpicks : picks (down w) eps us.
Hypothesis Hready : Forall (ready (lastEpoch (events t)) w) us.
Hypothesis Hsg : signers gp poly us.
Hypothesis Hmin : zlen us = minVotes.
Hypothesis Hw0 : nwDrawn w = 0%nat.
Hypothesis Hdraw : all_drawn draw 0 (2 * length us).

Let pre : gmap string Cert := fold_certs (take (Z.to_nat badIdx) (events t)).
Let council : Council := {| members := []; cEpoch := lastEpoch (events t); cGroup := Some gp |}.
Let orders : Orders := {| oInvalid := roInvalid o; oSign := fun _ l => l; oIds := roIds o; oAff := roAff o |}.

Lemma remote_stored : storable t.
Proof. eapply built_storable; try done. eapply encodes_length, (sg_secret _ _ _ Hsg). Qed.

(** The fork the initiator shows. *)
Lemma adopted_shown f : writable f -> tstart f <> None -> startPub f = startPub t -> councilPub f = Some gp ->
  events f = take (Z.to_nat badIdx) (events t) ->
  let g := adopt f (ed_keygen seed) (Some gp) in storable g /\ good g /\ keys_ok g /\ zlen (events g) = badIdx.
Proof.
  intros (p & _ & _ & _ & Hok & _ & Hc) Hst Hsp Hcp Hev g. assert (Hr : real_key (ed_keygen seed)) by (by exists seed).
  assert (Hs : startPub g = startPub f) by (unfold startPub, g, adopt; cbn; by destruct (tstart f)).
  split; [|split; [|split]].
  - split; [apply pub_of_length|]. split.
    { unfold keys_ok, startPub in Hok. cbn [g adopt tstart]. by destruct (tstart f). }
    split; [cbn; eapply encodes_length, (sg_secret _ _ _ Hsg)|]. split; [by apply real_key_length|].
    cbn [g adopt events]. rewrite Hev. by apply Forall_take.
  - exists (tpub f). rewrite Hs. cbn [g adopt councilPub algo events]. by rewrite <- Hcp.
  - unfold keys_ok. by rewrite Hs.
  - cbn [g adopt events]. rewrite Hev. unfold zlen in *. rewrite length_take. lia.
Qed.

(** From the signed handoff on. *)
Lemma publish_ok f certs ids fc e :
  Rollback t badIdx = Ret f -> writable f -> tstart f <> None -> algo f = algoSHA256 -> councilPub f = Some gp ->
  events f = take (Z.to_nat badIdx) (events t) -> last (events f) = Some e -> startPub f = startPub t ->
  (forall x, x ∈ certs -> valid_string x) -> (forall i, i ∈ ids -> valid_string i) ->
  Valid fc gp minVotes = Ret true -> fcCheckpoint fc = Some (Hash e) -> fcNewPub fc = Some (pub_of (ed_keygen seed)) ->
  fcMembers fc <> [] -> Forall valid_string (fcMembers fc) -> in_int64 (fcEpoch fc) -> in_int64 (fcPrev fc) ->
  exists rep, publish o t badIdx {| rfFork := adopt f (ed_keygen seed) (Some gp); rfAffected := certs;
      rfIdentities := ids; rfCert := der; rfPub := pub_of (ed_keygen seed) |} fc = Ret rep /\
    rrCommit rep = fc /\ take (Z.to_nat badIdx) (events t) `prefix_of` events (rrTimeline rep) /\
    live (rrTimeline rep) /\ startPub (rrTimeline rep) = startPub t /\ tpub (rrTimeline rep) = pub_of (ed_keygen seed) /\
    Certs (Fold (rrTimeline rep)) = recovered (lastEpoch (events t)) pre (roIds o (elements ids)) (roAff o (elements certs)) /\
    rrVerify rep = VerifyRecovery {| Certs := pre |} (Fold (rrTimeline rep)) certs ids.
Proof.
  intros Ef Hw Hst Ha Hcp Hev Hlast Hsp Hvc Hvi Hv E1 E2 Hne Hm He Hp. assert (Hr : real_key (ed_keygen seed)) by (by exists seed).
  destruct (handoff_append f (ed_keygen seed) gp fc minVotes e) as (t2 & re & h & Eap & Hl2 & Et2 & Hre); try done.
  { eapply encodes_length, (sg_secret _ _ _ Hsg). }
  assert (Hf2 : fold_certs (events t2) = pre).
  { rewrite Et2, Fold_snoc, quiet_event by (by rewrite Hre). cbn [adopt events]. by rewrite Hev. }
  destruct (reissue_ok t badIdx council orders HoIds HoAff t2 certs ids Hl2 Hf2 Hvc Hvi) as (t4 & issued & E4 & Hl4 & Hx4 & Hf4).
  cbn [council orders cEpoch oIds oAff] in E4, Hf4.
  destruct (live_append t4 EvCommit (Some (print (commit_json fc))) Hl4) as (t5 & ce & h5 & E5 & Hl5 & E5' & Hce & _); [done..|].
  assert (Hf5 : Fold t5 = Fold t4). { unfold Fold. by rewrite E5', Fold_snoc, quiet_event by (by rewrite Hce). }
  eexists. split.
  { unfold publish. cbn [rfFork rfAffected rfIdentities]. rewrite Eap. cbn [mbind outcome_bind]. change (Events t) with (events t). rewrite E4. cbn [mbind outcome_bind].
    rewrite Ef. cbn [mbind outcome_bind]. rewrite E5. reflexivity. }
  cbn [rrCommit rrTimeline rrVerify]. split; [done|].
  destruct Hx4 as [Hpre Hk Hpub Hstart _]. rewrite Et2 in Hpre, Hpub, Hstart. cbn in Hpre, Hpub, Hstart.
  split; [rewrite E5'; cbn; etransitivity; [|by exists [ce]]; rewrite <- Hev; etransitivity; [by exists [re]|exact Hpre]|].
  split; [done|].
  split. { rewrite <- Hsp, E5'. unfold startPub. cbn. rewrite Hstart. by destruct (tstart f). }
  split; [by rewrite E5'|]. rewrite Hf5. split; [done|]. unfold Fold at 1. by rewrite Hev.
Qed.

Lemma still_down w' : (forall a, a ∉ addrs us -> nwMembers w' !! a = nwMembers w !! a) -> picks (down w') eps us.
Proof.
  intros Hoth. eapply picks_weaken; [|exact Hpicks]. unfold down. intros ep Hd. rewrite Hoth; [done|].
  intros (u & Eu & Hu)%list_elem_of_fmap. rewrite Forall_forall in Hready. destruct (Hready u Hu) as [(s & Hs & _) _].
  rewrite <- Eu in Hs. congruence.
Qed.

Lemma handoff_valid fc sig l : fcNewPub fc = Some (pub_of (ed_keygen seed)) -> ed_verify gp (descriptor fc) sig = true ->
  length l = length us -> Valid (with_sig fc sig l) gp minVotes = Ret true.
Proof.
  intros En Hv Hl. unfold Valid. cbn [fcMembers fcNewPub fcSig with_sig]. rewrite En. cbn [sb default from_option Datatypes.id].
  rewrite pub_of_length. replace (zlen l <? minVotes) with false by (symmetry; apply Z.ltb_ge; unfold zlen in *; lia).
  cbn [PublicKeySize Nat.eqb negb orb]. rewrite Verify_len by (eapply encodes_length, (sg_secret _ _ _ Hsg)). by f_equal.
Qed.

(** Both rounds: the members vote, and sign the handoff of the fork shown. *)
Lemma rounds_ok f certs ids e : writable f -> tstart f <> None -> startPub f = startPub t -> councilPub f = Some gp ->
  events f = take (Z.to_nat badIdx) (events t) -> rollbackCheckpoint t badIdx = Ret (Some (Hash e)) ->
  let rf := {| rfFork := adopt f (ed_keygen seed) (Some gp); rfAffected := certs; rfIdentities := ids;
               rfCert := der; rfPub := pub_of (ed_keygen seed) |} in
  exists w1 v w2 fc, collect_votes (ask_members order draw) minVotes (vote_req badIdx (Marshal t false)) eps w no_votes = (w1, Ret v) /\
    Z.of_nat (size (vtCommits v)) = minVotes /\
    commit_round (ask_members order draw) o t badIdx minVotes gp eps rf v w1 = (w2, publish o t badIdx rf fc) /\
    Valid fc gp minVotes = Ret true /\ fcEpoch fc = lastEpoch (events t) + 1 /\ fcPrev fc = lastEpoch (events t) /\
    fcCheckpoint fc = Some (Hash e) /\ fcNewPub fc = Some (pub_of (ed_keygen seed)) /\ fcMembers fc ≡ₚ ids_of (map snd us).
Proof.
  intros Hw Hst Hsp Hcp Hev Ecp rf. pose proof (lastEpoch_nonneg (events t)) as Hge. set (last := lastEpoch (events t)) in *.
  destruct (quorum_commits gp poly us draw Hsg Hdraw) as (ss' & cs & nz & Ec & Hl & H2 & Hses & Hk & Hcm & Ea).
  destruct (votes_ok order draw t badIdx (Some (Hash e)) minVotes eps us w no_votes ss' cs) as (w1 & v & E1 & E2 & E3 & E4 & E5 & E6); try done.
  { apply remote_stored. }
  { apply (built_prefix priv t0 t badIdx Hpriv Hnew Hreach). }
  { lia. }
  { apply (sg_fresh _ _ _ Hsg). }
  { apply (sg_addrs _ _ _ Hsg). }
  { apply (sg_ids _ _ _ Hsg). }
  { by rewrite Hw0. }
  assert (Hsize : size cs = length us) by (by rewrite size_keys, Hk, !length_map).
  destruct (adopted_shown f Hw Hst Hsp Hcp Hev) as (Hst' & Hg' & Hk' & Hlen).
  set (fc0 := handoff (last + 1) (Some (Hash e)) last (Some (pub_of (ed_keygen seed))) (Some der)).
  destruct (quorum_signs gp poly us order draw Hsg Horder (roNonce o) last (Some (Hash e)) cs nz ss' fc0
    (Marshal (rfFork rf) false) badIdx (roKeys o (elements certs)) (roKeys o (elements ids)) (last + 1) eps w1)
    as (ag & r & c & w2 & a' & shares & sig & F1 & F2 & F3 & F4 & F5 & F6); try done; [by apply still_down|lia|lia|..].
  { intros r c. apply fork_shown; try done. lia. }
  assert (Hv : Valid (with_sig fc0 sig (roMembers o (keys shares))) gp minVotes = Ret true).
  { apply handoff_valid; [done|done|]. by rewrite (HoMembers _), <- size_keys. }
  exists w1, v, w2, (with_sig fc0 sig (roMembers o (keys shares))). split; [done|]. split; [by rewrite E2, Hsize|]. split; [|split_and!; try done].
  2: { cbn [with_sig fcMembers]. by rewrite (HoMembers _). }
  unfold commit_round. rewrite Ecp. cbn [mbind outcome_bind]. change (lastEpoch (Events t)) with last.
  rewrite wrap64_id by (unfold in_int64; lia). cbn [rfPub rfCert rf]. fold fc0. rewrite E2, E3, E4.
  change (vtPubs no_votes) with (∅ : gmap string bytes). change (vtXs no_votes) with (∅ : gmap string Z).
  rewrite (sg_names gp poly us Hsg). change (fill PubShare (map snd us) ∅) with (pubs_of (map snd us)).
  rewrite (Ea (roCommits o) HoCommits). cbn [mbind outcome_bind]. rewrite F1. cbn [mbind outcome_bind].
  change (fcEpoch fc0) with (last + 1). change (fcPrev fc0) with last. cbn [rfAffected rfIdentities].
  replace (last + 1 - 1) with last in F2 by lia. rewrite Hmin in F2. fold rf.
  change (rfAffected rf) with certs. change (rfIdentities rf) with ids. rewrite F2.
  rewrite F5. fold (zlen us). rewrite Hmin, Z.ltb_irrefl. cbn [guard]. rewrite F3. cbn [mbind outcome_bind]. rewrite Hv. done.
Qed.


End remote.

(** ** What the checks leave open *)

(** A timeline with no events under a key of one's choice. *)
Definition blank_tl (k : bytes) : Timeline :=
  {| events := []; tkey := None; tpub := k; tstart := None; councilPub := None; rotations := []; algo := algoSHA256 |}.

(** The same message with another epoch. *)
Definition with_epoch (m : CouncilMsg) (e : Z) : CouncilMsg :=
  {| cmKind := cmKind m; cmNode := cmNode m; cmEpoch := e; cmPrev := e - 1; cmRoot := cmRoot m; cmPayload := cmPayload m;
     cmBadIndex := cmBadIndex m; cmTimeline := cmTimeline m; cmVote := cmVote m; cmCheckpoint := cmCheckpoint m;
     cmNewPub := cmNewPub m; cmCommit := cmCommit m; cmCommitments := cmCommitments m; cmR := cmR m; cmC := cmC m;
     cmFrost := cmFrost m; cmShare := cmShare m; cmAffectedCerts := cmAffectedCerts m; cmAffectedIDs := cmAffectedIDs m;
     cmSig := cmSig m; cmPQPub := cmPQPub m; cmPQCipher := cmPQCipher m; cmPQSealed := cmPQSealed m; cmError := cmError m;
     cmSession := cmSession m; cmFrom := cmFrom m; cmCommits := cmCommits m; cmShareVal := cmShareVal m |}.

Section open_checks.
Context `{HL : HashLaws} `{EL : Ed25519Laws}.

(** The epoch a member records is the initiator's choice: a request the member signs, it signs under any other epoch
    above its last one too, and records that epoch - whatever the epoch of the handoff it signs.  With the largest int64,
    it never votes again. *)
Theorem epoch_unbound t s m s' z e :
  commit t s m = Ret (s', commit_resp (msID s) (Some z) "") -> msEpoch s < e < 2 ^ 63 -> - 2 ^ 63 <= msEpoch s ->
  commit t s (with_epoch m e) = Ret (committed_epoch s t e, commit_resp (msID s) (Some z) "") /\
  (e = 2 ^ 63 - 1 -> forall t' m' s2 r, vote t' (committed_epoch s t e) m' = Ret (s2, r) -> cmVote r = false).
Proof.
  intros Ec He Hs. split.
  - unfold commit in Ec |- *. cbn [cmFrost cmEpoch cmPrev cmCommitments with_epoch].
    destruct (msPending s) as [p|], (cmFrost m) as [fc|]; try done.
    destruct (_ || _) in Ec; [by injection Ec|]. rewrite (proj2 (Z.leb_gt _ _)), wrap64_id, Z.eqb_refl by (unfold in_int64; lia).
    cbn [negb orb]. destruct (negb _ || _ || _) in Ec |- *; [by injection Ec|].
    change (fork_recovered (with_epoch m e)) with (fork_recovered m).
    apply bind_ret in Ec as (ok & -> & Ec). cbn [mbind outcome_bind]. destruct ok; cbn [negb] in *; [|by injection Ec].
    destruct (msShare s) as [sh|]; [|case_decide; by try injection Ec]. destruct (negb _) in Ec |- *; [by injection Ec|].
    change (partial_signature t sh (with_epoch m e) fc) with (partial_signature t sh m fc).
    apply bind_ret in Ec as ([z'|err] & -> & Ec); cbn [mbind outcome_bind]; [|by injection Ec].
    by injection Ec as _ ->.
  - intros -> t' m' s2 r. unfold vote. destruct (UnmarshalTimeline _) as [tl| |]; [|by intros [= _ <-]|done].
    intros Ev. apply bind_ret in Ev as ([] & _ & Ev); cbn [negb] in Ev; [|by injection Ev as _ <-].
    destruct (msShare _) as [sh|]; [|by injection Ev as _ <-].
    pose proof (wrap64_range (lastEpoch (Events tl) + 1)) as [_ Hr]. cbn [committed_epoch msEpoch] in Ev.
    rewrite (proj2 (Z.leb_le _ _)) in Ev by lia. by injection Ev as _ <-.
Qed.

(** One message stops a member: shown any timeline that verifies, with an index past its end, a member that holds a fresh
    share and has not committed the timeline's next epoch panics - the prefix check clamps the index, the checkpoint does
    not - and nothing recovers the panic of a connection's goroutine. *)
Theorem vote_crashes t s m tl sh :
  UnmarshalTimeline (cmTimeline m) = Ret tl -> Verify tl = Ret true -> zlen (events tl) < cmBadIndex m ->
  msShare s = Some sh -> used sh = false -> msEpoch s < wrap64 (lastEpoch (events tl) + 1) ->
  is_Some (tnD t) -> is_Some (tnE t) -> vote t s m = Panic.
Proof.
  intros Hu Hv Hb Hsh Hus He Hd Hx. unfold vote. rewrite Hu. assert (Hk : keys_ok tl).
  { revert Hu. unfold UnmarshalTimeline. destruct (parse _ ≫= _) as [f|]; [|done]. intros Hu. by apply of_file_keys in Hu as [? _]. }
  unfold zlen in Hb. rewrite (proj2 (Z.ltb_ge _ 0)) by lia. rewrite (Verify_prefixes tl (cmBadIndex m) Hk Hv).
  cbn [mbind outcome_bind negb]. rewrite Hsh. change (Events tl) with (events tl). rewrite (proj2 (Z.leb_gt _ _)) by done. rewrite Hus.
  destruct (commit_fresh sh (tnD t) (tnE t) Hus Hd Hx) as (d & x & D & E' & -> & _). unfold rollbackCheckpoint, Events.
  rewrite (proj2 (Z.leb_gt _ _)) by lia. by rewrite (lookup_ge_None_2 (events tl)) by lia.
Qed.

End open_checks.

(** The commitments and shares of a recovery come from the same members. *)
Section voters.
Context `{Hashes} `{Ed25519} `{X509}.
Context {World : Type} (ask : MemberEndpoint -> CouncilMsg -> World -> World * outcome CouncilMsg).

Lemma add_commits_keys a cs ids a' : add_commits a cs ids = Ret a' ->
  agPubs a' = agPubs a /\ agShares a' = agShares a /\
  forall id, is_Some (agCommits a' !! id) <-> id ∈ ids \/ is_Some (agCommits a !! id).
Proof.
  revert a. induction ids as [|i ids IH]; intros a; cbn [add_commits].
  { intros [= <-]. split; [done|]. split; [done|]. intros id. split; [by right|]. by intros [?%not_elem_of_nil|]. }
  intros Er. apply bind_ret in Er as (a1 & E1 & Er). destruct (IH a1 Er) as (-> & -> & Hc). unfold AddCommit in E1.
  inv_outcome. split; [done|]. split; [done|]. intros id. rewrite Hc, elem_of_cons. cbn [agCommits set_commits].
  rewrite lookup_insert_is_Some. destruct (decide (i = id)) as [->|]; naive_solver.
Qed.

(** A share under the name [id] came from one of the members asked. *)
Definition answers_share (eps : list MemberEndpoint) (id : string) : Prop :=
  exists ep m w w' resp, ep ∈ eps /\ cmKind m = councilCommit /\ ask ep m w = (w', Ret resp) /\
    cmNode resp = id /\ sb (cmShare resp) <> [].

Lemma collect_shares_keys minVotes req eps w a shares w' a' shares' :
  cmKind req = councilCommit -> collect_shares ask minVotes req eps w a shares = (w', Ret (a', shares')) ->
  (forall id, is_Some (agShares a !! id) <-> is_Some (shares !! id)) ->
  agPubs a' = agPubs a /\ agCommits a' = agCommits a /\
  (forall id, is_Some (agShares a' !! id) <-> is_Some (shares' !! id)) /\
  (forall id, is_Some (shares' !! id) -> is_Some (shares !! id) \/ (is_Some (agCommits a !! id) /\ answers_share eps id)).
Proof.
  intros Hk. revert w a shares. induction eps as [|ep eps IH]; intros w a shares; cbn [collect_shares].
  { intros [= _ <- <-] Hs. auto. }
  assert (Hmore : forall id, answers_share eps id -> answers_share (ep :: eps) id).
  { intros id (x & m & w0 & w1 & r & Hx & ?). exists x, m, w0, w1, r. split; [by right|done]. }
  intros Er Hs. assert (Hskip : forall w1, collect_shares ask minVotes req eps w1 a shares = (w', Ret (a', shares')) ->
    agPubs a' = agPubs a /\ agCommits a' = agCommits a /\ (forall id, is_Some (agShares a' !! id) <-> is_Some (shares' !! id)) /\
    (forall id, is_Some (shares' !! id) -> is_Some (shares !! id) \/ (is_Some (agCommits a !! id) /\ answers_share (ep :: eps) id))).
  { intros w1 Er1. destruct (IH w1 a shares Er1 Hs) as (E1 & E2 & E3 & E4). split_and!; try done. intros id [?|[? ?]]%E4; [by left|right; auto]. }
  destruct (_ >=? _); [injection Er as _ <- <-; auto|].
  destruct (ask ep req w) as [w1 [resp| |]] eqn:Ea; [|by apply (Hskip w1)|done].
  destruct (Nat.eqb_spec (length (sb (cmShare resp))) 0) as [|Hne]; [by apply (Hskip w1)|].
  destruct (AddShare a (cmNode resp) (sb (cmShare resp))) as [a1| |] eqn:Ead; [|by apply (Hskip w1)|done].
  unfold AddShare in Ead. apply bind_ret in Ead as (zi & _ & Ead).
  destruct (agCommits a !! cmNode resp) as [de|] eqn:Ec; [|done]. destruct (agPubs a !! cmNode resp); [|done].
  destruct (agR a); [|done]. inv_outcome. destruct (IH w1 _ _ Er) as (E1 & E2 & E3 & E4).
  { intros id. cbn [agShares set_share]. rewrite !lookup_insert_is_Some, Hs. done. }
  split_and!; try done. intros id [Hi|[? ?]]%E4; [|right; auto].
  apply lookup_insert_is_Some in Hi as [<-|[_ Hi]]; [|by left]. right. split; [by rewrite Ec|].
  exists ep, req, w, w1, resp. split; [left|]. split_and!; try done. intros En. by rewrite En in Hne.
Qed.

Lemma publish_commit o tl badIdx rf fc rep : publish o tl badIdx rf fc = Ret rep -> rrCommit rep = fc.
Proof.
  unfold publish. intros Er. apply bind_ret in Er as ([t1 h1] & _ & Er). apply bind_ret in Er as ([t2 iss] & _ & Er).
  apply bind_ret in Er as (pre & _ & Er). by apply bind_ret in Er as ([t3 h3] & _ & [= <-]).
Qed.

Lemma size_domain {A B} (m : gmap string A) (m' : gmap string B) :
  (forall id, is_Some (m !! id) <-> is_Some (m' !! id)) -> size m = size m'.
Proof.
  intros Hd. rewrite !size_keys. apply Permutation_length, NoDup_Permutation; [apply keys_NoDup..|]. intros id. by rewrite !elem_of_keys.
Qed.

(** A report means that every member whose vote was counted has signed. *)
Lemma commit_round_voters o tl badIdx minVotes gp eps rf v w w' rep :
  permutes (roCommits o) -> permutes (roMembers o) ->
  commit_round ask o tl badIdx minVotes gp eps rf v w = (w', Ret rep) ->
  Valid (rrCommit rep) gp minVotes = Ret true /\ fcMembers (rrCommit rep) ≡ₚ keys (vtCommits v) /\
  forall id, is_Some (vtCommits v !! id) -> answers_share eps id.
Proof.
  intros HoC HoM. unfold commit_round.
  destruct (rollbackCheckpoint tl badIdx) as [cp| |]; [|done..]. cbn [mbind outcome_bind].
  set (fc := handoff _ _ _ _ _). set (a0 := SetXs _ _).
  destruct (add_commits a0 _ _) as [a1| |] eqn:E1; [|done..]. cbn [mbind outcome_bind].
  destruct (add_commits_keys _ _ _ _ E1) as (Hp1 & Hs1 & Hc1).
  destruct (Challenge (roNonce o) a1 (descriptor fc)) as [[[a2 r] c]| |] eqn:E2; [|done..]. cbn [mbind outcome_bind].
  unfold Challenge in E2. apply guard_ret in E2 as [Hsz E2]. apply orb_false_iff in Hsz as [_ Hsz%negb_false_iff%Nat.eqb_eq].
  apply bind_ret in E2 as ([r' c'] & _ & E2). apply bind_ret in E2 as (R & _ & [= <- <- <-]).
  destruct (collect_shares _ _ _ _ _ _ _) as [w1 [[a3 shares]| |]] eqn:E3; [|done..]. intros [= <- Er].
  apply collect_shares_keys in E3 as (Hp3 & Hc3 & Hs3 & Hsub); [|done|].
  2: { intros id. cbn [agShares set_challenge]. rewrite Hs1. unfold a0. cbn. by rewrite !lookup_empty. }
  cbn [agPubs agCommits set_challenge] in Hp3, Hc3, Hsub.
  assert (Hdom : forall id, is_Some (agCommits a1 !! id) <-> is_Some (vtCommits v !! id)).
  { intros id. rewrite Hc1, (HoC _), elem_of_keys. unfold a0. cbn [agCommits SetXs NewFrostAggregator].
    rewrite lookup_empty. split; [|by left]. by intros [?|?%is_Some_None]. }
  assert (Hin : forall id, is_Some (shares !! id) -> is_Some (vtCommits v !! id) /\ answers_share eps id).
  { intros id [Hn|[Hi Ha]]%Hsub; [by rewrite lookup_empty in Hn; apply is_Some_None in Hn|]. by rewrite <- Hdom. }
  apply guard_ret in Er as [_ Er]. apply bind_ret in Er as (sig & Eag & Er). apply bind_ret in Er as (ok & Ev & Er).
  apply guard_ret in Er as [Hok Er]. apply negb_false_iff in Hok as ->. apply publish_commit in Er as Erc. rewrite Erc.
  unfold Aggregate in Eag. apply guard_ret in Eag as [Hag _]. apply negb_false_iff, Nat.eqb_eq in Hag.
  assert (Hall : keys shares ≡ₚ keys (vtCommits v)).
  { apply submseteq_length_Permutation.
    - apply NoDup_submseteq; [apply keys_NoDup|]. intros id. rewrite !elem_of_keys. by intros [? _]%Hin.
    - rewrite <- !size_keys, <- (size_domain (agShares a3) shares Hs3), Hag, Hp3, <- Hsz. by rewrite (size_domain _ _ Hdom). }
  split; [done|]. split; [cbn [with_sig fcMembers]; by rewrite (HoM _)|].
  intros id Hi. apply Hin. apply elem_of_keys. rewrite Hall. by apply elem_of_keys.
Qed.

(** A member that votes and then does not sign stops the recovery, however many others would: the signature needs a share
    of every member whose vote was counted, the votes stop at the quorum, and nobody is asked in a withholder's place.
    So whatever the network is and whatever it answers: when a vote is counted under a name no share comes under, no report
    is returned; and when one is, the handoff is valid and its signers are exactly the voters. *)
Theorem every_voter_signs o seed now tl ev gp eps minVotes w badIdx w1 v :
  permutes (roCommits o) -> permutes (roMembers o) -> evidenceBadIndex ev = Ret badIdx ->
  collect_votes ask minVotes (vote_req badIdx (Marshal tl false)) eps w no_votes = (w1, Ret v) ->
  (forall id, is_Some (vtCommits v !! id) -> ~ answers_share eps id ->
    forall rep, snd (RemoteRecover ask o seed now tl ev gp eps minVotes w) <> Ret rep) /\
  (forall rep, snd (RemoteRecover ask o seed now tl ev gp eps minVotes w) = Ret rep ->
    Valid (rrCommit rep) gp minVotes = Ret true /\ fcMembers (rrCommit rep) ≡ₚ keys (vtCommits v)).
Proof.
  intros HoC HoM Eb Ev.
  assert (Hall : forall rep, snd (RemoteRecover ask o seed now tl ev gp eps minVotes w) = Ret rep ->
    Valid (rrCommit rep) gp minVotes = Ret true /\ fcMembers (rrCommit rep) ≡ₚ keys (vtCommits v) /\
    forall id, is_Some (vtCommits v !! id) -> answers_share eps id).
  { intros rep. unfold RemoteRecover. rewrite Eb. cbn [mbind outcome_bind].
    destruct (VerifyPrefix tl badIdx) as [[]| |]; [|done..]. cbn [mbind outcome_bind]. rewrite Ev.
    destruct (_ <? _); [done|]. destruct seed as [seed|]; [|done].
    destruct (recoverRollback _ _ _ _ _ _) as [rf| |]; [|done..].
    destruct (commit_round _ _ _ _ _ _ _ _ _ _) as [w2 r] eqn:Ec. cbn [snd]. intros ->. by eapply commit_round_voters. }
  split; [|intros rep Er; by destruct (Hall rep Er) as (? & ? & _)].
  intros id Hi Hn rep Er. destruct (Hall rep Er) as (_ & _ & Ha). by apply Hn, Ha.
Qed.

End voters.

Section unseen.
Context `{HL : HashLaws} `{EL : Ed25519Laws} {Std : Ed25519Std}.

Lemma blank_recovered k epoch prev fc cs r c : length k = PublicKeySize ->
  fork_recovered (commit_req epoch prev fc (Marshal (blank_tl k) false) 0 cs r c [] []) = Ret true.
Proof.
  intros Hk. unfold fork_recovered. cbn [cmTimeline cmBadIndex cmAffectedCerts cmAffectedIDs commit_req].
  rewrite (Unmarshal_Marshal (blank_tl k) false) by (by repeat split). fold (shown (blank_tl k)).
  rewrite (proj2 (Verify_good (shown (blank_tl k)) Hk)) by (exists k; constructor). done.
Qed.

(** Members sign handoffs whose fork they never saw: once a quorum has voted on a clean timeline, whoever collected the
    votes gets the council's signature over a handoff of that epoch and checkpoint to any key and with any payload, by
    showing an empty timeline as the fork: nothing ties the fork of a request to its handoff, or to the timeline voted on. *)
Theorem council_signs_unseen gp f us order draw eps w t badIdx cp minVotes o k newPub payload prev :
  signers gp f us -> permutes order -> permutes o -> all_drawn draw 0 (2 * length us) -> nwDrawn w = 0%nat ->
  picks (down w) eps us -> Forall (ready (lastEpoch (events t)) w) us -> zlen us = minVotes ->
  storable t -> VerifyPrefix t badIdx = Ret true -> 0 <= badIdx -> rollbackCheckpoint t badIdx = Ret cp -> cp <> None ->
  0 <= lastEpoch (events t) < 2 ^ 63 - 1 -> length newPub = PublicKeySize -> length k = PublicKeySize ->
  let fc := handoff (lastEpoch (events t) + 1) cp prev (Some newPub) payload in
  exists w1 v agg ag r c w2 a' shares sig,
    collect_votes (ask_members order draw) minVotes (vote_req badIdx (Marshal t false)) eps w no_votes = (w1, Ret v) /\
    add_commits (SetXs (NewFrostAggregator gp (vtPubs v)) (vtXs v)) (vtCommits v) (o (keys (vtCommits v))) = Ret agg /\
    Challenge o agg (descriptor fc) = Ret (ag, r, c) /\
    collect_shares (ask_members order draw) minVotes
      (commit_req (fcEpoch fc) (fcEpoch fc - 1) fc (Marshal (blank_tl k) false) 0 (vtCommits v) r c [] []) eps w1 ag ∅ =
      (w2, Ret (a', shares)) /\
    Aggregate a' = Ret sig /\ Valid (with_sig fc sig (keys shares)) gp minVotes = Ret true.
Proof.
  intros Hsg Horder Ho Hdraw Hw0 Hp Hr Hmin Hst Hv Hb Hcp Hne Hl Hpub Hk fc.
  destruct (quorum_commits gp f us draw Hsg Hdraw) as (ss' & cs & nz & Ec & Hlen & H2 & Hses & Hks & Hcm & Ea).
  destruct (votes_ok order draw t badIdx cp minVotes eps us w no_votes ss' cs) as (w1 & v & E1 & E2 & E3 & E4 & E5 & E6); try done.
  { apply (sg_fresh _ _ _ Hsg). }
  { apply (sg_addrs _ _ _ Hsg). }
  { apply (sg_ids _ _ _ Hsg). }
  { by rewrite Hw0. }
  assert (Hp1 : picks (down w1) eps us).
  { eapply picks_weaken; [|exact Hp]. unfold down. intros ep Hd. rewrite E5; [done|].
    intros (u & Eu & Hu)%list_elem_of_fmap. rewrite Forall_forall in Hr. destruct (Hr u Hu) as [(s & Hs & _) _].
    rewrite <- Eu in Hs. congruence. }
  destruct (quorum_signs gp f us order draw Hsg Horder o (lastEpoch (events t)) cp cs nz ss' fc (Marshal (blank_tl k) false) 0 [] []
    (lastEpoch (events t) + 1) eps w1) as (ag & r & c & w2 & a' & shares & sig & F1 & F2 & F3 & F4 & F5 & F6); try done; [lia..| |].
  { intros r c. by apply blank_recovered. }
  change (vtPubs no_votes) with (∅ : gmap string bytes) in E3. change (vtXs no_votes) with (∅ : gmap string Z) in E4.
  rewrite (sg_names gp f us Hsg) in E4. change (fill PubShare (map snd us) ∅) with (pubs_of (map snd us)) in E3.
  exists w1, v. eexists _, ag, r, c, w2, a', shares, sig. split; [done|]. split; [rewrite E2, E3, E4; by apply Ea|].
  split; [exact F1|]. split; [by rewrite E2, <- Hmin|]. split; [done|]. unfold Valid. cbn [fcMembers fcNewPub fcSig with_sig fc handoff sb default from_option Datatypes.id].
  rewrite Hpub. replace (zlen (keys shares) <? minVotes) with false.
  2: { symmetry. apply Z.ltb_ge. unfold zlen in *. rewrite <- size_keys, F5. lia. }
  cbn [PublicKeySize Nat.eqb negb orb]. rewrite Verify_len by (eapply encodes_length, (sg_secret _ _ _ Hsg)). by f_equal.
Qed.

End unseen.

(** ** Examples *)

(** Two members of three, the first one down. *)
Definition net_at (a : string) (s : FrostSigner) : MemberEndpoint :=
  {| epAddr := a; epServerName := ""; epPubShare := PubShare s |}.
Definition net_of (s2 s3 : FrostSigner) : Network :=
  {| nwMembers := {["a2"%string := NewCouncilMemberServer "" (Some s2) "" None;
                    "a3"%string := NewCouncilMemberServer "" (Some s3) "" None]}; nwDrawn := 0 |}.
Definition net_eps (s2 s3 : FrostSigner) : list MemberEndpoint :=
  [{| epAddr := "a1"; epServerName := ""; epPubShare := [] |}; net_at "a2" s2; net_at "a3" s3].
Definition net_us (s2 s3 : FrostSigner) : list (MemberEndpoint * FrostSigner) := [(net_at "a2" s2, s2); (net_at "a3" s3, s3)].

Lemma net_ready s2 s3 : Forall (ready 0 (net_of s2 s3)) (net_us s2 s3).
Proof.
  repeat (apply Forall_cons; split); [..|constructor]; (split; [|done]); eexists; (split; [done|]);
    cbn [NewCouncilMemberServer msShare msID msEpoch fst snd]; split_and!; try done; by case_decide.
Qed.

Lemma net_picks s2 s3 : picks (down (net_of s2 s3)) (net_eps s2 s3) (net_us s2 s3).
Proof. apply picks_skip; [done|]. apply picks_take, picks_take, picks_done. Qed.

Lemma net_signers `{HL : HashLaws} : exists gp poly s2 s3, signers gp poly (net_us s2 s3).
Proof.
  destruct (random_scalars_drawn draw5 0 1 (draw5_all _ _)) as [coeff Ec].
  destruct (FrostSplit_coeff (Toy.seed 7) 3 2 draw5 coeff) as (ss & gp & Es & [(Hx & Hi & Hf) Hk _ Hg _]); [lia|lia|done|].
  destruct ss as [|s1 [|s2 [|s3 [|]]]]; try done. pose proof (random_scalars_ok _ _ _ _ Ec) as [Hc _].
  injection Hx as H1 H2 H3. exists gp, (ed25519Scalar (Toy.seed 7) :: coeff), s2, s3.
  apply Forall_cons in Hk as [_ Hk]. apply Forall_cons in Hi as [_ Hi]. apply Forall_cons in Hf as [_ Hf]. split; try done.
  - cbn [peval]. by rewrite Z.mul_0_l, Z.add_0_r.
  - apply (bool_decide_unpack _). vm_compute. exact I.
  - pose proof Hi as [E2 [E3 _]%Forall_cons]%Forall_cons. cbn [net_us map snd]. rewrite E2, E3, H2, H3.
    apply (bool_decide_unpack _). vm_compute. exact I.
  - cbn. lia.
Qed.

Lemma small_epoch `{Hashes} s1 s2 : lastEpoch (small_events s1 s2) = 0.
Proof. reflexivity. Qed.

Definition plain_remote : RemoteOrders :=
  {| roInvalid := fun _ l => l; roKeys := fun l => l; roCommits := fun l => l; roNonce := fun l => l;
     roMembers := fun l => l; roIds := fun l => l; roAff := fun l => l |}.


Lemma council_signs_unseen_witness : exists t gp s2 s3 cp w1 v r c w2 a' shares sig,
  let fc := handoff 1 cp 0 (Some (replicate 32 Byte.x07)) (Some [Byte.x2a]) in
  collect_votes (@ask_members Trunc.hashes (@Rfc8032.ed25519 Trunc.hashes) (@rev string) draw5) 2
    (vote_req 1 (Marshal t false)) (net_eps s2 s3) (net_of s2 s3) no_votes = (w1, Ret v) /\
  @collect_shares Trunc.hashes Network (@ask_members Trunc.hashes (@Rfc8032.ed25519 Trunc.hashes) (@rev string) draw5) 2
    (commit_req 1 0 fc (Marshal (blank_tl (replicate 32 Byte.x01)) false) 0 (vtCommits v) r c [] []) (net_eps s2 s3) w1
    a'.1 ∅ = (w2, Ret (a'.2, shares)) /\
  @Valid (@Rfc8032.ed25519 Trunc.hashes) (with_sig fc sig (keys shares)) gp 2 = Ret true.
Proof.
  pose (HL := Trunc.hash_laws). pose (EL := @Rfc8032.laws Trunc.hashes HL). pose (ES := @Rfc8032.std Trunc.hashes HL).
  destruct (@net_signers Trunc.hashes HL) as (gp & poly & m2 & m3 & Hq).
  pose proof (sg_secret _ _ _ Hq) as Hgp. apply encodes_length in Hgp.
  destruct (small_chain (HL := HL) (EL := EL) gp) as (t0 & t & s1 & s2 & Hnew & Hreach & Hcp & Hrot & Hev); [intros ->; discriminate Hgp|].
  change (events t = small_events (H := Trunc.hashes) s1 s2) in Hev.
  pose proof (small_ok (H := Trunc.hashes) s1 s2) as H1. rewrite <- Hev in H1.
  assert (H4 : zlen (events t) = 2) by (rewrite Hev; reflexivity).
  assert (H6 : lastEpoch (events t) = 0) by (rewrite Hev; reflexivity).
  pose proof (net_ready m2 m3) as H7. rewrite <- H6 in H7.
  destruct (@checkpoint_ok Trunc.hashes t 1 (Toy.seed 9) ltac:(lia) eq_refl) as (e & _ & Ecp & _).
  destruct (@council_signs_unseen Trunc.hashes (@Rfc8032.ed25519 Trunc.hashes) ES gp poly (net_us m2 m3) (@rev string) draw5
    (net_eps m2 m3) (net_of m2 m3) t 1 (Some (Hash (H := Trunc.hashes) e)) 2 (fun l => l) (replicate 32 Byte.x01) (replicate 32 Byte.x07)
    (Some [Byte.x2a]) 0 Hq permutes_rev permutes_id (plain_drawn _) eq_refl (net_picks m2 m3) H7 eq_refl
    (built_storable (HL := HL) (EL := EL) _ _ _ gp chain_key_real Hnew Hreach H1 Hcp Hgp)
    (built_prefix (EL := EL) _ _ _ 1 chain_key_real Hnew Hreach) ltac:(lia) Ecp ltac:(discriminate) ltac:(lia) eq_refl eq_refl)
    as (w1 & v & agg & ag & r & c & w2 & a' & shares & sig & E1 & _ & _ & E2 & _ & Hv).
  rewrite H6 in E2, Hv. change (0 + 1) with 1 in E2, Hv. cbn [fcEpoch handoff] in E2. change (1 - 1) with 0 in E2.
  exists t, gp, m2, m3, (Some (Hash (H := Trunc.hashes) e)), w1, v, r, c, w2, (ag, a'), shares, sig.
  split; [exact E1|]. split; [exact E2|exact Hv].
Defined.

(** A member that votes and then closes the connection. *)
Definition withholder (ep : MemberEndpoint) (m : CouncilMsg) (w : unit) : unit * outcome CouncilMsg :=
  (w, if decide (cmKind m = councilVote) then Ret (vote_resp "M1" true (Some (replicate 64 Byte.x00)) 1 None "")
      else Err "EOF").
Definition lone : list MemberEndpoint := [{| epAddr := "a1"; epServerName := ""; epPubShare := [] |}].

Lemma every_voter_signs_witness : exists v,
  collect_votes withholder 1 (vote_req 1 (Marshal (blank_tl []) false)) lone tt no_votes = (tt, Ret v) /\
  vtCommits v !! "M1"%string = Some (replicate 64 Byte.x00) /\
  ~ exists rep, (@RemoteRecover Toy.hashes Toy.ed25519 ToyX509.x509 unit withholder plain_remote (Some (Toy.seed 9)) 0
    (blank_tl []) (Some (evidence_at 1)) [] lone 1 tt).2 = Ret rep.
Proof.
  eexists. split; [reflexivity|]. split; [reflexivity|]. intros [rep Er]. revert Er.
  assert (Eb : evidenceBadIndex (Some (evidence_at 1)) = Ret 1).
  { unfold evidenceBadIndex. rewrite bool_decide_eq_true_2, evidence_decodes by first [done|lia]. reflexivity. }
  refine (proj1 (@every_voter_signs Toy.hashes Toy.ed25519 ToyX509.x509 unit withholder plain_remote (Some (Toy.seed 9)) 0
    (blank_tl []) (Some (evidence_at 1)) [] lone 1 tt 1 tt _ permutes_id permutes_id Eb eq_refl) "M1"%string _ _ rep).
  - eexists. reflexivity.
  - intros (ep & m & w & w' & resp & _ & Hk & Ha & _). unfold withholder in Ha. by rewrite Hk in Ha.
Defined.

(** The blank timeline of the first member, read past its end. *)
Definition fresh_signer : FrostSigner :=
  {| fsID := "M1"; fsX := 1; Share := 5; GroupPub := []; PubShare := []; VK := []; GlobalVK := [];
     nonce_d := None; nonce_e := None; used := false |}.

Lemma vote_crashes_witness :
  @vote Toy.hashes Toy.ed25519 (turn_at (fun l => l) draw5 0) (NewCouncilMemberServer "" (Some fresh_signer) "" None)
    (vote_req 1 (Marshal (blank_tl (replicate 32 Byte.x01)) false)) = Panic.
Proof.
  pose (HL := Toy.hash_laws). pose (EL := Toy.ed25519_laws).
  assert (Hu := Unmarshal_Marshal (blank_tl (replicate 32 Byte.x01)) false ltac:(by repeat split)).
  fold (shown (blank_tl (replicate 32 Byte.x01))) in Hu.
  refine (vote_crashes _ (NewCouncilMemberServer "" (Some fresh_signer) "" None) (vote_req 1 _) _ fresh_signer Hu _ _
    eq_refl eq_refl _ _ _); try done; by eexists.
Defined.
