(* ===== verification/CouncilWire.v ===== *)
(** * The wire of the council: frames and hybrid sessions of [councilnet.go]

    A message is a JSON object behind a 4-byte length.  A connection may open
    with a [PQ_HELLO], after which every frame is sealed under the session key.
    [serveFrames] is the member's loop over what a peer wrote before it closed;
    [roundTripPQ] is the initiator's side, against any peer whose answers are a
    function of what was written to it.  The TLS connection below is not
    modelled; a read that no byte will satisfy is the end of the connection.

    Theorems: a message is read as it was written; over the wire a member
    answers what it answers to the message itself, once, and the request goes
    out sealed; and what a frame in clear can still do to a session. *)
From S2P Require Import Prelude Crypto Encoding Json Timeline TimelineTheory TimelineFile Graph TrustState.
From S2P Require Import Frost FrostTheory Identity Council Recovery Pq Transport CouncilNet.

(** ** Struct codecs by field *)

(** A field's share of decoding an object: the members that select it, in turn. *)
Definition field {A} (names : list string) (n : string) (dec : A -> json -> option A) (prev : A)
    (l : list (bytes * json)) : option A :=
  foldl (fun acc kv => a ← acc; if decide (resolve names kv.1 = Some n) then dec a kv.2 else Some a) (Some prev) l.

(** A row of an object: the name, whether [omitempty] leaves it out, the value. *)
Abbreviation row := (string * bool * json)%type.
Definition row_members (rows : list row) : list (bytes * json) :=
  concat (map (fun r => omit r.1.2 (jfield r.1.1 r.2)) rows).

Definition decode_texts (_ : list string) (v : json) : option (list string) := decode_list (decode_string "") v.
Definition decode_slice (_ : slice) (v : json) : option slice := decode_bytes v.
Definition decode_raw (_ : bytes) (v : json) : option bytes := Some (print v).
Definition decode_ptr {A} (zero : A) (dec : A -> json -> option A) (prev : option A) (v : json) : option (option A) :=
  match v with JNull => Some None | _ => a ← dec (default zero prev) v; Some (Some a) end.

(** [map[string][]byte]: members are added to the map that is there. *)
Definition decode_blobs (prev : gmap string bytes) (v : json) : option (gmap string bytes) :=
  match v with
  | JNull => Some ∅
  | JObj l => foldl (fun acc kv => m ← acc; b ← decode_bytes kv.2; Some (<[of_bytes kv.1 := sb b]> m)) (Some prev) l
  | _ => None
  end.
Definition blobs_json (m : gmap string bytes) : json :=
  JObj (map (fun id => jfield id (jslice (Some (default [] (m !! id))))) (sorted_keys m)).

(** [PQPublic]. *)
Definition pq_names : list string := ["x25519"; "mlkem"]%string.
Definition decode_pq (p : PQPublic) (v : json) : option PQPublic :=
  match v with
  | JNull => Some p
  | JObj l =>
      x ← field pq_names "x25519" decode_slice (pqX p) l;
      k ← field pq_names "mlkem" decode_slice (pqK p) l;
      Some {| pqX := x; pqK := k |}
  | _ => None
  end.
Definition pq_json (p : PQPublic) : json :=
  JObj (row_members [("x25519"%string, false, jslice (pqX p)); ("mlkem"%string, false, jslice (pqK p))]).
Definition pq_zero : PQPublic := {| pqX := None; pqK := None |}.

Definition decode_fc (c : FrostCommit) (v : json) : option FrostCommit := decode_struct fc_names fc_set c v.

(** ** The message *)

Definition is_nil {A} (l : list A) : bool := (length l =? 0)%nat.
Definition slice_row (n : string) (s : slice) : row := (n, is_nil (sb s), jslice s).
Definition ptr_json {A} (enc : A -> json) (p : option A) : json := match p with Some a => enc a | None => JNull end.

(** The fields in the order of the struct; [raw] is the timeline's JSON. *)
Definition msg_rows (m : CouncilMsg) (raw : json) : list row :=
  [("kind"%string, false, jstring (cmKind m));
   ("node"%string, false, jstring (cmNode m));
   ("epoch"%string, cmEpoch m =? 0, jint (cmEpoch m));
   ("prev"%string, cmPrev m =? 0, jint (cmPrev m));
   slice_row "root" (cmRoot m);
   slice_row "payload" (cmPayload m);
   ("bad_index"%string, cmBadIndex m =? 0, jint (cmBadIndex m));
   ("timeline"%string, is_nil (cmTimeline m), raw);
   ("vote"%string, negb (cmVote m), JBool (cmVote m));
   slice_row "checkpoint" (cmCheckpoint m);
   slice_row "new_pub" (cmNewPub m);
   slice_row "commit" (cmCommit m);
   ("commitments"%string, bool_decide (cmCommitments m = ∅), blobs_json (cmCommitments m));
   slice_row "r" (cmR m);
   slice_row "c" (cmC m);
   ("frost"%string, bool_decide (cmFrost m = None), ptr_json fc_json (cmFrost m));
   slice_row "share" (cmShare m);
   ("affected_certs"%string, is_nil (cmAffectedCerts m), JArr (map jstring (cmAffectedCerts m)));
   ("affected_ids"%string, is_nil (cmAffectedIDs m), JArr (map jstring (cmAffectedIDs m)));
   slice_row "sig" (cmSig m);
   ("pq_pub"%string, match cmPQPub m with None => true | Some _ => false end, ptr_json pq_json (cmPQPub m));
   slice_row "pq_cipher" (cmPQCipher m);
   slice_row "pq_sealed" (cmPQSealed m);
   ("error"%string, bool_decide (cmError m = ""%string), jstring (cmError m));
   slice_row "session" (cmSession m);
   ("from"%string, bool_decide (cmFrom m = ""%string), jstring (cmFrom m));
   ("commits"%string, is_nil (cmCommits m), JArr (map jstring (cmCommits m)));
   slice_row "share_val" (cmShareVal m)].

Definition msg_names : list string :=
  ["kind"; "node"; "epoch"; "prev"; "root"; "payload"; "bad_index"; "timeline"; "vote"; "checkpoint"; "new_pub";
   "commit"; "commitments"; "r"; "c"; "frost"; "share"; "affected_certs"; "affected_ids"; "sig"; "pq_pub";
   "pq_cipher"; "pq_sealed"; "error"; "session"; "from"; "commits"; "share_val"]%string.

(** [json.Marshal(m)]: it fails on a timeline that is not JSON. *)
Definition msg_json (m : CouncilMsg) : option json :=
  raw ← if is_nil (cmTimeline m) then Some JNull else parse (cmTimeline m);
  Some (JObj (row_members (msg_rows m raw))).
Definition marshal_msg (m : CouncilMsg) : option bytes := print <$> msg_json m.

(** [json.Unmarshal(b, &m)], over what [m] holds. *)
Definition decode_msg (m : CouncilMsg) (v : json) : option CouncilMsg :=
  match v with
  | JNull => Some m
  | JObj l =>
      let f {A} n (dec : A -> json -> option A) prev := field msg_names n dec prev l in
      kind ← f "kind"%string decode_string (cmKind m);
      node ← f "node"%string decode_string (cmNode m);
      epoch ← f "epoch"%string decode_int64 (cmEpoch m);
      prev ← f "prev"%string decode_int64 (cmPrev m);
      root ← f "root"%string decode_slice (cmRoot m);
      payload ← f "payload"%string decode_slice (cmPayload m);
      bad ← f "bad_index"%string decode_int64 (cmBadIndex m);
      tl ← f "timeline"%string decode_raw (cmTimeline m);
      vote ← f "vote"%string decode_bool (cmVote m);
      cp ← f "checkpoint"%string decode_slice (cmCheckpoint m);
      pub ← f "new_pub"%string decode_slice (cmNewPub m);
      commit ← f "commit"%string decode_slice (cmCommit m);
      commitments ← f "commitments"%string decode_blobs (cmCommitments m);
      r ← f "r"%string decode_slice (cmR m);
      c ← f "c"%string decode_slice (cmC m);
      frost ← f "frost"%string (decode_ptr fc_zero decode_fc) (cmFrost m);
      share ← f "share"%string decode_slice (cmShare m);
      certs ← f "affected_certs"%string decode_texts (cmAffectedCerts m);
      ids ← f "affected_ids"%string decode_texts (cmAffectedIDs m);
      sig ← f "sig"%string decode_slice (cmSig m);
      pq ← f "pq_pub"%string (decode_ptr pq_zero decode_pq) (cmPQPub m);
      ct ← f "pq_cipher"%string decode_slice (cmPQCipher m);
      box ← f "pq_sealed"%string decode_slice (cmPQSealed m);
      err ← f "error"%string decode_string (cmError m);
      session ← f "session"%string decode_slice (cmSession m);
      from ← f "from"%string decode_string (cmFrom m);
      commits ← f "commits"%string decode_texts (cmCommits m);
      share_val ← f "share_val"%string decode_slice (cmShareVal m);
      Some {| cmKind := kind; cmNode := node; cmEpoch := epoch; cmPrev := prev; cmRoot := root;
              cmPayload := payload; cmBadIndex := bad; cmTimeline := tl; cmVote := vote; cmCheckpoint := cp;
              cmNewPub := pub; cmCommit := commit; cmCommitments := commitments; cmR := r; cmC := c;
              cmFrost := frost; cmShare := share; cmAffectedCerts := certs; cmAffectedIDs := ids; cmSig := sig;
              cmPQPub := pq; cmPQCipher := ct; cmPQSealed := box; cmError := err; cmSession := session;
              cmFrom := from; cmCommits := commits; cmShareVal := share_val |}
  | _ => None
  end.
Definition unmarshal_msg (m : CouncilMsg) (b : bytes) : option CouncilMsg := v ← parse b; decode_msg m v.

(** ** Frames *)

Definition writeCouncilFrame (m : CouncilMsg) : outcome bytes :=
  b ← of_option "json" (marshal_msg m); Ret (be_bytes 4 (zlen b) ++ b).

(** The next frame's body and the rest of the stream. *)
Definition next_frame (stream : bytes) : outcome (bytes * bytes) :=
  match ReadFull 4 stream with
  | EOF => Err "EOF"
  | UnexpectedEOF => Err "unexpected EOF"
  | Full hdr rest =>
      let n := be_Z hdr in
      guard (n >? 2 ^ 20) "councilnet: frame too large" (
      match ReadFull (Z.to_nat n) rest with
      | EOF => Err "EOF"
      | UnexpectedEOF => Err "unexpected EOF"
      | Full buf rest => Ret (buf, rest)
      end)
  end.

Definition readCouncilFrame (stream : bytes) : outcome (CouncilMsg * bytes) :=
  '(buf, rest) ← next_frame stream; m ← of_option "json" (unmarshal_msg msg_zero buf); Ret (m, rest).

(** The frames of a session that carry no message of their own. *)
Definition pq_hello (id : string) (pub : PQPublic) (ct : slice) : CouncilMsg :=
  {| cmKind := councilPQHello; cmNode := id; cmEpoch := 0; cmPrev := 0; cmRoot := None; cmPayload := None;
     cmBadIndex := 0; cmTimeline := []; cmVote := false; cmCheckpoint := None; cmNewPub := None; cmCommit := None;
     cmCommitments := ∅; cmR := None; cmC := None; cmFrost := None; cmShare := None; cmAffectedCerts := [];
     cmAffectedIDs := []; cmSig := None; cmPQPub := Some pub; cmPQCipher := ct; cmPQSealed := None; cmError := "";
     cmSession := None; cmFrom := ""; cmCommits := []; cmShareVal := None |}.
Definition sealed_msg (box : bytes) : CouncilMsg :=
  {| cmKind := ""; cmNode := ""; cmEpoch := 0; cmPrev := 0; cmRoot := None; cmPayload := None;
     cmBadIndex := 0; cmTimeline := []; cmVote := false; cmCheckpoint := None; cmNewPub := None; cmCommit := None;
     cmCommitments := ∅; cmR := None; cmC := None; cmFrost := None; cmShare := None; cmAffectedCerts := [];
     cmAffectedIDs := []; cmSig := None; cmPQPub := None; cmPQCipher := None; cmPQSealed := Some box; cmError := "";
     cmSession := None; cmFrom := ""; cmCommits := []; cmShareVal := None |}.

Section session.
Context `{Symmetric} `{Agreement}.

(** A sealed frame; [json.Marshal]'s error is ignored. *)
Definition seal_msg (nonce : option bytes) (key : bytes) (m : CouncilMsg) : outcome bytes :=
  box ← pqSeal nonce key (default [] (marshal_msg m)); writeCouncilFrame (sealed_msg box).

(** *** The member's loop *)

Section member.
Context {S : Type} (dispatch : S -> CouncilMsg -> outcome (S * CouncilMsg)) (id : string) (draw : nat -> option bytes).

(** The answer to an offer, and the session key. *)
Definition accept_hello (i : nat) (m : CouncilMsg) : outcome (bytes * bytes) :=
  match cmPQPub m with
  | None => Err "councilnet: PQ_HELLO without public key"
  | Some peer =>
      mine ← NewPQKeyPair (draw i) (draw (i + 1)%nat);
      '(ct, k) ← match PQClientShared (default [] (draw (i + 2)%nat)) mine (Some peer) with
                 | Err _ => Err "councilnet: pq offer rejected: "
                 | r => r
                 end;
      ack ← writeCouncilFrame (pq_hello id (PQPub mine) (Some ct));
      Ret (ack, k)
  end.

(** The message a frame carries: in clear, or sealed, over what the frame held. *)
Definition open_frame (key : option bytes) (m : CouncilMsg) : outcome CouncilMsg :=
  match key with
  | None => Ret m
  | Some k =>
      match pqOpen k (sb (cmPQSealed m)) with
      | Ret plain => of_option "json" (unmarshal_msg m plain)
      | Err _ => Err "councilnet: sealed frame rejected"
      | Panic => Panic
      end
  end.
Definition reply (key : option bytes) (i : nat) (resp : CouncilMsg) : outcome bytes :=
  match key with
  | None => writeCouncilFrame resp
  | Some k => seal_msg (draw i) k resp
  end.

(** The state, what was written, and nil or the error.  Each round takes the
    bytes of a header at least: [fuel] is more than the length of the stream. *)
Fixpoint serve_frames (fuel : nat) (key : option bytes) (i : nat) (stream : bytes) (s : S) (out : bytes)
    : S * bytes * outcome unit :=
  match fuel, stream with
  | O, _ | _, [] => (s, out, Ret tt)
  | Datatypes.S fuel, _ =>
      match readCouncilFrame stream with
      | Err e => (s, out, Err e)
      | Panic => (s, out, Panic)
      | Ret (m, rest) =>
          if bool_decide (cmKind m = councilPQHello) && bool_decide (key = None) then
            match accept_hello i m with
            | Err e => (s, out, Err e)
            | Panic => (s, out, Panic)
            | Ret (ack, k) => serve_frames fuel (Some k) (i + 3) rest s (out ++ ack)
            end
          else
            match m ← open_frame key m; dispatch s m with
            | Err e => (s, out, Err e)
            | Panic => (s, out, Panic)
            | Ret (s, resp) =>
                match reply key i resp with
                | Err e => (s, out, Err e)
                | Panic => (s, out, Panic)
                | Ret b => serve_frames fuel key (i + 1) rest s (out ++ b)
                end
            end
      end
  end.
Definition serveFrames (stream : bytes) (s : S) : S * bytes * outcome unit :=
  serve_frames (Datatypes.S (length stream)) None 0 stream s [].

End member.

(** *** The initiator's side *)

(** [peer w] is all the peer has written once it has been sent [w]; a side is
    what it has written and how many bytes it has read. *)
Definition read_after (peer : bytes -> bytes) (w : bytes) (got : nat) : outcome (CouncilMsg * nat) :=
  '(m, rest) ← readCouncilFrame (drop got (peer w)); Ret (m, length (peer w) - length rest)%nat.

Definition roundTrip (peer : bytes -> bytes) (w : bytes) (got : nat) (m : CouncilMsg) : bytes * outcome CouncilMsg :=
  match writeCouncilFrame m with
  | Ret f => (w ++ f, '(resp, _) ← read_after peer (w ++ f) got; Ret resp)
  | Err e => (w, Err e)
  | Panic => (w, Panic)
  end.

(** All that was written, and the answer. *)
Definition roundTripPQ (peer : bytes -> bytes) (draw : nat -> option bytes) (m : CouncilMsg)
    : bytes * outcome CouncilMsg :=
  match mine ← NewPQKeyPair (draw 0%nat) (draw 1%nat);
        h ← writeCouncilFrame (pq_hello "" (PQPub mine) None); Ret (mine, h) with
  | Err e => ([], Err e)
  | Panic => ([], Panic)
  | Ret (mine, h) =>
      match read_after peer h 0 with
      | Err e => (h, Err e)
      | Panic => (h, Panic)
      | Ret (ack, got) =>
          if bool_decide (cmPQPub ack = None) || (length (sb (cmPQCipher ack)) =? 0)%nat then roundTrip peer h got m
          else
            match key ← PQServerShared mine (cmPQPub ack) (sb (cmPQCipher ack));
                  f ← seal_msg (draw 2%nat) key m; Ret (key, f) with
            | Err e => (h, Err e)
            | Panic => (h, Panic)
            | Ret (key, f) =>
                (h ++ f,
                 '(resp, _) ← read_after peer (h ++ f) got;
                 plain ← pqOpen key (sb (cmPQSealed resp));
                 of_option "json" (unmarshal_msg msg_zero plain))
            end
      end
  end.

End session.

(** ** A message is read as it was written *)

Section fields.
Context (names : list string) (Hascii : Forall (fun x => coerce (to_bytes x) = to_bytes x) names).
Abbreviation row_names rows := (map (fun r : row => r.1.1) rows).
Abbreviation parsed rows := (map norm_member (row_members rows)).

Lemma field_app {A} n (dec : A -> json -> option A) prev l l' :
  field names n dec prev (l ++ l') = (a ← field names n dec prev l; field names n dec a l').
Proof.
  unfold field. rewrite foldl_app. destruct (foldl _ (Some prev) l) as [a|]; [done|]. cbn [mbind option_bind].
  by induction l'.
Qed.

Lemma field_row {A} n n' e v (dec : A -> json -> option A) prev : n' ∈ names ->
  field names n dec prev (map norm_member (omit e (jfield n' v))) =
    if decide (n' = n /\ e = false) then dec prev (norm v) else Some prev.
Proof.
  intros Hin. destruct e; [by rewrite decide_False by naive_solver|].
  unfold omit, field, norm_member, jfield. cbn [map foldl fst snd mbind option_bind].
  rewrite Forall_forall in Hascii. rewrite (Hascii n' Hin), resolve_exact by done.
  destruct (decide (n' = n)) as [->|Hne]; [by rewrite !decide_True|by rewrite !decide_False by naive_solver].
Qed.

Lemma field_none {A} n (dec : A -> json -> option A) prev rows :
  n ∉ row_names rows -> row_names rows ⊆ names -> field names n dec prev (parsed rows) = Some prev.
Proof.
  induction rows as [|[[n' e] v] rows IH]; [done|]. cbn [map fst snd]. intros [Hne Hn]%not_elem_of_cons Hs.
  unfold row_members. cbn [map concat fst snd]. rewrite map_app, field_app, field_row by (apply Hs; left).
  rewrite decide_False by naive_solver. cbn [mbind option_bind]. apply IH; [done|]. intros x Hx. apply Hs. by right.
Qed.

(** A field takes its value from its own row, if that is there. *)
Lemma field_rows {A} n e v (dec : A -> json -> option A) prev rows :
  (n, e, v) ∈ rows -> NoDup (row_names rows) -> row_names rows ⊆ names ->
  field names n dec prev (parsed rows) = if e : bool then Some prev else dec prev (norm v).
Proof.
  intros Hin. induction rows as [|[[n' e'] v'] rows IH]; [by apply elem_of_nil in Hin|].
  cbn [map fst snd]. intros [Hn Hnd]%NoDup_cons Hs. unfold row_members. cbn [map concat fst snd].
  rewrite map_app, field_app, field_row by (apply Hs; left).
  assert (Hs' : row_names rows ⊆ names) by (intros x Hx; apply Hs; by right).
  apply elem_of_cons in Hin as [[= -> -> ->]|Hin].
  - destruct e'; [rewrite decide_False by naive_solver|rewrite decide_True by done].
    + by apply field_none.
    + destruct (dec prev (norm v')) as [a|]; [|done]. by apply field_none.
  - rewrite decide_False; [by apply IH|]. intros [-> _]. apply Hn. by apply list_elem_of_fmap_2 with (f := fun r : row => r.1.1) in Hin.
Qed.

Lemma field_read {A} n e v (dec : A -> json -> option A) prev rows :
  row_names rows = names -> NoDup names -> (n, e, v) ∈ rows ->
  field names n dec prev (parsed rows) = if e : bool then Some prev else dec prev (norm v).
Proof. intros E Hn Hin. apply field_rows; [done|by rewrite E|]. by rewrite E. Qed.

End fields.

(** The row of a field among the rows of a struct. *)
Ltac find_row := repeat first [apply list_elem_of_here | apply list_elem_of_further].

(** A text [json.RawMessage] carries as it is. *)
Definition raw_text (b : bytes) : Prop :=
  b = [] \/ exists v, b = print v /\ wf v /\ norm v = v /\ (depth v < maxNestingDepth)%nat.

(** A message JSON carries: text that is UTF-8, integers Go can hold,
    a timeline in JSON. *)
Record sendable (m : CouncilMsg) : Prop := {
  sd_texts : valid_string (cmKind m) /\ valid_string (cmNode m) /\ valid_string (cmError m) /\ valid_string (cmFrom m);
  sd_ints : in_int64 (cmEpoch m) /\ in_int64 (cmPrev m) /\ in_int64 (cmBadIndex m);
  sd_lists : Forall valid_string (cmAffectedCerts m) /\ Forall valid_string (cmAffectedIDs m) /\ Forall valid_string (cmCommits m);
  sd_raw : raw_text (cmTimeline m);
  sd_ids : forall id, is_Some (cmCommitments m !! id) -> valid_string id;
  sd_frost : forall fc, cmFrost m = Some fc -> in_int64 (fcEpoch fc) /\ in_int64 (fcPrev fc) /\ Forall valid_string (fcMembers fc);
}.

Lemma read_text s p : valid_string s -> decode_string p (norm (jstring s)) = Some s.
Proof. intros Hs. by rewrite norm_jstring, decode_jstring. Qed.
Lemma read_text_opt p s : valid_string s ->
  (if bool_decide (s = ""%string) then Some p else decode_string p (norm (jstring s))) =
    Some (if bool_decide (s = ""%string) then p else s).
Proof. intros Hs. case_bool_decide as E; [done|by apply read_text]. Qed.

Lemma read_int p z : in_int64 z ->
  (if z =? 0 then Some p else decode_int64 p (norm (jint z))) = Some (if z =? 0 then p else z).
Proof. intros Hz. destruct (Z.eqb_spec z 0) as [->|]; [done|]. by rewrite norm_jint, decode_jint. Qed.

Lemma read_slice p s :
  (if is_nil (sb s) then Some p else decode_slice p (norm (jslice s))) = Some (if is_nil (sb s) then p else s).
Proof. rewrite norm_jslice. unfold decode_slice. rewrite decode_jslice. by destruct (is_nil _). Qed.

Lemma read_texts p l : Forall valid_string l ->
  (if is_nil l then Some p else decode_texts p (norm (JArr (map jstring l)))) = Some (if is_nil l then p else l).
Proof. intros Hl. rewrite norm_strings by done. unfold decode_texts. rewrite decode_list_strings. by destruct l. Qed.

Lemma read_bool p b : (if negb b then Some p else decode_bool p (norm (JBool b))) = Some (b || p).
Proof. by destruct b. Qed.

Definition fill_blobs (m : gmap string bytes) (ids : list string) (acc : gmap string bytes) : gmap string bytes :=
  foldl (fun acc id => <[id := default [] (m !! id)]> acc) acc ids.

Lemma fill_blobs_lookup m ids acc x :
  fill_blobs m ids acc !! x = if decide (x ∈ ids) then Some (default [] (m !! x)) else acc !! x.
Proof.
  revert acc. induction ids as [|id ids IH]; intros acc; [done|]. unfold fill_blobs. cbn [foldl]. fold (fill_blobs m ids (<[id := default [] (m !! id)]> acc)).
  rewrite IH. destruct (decide (x ∈ ids)); [by rewrite decide_True by (by right)|].
  destruct (decide (id = x)) as [->|Hne]; [by rewrite decide_True, lookup_insert_eq by left|].
  rewrite lookup_insert_ne by done. rewrite decide_False; [done|]. intros [?|?]%elem_of_cons; congruence.
Qed.

Lemma decode_blob_members m ids (acc : gmap string bytes) : Forall (fun id => valid_string id) ids ->
  decode_blobs acc (norm (JObj (map (fun id => jfield id (jslice (Some (default [] (m !! id))))) ids))) = Some (fill_blobs m ids acc).
Proof.
  cbn [norm decode_blobs]. rewrite map_map. cbn [fst snd jfield]. intros Hf. revert acc.
  induction Hf as [|id ids Hi _ IH]; intros acc; [done|].
  cbn [map foldl mbind option_bind fst snd jfield]. rewrite norm_jslice, decode_jslice. cbn [mbind option_bind sb default from_option Datatypes.id].
  rewrite coerce_id by done. rewrite of_to_bytes. apply IH.
Qed.

Lemma read_blobs p m : (forall id, is_Some (m !! id) -> valid_string id) ->
  (if bool_decide (m = ∅) then Some p else decode_blobs p (norm (blobs_json m))) = Some (m ∪ p).
Proof.
  intros Hv. case_bool_decide as E; [by rewrite E, (left_id_L ∅ (∪))|clear E]. unfold blobs_json. rewrite decode_blob_members.
  - f_equal. apply map_eq. intros x. rewrite fill_blobs_lookup, lookup_union.
    destruct (decide (x ∈ sorted_keys m)) as [Hx|Hx]; rewrite sorted_keys_perm, elem_of_keys in Hx.
    + destruct Hx as [b ->]. by rewrite union_Some_l.
    + apply eq_None_not_Some in Hx as ->. by rewrite (left_id_L None (∪)).
  - apply Forall_forall. intros id Hid. rewrite sorted_keys_perm, elem_of_keys in Hid. auto.
Qed.

Lemma read_frost p c : (forall fc, c = Some fc -> in_int64 (fcEpoch fc) /\ in_int64 (fcPrev fc) /\ Forall valid_string (fcMembers fc)) ->
  (if bool_decide (c = None) then Some p else decode_ptr fc_zero decode_fc p (norm (ptr_json fc_json c))) = Some (c ∪ p).
Proof.
  intros Hc. destruct c as [fc|]; [|by destruct p]. rewrite bool_decide_eq_false_2 by done. destruct (Hc fc eq_refl) as (He & Hp & Hm).
  cbn [ptr_json]. unfold decode_ptr, decode_fc. rewrite fc_decode by done. by destruct p.
Qed.

Lemma pq_ascii : Forall (fun x => coerce (to_bytes x) = to_bytes x) pq_names.
Proof. repeat (apply Forall_cons; split); [..|constructor]; by apply coerce_ascii. Qed.
Lemma pq_nodup : NoDup pq_names.
Proof. apply (bool_decide_unpack _). vm_compute. exact I. Qed.

Lemma read_pq (q p : option PQPublic) :
  (if match p with None => true | Some _ => false end then Some q
   else decode_ptr pq_zero decode_pq q (norm (ptr_json pq_json p))) = Some (p ∪ q).
Proof.
  destruct p as [[x k]|]; [|by destruct q]. cbn [ptr_json pq_json norm decode_ptr decode_pq pqX pqK].
  change (fun kv : bytes * json => (coerce kv.1, norm kv.2)) with norm_member. set (rows := [_; _]).
  erewrite (field_read pq_names pq_ascii "x25519") by (reflexivity || apply pq_nodup || find_row).
  erewrite (field_read pq_names pq_ascii "mlkem") by (reflexivity || apply pq_nodup || find_row).
  rewrite !norm_jslice. unfold decode_slice. rewrite !decode_jslice. by destruct q.
Qed.

Lemma msg_ascii : Forall (fun x => coerce (to_bytes x) = to_bytes x) msg_names.
Proof. repeat (apply Forall_cons; split); [..|constructor]; by apply coerce_ascii. Qed.
Lemma msg_nodup : NoDup msg_names.
Proof. apply (bool_decide_unpack _). vm_compute. exact I. Qed.

Lemma rows_wf (rows : list row) : Forall (fun r => wf r.2) rows -> wf (JObj (row_members rows)).
Proof.
  intros Hr. cbn [wf]. apply all_of_Forall. unfold row_members. induction Hr as [|[[n e] v] rows Hv _ IH]; [constructor|].
  cbn [map concat fst snd]. apply Forall_app. split; [|done]. destruct e; repeat constructor; done.
Qed.

Lemma rows_depth (rows : list row) d : Forall (fun r => (depth r.2 <= d)%nat) rows -> (depth (JObj (row_members rows)) <= Datatypes.S d)%nat.
Proof.
  intros Hr. cbn [depth]. apply le_n_S, list_max_le, Forall_map. unfold row_members.
  induction Hr as [|[[n e] v] rows Hv _ IH]; [constructor|].
  cbn [map concat fst snd]. apply Forall_app. split; [|done]. destruct e; repeat constructor; done.
Qed.

Lemma blobs_ok m : wf (blobs_json m) /\ (depth (blobs_json m) <= 1)%nat.
Proof.
  unfold blobs_json. split.
  - cbn [wf]. apply all_of_Forall, Forall_map, Forall_forall. intros id _. apply wf_jslice.
  - apply depth_members, Forall_map, Forall_forall. intros id _. done.
Qed.

Lemma pq_ok p : wf (pq_json p) /\ (depth (pq_json p) <= 1)%nat.
Proof.
  split; [apply rows_wf; repeat constructor; apply wf_jslice|]. apply (rows_depth _ 0).
  repeat (apply Forall_cons; split); [..|constructor]; cbn [snd]; [destruct (pqX p)|destruct (pqK p)]; cbn; lia.
Qed.

Lemma slice_depth s : (depth (jslice s) = 0)%nat.
Proof. by destruct s. Qed.

Lemma msg_rows_wf m raw : wf raw -> Forall (fun r : row => wf r.2) (msg_rows m raw).
Proof.
  intros Hr. unfold msg_rows, slice_row.
  repeat (apply Forall_cons; split); [..|constructor]; cbn [snd];
    first [exact I|exact Hr|apply wf_jint|apply wf_jslice|apply wf_strings|apply blobs_ok|idtac].
  - destruct (cmFrost m); [apply fc_json_ok|exact I].
  - destruct (cmPQPub m); [apply pq_ok|exact I].
Qed.

Lemma msg_rows_depth m raw d : (depth raw <= d)%nat -> (3 <= d)%nat -> Forall (fun r : row => (depth r.2 <= d)%nat) (msg_rows m raw).
Proof.
  intros Hr Hd. unfold msg_rows, slice_row. pose proof (depth_strings (cmAffectedCerts m)). pose proof (depth_strings (cmAffectedIDs m)).
  pose proof (depth_strings (cmCommits m)). pose proof (proj2 (blobs_ok (cmCommitments m))).
  repeat (apply Forall_cons; split); [..|constructor]; cbn [fst snd]; rewrite ?slice_depth; try lia; try (cbn; lia).
  - destruct (cmFrost m) as [fc|]; [pose proof (proj2 (fc_json_ok fc)); cbn [ptr_json]; lia|cbn; lia].
  - destruct (cmPQPub m) as [p|]; [pose proof (proj2 (pq_ok p)); cbn [ptr_json]; lia|cbn; lia].
Qed.

(** One field of the message. *)
Ltac read_field tac :=
  match goal with
  | |- mbind _ (field _ ?n _ _ _) = _ =>
      erewrite (field_read msg_names msg_ascii n) by (reflexivity || apply msg_nodup || find_row)
  end; rewrite tac by done; cbn [mbind option_bind].

(** What decoding leaves of a message that was there: the fields left out. *)
Definition overlay (p m : CouncilMsg) : CouncilMsg :=
  let s f := if is_nil (sb (f m)) then f p else f m : slice in
  let l {A} (f : CouncilMsg -> list A) := if is_nil (f m) then f p else f m in
  let z f := if f m =? 0 then f p else f m in
  {| cmKind := cmKind m; cmNode := cmNode m; cmEpoch := z cmEpoch; cmPrev := z cmPrev; cmRoot := s cmRoot;
     cmPayload := s cmPayload; cmBadIndex := z cmBadIndex; cmTimeline := l cmTimeline; cmVote := cmVote m || cmVote p;
     cmCheckpoint := s cmCheckpoint; cmNewPub := s cmNewPub; cmCommit := s cmCommit;
     cmCommitments := cmCommitments m ∪ cmCommitments p; cmR := s cmR; cmC := s cmC; cmFrost := cmFrost m ∪ cmFrost p;
     cmShare := s cmShare; cmAffectedCerts := l cmAffectedCerts; cmAffectedIDs := l cmAffectedIDs; cmSig := s cmSig;
     cmPQPub := cmPQPub m ∪ cmPQPub p; cmPQCipher := s cmPQCipher; cmPQSealed := s cmPQSealed;
     cmError := if bool_decide (cmError m = ""%string) then cmError p else cmError m; cmSession := s cmSession;
     cmFrom := if bool_decide (cmFrom m = ""%string) then cmFrom p else cmFrom m; cmCommits := l cmCommits;
     cmShareVal := s cmShareVal |}.

Lemma msg_roundtrip m : sendable m -> exists b, marshal_msg m = Some b /\
  forall p, unmarshal_msg p b = Some (overlay p m).
Proof.
  intros [(T1 & T2 & T3 & T4) (I1 & I2 & I3) (L1 & L2 & L3) Hraw Hids Hfr].
  assert (exists raw, (if is_nil (cmTimeline m) then Some JNull else parse (cmTimeline m)) = Some raw /\
    wf raw /\ (depth raw < maxNestingDepth)%nat /\
    forall p, (if is_nil (cmTimeline m) then Some p else decode_raw p (norm raw)) = Some (if is_nil (cmTimeline m) then p else cmTimeline m))
    as (raw & Er & Hw & Hd & Erd).
  { pose proof nesting_room. destruct Hraw as [->|(v & -> & Hw & Hn & Hd)]; [exists JNull; cbn; split_and!; done || lia|].
    exists v. destruct (is_nil (print v)) eqn:En.
    - exfalso. destruct (print_starts v Hw) as (b & t & Eb & _). by rewrite Eb in En.
    - rewrite parse_print by (done || lia). by rewrite Hn. }
  exists (print (JObj (row_members (msg_rows m raw)))). unfold marshal_msg, msg_json. rewrite Er. split; [done|]. intros p.
  unfold unmarshal_msg. rewrite parse_print.
  2: { by apply rows_wf, msg_rows_wf. }
  2: { destruct maxNestingDepth as [|d] eqn:Em; [lia|]. apply rows_depth, msg_rows_depth; [lia|]. pose proof nesting_room. lia. }
  cbn [mbind option_bind norm]. change (fun kv : bytes * json => (coerce kv.1, norm kv.2)) with norm_member. unfold decode_msg.
  do 2 read_field read_text. do 2 read_field read_int. do 2 read_field read_slice. read_field read_int.
  read_field Erd. read_field read_bool. do 3 read_field read_slice. read_field read_blobs. do 2 read_field read_slice.
  read_field read_frost. read_field read_slice. do 2 read_field read_texts. read_field read_slice. read_field read_pq.
  do 2 read_field read_slice. read_field read_text_opt. read_field read_slice. read_field read_text_opt.
  read_field read_texts. read_field read_slice. done.
Qed.

(** No empty bytes that are not nil. *)
Definition tidy (m : CouncilMsg) : Prop :=
  Forall (fun s => s <> Some []) [cmRoot m; cmPayload m; cmCheckpoint m; cmNewPub m; cmCommit m; cmR m; cmC m;
    cmShare m; cmSig m; cmPQCipher m; cmPQSealed m; cmSession m; cmShareVal m].

Lemma tidy_slice s : s <> Some [] -> (if is_nil (sb s) then None else s) = s.
Proof. by destruct s as [[|]|]. Qed.

Lemma overlay_zero m : tidy m -> overlay msg_zero m = m.
Proof.
  unfold tidy. rewrite !Forall_cons. intros (S1 & S2 & S3 & S4 & S5 & S6 & S7 & S8 & S9 & S10 & S11 & S12 & S13 & _).
  unfold overlay. cbn [cmKind cmNode cmEpoch cmPrev cmRoot cmPayload cmBadIndex cmTimeline cmVote cmCheckpoint cmNewPub cmCommit
    cmCommitments cmR cmC cmFrost cmShare cmAffectedCerts cmAffectedIDs cmSig cmPQPub cmPQCipher cmPQSealed cmError cmSession
    cmFrom cmCommits cmShareVal msg_zero].
  rewrite !tidy_slice, orb_false_r, !(right_id_L _ (∪)) by done. destruct m; cbn in *. f_equal.
  all: try (by destruct (Z.eqb_spec _ 0)); try (by case_bool_decide); by match goal with |- _ = ?l => destruct l end.
Qed.

(** A message and the frame a reader takes it from. *)
Record sent (m : CouncilMsg) (f : bytes) : Prop := {
  st_sendable : sendable m;
  st_tidy : tidy m;
  st_frame : writeCouncilFrame m = Ret f;
  st_fits : zlen f <= 4 + 2 ^ 20;
}.

Lemma read_sent m f rest : sent m f -> readCouncilFrame (f ++ rest) = Ret (m, rest).
Proof.
  intros [Hs Ht Ef Hl]. destruct (msg_roundtrip m Hs) as (b & Eb & Ed). unfold writeCouncilFrame in Ef. rewrite Eb in Ef.
  cbn [of_option mbind outcome_bind] in Ef. assert (f = be_bytes 4 (zlen b) ++ b) as -> by congruence.
  assert (Hb : zlen b <= 2 ^ 20) by (pose proof (be_bytes_length 4 (zlen b)) as H4; unfold zlen in Hl |- *; rewrite length_app in Hl; unfold zlen in H4; lia).
  unfold readCouncilFrame, next_frame. rewrite <- app_assoc, ReadFull_app by apply be_bytes_length.
  rewrite be_Z_bytes, Z.mod_small by (change (256 ^ Z.of_nat 4) with (2 ^ 32); unfold zlen in *; lia).
  assert (zlen b >? 2 ^ 20 = false) as -> by (rewrite Z.gtb_ltb; apply Z.ltb_ge; lia). cbn [guard].
  rewrite ReadFull_app by (unfold zlen; lia). cbn [mbind outcome_bind]. rewrite Ed, overlay_zero by done. done.
Qed.

Lemma sent_cons m f : sent m f -> f <> [].
Proof. intros Hs ->. pose proof (read_sent m [] [] Hs) as E. done. Qed.

Lemma sent_sealed b : sendable (sealed_msg b) /\ (b <> [] -> tidy (sealed_msg b)).
Proof.
  split; [|intros Hb; repeat (apply Forall_cons; split); [..|constructor]; cbn; congruence].
  split; cbn; [repeat split..|by left| |done]; try done. intros id. rewrite lookup_empty. by intros ?%is_Some_None.
Qed.

Section sessions.
Context `{SL : SymmetricLaws} `{AL : AgreementLaws}.
Context {S : Type} (dispatch : S -> CouncilMsg -> outcome (S * CouncilMsg)) (id : string) (draw : nat -> option bytes).
Abbreviation serving := (serve_frames dispatch id draw).

Lemma serving_nil fuel key i s out : serving fuel key i [] s out = (s, out, Ret tt).
Proof. by destruct fuel. Qed.

Lemma serving_hello fuel i m f rest s out ack k :
  sent m f -> cmKind m = councilPQHello -> accept_hello id draw i m = Ret (ack, k) ->
  serving (Datatypes.S fuel) None i (f ++ rest) s out = serving fuel (Some k) (i + 3) rest s (out ++ ack).
Proof.
  intros Hs Hk Ea. pose proof (sent_cons _ _ Hs) as Hne. cbn [serve_frames]. destruct (f ++ rest) eqn:Ef; [by destruct f|].
  rewrite <- Ef, (read_sent m f rest Hs). rewrite !bool_decide_eq_true_2 by done. cbn [andb]. by rewrite Ea.
Qed.

Lemma serving_sealed fuel i p f k plain m rest s out :
  sent p f -> pqOpen k (sb (cmPQSealed p)) = Ret plain -> unmarshal_msg p plain = Some m ->
  serving (Datatypes.S fuel) (Some k) i (f ++ rest) s out =
    match dispatch s m with
    | Ret (s, resp) =>
        match seal_msg (draw i) k resp with
        | Ret b => serving fuel (Some k) (i + 1) rest s (out ++ b)
        | Err e => (s, out, Err e)
        | Panic => (s, out, Panic)
        end
    | Err e => (s, out, Err e)
    | Panic => (s, out, Panic)
    end.
Proof.
  intros Hs Eo Em. pose proof (sent_cons _ _ Hs) as Hne. cbn [serve_frames]. destruct (f ++ rest) eqn:Ef; [by destruct f|].
  rewrite <- Ef, (read_sent p f rest Hs). rewrite (bool_decide_eq_false_2 (Some k = None)), andb_false_r by done.
  unfold open_frame. rewrite Eo, Em. cbn [of_option mbind outcome_bind].
  destruct (dispatch s m) as [[s' resp]| |]; [|done..]. cbn [reply]. by destruct (seal_msg _ _ _).
Qed.

(** One frame in clear stops a member: after a handshake, a frame whose sealed part is shorter than a nonce - a repeated
    [PQ_HELLO] is one - panics, whatever state the member is in, and nothing recovers the panic of a connection's
    goroutine. *)
Theorem clear_frame_crashes h m ack k p f rest s :
  sent m h -> cmKind m = councilPQHello -> accept_hello id draw 0 m = Ret (ack, k) -> length k = 32%nat ->
  sent p f -> (length (sb (cmPQSealed p)) < 12)%nat ->
  serveFrames dispatch id draw (h ++ f ++ rest) s = (s, ack, Panic).
Proof.
  intros Hh Hk Ea Hlk Hf Hl. unfold serveFrames. rewrite (serving_hello _ _ _ _ _ _ _ _ _ Hh Hk Ea).
  pose proof (sent_cons _ _ Hh) as Hne. pose proof (sent_cons _ _ Hf) as Hne'. rewrite length_app.
  destruct (length h) eqn:El; [by destruct h|]. cbn [Nat.add serve_frames]. destruct (f ++ rest) eqn:Ef; [by destruct f|].
  rewrite <- Ef, (read_sent p f rest Hf). rewrite (bool_decide_eq_false_2 (Some k = None)), andb_false_r by done.
  unfold open_frame. by rewrite (proj2 (pqOpen_panics k _ Hlk) Hl).
Qed.

End sessions.

(** ** A session transports messages *)

Section handshake.
Context `{SL : SymmetricLaws} `{AL : AgreementLaws}.
Context {S : Type} (dispatch : S -> CouncilMsg -> outcome (S * CouncilMsg)) (id : string).
Context (draw cdraw : nat -> option bytes) (mine theirs : PQKeyPair) (nonce nonce' ct k h ack : bytes).

(** The initiator's draws and the member's, and an offer the member accepts. *)
Hypothesis Hmine : NewPQKeyPair (cdraw 0%nat) (cdraw 1%nat) = Ret mine.
Hypothesis Htheirs : NewPQKeyPair (draw 0%nat) (draw 1%nat) = Ret theirs.
Hypothesis Hshared : PQClientShared (default [] (draw 2%nat)) theirs (Some (PQPub mine)) = Ret (ct, k).
Hypothesis Hnonce : cdraw 2%nat = Some nonce /\ length nonce = 12%nat.
Hypothesis Hnonce' : draw 3%nat = Some nonce' /\ length nonce' = 12%nat.
Hypothesis Hh : sent (pq_hello "" (PQPub mine) None) h.
Hypothesis Hack : sent (pq_hello id (PQPub theirs) (Some ct)) ack.

Lemma session_key : PQServerShared mine (Some (PQPub theirs)) ct = Ret k /\ length k = 32%nat /\ ct <> [].
Proof. by eapply PQ_agree. Qed.

Lemma hello_accepted : accept_hello id draw 0 (pq_hello "" (PQPub mine) None) = Ret (ack, k).
Proof.
  unfold accept_hello. cbn [cmPQPub pq_hello Nat.add]. rewrite Htheirs. cbn [mbind outcome_bind]. rewrite Hshared.
  cbn [mbind outcome_bind]. by rewrite (st_frame _ _ Hack).
Qed.

Lemma serve_hello s : serveFrames dispatch id draw h s = (s, ack, Ret tt).
Proof.
  unfold serveFrames. rewrite <- (app_nil_r h) at 2. rewrite (serving_hello _ _ _ _ _ _ _ _ _ _ _ _ Hh eq_refl hello_accepted).
  apply serving_nil.
Qed.

Lemma read_ack peer : peer h = ack -> read_after peer h 0 = Ret (pq_hello id (PQPub theirs) (Some ct), length ack).
Proof.
  intros E. unfold read_after. rewrite E. replace (drop 0 ack) with (ack ++ []) by (by rewrite app_nil_r). rewrite (read_sent _ _ [] Hack).
  cbn [mbind outcome_bind length]. by rewrite Nat.sub_0_r.
Qed.

Lemma seal_frame n b m f : length n = 12%nat -> marshal_msg m = Some b -> sent (sealed_msg (n ++ gcm_seal k n b)) f ->
  seal_msg (Some n) k m = Ret f /\ pqOpen k (n ++ gcm_seal k n b) = Ret b.
Proof.
  intros Hn Em Hs. destruct session_key as (_ & Hk & _). destruct (seal_open k n b Hk Hn) as [E1 E2]. split; [|done].
  unfold seal_msg. rewrite Em. cbn [default from_option Datatypes.id]. rewrite E1. cbn [mbind outcome_bind]. apply (st_frame _ _ Hs).
Qed.

(** A session transports one request and its answer: when the member accepts the offer, the initiator's round trip
    returns the member's answer to the request, the member has served the request and nothing else, and all the
    initiator has written is its offer and one frame that holds the request's text sealed under a key both have derived.
    (Each side's frames must fit the reader's limit; the request is decoded over the frame that carried it, so that it
    arrives with the sealed box still in it.) *)
Theorem session_serves m b f resp b' f' s s' :
  let box := nonce ++ gcm_seal k nonce b in
  marshal_msg m = Some b -> sendable m -> sent (sealed_msg box) f ->
  dispatch s (overlay (sealed_msg box) m) = Ret (s', resp) ->
  marshal_msg resp = Some b' -> sendable resp -> tidy resp -> sent (sealed_msg (nonce' ++ gcm_seal k nonce' b')) f' ->
  roundTripPQ (fun w => (serveFrames dispatch id draw w s).1.2) cdraw m = (h ++ f, Ret resp) /\
  serveFrames dispatch id draw (h ++ f) s = (s', ack ++ f', Ret tt).
Proof.
  intros box Eb Hm Hf Ed Eb' Hr Ht Hf'. destruct Hnonce as [Hn Hnl], Hnonce' as [Hn' Hnl'].
  destruct (seal_frame nonce b m f Hnl Eb Hf) as [Es Eo]. destruct (seal_frame nonce' b' resp f' Hnl' Eb' Hf') as [Es' Eo'].
  destruct (msg_roundtrip m Hm) as (b1 & Eb1 & Hd). rewrite Eb in Eb1. injection Eb1 as <-.
  destruct (msg_roundtrip resp Hr) as (b2 & Eb2 & Hd'). rewrite Eb' in Eb2. injection Eb2 as <-.
  assert (Hserve : serveFrames dispatch id draw (h ++ f) s = (s', ack ++ f', Ret tt)).
  { unfold serveFrames. rewrite (serving_hello _ _ _ _ _ _ _ _ _ _ _ _ Hh eq_refl hello_accepted), length_app.
    pose proof (sent_cons _ _ Hh) as Hne. destruct (length h) eqn:El; [by destruct h|]. cbn [Nat.add].
    rewrite <- (app_nil_r f) at 2. erewrite serving_sealed; [|exact Hf|exact Eo|apply Hd]. rewrite Ed. rewrite Hn', Es'. apply serving_nil. }
  split; [|done]. destruct session_key as (Ek & _ & Hct). unfold roundTripPQ. rewrite Hmine. cbn [mbind outcome_bind].
  rewrite (st_frame _ _ Hh). cbn [mbind outcome_bind]. rewrite read_ack by (by rewrite serve_hello).
  cbn [cmPQPub cmPQCipher pq_hello sb default from_option Datatypes.id]. rewrite bool_decide_eq_false_2 by done.
  assert ((length ct =? 0)%nat = false) as -> by (by destruct ct). cbn [orb]. rewrite Ek. cbn [mbind outcome_bind].
  rewrite Hn, Es. cbn [mbind outcome_bind]. unfold read_after. rewrite Hserve. cbn [fst snd]. rewrite drop_app_length.
  rewrite <- (app_nil_r f'), (read_sent _ _ [] Hf'). cbn [mbind outcome_bind cmPQSealed sealed_msg sb default from_option Datatypes.id].
  rewrite Eo'. cbn [mbind outcome_bind]. by rewrite Hd', overlay_zero.
Qed.

End handshake.

(** ** The network of CouncilNet.v, over the wire *)

Section network.
Context `{HL : HashLaws} `{Ed25519} `{SL : SymmetricLaws} `{AL : AgreementLaws}.
Context (order : list string -> list string) (draw sdraw cdraw : nat -> option bytes).

(** One connection to a member: its loop reads what the round trip writes. *)
Definition ask_wire (ep : MemberEndpoint) (m : CouncilMsg) (w : Network) : Network * outcome CouncilMsg :=
  match nwMembers w !! epAddr ep with
  | None => (w, Err "dial")
  | Some s =>
      let serve := serveFrames (dispatch (turn_at order draw (nwDrawn w))) (msID s) sdraw in
      let '(written, r) := roundTripPQ (fun x => (serve x s).1.2) cdraw m in
      let drawn := match r with Ret resp => if cmVote resp then Datatypes.S (Datatypes.S (nwDrawn w)) else nwDrawn w | _ => nwDrawn w end in
      match serve written s with
      | (_, _, Panic) => ({| nwMembers := delete (epAddr ep) (nwMembers w); nwDrawn := drawn |}, r)
      | (s, _, _) => ({| nwMembers := <[epAddr ep := s]> (nwMembers w); nwDrawn := drawn |}, r)
      end
  end.

(** A member does not look at the box a request came in. *)
Lemma dispatch_overlay t s m box : tidy m -> dispatch t s (overlay (sealed_msg box) m) = dispatch t s m.
Proof.
  intros Ht. pose proof (overlay_zero m Ht) as E. set (m' := overlay _ m).
  set (m0 := overlay msg_zero m) in E.
  assert (F : cmKind m' = cmKind m0 /\ cmTimeline m' = cmTimeline m0 /\ cmBadIndex m' = cmBadIndex m0 /\ cmFrost m' = cmFrost m0 /\
    cmEpoch m' = cmEpoch m0 /\ cmPrev m' = cmPrev m0 /\ cmCommitments m' = cmCommitments m0 /\ cmR m' = cmR m0 /\ cmC m' = cmC m0 /\
    cmAffectedCerts m' = cmAffectedCerts m0 /\ cmAffectedIDs m' = cmAffectedIDs m0).
  { by repeat split. }
  rewrite E in F.
  clearbody m'. destruct F as (F1 & F2 & F3 & F4 & F5 & F6 & F7 & F8 & F9 & F10 & F11).
  unfold dispatch, vote, commit, fork_recovered, partial_signature. by rewrite F1, F2, F3, F4, F5, F6, F7, F8, F9, F10, F11.
Qed.

(** C8. The wire refines the network the recovery theorems are about: when a member accepts the initiator's offer, and
    the request, the answer and their frames are ones JSON and the reader admit, asking over a hybrid session gives the
    answer and leaves the network that handing the request to the member gives; and all that is written is the offer and
    one frame that holds the request's text sealed under a key both sides have derived. *)
Theorem wire_refines mine theirs nonce nonce' ct k h ack ep m b f w s s' resp b' f' :
  nwMembers w !! epAddr ep = Some s ->
  NewPQKeyPair (cdraw 0%nat) (cdraw 1%nat) = Ret mine -> NewPQKeyPair (sdraw 0%nat) (sdraw 1%nat) = Ret theirs ->
  PQClientShared (default [] (sdraw 2%nat)) theirs (Some (PQPub mine)) = Ret (ct, k) ->
  cdraw 2%nat = Some nonce -> length nonce = 12%nat -> sdraw 3%nat = Some nonce' -> length nonce' = 12%nat ->
  sent (pq_hello "" (PQPub mine) None) h -> sent (pq_hello (msID s) (PQPub theirs) (Some ct)) ack ->
  sendable m -> tidy m -> marshal_msg m = Some b -> sent (sealed_msg (nonce ++ gcm_seal k nonce b)) f ->
  dispatch (turn_at order draw (nwDrawn w)) s m = Ret (s', resp) ->
  sendable resp -> tidy resp -> marshal_msg resp = Some b' -> sent (sealed_msg (nonce' ++ gcm_seal k nonce' b')) f' ->
  ask_wire ep m w = ask_members order draw ep m w /\
  (roundTripPQ (fun x => (serveFrames (dispatch (turn_at order draw (nwDrawn w))) (msID s) sdraw x s).1.2) cdraw m).1 = h ++ f.
Proof.
  intros Hs H1 H2 H3 H4 H5 H6 H7 Hh Hack Hm Ht Eb Hf Ed Hr Htr Eb' Hf'.
  destruct (session_serves (dispatch (turn_at order draw (nwDrawn w))) (msID s) sdraw cdraw mine theirs nonce nonce' ct k h ack
    H1 H2 H3 (conj H4 H5) (conj H6 H7) Hh Hack m b f resp b' f' s s' Eb Hm Hf) as [E1 E2]; [by rewrite dispatch_overlay|done..|].
  split; [|by rewrite E1]. unfold ask_wire, ask_members. rewrite Hs, E1, E2, Ed. done.
Qed.

End network.

(** ** Examples *)

(** The frame and the text of a message that has them. *)
Definition frame_of (m : CouncilMsg) : bytes := match writeCouncilFrame m with Ret f => f | _ => [] end.
Definition text_of (m : CouncilMsg) : bytes := default [] (marshal_msg m).
Definition admitted (m : CouncilMsg) : bool :=
  match writeCouncilFrame m with Ret f => zlen f <=? 4 + 2 ^ 20 | _ => false end.

Lemma sent_intro m : sendable m -> tidy m -> admitted m = true -> sent m (frame_of m).
Proof.
  unfold admitted, frame_of. intros Hs Ht Ha. destruct (writeCouncilFrame m) as [f| |] eqn:E; [|done..]. split; try done. by apply Z.leb_le.
Qed.

(** The clauses of [sendable] and [tidy] on a concrete message, all but the timeline's. *)
Ltac concrete_msg :=
  split; cbn; [repeat split; vm_compute; reflexivity|repeat split; vm_compute; congruence|repeat split; constructor|
    first [by left|idtac]|intros ?; rewrite lookup_empty; by intros ?%is_Some_None|done].
Ltac concrete_tidy := unfold tidy; repeat (apply Forall_cons; split); [..|constructor]; vm_compute; congruence.

Definition wire_draw (i : nat) : option bytes := Some (replicate 12 (Z_byte (Z.of_nat i))).
Definition wire_pair : PQKeyPair := {| pqDH := replicate 12 Byte.x00; pqDK := replicate 12 Byte.x01 |}.
Definition wire_keys : bytes * bytes :=
  match PQClientShared (replicate 12 Byte.x02) wire_pair (Some (PQPub wire_pair)) with Ret x => x | _ => ([], []) end.
Definition wire_member : CouncilMemberServer := NewCouncilMemberServer "M1" None "" None.
Definition wire_net : Network := {| nwMembers := {["a1"%string := wire_member]}; nwDrawn := 0 |}.
Definition wire_ep : MemberEndpoint := {| epAddr := "a1"; epServerName := ""; epPubShare := [] |}.
Definition wire_req : CouncilMsg := vote_req 1 (to_bytes "{}").
Definition wire_resp : CouncilMsg := vote_resp "M1" false None 0 None "prefix failed verification".
Definition wire_box (n : byte) (m : CouncilMsg) : bytes :=
  replicate 12 n ++ gcm_seal wire_keys.2 (replicate 12 n) (text_of m).

Lemma wire_hello : sent (pq_hello "" (PQPub wire_pair) None) (frame_of (pq_hello "" (PQPub wire_pair) None)).
Proof. apply sent_intro; [concrete_msg|concrete_tidy|vm_compute; reflexivity]. Qed.
Lemma wire_ack : sent (pq_hello "M1" (PQPub wire_pair) (Some wire_keys.1)) (frame_of (pq_hello "M1" (PQPub wire_pair) (Some wire_keys.1))).
Proof. apply sent_intro; [concrete_msg|concrete_tidy|vm_compute; reflexivity]. Qed.
Lemma wire_sealed n m : admitted (sealed_msg (wire_box n m)) = true -> sent (sealed_msg (wire_box n m)) (frame_of (sealed_msg (wire_box n m))).
Proof. intros Ha. destruct (sent_sealed (wire_box n m)) as [H1 H2]. apply sent_intro; [done|by apply H2|done]. Qed.
Lemma wire_req_ok : sendable wire_req.
Proof.
  concrete_msg. right. exists (JObj []). split; [reflexivity|]. split; [exact I|]. split; [reflexivity|]. pose proof nesting_room. cbn. lia.
Qed.
Lemma wire_resp_ok : sendable wire_resp.
Proof. concrete_msg. Qed.

Lemma wire_refines_witness :
  @ask_wire Toy.hashes Toy.ed25519 ToyBox.symmetric ToyBox.agreement (fun l => l) wire_draw wire_draw wire_draw wire_ep wire_req wire_net =
  @ask_members Toy.hashes Toy.ed25519 (fun l => l) wire_draw wire_ep wire_req wire_net.
Proof.
  refine (proj1 (wire_refines (fun l => l) wire_draw wire_draw wire_draw wire_pair wire_pair
    (replicate 12 Byte.x02) (replicate 12 Byte.x03) wire_keys.1 wire_keys.2 _ _ wire_ep wire_req (text_of wire_req) _ wire_net wire_member
    wire_member wire_resp (text_of wire_resp) _ eq_refl eq_refl eq_refl _ eq_refl eq_refl eq_refl eq_refl wire_hello wire_ack
    wire_req_ok _ _ (wire_sealed Byte.x02 wire_req _) _ wire_resp_ok _ _ (wire_sealed Byte.x03 wire_resp _)));
    first [concrete_tidy|vm_compute; reflexivity].
Defined.

Lemma clear_frame_crashes_witness : exists ack,
  @serveFrames ToyBox.symmetric ToyBox.agreement CouncilMemberServer (@dispatch Toy.hashes Toy.ed25519 (turn_at (fun l => l) wire_draw 0)) "M1" wire_draw
    (frame_of (pq_hello "" (PQPub wire_pair) None) ++ frame_of (pq_hello "" (PQPub wire_pair) None) ++ []) wire_member =
  (wire_member, ack, Panic).
Proof.
  eexists. refine (clear_frame_crashes _ "M1" wire_draw _ _ _ _ _ _ [] wire_member wire_hello eq_refl _ _ wire_hello _);
    [vm_compute; reflexivity|vm_compute; reflexivity|vm_compute; lia].
Defined.
