(* ===== verification/Fleet.v ===== *)
(** * The fleet server: score fan-in and the live verdict, [fleet.go]

    The server keeps the last score of each node name with the time it was
    seen; every frame recomputes the verdict over the scores that are not stale
    and sends it to the subscribers, whose channels hold sixteen verdicts and
    drop the rest.  Times, and the order in which a range visits the map of
    scores, are arguments.  The sockets are the byte streams of Transport.v; the
    accept loop is left out, and the peer that dials is in FleetPeer.v.

    Theorems: the verdict counts each node name once, by its last frame; but a
    node name is whatever the frame says, so that one authenticated peer can
    reach the quorum by itself. *)
From Stdlib Require Import SpecFloat.
From S2P Require Import Prelude Crypto Encoding Json Float Timeline TrustState Graph Watchdog Ratelimit Transport FrostTheory.

Record FleetVerdict := { fvDetected : bool; fvCount : Z; fvTotal : Z; fvScores : list Score }.

Record FleetServer := {
  fThreshold : f64;
  fQuorum : Z;
  staleFor : Z;
  scores : gmap string (Score * Z);
  enrolled : list string;
  fans : list (list FleetVerdict);
  frames : limiter;
}.

(** [5 * 30 * time.Second] *)
Definition defaultStale : Z := 150 * 1000000000.

Definition NewFleet (threshold : f64) (quorum staleFor : Z) : FleetServer :=
  {| fThreshold := threshold; fQuorum := if quorum <? 1 then 3 else quorum;
     staleFor := if staleFor <=? 0 then defaultStale else staleFor;
     scores := ∅; enrolled := []; fans := []; frames := newLimiter wireRate wireBurst |}.

Definition set_scores (f : FleetServer) (sc : gmap string (Score * Z)) (en : list string) : FleetServer :=
  {| fThreshold := fThreshold f; fQuorum := fQuorum f; staleFor := staleFor f; scores := sc; enrolled := en;
     fans := fans f; frames := frames f |}.
Definition set_fans (f : FleetServer) (cs : list (list FleetVerdict)) : FleetServer :=
  {| fThreshold := fThreshold f; fQuorum := fQuorum f; staleFor := staleFor f; scores := scores f;
     enrolled := enrolled f; fans := cs; frames := frames f |}.
Definition set_frames (f : FleetServer) (l : limiter) : FleetServer :=
  {| fThreshold := fThreshold f; fQuorum := fQuorum f; staleFor := staleFor f; scores := scores f;
     enrolled := enrolled f; fans := fans f; frames := l |}.

(** The capacity of a subscriber's channel; a full one drops the verdict. *)
Definition fanCap : nat := 16.
Definition Subscribe (f : FleetServer) : FleetServer := set_fans f (fans f ++ [[]]).
Definition broadcast (f : FleetServer) (v : FleetVerdict) : FleetServer :=
  set_fans f (map (fun ch => if (length ch <? fanCap)%nat then ch ++ [v] else ch) (fans f)).

(** The first half of [Ingest], under the lock: enrol and record. *)
Definition score_of (m : WireMsg) : Score :=
  {| NodeID := wmNodeID m; ScoreV := wmScore m; PValue := wmPValue m; Evidence := wmEvidence m |}.
Definition record_score (f : FleetServer) (m : WireMsg) (now : Z) : FleetServer :=
  set_scores f (<[wmNodeID m := (score_of m, now)]> (scores f))
    (match scores f !! wmNodeID m with None => enrolled f ++ [wmNodeID m] | Some _ => enrolled f end).

Definition fresh_at (f : FleetServer) (now : Z) (id : string) : option Score :=
  match scores f !! id with
  | Some (s, t) => if since now t >? staleFor f then None else Some s
  | None => None
  end.
Definition verdict (order : list string -> list string) (f : FleetServer) (now : Z) : FleetVerdict :=
  let fresh := omap (fresh_at f now) (order (map fst (map_to_list (scores f)))) in
  {| fvDetected := Detect fresh (fThreshold f) (fQuorum f); fvCount := zlen fresh;
     fvTotal := zlen (enrolled f); fvScores := fresh |}.
Definition emit (order : list string -> list string) (f : FleetServer) (now : Z) : FleetServer :=
  broadcast f (verdict order f now).

Definition Ingest (order : list string -> list string) (f : FleetServer) (m : WireMsg) (now now' : Z) : FleetServer :=
  emit order (record_score f m now) now'.

(** The service of one connection, the i-th frame at the times [clock i]: of
    the budget check, of the recording, of the verdict. *)
Definition on_frame (order : list string -> list string) (addr : string) (clock : nat -> Z * Z * Z) (m : WireMsg)
    (fi : FleetServer * nat) : (FleetServer * nat) * outcome unit :=
  let '(f, i) := fi in
  let '(t1, t2, t3) := clock i in
  let '(l, ok) := allow (frames f) addr t1 in
  if negb ok then ((set_frames f l, (i + 1)%nat), Err "rate limit exceeded")
  else ((Ingest order (set_frames f l) m t2 t3, (i + 1)%nat), Ret tt).
Definition Handle `{FloatText} (order : list string -> list string) (addr : string) (clock : nat -> Z * Z * Z)
    (stream : bytes) (f : FleetServer) : (FleetServer * nat) * outcome unit :=
  ServeWire (on_frame order addr clock) stream (f, 0%nat).

(** ** The verdict counts names *)

(** A node whose recorded score is fresh and below the threshold. *)
Definition alarmed_at (f : FleetServer) (now : Z) (id : string) : bool :=
  match fresh_at f now id with Some s => flt (ScoreV s) (fThreshold f) | None => false end.

Lemma below_omap f now ids :
  below (fThreshold f) (omap (fresh_at f now) ids) = zlen (filter (fun id => alarmed_at f now id = true) ids).
Proof.
  unfold zlen. induction ids as [|id ids IH]; [done|]. cbn [omap list_omap]. rewrite filter_cons.
  change (list_omap _ _ (fresh_at f now) ids) with (omap (fresh_at f now) ids).
  assert (Ha : alarmed_at f now id = match fresh_at f now id with Some s => flt (ScoreV s) (fThreshold f) | None => false end) by done.
  destruct (fresh_at f now id) as [s|]; [rewrite below_cons, <- Ha, IH|by rewrite IH, decide_False by (by rewrite Ha)].
  destruct (alarmed_at f now id); [rewrite decide_True by done; cbn [length]; lia|by rewrite decide_False by done].
Qed.

Lemma filter_zlen_perm (P : string -> bool) l l' : l ≡ₚ l' ->
  zlen (filter (fun id => P id = true) l) = zlen (filter (fun id => P id = true) l').
Proof. intros Hp. unfold zlen. by rewrite Hp. Qed.

Lemma filter_keys_size {A} (m : gmap string A) (P : string -> bool) :
  zlen (filter (fun id => P id = true) (map fst (map_to_list m))) =
    Z.of_nat (size (filter (fun id => P id = true) (dom m))).
Proof.
  unfold zlen. f_equal. rewrite <- (size_list_to_set (C := gset string)) by (apply NoDup_filter, NoDup_fst_map_to_list).
  f_equal. apply set_eq. intros id. rewrite elem_of_list_to_set, list_elem_of_filter, elem_of_filter, elem_of_dom.
  rewrite list_elem_of_fmap. split.
  - intros (Hp & ([k x] & -> & Hk%elem_of_map_to_list)). split; [done|]. by exists x.
  - intros (Hp & (x & Hx)). split; [done|]. exists (id, x). split; [done|]. by apply elem_of_map_to_list.
Qed.

Lemma verdict_detected order f now : permutes order ->
  fvDetected (verdict order f now) = (fQuorum f <=? Z.of_nat (size (filter (fun id => alarmed_at f now id = true) (dom (scores f))))).
Proof.
  intros Ho. unfold verdict. cbn [fvDetected]. unfold Detect. rewrite below_omap.
  rewrite (filter_zlen_perm (alarmed_at f now) _ _ (Ho _)), filter_keys_size. apply Z.geb_leb.
Qed.

(** The history of a fleet: the last frame of a name. *)
Definition last_of (hist : list (WireMsg * Z)) (id : string) : option (WireMsg * Z) :=
  last (filter (fun p => wmNodeID p.1 = id) hist).
Definition recorded (threshold : f64) (quorum stale : Z) (hist : list (WireMsg * Z)) : FleetServer :=
  foldl (fun f p => record_score f p.1 p.2) (NewFleet threshold quorum stale) hist.
Definition names (hist : list (WireMsg * Z)) : gset string := list_to_set (map (fun p => wmNodeID p.1) hist).
Definition alarming (threshold : f64) (stale now : Z) (hist : list (WireMsg * Z)) (id : string) : bool :=
  match last_of hist id with
  | Some (m, t) => negb (since now t >? stale) && flt (wmScore m) threshold
  | None => false
  end.

Lemma recorded_consts thr q st hist :
  let f := recorded thr q st hist in
  fThreshold f = fThreshold (NewFleet thr q st) /\ fQuorum f = fQuorum (NewFleet thr q st) /\
  staleFor f = staleFor (NewFleet thr q st).
Proof. induction hist as [|p hist IH] using rev_ind; [done|]. unfold recorded. by rewrite foldl_snoc. Qed.

Lemma recorded_lookup thr q st hist id :
  scores (recorded thr q st hist) !! id = (fun p => (score_of p.1, p.2)) <$> last_of hist id.
Proof.
  induction hist as [|p hist IH] using rev_ind; [done|]. unfold recorded, last_of in *. rewrite foldl_snoc, filter_app.
  cbn [record_score set_scores scores]. rewrite filter_cons, filter_nil. destruct (decide (wmNodeID p.1 = id)) as [<-|Hne].
  - by rewrite lookup_insert_eq, last_snoc.
  - by rewrite lookup_insert_ne, app_nil_r.
Qed.

Lemma last_of_None hist id : last_of hist id = None <-> id ∉ names hist.
Proof.
  unfold last_of, names. rewrite last_None. rewrite elem_of_list_to_set, list_elem_of_fmap. split.
  - intros E (p & -> & Hp). assert (p ∈ filter (fun p' => wmNodeID p'.1 = wmNodeID p.1) hist) as Hin
      by (by apply list_elem_of_filter). rewrite E in Hin. by apply elem_of_nil in Hin.
  - intros Hn. destruct (filter _ hist) as [|p l] eqn:E; [done|]. exfalso. apply Hn. exists p.
    assert (p ∈ filter (fun p' => wmNodeID p'.1 = id) hist) as [<- Hp]%list_elem_of_filter by (rewrite E; apply elem_of_cons; by left). done.
Qed.

Lemma recorded_enrolled thr q st hist :
  NoDup (enrolled (recorded thr q st hist)) /\ list_to_set (enrolled (recorded thr q st hist)) = names hist.
Proof.
  induction hist as [|p hist [Hn He]] using rev_ind; [split; [constructor|done]|].
  assert (Hl := recorded_lookup thr q st hist (wmNodeID p.1)).
  unfold recorded, names in *. rewrite foldl_snoc, map_app, list_to_set_app_L. cbn [record_score set_scores enrolled map list_to_set].
  set (f := foldl _ _ _) in *. destruct (scores f !! wmNodeID p.1) eqn:E.
  - split; [done|]. destruct (last_of hist (wmNodeID p.1)) eqn:El; [|done]. rewrite He.
    assert (wmNodeID p.1 ∈ names hist).
    { apply dec_stable. intros Hni%last_of_None. by rewrite Hni in El. }
    unfold names in *. set_solver.
  - destruct (last_of hist (wmNodeID p.1)) eqn:El; [done|]. apply last_of_None in El.
    rewrite list_to_set_app_L, He. cbn [list_to_set]. split; [|set_solver].
    apply NoDup_app. split; [done|]. split; [|apply NoDup_singleton]. intros x Hx ->%list_elem_of_singleton.
    apply El. unfold names in *. rewrite <- He. by apply elem_of_list_to_set.
Qed.

(** C28. One name, one vote: after any sequence of frames the verdict reports as
    many enrolled nodes as names that ever appeared, and is DETECTED exactly
    when at least the quorum of distinct names have a last frame that is not
    stale and scores below the threshold, in whatever order the map of scores
    is visited; repeating a frame, or a later healthy one, adds no vote. *)
Theorem fleet_verdict thr quorum stale hist order now :
  1 <= quorum -> 0 < stale -> permutes order ->
  let v := verdict order (recorded thr quorum stale hist) now in
  fvTotal v = Z.of_nat (size (names hist)) /\
  fvDetected v = (quorum <=? Z.of_nat (size (filter (fun id => alarming thr stale now hist id = true) (names hist)))).
Proof.
  intros Hq Hs Ho v. destruct (recorded_consts thr quorum stale hist) as (Ht & Hqu & Hst). cbv zeta in Ht, Hqu, Hst.
  cbn [NewFleet fThreshold fQuorum staleFor] in Ht, Hqu, Hst.
  replace (quorum <? 1) with false in Hqu by (symmetry; apply Z.ltb_ge; lia).
  replace (stale <=? 0) with false in Hst by (symmetry; apply Z.leb_gt; lia). split.
  - unfold v, verdict. cbn [fvTotal]. destruct (recorded_enrolled thr quorum stale hist) as [Hn <-].
    unfold zlen. by rewrite size_list_to_set.
  - unfold v. rewrite verdict_detected by done. rewrite Hqu. f_equal. f_equal. f_equal. apply set_eq. intros id.
    rewrite !elem_of_filter, elem_of_dom. pose proof (recorded_lookup thr quorum stale hist id) as Hl.
    assert (Ha : alarmed_at (recorded thr quorum stale hist) now id = alarming thr stale now hist id).
    { unfold alarmed_at, fresh_at, alarming. rewrite Hl, Hst, Ht. destruct (last_of hist id) as [[m t]|]; [|done].
      cbn [fmap option_fmap option_map fst snd]. by destruct (since now t >? stale). }
    rewrite Ha. assert (Hd : is_Some (scores (recorded thr quorum stale hist) !! id) <-> id ∈ names hist).
    { rewrite Hl, fmap_is_Some, <- not_eq_None_Some. rewrite last_of_None. split; [apply dec_stable|auto]. }
    by rewrite Hd.
Qed.

(** ** One peer under three names *)

Lemma allow_first l addr now : burst l = wireBurst -> rate l = wireRate -> buckets l !! addr = None ->
  exists l1 l2 l3, allow l addr now = (l1, true) /\ allow l1 addr now = (l2, true) /\ allow l2 addr now = (l3, true).
Proof.
  intros Hb Hr Hn. pose (bk := fun j => {| tokens := f64_of_Z j; blast := now |}).
  assert (Hstep : forall j, (j = 1 \/ j = 2 \/ j = 3) -> forall l, burst l = wireBurst -> rate l = wireRate ->
    buckets l !! addr = Some (bk j) -> exists l', allow l addr now = (l', true) /\ burst l' = wireBurst /\ rate l' = wireRate /\
      buckets l' !! addr = Some (bk (j - 1))).
  { intros j Hj l0 Hb0 Hr0 Hl. unfold allow. rewrite Hl. unfold refill, bk. cbn [tokens blast]. rewrite Hb0, Hr0. unfold since.
    rewrite Z.sub_diag. change (Z.max (- 2 ^ 63) (Z.min (2 ^ 63 - 1) 0)) with 0.
    destruct Hj as [-> |[-> | ->]].
    all: match goal with |- context [if flt ?a ?b then _ else _] => let r := eval vm_compute in (flt a b) in change (flt a b) with r end; cbv iota.
    all: eexists; split; [reflexivity|]; cbn [set_bucket burst rate buckets]; rewrite lookup_insert_eq; split; [done|]; split; [done|].
    all: f_equal; f_equal; vm_compute; reflexivity. }
  assert (exists l1, allow l addr now = (l1, true) /\ burst l1 = wireBurst /\ rate l1 = wireRate /\ buckets l1 !! addr = Some (bk 3))
    as (l1 & E1 & Hb1 & Hr1 & Hk1).
  { unfold allow. rewrite Hn, Hb. cbn [tokens blast].
    match goal with |- context [if flt ?a ?b then _ else _] => let r := eval vm_compute in (flt a b) in change (flt a b) with r end; cbv iota.
    eexists; split; [reflexivity|]; cbn [set_bucket burst rate buckets]; rewrite lookup_insert_eq; split; [done|]; split; [done|].
    f_equal; f_equal; vm_compute; reflexivity. }
  destruct (Hstep 3 ltac:(lia) l1 Hb1 Hr1 Hk1) as (l2 & E2 & Hb2 & Hr2 & Hk2).
  destruct (Hstep 2 ltac:(lia) l2 Hb2 Hr2 Hk2) as (l3 & E3 & _). by exists l1, l2, l3.
Qed.

Section peer.
Context `{FloatTextLaws}.

(** A node's name is not bound to its certificate: whatever the fleet has
    recorded from honest nodes, one connection with an unused budget that
    writes three frames under three names, each below the threshold, makes the
    verdict DETECTED for a quorum of three (or less) - where the fusion rule
    promises that one Byzantine watchdog cannot. *)
Theorem one_peer_detects order addr now f a b c fa fb fc :
  permutes order -> buckets (frames f) !! addr = None -> rate (frames f) = wireRate -> burst (frames f) = wireBurst ->
  fQuorum f <= 3 -> 0 <= staleFor f ->
  framed a fa -> framed b fb -> framed c fc ->
  NoDup [wmNodeID a; wmNodeID b; wmNodeID c] ->
  Forall (fun m => flt (wmScore m) (fThreshold f) = true) [a; b; c] ->
  exists f', Handle order addr (fun _ => (now, now, now)) (fa ++ fb ++ fc) f = ((f', 3%nat), Ret tt) /\
    fvDetected (verdict order f' now) = true.
Proof.
  intros Ho Hn Hr Hb Hq Hs Ha Hbb Hc Hnd Hf.
  destruct (allow_first (frames f) addr now Hb Hr Hn) as (l1 & l2 & l3 & E1 & E2 & E3).
  pose (ing := fun f l m => Ingest order (set_frames f l) m now now).
  exists (ing (ing (ing f l1 a) l2 b) l3 c). split.
  - unfold Handle, ServeWire.
    pose proof (framed_length _ _ Ha). pose proof (framed_length _ _ Hbb). pose proof (framed_length _ _ Hc).
    replace (Datatypes.S (length (fa ++ fb ++ fc))) with (Datatypes.S (Datatypes.S (Datatypes.S (Datatypes.S (length (fa ++ fb ++ fc) - 3))))) by (rewrite !length_app; lia).
    rewrite (serve_frame _ _ _ _ _ _ Ha). unfold on_frame at 1. rewrite E1. cbn [negb].
    rewrite (serve_frame _ _ _ _ _ _ Hbb). unfold on_frame at 1. cbn [Ingest emit broadcast set_fans record_score set_scores set_frames frames].
    rewrite E2. cbn [negb]. rewrite <- (app_nil_r fc).
    rewrite (serve_frame _ _ _ _ _ _ Hc). unfold on_frame at 1. cbn [Ingest emit broadcast set_fans record_score set_scores set_frames frames].
    rewrite E3. cbn [negb]. done.
  - rewrite verdict_detected by done. apply Z.leb_le. set (f' := ing _ _ _).
    assert (Hq' : fQuorum f' = fQuorum f) by done. rewrite Hq'.
    assert (Hin : forall m, m ∈ [a; b; c] ->
      wmNodeID m ∈ filter (fun id => alarmed_at f' now id = true) (dom (scores f'))).
    { intros m Hm. assert (Hlk : scores f' !! wmNodeID m = Some (score_of m, now)).
      { apply NoDup_cons in Hnd as [Hna Hnd]. apply NoDup_cons in Hnd as [Hnb _].
        cbn. unfold f', ing, Ingest, emit, broadcast, record_score. cbn [set_fans set_scores set_frames scores].
        repeat (apply elem_of_cons in Hm as [->|Hm]); [| | |by apply elem_of_nil in Hm].
        - rewrite !lookup_insert_ne by set_solver. by rewrite lookup_insert_eq.
        - rewrite lookup_insert_ne by set_solver. by rewrite lookup_insert_eq.
        - by rewrite lookup_insert_eq. }
      apply elem_of_filter. split; [|apply elem_of_dom; by eexists]. unfold alarmed_at, fresh_at. rewrite Hlk.
      assert (since now now >? staleFor f' = false) as ->.
      { unfold since. rewrite Z.sub_diag. rewrite Z.gtb_ltb. apply Z.ltb_ge. change (staleFor f') with (staleFor f). lia. }
      rewrite Forall_forall in Hf. by apply Hf. }
    transitivity (Z.of_nat (size (list_to_set [wmNodeID a; wmNodeID b; wmNodeID c] : gset string))).
    + rewrite size_list_to_set by done. cbn [length]. lia.
    + apply inj_le, subseteq_size. intros x Hx. apply elem_of_list_to_set in Hx.
      change [wmNodeID a; wmNodeID b; wmNodeID c] with (map wmNodeID [a; b; c]) in Hx.
      apply list_elem_of_fmap in Hx as (m & -> & Hm). by apply Hin.
Qed.

End peer.

(** ** Witnesses *)

Lemma fleet_verdict_witness :
  fvDetected (verdict (@rev string) (recorded (f64_of_Z 50) 2 10
    [(wmsg "W1" 30 0, 1); (wmsg "W2" 30 0, 2); (wmsg "W1" 30 0, 3); (wmsg "W2" 100 0, 4); (wmsg "W3" 30 0, 5)]) 6) = true /\
  fvDetected (verdict (@rev string) (recorded (f64_of_Z 50) 2 10
    [(wmsg "W1" 30 0, 1); (wmsg "W2" 30 0, 2); (wmsg "W1" 30 0, 3); (wmsg "W2" 100 0, 4); (wmsg "W3" 30 0, 5)]) 14) = false.
Proof.
  split.
  - destruct (fleet_verdict (f64_of_Z 50) 2 10
      [(wmsg "W1" 30 0, 1); (wmsg "W2" 30 0, 2); (wmsg "W1" 30 0, 3); (wmsg "W2" 100 0, 4); (wmsg "W3" 30 0, 5)] (@rev string) 6) as [_ E].
    + lia.
    + lia.
    + intros l. symmetry. apply Permutation_rev.
    + rewrite E. vm_compute. reflexivity.
  - destruct (fleet_verdict (f64_of_Z 50) 2 10
      [(wmsg "W1" 30 0, 1); (wmsg "W2" 30 0, 2); (wmsg "W1" 30 0, 3); (wmsg "W2" 100 0, 4); (wmsg "W3" 30 0, 5)] (@rev string) 14) as [_ E].
    + lia.
    + lia.
    + intros l. symmetry. apply Permutation_rev.
    + rewrite E. vm_compute. reflexivity.
Defined.

Lemma wframe_framed id score :
  valid_string id -> (score = 30 \/ score = 100) -> zlen (wframe (wmsg id score 0)) <= 4 + maxFrame ->
  framed (wmsg id score 0) (wframe (wmsg id score 0)).
Proof.
  intros Hv Hs Hl. split; [split; [done|done|vm_compute; split; [discriminate|reflexivity]|discriminate]|].
  split; [|done]. destruct Hs as [-> | ->]; done.
Qed.

Lemma one_peer_detects_witness : exists f',
  Handle (fun l => l) "10.0.0.9:4711" (fun _ => (9, 9, 9))
    (wframe (wmsg "W1" 30 0) ++ wframe (wmsg "W2" 30 0) ++ wframe (wmsg "W3" 30 0))
    (recorded (f64_of_Z 50) 3 0 [(wmsg "W4" 100 0, 1); (wmsg "W5" 100 0, 2)]) = ((f', 3%nat), Ret tt) /\
  fvDetected (verdict (fun l => l) f' 9) = true.
Proof.
  apply (one_peer_detects (fun l => l) "10.0.0.9:4711" 9
    (recorded (f64_of_Z 50) 3 0 [(wmsg "W4" 100 0, 1); (wmsg "W5" 100 0, 2)]) (wmsg "W1" 30 0) (wmsg "W2" 30 0) (wmsg "W3" 30 0)).
  - intros l. reflexivity.
  - reflexivity.
  - reflexivity.
  - reflexivity.
  - vm_compute. discriminate.
  - vm_compute. discriminate.
  - apply wframe_framed; [reflexivity|by left|apply Z.leb_le; vm_compute; reflexivity].
  - apply wframe_framed; [reflexivity|by left|apply Z.leb_le; vm_compute; reflexivity].
  - apply wframe_framed; [reflexivity|by left|apply Z.leb_le; vm_compute; reflexivity].
  - apply (bool_decide_unpack _). vm_compute. exact I.
  - repeat (apply Forall_cons; split); [vm_compute; reflexivity..|apply Forall_nil].
    exact I.
Defined.
