(* ===== verification/FleetPeer.v ===== *)
(** * The watchdog's side of the score wire: [FleetPeer] of [fleet.go]

    The peer holds at most one connection.  [Send] dials when it has none,
    writes one frame, and drops the connection after a write that failed; a
    dial, and how far a failing write got, are the network's.  A connection is
    the bytes written on it; what arrives of each is cut where the network
    likes, and the server reads the connections in the order they were made.

    Theorem: whatever the network does, what the server is given is a
    subsequence of what was sent, in order and unaltered; and the first send
    that goes through after a failure arrives. *)
From S2P Require Import Prelude Crypto Encoding Json Float Timeline TrustState Watchdog Ratelimit Transport Fleet.

Record FleetPeer := {
  fpConn : bool;               (* conn != nil: the last of the streams is open *)
  fpStreams : list bytes;      (* what was written on each connection so far *)
}.

(** What one [Send] meets: whether a dial connects, and, for a write that
    fails, how many bytes of the frame were written. *)
Record Net := { nDial : bool; nWrite : option nat }.

Definition NewFleetPeer : FleetPeer := {| fpConn := false; fpStreams := [] |}.

(** Bytes written on the open connection, which is kept or dropped. *)
Definition written (p : FleetPeer) (b : bytes) (keep : bool) : FleetPeer :=
  {| fpConn := keep; fpStreams := alter (.++ b) (pred (length (fpStreams p))) (fpStreams p) |}.

Section peer.
Context `{FloatText}.

Definition live_frame (s : Score) : WireMsg := WireMsgFromScore s "live".

Definition Send (s : Score) (net : Net) (p : FleetPeer) : FleetPeer * outcome unit :=
  let dialled :=
    if fpConn p then Some p
    else if nDial net then Some {| fpConn := true; fpStreams := fpStreams p ++ [[]] |} else None in
  match dialled with
  | None => (p, Err "dial")
  | Some p =>
      match WriteWire (live_frame s) with
      | Ret b =>
          match nWrite net with
          | None => (written p b true, Ret tt)
          | Some k => (written p (take k b) false, Err "write")
          end
      | Err e => (written p [] false, Err e)
      | Panic => (p, Panic)
      end
  end.

Definition Close (p : FleetPeer) : FleetPeer := {| fpConn := false; fpStreams := fpStreams p |}.

(** [streamLive]: every cycle's score is sent; an error is printed, and the
    next cycle dials again. *)
Definition send_all (sends : list (Score * Net)) (p : FleetPeer) : FleetPeer :=
  foldl (fun p sn => fst (Send sn.1 sn.2 p)) p sends.

(** The server's connections, one after the other. *)
Definition serve_all {S} (handler : WireMsg -> S -> S * outcome unit) (streams : list bytes) (st : S) : S :=
  foldl (fun st b => fst (ServeWire handler b st)) st streams.

(** ** What is on the connections *)

Context {FL : FloatTextLaws}.

(** Messages a connection carries: whole frames, or frames cut somewhere. *)
Definition carries (ms : list WireMsg) (b : bytes) : Prop :=
  exists frames k, Forall2 framed ms frames /\ b = take k (concat frames).
Definition carries_whole (ms : list WireMsg) (b : bytes) : Prop :=
  exists frames, Forall2 framed ms frames /\ b = concat frames.

Lemma whole_carries ms b : carries_whole ms b -> carries ms b.
Proof. intros (fs & Hf & ->). exists fs, (length (concat fs)). split; [done|]. by rewrite take_ge. Qed.

Lemma carries_cut ms b k : carries ms b -> carries ms (take k b).
Proof. intros (fs & j & Hf & ->). exists fs, (k `min` j)%nat. split; [done|]. by rewrite take_take. Qed.

Lemma whole_snoc ms b m fr : carries_whole ms b -> framed m fr -> carries_whole (ms ++ [m]) (b ++ fr).
Proof.
  intros (fs & Hf & ->) Hm. exists (fs ++ [fr]). split; [apply Forall2_app; [done|constructor; [done|constructor]]|].
  rewrite concat_app. cbn. by rewrite app_nil_r.
Qed.

Lemma torn_snoc ms b m fr k : carries_whole ms b -> framed m fr -> carries (ms ++ [m]) (b ++ take k fr).
Proof.
  intros Hw Hm. pose proof (whole_carries _ _ (whole_snoc _ _ _ _ Hw Hm)) as Hc.
  apply (carries_cut _ _ (length b + k)) in Hc. by rewrite take_app_add in Hc.
Qed.

(** The connections so far: the open one is whole. *)
Definition tracks (mss : list (list WireMsg)) (p : FleetPeer) : Prop :=
  if fpConn p then
    exists mss' ms ss b, mss = mss' ++ [ms] /\ fpStreams p = ss ++ [b] /\ Forall2 carries mss' ss /\ carries_whole ms b
  else Forall2 carries mss (fpStreams p).

Lemma tracks_carries mss p : tracks mss p -> Forall2 carries mss (fpStreams p).
Proof.
  unfold tracks. destruct (fpConn p); [|done]. intros (m1 & ms & ss & b & -> & -> & Hf & Hw).
  apply Forall2_app; [done|]. constructor; [by apply whole_carries|constructor].
Qed.

Lemma written_last c ss b x keep : written {| fpConn := c; fpStreams := ss ++ [b] |} x keep =
  {| fpConn := keep; fpStreams := ss ++ [b ++ x] |}.
Proof.
  unfold written. cbn [fpStreams]. rewrite length_app, Nat.add_1_r. cbn [pred].
  f_equal. rewrite <- (Nat.add_0_r (length ss)). by rewrite alter_app_r.
Qed.

Lemma tracks_open mss p : tracks mss p -> exists mss', tracks mss' {| fpConn := true; fpStreams := fpStreams p ++ [[]] |} /\
  concat mss' = concat mss.
Proof.
  intros Ht%tracks_carries. exists (mss ++ [[]]). split; [|by rewrite concat_app, app_nil_r].
  exists mss, [], (fpStreams p), []. split_and!; [done|done|done|]. exists []. by split; [constructor|].
Qed.

(** One send: the message it was given is the last one offered, or it was not
    offered at all; a send that succeeds leaves it whole on the open
    connection. *)
Lemma Send_tracks s net mss p fr : framed (live_frame s) fr -> tracks mss p ->
  exists mss', tracks mss' (fst (Send s net p)) /\
    (concat mss' = concat mss \/ concat mss' = concat mss ++ [live_frame s]) /\
    (snd (Send s net p) = Ret tt -> fpConn (fst (Send s net p)) = true /\ exists m1 ms, mss' = m1 ++ [ms ++ [live_frame s]]).
Proof.
  intros Hfr Ht. unfold Send.
  assert (Hd : forall q mss1, tracks mss1 q -> fpConn q = true -> concat mss1 = concat mss ->
    exists mss', tracks mss' (fst (match WriteWire (live_frame s) with
      | Ret b => match nWrite net with
                 | None => (written q b true, Ret tt)
                 | Some k => (written q (take k b) false, Err "write"%string)
                 end
      | Err e => (written q [] false, Err e)
      | Panic => (q, Panic) end)) /\
    (concat mss' = concat mss \/ concat mss' = concat mss ++ [live_frame s]) /\
    (nWrite net = None -> fpConn (written q fr true) = true /\ exists m1 ms, mss' = m1 ++ [ms ++ [live_frame s]])).
  { intros q mss1 Hq Hc Ec. unfold tracks in Hq. rewrite Hc in Hq. destruct Hq as (m1 & ms & ss & b & -> & Es & Hf & Hw).
    destruct q as [c qs]. cbn [fpConn fpStreams] in *. subst c qs. destruct Hfr as (Hca & Ew & Hl). rewrite Ew.
    assert (Ecat : concat (m1 ++ [ms ++ [live_frame s]]) = concat mss ++ [live_frame s]).
    { rewrite <- Ec, !concat_app. cbn. by rewrite !app_nil_r, app_assoc. }
    exists (m1 ++ [ms ++ [live_frame s]]). destruct (nWrite net) as [k|]; cbn [fst]; rewrite written_last; split_and!; try done; try by right.
    - apply Forall2_app; [done|]. constructor; [by eapply torn_snoc|constructor].
    - exists m1, (ms ++ [live_frame s]), ss, (b ++ fr). split_and!; [done|done|done|]. by apply whole_snoc.
    - intros _. split; [done|]. by eexists _, _. }
  assert (Ew : WriteWire (live_frame s) = Ret fr) by apply Hfr.
  destruct (fpConn p) eqn:Hc.
  - destruct (Hd p mss Ht Hc eq_refl) as (mss' & H1 & H2 & H3). exists mss'. split_and!; [done|done|]. rewrite Ew.
    destruct (nWrite net); [done|]. intros _. by apply H3.
  - destruct (nDial net).
    + destruct (tracks_open mss p Ht) as (mss1 & Ht1 & E1).
      destruct (Hd _ mss1 Ht1 eq_refl E1) as (mss' & H1 & H2 & H3). exists mss'. split_and!; [done|done|]. rewrite Ew.
      destruct (nWrite net); [done|]. intros _. by apply H3.
    + exists mss. split_and!; [done|by left|done].
Qed.

Lemma send_all_tracks sends : Forall (fun sn => exists fr, framed (live_frame sn.1) fr) sends ->
  exists mss, tracks mss (send_all sends NewFleetPeer) /\ concat mss `sublist_of` map (fun sn => live_frame sn.1) sends.
Proof.
  induction sends as [|[s net] sends IH] using rev_ind; intros Hf.
  { exists []. split; [constructor|done]. }
  apply Forall_app in Hf as [Hf [(fr & Hfr) _]%Forall_cons]. destruct (IH Hf) as (mss & Ht & Hs).
  unfold send_all. rewrite foldl_snoc, map_app. cbn [map fst snd].
  destruct (Send_tracks s net mss (send_all sends NewFleetPeer) fr Hfr Ht) as (mss' & Ht' & [E|E] & _);
    exists mss'; (split; [done|]); rewrite E; [by apply sublist_inserts_r|by apply sublist_app].
Qed.

(** ** What the server is given *)

(** The messages of the connections, each up to where it was cut. *)
Lemma serve_carried {S} (handler : WireMsg -> S -> S * outcome unit) mss streams st : Forall2 carries mss streams ->
  exists given, Forall2 prefix given mss /\
    serve_all handler streams st = foldl (fun st ms => fst (deliver handler ms st)) st given.
Proof.
  intros HF. revert st. induction HF as [|ms b mss streams (fs & k & Hf & ->) _ IH]; intros st; [by exists []|].
  destruct (ServeWire_cut handler ms fs k Hf) as (n & _ & _ & _ & Hs).
  destruct (IH (fst (deliver handler (take n ms) st))) as (given & Hp & E). exists (take n ms :: given).
  split; [constructor; [apply prefix_take|done]|]. unfold serve_all in *. cbn [foldl]. by rewrite (proj1 (Hs st)).
Qed.

(** A last connection that arrived whole is served to its end. *)
Lemma serve_whole {S} (handler : WireMsg -> S -> S * outcome unit) mss streams ms b st :
  Forall2 carries mss streams -> carries_whole ms b ->
  exists given, Forall2 prefix given mss /\
    serve_all handler (streams ++ [b]) st = foldl (fun st ms => fst (deliver handler ms st)) st (given ++ [ms]).
Proof.
  intros HF (fs & Hf & ->). destruct (serve_carried handler mss streams st HF) as (given & Hp & E).
  exists given. split; [done|]. unfold serve_all in *. rewrite !foldl_snoc, E. f_equal.
  destruct (ServeWire_cut handler ms fs (length (concat fs)) Hf) as (n & _ & _ & _ & Hs).
  destruct (Hs (foldl (fun st ms => fst (deliver handler ms st)) st given)) as [_ Ew].
  rewrite take_ge in Ew by done. by apply Ew.
Qed.

Lemma concat_prefixes {A} (xs ys : list (list A)) : Forall2 prefix xs ys -> concat xs `sublist_of` concat ys.
Proof. induction 1 as [|x y xs ys [z ->] _ IH]; cbn; [done|]. rewrite <- app_assoc. apply sublist_app; [done|]. by apply sublist_inserts_l. Qed.

Definition cut (a b : bytes) : Prop := exists k, a = take k b.

Lemma cut_carries mss bs arrived : Forall2 carries mss bs -> Forall2 cut arrived bs -> Forall2 carries mss arrived.
Proof.
  intros HF. revert arrived. induction HF as [|ms b mss bs Hc _ IH]; intros arrived Ha;
    inversion Ha as [|? ? ? ? [k ->] Ha']; subst; constructor; [by apply carries_cut|by apply IH].
Qed.


End peer.

(** ** A peer in trouble *)

Definition toy_score (id : string) (v : Z) : Score :=
  {| NodeID := id; ScoreV := f64_of_Z v; PValue := f64_of_Z 1; Evidence := None |}.
(** A refused dial, a write that breaks off, and one that goes through. *)
Definition toy_sends : list (Score * Net) :=
  [(toy_score "W1" 100, {| nDial := false; nWrite := None |});
   (toy_score "W1" 30, {| nDial := true; nWrite := None |});
   (toy_score "W1" 30, {| nDial := true; nWrite := Some 9%nat |})].

Lemma toy_framed v : v = 30 \/ v = 100 -> framed (live_frame (toy_score "W1" v)) (wframe (wmsg "W1" v 0)).
Proof. intros Hv. apply wframe_framed; [done|done|]. destruct Hv as [-> | ->]; apply Z.leb_le; vm_compute; reflexivity. Qed.

