(* ===== verification/Dns.v ===== *)
(** * The DNS probe: [cmd/dnsprobe/main.go]

    One query over UDP and the answers read out of whatever comes back.  A
    position in the message is the bytes from there on: every test of the code
    on a position is one on their number.  The socket, the flags of the command
    line and the printing are left out.

    Theorems: a response that echoes the question and whose answers are well
    formed is read as the addresses and texts it holds; a name is encoded as
    its labels; and an answer whose owner runs past the end is a panic. *)
From S2P Require Import Prelude Crypto Encoding Json Cli.

(** ** Queries *)

(** [strings.TrimSuffix(name, ".")]. *)
Definition trim_dot (b : bytes) : bytes :=
  match last b with Some c => if bool_decide (c = ch ".") then removelast b else b | None => b end.

Fixpoint encode_labels (labels : list bytes) : outcome bytes :=
  match labels with
  | [] => Ret [Byte.x00]
  | l :: ls =>
      guard ((length l =? 0)%nat || (63 <? length l)%nat) "name label invalid" (
      rest ← encode_labels ls; Ret (Z_byte (zlen l) :: l ++ rest))
  end.
Definition encodeName (name : string) : outcome bytes := encode_labels (split_on (ch ".") (trim_dot (to_bytes name))).

(** [id] is the random identifier. *)
Definition makeQuery (id : Z) (name : string) (qtype : Z) : outcome bytes :=
  labels ← encodeName name;
  Ret (be_bytes 2 id ++ [Byte.x00; Byte.x01] ++ [Byte.x00; Byte.x01] ++ replicate 6 Byte.x00 ++
       labels ++ be_bytes 2 qtype ++ [Byte.x00; Byte.x01]).

Definition rcodeName (rc : Z) : string :=
  if rc =? 0 then "NOERROR" else if rc =? 1 then "FORMERR" else if rc =? 2 then "SERVFAIL"
  else if rc =? 3 then "NXDOMAIN" else if rc =? 4 then "NOTIMP" else if rc =? 5 then "REFUSED" else "?".

(** ** Answers *)

(** The labels of the question, to the bytes after its name.  Each round takes
    a byte at least: [fuel] is more than their number. *)
Fixpoint skip_question (fuel : nat) (rest : bytes) : outcome bytes :=
  match fuel, rest with
  | O, _ | _, [] => Err "truncated question"
  | S fuel, l :: rest => if byte_Z l =? 0 then Ret rest else skip_question fuel (drop (Z.to_nat (byte_Z l)) rest)
  end.

(** The labels of an owner name: the index runs past the end of the message. *)
Fixpoint skip_labels (fuel : nat) (rest : bytes) : outcome bytes :=
  match fuel, rest with
  | O, _ | _, [] => Panic
  | S fuel, l :: rest => if byte_Z l =? 0 then Ret rest else skip_labels fuel (drop (Z.to_nat (byte_Z l)) rest)
  end.
Definition skip_owner (rest : bytes) : outcome bytes :=
  match rest with
  | [] => Panic
  | b :: _ => if Z.land (byte_Z b) 192 =? 192 then Ret (drop 2 rest) else skip_labels (S (length rest)) rest
  end.

(** [net.IP(b).String()] of four bytes. *)
Definition ip_string (b : bytes) : bytes :=
  match map (fun c => dec_Z (byte_Z c)) b with
  | [] => []
  | s :: ss => s ++ concat (map (fun x => ch "." :: x) ss)
  end.

(** What a resource record adds. *)
Definition rr_value (typ : Z) (rdata : bytes) : list bytes :=
  if typ =? 1 then (if (length rdata =? 4)%nat then [ip_string rdata] else [])
  else if typ =? 16 then (if (0 <? length rdata)%nat then [drop 1 rdata] else [])
  else [].

Fixpoint read_answers (n : nat) (rest : bytes) (answers : list bytes) : outcome (list bytes) :=
  match n with
  | O => Ret answers
  | S n =>
      if (length rest <? 12)%nat then Ret answers
      else
        rest ← skip_owner rest;
        if (length rest <? 10)%nat then Ret answers
        else
          let typ := be_Z (take 2 rest) in
          let rdlen := Z.to_nat (be_Z (take 2 (drop 8 rest))) in
          let rest := drop 10 rest in
          guard (length rest <? rdlen)%nat "truncated RDATA" (
          read_answers n (drop rdlen rest) (answers ++ rr_value typ (take rdlen rest)))
  end.

(** The answers and the response code; the caller drops both on an error. *)
Definition parseAnswer (msg : bytes) : outcome (list bytes * Z) :=
  guard (length msg <? 12)%nat "short DNS response" (
  let rcode := Z.land (be_Z (take 2 (drop 2 msg))) 15 in
  let nAns := Z.to_nat (be_Z (take 2 (drop 6 msg))) in
  rest ← skip_question (S (length msg)) (drop 12 msg);
  answers ← read_answers nAns (drop 4 rest) [];
  Ret (answers, rcode)).

(** ** What is on the wire, as RFC 1035 has it *)

Definition label_ok (l : bytes) : Prop := (1 <= length l <= 63)%nat.
Definition label_bytes (l : bytes) : bytes := Z_byte (zlen l) :: l.
Definition name_bytes (labels : list bytes) : bytes := concat (map label_bytes labels) ++ [Byte.x00].

(** An owner: a pointer, or labels of its own. *)
Inductive Owner := Pointer (offset : Z) | Labels (labels : list bytes).
Definition owner_bytes (o : Owner) : bytes :=
  match o with Pointer p => be_bytes 2 (49152 + p) | Labels ls => name_bytes ls end.
Definition owner_ok (o : Owner) : Prop :=
  match o with Pointer p => 0 <= p < 2 ^ 14 | Labels ls => ls <> [] /\ Forall label_ok ls end.

Record RR := { rrOwner : Owner; rrType : Z; rrClass : Z; rrTTL : Z; rrData : bytes }.
Definition rr_ok (r : RR) : Prop := owner_ok (rrOwner r) /\ 0 <= rrType r < 2 ^ 16 /\ zlen (rrData r) < 2 ^ 16.
Definition rr_bytes (r : RR) : bytes :=
  owner_bytes (rrOwner r) ++ be_bytes 2 (rrType r) ++ be_bytes 2 (rrClass r) ++ be_bytes 4 (rrTTL r) ++
  be_bytes 2 (zlen (rrData r)) ++ rrData r.

(** A response to the question [qname]: what follows the answers is free. *)
Definition response (id flags ns ar : Z) (qname : list bytes) (qtype qclass : Z) (rrs : list RR) (rest : bytes) : bytes :=
  be_bytes 2 id ++ be_bytes 2 flags ++ be_bytes 2 1 ++ be_bytes 2 (zlen rrs) ++ be_bytes 2 ns ++ be_bytes 2 ar ++
  name_bytes qname ++ be_bytes 2 qtype ++ be_bytes 2 qclass ++ concat (map rr_bytes rrs) ++ rest.

#[export] Instance label_ok_dec l : Decision (label_ok l).
Proof. unfold label_ok. apply _. Defined.
#[export] Instance owner_ok_dec o : Decision (owner_ok o).
Proof. destruct o; unfold owner_ok; apply _. Defined.
#[export] Instance rr_ok_dec r : Decision (rr_ok r).
Proof. unfold rr_ok. apply _. Defined.

(** What a server that echoes the query [q] and answers with [rrs] sends. *)
Definition answer_to (q : bytes) (flags ns ar : Z) (rrs : list RR) (rest : bytes) : bytes :=
  take 2 q ++ be_bytes 2 flags ++ be_bytes 2 1 ++ be_bytes 2 (zlen rrs) ++ be_bytes 2 ns ++ be_bytes 2 ar ++
  drop 12 q ++ concat (map rr_bytes rrs) ++ rest.

(** ** Names *)

Lemma label_len l : label_ok l -> byte_Z (Z_byte (zlen l)) = zlen l.
Proof. intros [H1 H2]. rewrite byte_Z_byte. apply Z.mod_small. unfold zlen. lia. Qed.

(** Both loops over labels pass a well-formed name. *)
Lemma skip_question_name ls rest fuel : Forall label_ok ls -> (length ls < fuel)%nat ->
  skip_question fuel (name_bytes ls ++ rest) = Ret rest.
Proof.
  intros Hl. revert fuel. induction Hl as [|l ls Hl _ IH]; intros [|fuel] Hf; cbn [length] in Hf; [lia|done|lia|].
  unfold name_bytes. cbn [map concat label_bytes app skip_question]. rewrite label_len by done.
  replace (zlen l =? 0) with false by (symmetry; apply Z.eqb_neq; destruct Hl; unfold zlen; lia).
  unfold zlen. rewrite Nat2Z.id, <- !app_assoc, drop_app_length. rewrite app_assoc. apply IH. lia.
Qed.

Lemma skip_labels_name ls rest fuel : Forall label_ok ls -> (length ls < fuel)%nat ->
  skip_labels fuel (name_bytes ls ++ rest) = Ret rest.
Proof.
  intros Hl. revert fuel. induction Hl as [|l ls Hl _ IH]; intros [|fuel] Hf; cbn [length] in Hf; [lia|done|lia|].
  unfold name_bytes. cbn [map concat label_bytes app skip_labels]. rewrite label_len by done.
  replace (zlen l =? 0) with false by (symmetry; apply Z.eqb_neq; destruct Hl; unfold zlen; lia).
  unfold zlen. rewrite Nat2Z.id, <- !app_assoc, drop_app_length. rewrite app_assoc. apply IH. lia.
Qed.

Lemma name_length ls : (length ls < length (name_bytes ls))%nat.
Proof.
  unfold name_bytes. rewrite length_app. cbn [length]. induction ls as [|l ls IH]; cbn [map concat length label_bytes app]; [lia|].
  rewrite length_app. lia.
Qed.

Lemma owner_length o : owner_ok o -> (2 <= length (owner_bytes o))%nat.
Proof.
  destruct o as [p|ls]; cbn [owner_bytes owner_ok]; [by rewrite be_bytes_length|]. intros [Hne _].
  pose proof (name_length ls). destruct ls; [done|]. cbn [length] in *. lia.
Qed.

(** The two high bits tell a pointer from a label. *)
Lemma mask_sweep (f : Z -> bool) n k : forallb f (map Z.of_nat (seq 0 n)) = true -> 0 <= k < Z.of_nat n -> f k = true.
Proof.
  rewrite forallb_forall. intros Hall Hk. apply Hall, in_map_iff. exists (Z.to_nat k). split; [lia|apply in_seq; lia].
Qed.

Lemma pointer_mask k : 0 <= k < 64 -> (Z.land (192 + k) 192 =? 192) = true.
Proof. apply (mask_sweep (fun k => Z.land (192 + k) 192 =? 192) 64). by vm_compute. Qed.

Lemma label_not_pointer c : 0 <= c < 192 -> (Z.land c 192 =? 192) = false.
Proof. intros Hc. apply negb_true_iff. apply (mask_sweep (fun c => negb (Z.land c 192 =? 192)) 192); [by vm_compute|lia]. Qed.

Lemma skip_owner_ok o rest : owner_ok o -> skip_owner (owner_bytes o ++ rest) = Ret rest.
Proof.
  destruct o as [p|ls]; cbn [owner_ok].
  - intros Hp. assert (E2 : owner_bytes (Pointer p) = [Z_byte (192 + p / 256); Z_byte p]).
    { cbn [owner_bytes be_bytes]. change (256 ^ Z.of_nat 1) with 256. change (256 ^ Z.of_nat 0) with 1. rewrite Z.div_1_r.
      replace ((49152 + p) / 256) with (192 + p / 256) by (rewrite (Z.add_comm 49152), (Z.add_comm 192); symmetry; apply (Z.div_add p 192 256); lia).
      f_equal. f_equal. apply byte_Z_inj. rewrite !byte_Z_byte. replace (49152 + p) with (p + 192 * 256) by lia. by rewrite Z.mod_add by lia. }
    rewrite E2. cbn [app skip_owner]. rewrite byte_Z_byte.
    assert (Hq : 0 <= p / 256 < 64) by (split; [apply Z.div_pos; lia|apply Z.div_lt_upper_bound; lia]).
    rewrite Z.mod_small by lia.
    by rewrite pointer_mask.
  - intros [Hne Hl]. destruct ls as [|l ls]; [done|]. cbn [owner_bytes]. pose proof (Forall_inv Hl) as Hl1.
    assert (Hs : 1 <= zlen l <= 63) by (destruct Hl1; unfold zlen; lia).
    pose proof (label_not_pointer (zlen l) ltac:(lia)) as Hm.
    transitivity (skip_labels (S (length (name_bytes (l :: ls) ++ rest))) (name_bytes (l :: ls) ++ rest)).
    + change (name_bytes (l :: ls)) with (((Z_byte (zlen l) :: l) ++ concat (map label_bytes ls)) ++ [Byte.x00]).
      cbn [app skip_owner]. by rewrite label_len, Hm.
    + apply skip_labels_name; [done|]. pose proof (name_length (l :: ls)). rewrite length_app. lia.
Qed.

(** ** Responses *)

Lemma be_Z_field n z rest : 0 <= z < 256 ^ Z.of_nat n -> be_Z (take n (be_bytes n z ++ rest)) = z.
Proof. intros Hz. rewrite take_app_length' by (by rewrite be_bytes_length). by rewrite be_Z_bytes, Z.mod_small. Qed.

Lemma drop_field n z rest : drop n (be_bytes n z ++ rest) = rest.
Proof. apply drop_app_length'. by rewrite be_bytes_length. Qed.

Lemma field_length n z rest : (n <= length (be_bytes n z ++ rest))%nat.
Proof. rewrite length_app, be_bytes_length. lia. Qed.

(** What follows an owner: its fields are found at their offsets. *)
Lemma read_record typ class ttl rdata rest (b := be_bytes 2 typ ++ be_bytes 2 class ++ be_bytes 4 ttl ++ be_bytes 2 (zlen rdata) ++ rdata ++ rest) :
  0 <= typ < 2 ^ 16 -> zlen rdata < 2 ^ 16 ->
  (10 <= length b)%nat /\ be_Z (take 2 b) = typ /\ be_Z (take 2 (drop 8 b)) = zlen rdata /\ drop 10 b = rdata ++ rest.
Proof.
  intros Ht Hd. subst b. assert (E8 : forall x, drop 8 (be_bytes 2 typ ++ be_bytes 2 class ++ be_bytes 4 ttl ++ x) = x).
  { intros x. rewrite !(app_assoc _ _ x), app_assoc. apply drop_app_length'. by rewrite !length_app, !be_bytes_length. }
  split_and!.
  - rewrite !length_app, !be_bytes_length. lia.
  - by apply be_Z_field.
  - rewrite E8. apply be_Z_field. split; [unfold zlen; lia|done].
  - change 10%nat with (8 + 2)%nat. by rewrite <- drop_drop, E8, drop_field.
Qed.

Lemma read_answers_rrs rrs rest answers : Forall rr_ok rrs ->
  read_answers (length rrs) (concat (map rr_bytes rrs) ++ rest) answers =
  Ret (answers ++ concat (map (fun r => rr_value (rrType r) (rrData r)) rrs)).
Proof.
  intros Hr. revert answers. induction Hr as [|r rrs (Ho & Ht & Hd) _ IH]; intros answers.
  { cbn. by rewrite app_nil_r. }
  cbn [length map concat read_answers]. pose proof (owner_length _ Ho) as Hlen.
  rewrite <- app_assoc. set (more := concat (map rr_bytes rrs) ++ rest) in *.
  replace (rr_bytes r ++ more) with (owner_bytes (rrOwner r) ++ be_bytes 2 (rrType r) ++ be_bytes 2 (rrClass r) ++
    be_bytes 4 (rrTTL r) ++ be_bytes 2 (zlen (rrData r)) ++ rrData r ++ more) by (unfold rr_bytes; by rewrite <- !app_assoc).
  destruct (read_record (rrType r) (rrClass r) (rrTTL r) (rrData r) more Ht Hd) as (H10 & E1 & E2 & E3).
  replace (_ <? 12)%nat with false by (symmetry; apply Nat.ltb_ge; rewrite length_app; lia).
  rewrite skip_owner_ok by done. cbn [mbind outcome_bind].
  replace (_ <? 10)%nat with false by (symmetry; apply Nat.ltb_ge; lia).
  rewrite E1, E2, E3. unfold zlen. rewrite Nat2Z.id.
  replace (_ <? _)%nat with false by (symmetry; apply Nat.ltb_ge; rewrite length_app; lia). cbn [guard].
  rewrite drop_app_length, take_app_length, IH. by rewrite app_assoc.
Qed.

(** What is left to do once the header is read. *)
Lemma parse_header id flags n ns ar tail : 0 <= flags < 2 ^ 16 -> 0 <= n < 2 ^ 16 ->
  parseAnswer (be_bytes 2 id ++ be_bytes 2 flags ++ be_bytes 2 1 ++ be_bytes 2 n ++ be_bytes 2 ns ++ be_bytes 2 ar ++ tail) =
  (rest ← skip_question (13 + length tail) tail;
   answers ← read_answers (Z.to_nat n) (drop 4 rest) [];
   Ret (answers, Z.land flags 15)).
Proof.
  intros Hf Hn. unfold parseAnswer.
  assert (E6 : forall x y z w, drop 6 (be_bytes 2 x ++ be_bytes 2 y ++ be_bytes 2 z ++ w) = w).
  { intros x y z w. rewrite !(app_assoc _ _ w), app_assoc. apply drop_app_length'. by rewrite !length_app, !be_bytes_length. }
  rewrite drop_field, be_Z_field, E6, be_Z_field by done. change (drop 12) with (drop (A:=byte) (6 + 6)).
  rewrite <- drop_drop, !E6, !length_app, !be_bytes_length. by replace (_ <? 12)%nat with false by (symmetry; apply Nat.ltb_ge; lia).
Qed.

(** A response whose answers are well-formed records is read as what they
    hold, whatever follows them. *)
Lemma parse_response id flags ns ar qname qtype qclass rrs rest :
  Forall label_ok qname -> Forall rr_ok rrs -> zlen rrs < 2 ^ 16 -> 0 <= flags < 2 ^ 16 ->
  parseAnswer (response id flags ns ar qname qtype qclass rrs rest) =
  Ret (concat (map (fun r => rr_value (rrType r) (rrData r)) rrs), Z.land flags 15).
Proof.
  intros Hq Hr Hn Hf. unfold response. rewrite parse_header by (done || (unfold zlen in *; lia)).
  rewrite skip_question_name by (done || (rewrite length_app; pose proof (name_length qname); lia)).
  cbn [mbind outcome_bind]. change 4%nat with (2 + 2)%nat. rewrite <- drop_drop, !drop_field.
  unfold zlen. by rewrite Nat2Z.id, read_answers_rrs.
Qed.

(** A name encodes when each of its labels has from 1 to 63 bytes, as its
    labels. *)
Lemma encode_labels_ret ls q : encode_labels ls = Ret q <-> Forall label_ok ls /\ q = name_bytes ls.
Proof.
  revert q. induction ls as [|l ls IH]; intros q; cbn [encode_labels].
  { split; [intros [= <-]; by split|]. by intros [_ ->]. }
  assert (Hg : ((length l =? 0)%nat || (63 <? length l)%nat) = false <-> label_ok l).
  { unfold label_ok. rewrite orb_false_iff, Nat.eqb_neq, Nat.ltb_ge. lia. }
  assert (En : name_bytes (l :: ls) = Z_byte (zlen l) :: l ++ name_bytes ls).
  { unfold name_bytes. cbn [map concat label_bytes app]. by rewrite <- app_assoc. }
  rewrite guard_ret, Hg, Forall_cons, En. split.
  - intros [Hl H]. apply bind_ret in H as (r & Hr & [= <-]). apply IH in Hr as [Hf ->]. done.
  - intros [[Hl Hf] ->]. split; [done|]. by rewrite (proj2 (IH _) (conj Hf eq_refl)).
Qed.

Lemma makeQuery_ret id name qtype q : makeQuery id name qtype = Ret q ->
  exists ls, Forall label_ok ls /\ q = be_bytes 2 id ++ [Byte.x00; Byte.x01; Byte.x00; Byte.x01] ++ replicate 6 Byte.x00 ++
    name_bytes ls ++ be_bytes 2 qtype ++ be_bytes 2 1.
Proof.
  intros H. apply bind_ret in H as (l & Hl & [= <-]). apply encode_labels_ret in Hl as [Hf ->]. by eexists.
Qed.


Example toy_rrs : list RR :=
  [{| rrOwner := Pointer 12; rrType := 1; rrClass := 1; rrTTL := 300; rrData := map Z_byte [10; 0; 0; 255] |};
   {| rrOwner := Labels [to_bytes "to"; to_bytes "example"]; rrType := 16; rrClass := 1; rrTTL := 60; rrData := label_bytes (to_bytes "v=to1") |};
   {| rrOwner := Pointer 12; rrType := 28; rrClass := 1; rrTTL := 60; rrData := replicate 16 Byte.x00 |}].


(** ** What a server can do to the probe *)

(** Each octet of a question or an owner moves the position on by its value:
    past the end, the question's loop returns an error and the owner's is an
    index out of range.  One datagram whose answer starts with a label longer
    than what is left stops the probe. *)
Lemma owner_past_end id name qtype q flags c junk :
  makeQuery id name qtype = Ret q -> 1 <= c < 192 -> 0 <= flags < 2 ^ 16 ->
  (11 <= length junk <= Z.to_nat c)%nat ->
  parseAnswer (take 2 q ++ be_bytes 2 flags ++ be_bytes 2 1 ++ be_bytes 2 1 ++ be_bytes 2 0 ++ be_bytes 2 0 ++
               drop 12 q ++ Z_byte c :: junk) = Panic.
Proof.
  intros Hq Hc Hf Hj. apply makeQuery_ret in Hq as (ls & Hls & ->).
  rewrite take_app_length' by (by rewrite be_bytes_length). change (drop 12) with (drop (A:=byte) (2 + 10)).
  rewrite <- drop_drop, drop_field. cbn [replicate app drop]. rewrite drop_0, <- !app_assoc, parse_header by done.
  rewrite skip_question_name by (done || (rewrite length_app; pose proof (name_length ls); lia)).
  cbn [mbind outcome_bind]. change 4%nat with (2 + 2)%nat. rewrite <- drop_drop, !drop_field.
  change (Z.to_nat 1) with 1%nat. cbn [read_answers length].
  replace (_ <? 12)%nat with false by (symmetry; apply Nat.ltb_ge; lia).
  cbn [skip_owner]. rewrite byte_Z_byte, Z.mod_small by lia.
  rewrite label_not_pointer by lia.
  cbn [skip_labels length]. rewrite byte_Z_byte, Z.mod_small by lia.
  replace (c =? 0) with false by (symmetry; apply Z.eqb_neq; lia). by rewrite drop_ge by lia.
Qed.

(** The second flag octet is the one that holds the response code: [0, 1] asks
    for no recursion (RD is the lowest bit of the first) and is FORMERR. *)
Lemma query_flags id name qtype q : makeQuery id name qtype = Ret q ->
  let flags := be_Z (take 2 (drop 2 q)) in
  Z.testbit flags 8 = false /\ rcodeName (Z.land flags 15) = "FORMERR"%string.
Proof.
  intros H. apply makeQuery_ret in H as (ls & _ & ->). cbn zeta. rewrite drop_field. by split.
Qed.

(** A TXT record of several strings: only the first loses its length octet. *)
Lemma txt_strings a b : rr_value 16 (label_bytes a ++ label_bytes b) = [a ++ label_bytes b].
Proof. done. Qed.
