(* ===== verification/Store.v ===== *)
(** * The gateway's store: [store.go]

    The state is a [World]: the store in memory, the data directory, every
    earlier state the directory went through (each file is replaced by a rename,
    so these are the states a crash can leave), and whether the store's mutex is
    held.  An operation is a function of the world that keeps what it changed
    when it fails or panics ([M]); waiting for a mutex that is held is
    [RBlocked].  The reads and writes of the directory themselves are taken to
    succeed, and tenant ids to be plain file names.

    The text of [gateway.json] and of a backup bundle is [encoding/json]'s over
    the structs below: an interface ([MetaText]) whose law is that what is
    written reads back.  Random draws, the clock and the order of each range
    over the map of tenants are arguments.

    StoreTheory.v proves what the store promises. *)
From Stdlib Require Import SpecFloat.
From S2P Require Import Prelude Crypto Encoding Json Float Timeline TimelineFile TrustState Graph.
From S2P Require Import Watchdog Shamir Pq Vault Auth Ratelimit Transport Fleet.

(** ** Data *)

Definition encMagic : bytes := to_bytes "TOENC1".
Definition auditCap : nat := Z.to_nat 5000.

(** The fusion rule's constants of the deployment. *)
Definition threshold : f64 := f64_of_Z 25.
Definition quorum : Z := 3.

Record AuditEntry := {
  aeTs : Z;
  aeUser : string;
  aeOrg : string;
  aeMethod : string;
  aePath : string;
  aeStatus : Z;
  aeDetails : string;
}.

(** The part of a tenant [gateway.json] holds. *)
Record TenantMeta := { tmID : string; tmName : string; tmCreated : Z; tmKeyHash : string }.

Record Tenant := {
  tMeta : TenantMeta;
  tTl : option Timeline;   (* nil while the tenant waits for the vault *)
  tFleet : FleetServer;
  tDetected : bool;
  tCounters : gmap string Z;
  tCtSize : Z;
  tCtRoot : slice;
}.

Record Webhook := { whID : string; whURL : string; whSecret : string; whEvents : list string; whActive : bool }.

Record webhookJob := {
  wjURL : string;
  wjSecret : string;
  wjEvents : string;
  wjBody : string;
  wjAttempts : Z;
  wjNextAt : Z;
}.

Record idemEntry := { ieStatus : Z; ieBody : bytes; ieTs : Z }.

Record Store := {
  sSealKey : bytes;
  sVault : option Vault;
  sUsers : gmap string User;
  sWebhooks : list Webhook;
  sTenants : gmap string Tenant;
  sCouncilPub : slice;
  sLogKey : slice;
  sAudit : list AuditEntry;
  sOutbox : option (list webhookJob);   (* nil until the first job *)
  sIdem : gmap string idemEntry;
  sLimiter : limiter;
}.

(** What [gateway.json] and a backup bundle hold. *)
Record Meta := {
  mUsers : gmap string User;
  mWebhooks : list Webhook;
  mTenants : gmap string TenantMeta;
  mCouncilPub : slice;
  mLogKey : slice;
}.
Record Bundle := { bVersion : Z; bGateway : option Meta; bTenants : gmap string bytes }.

Class MetaText := {
  print_meta : Meta -> bytes;
  parse_meta : bytes -> option Meta;
  print_bundle : Bundle -> bytes;
  parse_bundle : bytes -> option Bundle;
}.

(** Every string of it is UTF-8, and no slice is empty without being nil. *)
Definition utf8_user (u : User) : Prop :=
  valid_string (uID u) /\ valid_string (uRole u) /\ Forall valid_string (uOrgs u) /\
  Forall valid_string (uTokens u) /\
  map_Forall (fun h os => valid_string h /\ Forall valid_string os) (uTokenOrgs u).
Definition utf8_webhook (h : Webhook) : Prop :=
  valid_string (whID h) /\ valid_string (whURL h) /\ valid_string (whSecret h) /\ Forall valid_string (whEvents h).
Definition utf8_tenant (t : TenantMeta) : Prop :=
  valid_string (tmID t) /\ valid_string (tmName t) /\ in_int64 (tmCreated t) /\ valid_string (tmKeyHash t).
Record meta_text (m : Meta) : Prop := {
  mt_users : map_Forall (fun id u => valid_string id /\ utf8_user u) (mUsers m);
  mt_webhooks : Forall utf8_webhook (mWebhooks m);
  mt_tenants : map_Forall (fun id t => valid_string id /\ utf8_tenant t) (mTenants m);
  mt_council : mCouncilPub m <> Some [];
  mt_log : mLogKey m <> Some [];
}.

Class MetaTextLaws `{MT : MetaText} : Prop := {
  parse_print_meta m : meta_text m -> parse_meta (print_meta m) = Some m;
  (** a raw timeline is carried as a JSON value: its white space may change *)
  parse_print_bundle b : in_int64 (bVersion b) -> (forall m, bGateway b = Some m -> meta_text m) ->
    map_Forall (fun id r => valid_string id /\ is_Some (parse r)) (bTenants b) ->
    exists ts, parse_bundle (print_bundle b) =
        Some {| bVersion := bVersion b; bGateway := bGateway b; bTenants := ts |} /\
      dom ts = dom (bTenants b) /\
      forall id r r', bTenants b !! id = Some r -> ts !! id = Some r' -> parse r' = parse r;
}.

(** ** The data directory, and operations on the world *)

Record Disk := {
  dMeta : slice;                        (* gateway.json *)
  dSeal : slice;                        (* gateway.key *)
  dKeys : slice;                        (* gateway.keys *)
  dOutbox : slice;                      (* outbox.json *)
  dTimelines : gmap string bytes;       (* tenants/<id>/timeline.json *)
  dTrash : option (gmap string bytes);  (* trash/<name>/timeline.json; None: no such directory *)
  dBackups : gmap string bytes;         (* backups/<id>.json *)
}.

Definition emptyDisk : Disk :=
  {| dMeta := None; dSeal := None; dKeys := None; dOutbox := None; dTimelines := ∅; dTrash := None; dBackups := ∅ |}.

Record World := { mem : Store; disk : Disk; past : list Disk; locked : bool }.

Inductive res (A : Type) : Type := ROk (a : A) | RErr (e : error) | RPanic | RBlocked.
Arguments ROk {A} a.
Arguments RErr {A} e.
Arguments RPanic {A}.
Arguments RBlocked {A}.

Definition M (A : Type) : Type := World -> World * res A.

#[global] Instance M_ret : MRet M := fun A a w => (w, ROk a).
#[global] Instance M_bind : MBind M := fun A B f m w =>
  match m w with
  | (w, ROk a) => f a w
  | (w, RErr e) => (w, RErr e)
  | (w, RPanic) => (w, RPanic)
  | (w, RBlocked) => (w, RBlocked)
  end.

Definition lift {A} (o : outcome A) : M A := fun w =>
  match o with Ret a => (w, ROk a) | Err e => (w, RErr e) | Panic => (w, RPanic) end.
Definition fails {A} (e : error) : M A := fun w => (w, RErr e).
Definition panics {A} : M A := fun w => (w, RPanic).
Definition get : M Store := fun w => (w, ROk (mem w)).
Definition read_disk : M Disk := fun w => (w, ROk (disk w)).
Definition modify (f : Store -> Store) : M unit := fun w =>
  ({| mem := f (mem w); disk := disk w; past := past w; locked := locked w |}, ROk tt).
Definition write (f : Disk -> Disk) : M unit := fun w =>
  ({| mem := mem w; disk := f (disk w); past := disk w :: past w; locked := locked w |}, ROk tt).

(** [mu.Lock], [mu.Unlock], and [mu.Lock(); defer mu.Unlock()]. *)
Definition set_locked (b : bool) (w : World) : World :=
  {| mem := mem w; disk := disk w; past := past w; locked := b |}.
Definition lock : M unit := fun w => if locked w then (w, RBlocked) else (set_locked true w, ROk tt).
Definition unlock : M unit := fun w => (set_locked false w, ROk tt).
Definition with_lock {A} (m : M A) : M A := fun w =>
  match lock w with
  | (w, ROk _) => let '(w, r) := m w in (set_locked false w, r)
  | (w, _) => (w, RBlocked)
  end.

Fixpoint for_each {A} (l : list A) (f : A -> M unit) : M unit :=
  match l with
  | [] => mret tt
  | x :: l => f x ;; for_each l f
  end.

(** Run [m]; go on with its result, or with its error. *)
Definition catch {A B} (m : M A) (ok : A -> M B) (bad : error -> M B) : M B := fun w =>
  match m w with
  | (w, ROk a) => ok a w
  | (w, RErr e) => bad e w
  | (w, RPanic) => (w, RPanic)
  | (w, RBlocked) => (w, RBlocked)
  end.

(** Every state of the directory since the world began, the present one last. *)
Definition crash_points (w : World) : list Disk := rev (past w) ++ [disk w].

(** ** Field updates *)

Definition set_vault (v : option Vault) (s : Store) : Store :=
  {| sSealKey := sSealKey s; sVault := v; sUsers := sUsers s; sWebhooks := sWebhooks s; sTenants := sTenants s;
     sCouncilPub := sCouncilPub s; sLogKey := sLogKey s; sAudit := sAudit s; sOutbox := sOutbox s; sIdem := sIdem s;
     sLimiter := sLimiter s |}.
Definition set_keys (seal : bytes) (log : slice) (s : Store) : Store :=
  {| sSealKey := seal; sVault := sVault s; sUsers := sUsers s; sWebhooks := sWebhooks s; sTenants := sTenants s;
     sCouncilPub := sCouncilPub s; sLogKey := log; sAudit := sAudit s; sOutbox := sOutbox s; sIdem := sIdem s;
     sLimiter := sLimiter s |}.
Definition set_council (pub : slice) (s : Store) : Store :=
  {| sSealKey := sSealKey s; sVault := sVault s; sUsers := sUsers s; sWebhooks := sWebhooks s; sTenants := sTenants s;
     sCouncilPub := pub; sLogKey := sLogKey s; sAudit := sAudit s; sOutbox := sOutbox s; sIdem := sIdem s;
     sLimiter := sLimiter s |}.
Definition set_tenants (ts : gmap string Tenant) (s : Store) : Store :=
  {| sSealKey := sSealKey s; sVault := sVault s; sUsers := sUsers s; sWebhooks := sWebhooks s; sTenants := ts;
     sCouncilPub := sCouncilPub s; sLogKey := sLogKey s; sAudit := sAudit s; sOutbox := sOutbox s; sIdem := sIdem s;
     sLimiter := sLimiter s |}.
Definition set_users (us : gmap string User) (s : Store) : Store :=
  {| sSealKey := sSealKey s; sVault := sVault s; sUsers := us; sWebhooks := sWebhooks s; sTenants := sTenants s;
     sCouncilPub := sCouncilPub s; sLogKey := sLogKey s; sAudit := sAudit s; sOutbox := sOutbox s; sIdem := sIdem s;
     sLimiter := sLimiter s |}.
Definition set_webhooks (hs : list Webhook) (s : Store) : Store :=
  {| sSealKey := sSealKey s; sVault := sVault s; sUsers := sUsers s; sWebhooks := hs; sTenants := sTenants s;
     sCouncilPub := sCouncilPub s; sLogKey := sLogKey s; sAudit := sAudit s; sOutbox := sOutbox s; sIdem := sIdem s;
     sLimiter := sLimiter s |}.
Definition set_audit (l : list AuditEntry) (s : Store) : Store :=
  {| sSealKey := sSealKey s; sVault := sVault s; sUsers := sUsers s; sWebhooks := sWebhooks s; sTenants := sTenants s;
     sCouncilPub := sCouncilPub s; sLogKey := sLogKey s; sAudit := l; sOutbox := sOutbox s; sIdem := sIdem s;
     sLimiter := sLimiter s |}.
Definition set_outbox (o : option (list webhookJob)) (s : Store) : Store :=
  {| sSealKey := sSealKey s; sVault := sVault s; sUsers := sUsers s; sWebhooks := sWebhooks s; sTenants := sTenants s;
     sCouncilPub := sCouncilPub s; sLogKey := sLogKey s; sAudit := sAudit s; sOutbox := o; sIdem := sIdem s;
     sLimiter := sLimiter s |}.
Definition set_idem (i : gmap string idemEntry) (s : Store) : Store :=
  {| sSealKey := sSealKey s; sVault := sVault s; sUsers := sUsers s; sWebhooks := sWebhooks s; sTenants := sTenants s;
     sCouncilPub := sCouncilPub s; sLogKey := sLogKey s; sAudit := sAudit s; sOutbox := sOutbox s; sIdem := i;
     sLimiter := sLimiter s |}.
Definition set_limiter (l : limiter) (s : Store) : Store :=
  {| sSealKey := sSealKey s; sVault := sVault s; sUsers := sUsers s; sWebhooks := sWebhooks s; sTenants := sTenants s;
     sCouncilPub := sCouncilPub s; sLogKey := sLogKey s; sAudit := sAudit s; sOutbox := sOutbox s; sIdem := sIdem s;
     sLimiter := l |}.

Definition put_tenant (id : string) (t : Tenant) (s : Store) : Store := set_tenants (<[id := t]> (sTenants s)) s.

(** A tenant as it comes to life: a timeline, a new fleet, counters at zero. *)
Definition live_tenant (m : TenantMeta) (tl : option Timeline) : Tenant :=
  {| tMeta := m; tTl := tl; tFleet := NewFleet threshold quorum 0; tDetected := false; tCounters := ∅; tCtSize := 0;
     tCtRoot := None |}.
Definition set_tl (tl : option Timeline) (t : Tenant) : Tenant :=
  {| tMeta := tMeta t; tTl := tl; tFleet := tFleet t; tDetected := tDetected t; tCounters := tCounters t;
     tCtSize := tCtSize t; tCtRoot := tCtRoot t |}.
(** What [loadVaultedTenants] sets: timeline, fleet and counters. *)
Definition hydrate (tl : Timeline) (t : Tenant) : Tenant :=
  {| tMeta := tMeta t; tTl := Some tl; tFleet := NewFleet threshold quorum 0; tDetected := tDetected t;
     tCounters := ∅; tCtSize := tCtSize t; tCtRoot := tCtRoot t |}.

Definition dir_meta (b : bytes) (d : Disk) : Disk :=
  {| dMeta := Some b; dSeal := dSeal d; dKeys := dKeys d; dOutbox := dOutbox d; dTimelines := dTimelines d;
     dTrash := dTrash d; dBackups := dBackups d |}.
Definition dir_seal (b : bytes) (d : Disk) : Disk :=
  {| dMeta := dMeta d; dSeal := Some b; dKeys := dKeys d; dOutbox := dOutbox d; dTimelines := dTimelines d;
     dTrash := dTrash d; dBackups := dBackups d |}.
Definition dir_keys (b : bytes) (d : Disk) : Disk :=
  {| dMeta := dMeta d; dSeal := dSeal d; dKeys := Some b; dOutbox := dOutbox d; dTimelines := dTimelines d;
     dTrash := dTrash d; dBackups := dBackups d |}.
Definition dir_outbox (b : bytes) (d : Disk) : Disk :=
  {| dMeta := dMeta d; dSeal := dSeal d; dKeys := dKeys d; dOutbox := Some b; dTimelines := dTimelines d;
     dTrash := dTrash d; dBackups := dBackups d |}.
Definition dir_timelines (f : gmap string bytes) (tr : option (gmap string bytes)) (d : Disk) : Disk :=
  {| dMeta := dMeta d; dSeal := dSeal d; dKeys := dKeys d; dOutbox := dOutbox d; dTimelines := f;
     dTrash := tr; dBackups := dBackups d |}.
Definition dir_backup (id : string) (b : bytes) (d : Disk) : Disk :=
  {| dMeta := dMeta d; dSeal := dSeal d; dKeys := dKeys d; dOutbox := dOutbox d; dTimelines := dTimelines d;
     dTrash := dTrash d; dBackups := <[id := b]> (dBackups d) |}.

(** ** The outbox file *)

Definition job_json (j : webhookJob) : json :=
  JObj [jfield "url" (jstring (wjURL j)); jfield "secret" (jstring (wjSecret j)); jfield "events" (jstring (wjEvents j));
        jfield "body" (jstring (wjBody j)); jfield "attempts" (jint (wjAttempts j)); jfield "next_at" (jint (wjNextAt j))].
Definition job_names : list string := ["url"; "secret"; "events"; "body"; "attempts"; "next_at"]%string.
Definition job_zero : webhookJob :=
  {| wjURL := ""; wjSecret := ""; wjEvents := ""; wjBody := ""; wjAttempts := 0; wjNextAt := 0 |}.
Definition job_set (n : string) (v : json) (j : webhookJob) : option webhookJob :=
  let '{| wjURL := u; wjSecret := s; wjEvents := e; wjBody := b; wjAttempts := a; wjNextAt := t |} := j in
  let mk u s e b a t :=
    Some {| wjURL := u; wjSecret := s; wjEvents := e; wjBody := b; wjAttempts := a; wjNextAt := t |} in
  if decide (n = "url"%string) then u ← decode_string u v; mk u s e b a t
  else if decide (n = "secret"%string) then s ← decode_string s v; mk u s e b a t
  else if decide (n = "events"%string) then e ← decode_string e v; mk u s e b a t
  else if decide (n = "body"%string) then b ← decode_string b v; mk u s e b a t
  else if decide (n = "attempts"%string) then a ← decode_int64 a v; mk u s e b a t
  else t ← decode_int64 t v; mk u s e b a t.
Definition outbox_unmarshal (b : bytes) : option (list webhookJob) :=
  v ← parse b; decode_list (decode_struct job_names job_set job_zero) v.
Definition outbox_marshal (l : list webhookJob) : bytes := print (JArr (map job_json l)).

(** A file that is absent or does not decode is ignored. *)
Definition loadOutbox : M unit :=
  d ← read_disk;
  match dOutbox d with
  | None => mret tt
  | Some b =>
      match outbox_unmarshal b with
      | Some l => modify (set_outbox (Some l))
      | None => mret tt
      end
  end.

Definition saveOutboxLocked : M unit :=
  s ← get;
  match sOutbox s with
  | None => mret tt
  | Some l => write (dir_outbox (outbox_marshal l))
  end.

Section store.
Context `{Hashes} `{Ed25519} `{Symmetric} `{MetaText}.

(** ** Sealing one file *)

Definition seal (key plain : bytes) (nonce : option bytes) : outcome bytes :=
  guard (negb (aes_key_ok key)) "crypto/aes: invalid key size" (
  nonce ← of_option "rand" nonce;
  Ret (encMagic ++ nonce ++ gcm_seal key nonce plain)).

(** [blob[6:18]] panics on a file shorter than magic and nonce. *)
Definition openSealed (key blob : bytes) : outcome bytes :=
  guard (negb (length key =? 32)%nat) "store: timeline is sealed but no seal key (gateway.key)" (
  if (length blob <? 18)%nat then Panic
  else of_option "cipher: message authentication failed"
         (gcm_open key (take 12 (drop 6 blob)) (drop 18 blob))).

Definition errVaultUnlocked : error :=
  "store: tenant is vault-sealed but no vault is unlocked (start the gateway with -kek-shares)".

(** The timeline in a tenant file, under a seal key and perhaps a vault. *)
Definition open_tenant (sealKey : bytes) (v : option Vault) (id : string) (b : bytes) : outcome Timeline :=
  if has_prefix b vaultMagic then
    match v with
    | None => Err errVaultUnlocked
    | Some v =>
        match Open v id b with
        | Ret raw => UnmarshalTimeline raw
        | Err _ => Err "store: vault open: %w"
        | Panic => Panic
        end
    end
  else if negb (has_prefix b encMagic) then UnmarshalTimeline b
  else raw ← openSealed sealKey b; UnmarshalTimeline raw.

Definition loadTenantTimeline (id : string) : M Timeline :=
  s ← get; d ← read_disk;
  match dTimelines d !! id with
  | None => fails "open: no such file or directory"
  | Some b => lift (open_tenant (sSealKey s) (sVault s) id b)
  end.

(** ** Saving *)

Definition meta_of (s : Store) : Meta :=
  {| mUsers := sUsers s; mWebhooks := sWebhooks s; mTenants := tMeta <$> sTenants s; mCouncilPub := sCouncilPub s;
     mLogKey := sLogKey s |}.

Definition save_meta_of (s : Store) : M unit := write (dir_meta (print_meta (meta_of s))).
Definition saveMeta : M unit := s ← get; save_meta_of s.

(** The draws that seal one tenant's file. *)
Record FileDraws := { fdVault : SealDraws; fdNonce : option bytes }.

Definition seal_file (s : Store) (id : string) (b : bytes) (d : FileDraws) : outcome bytes :=
  match sVault s with
  | Some v => Seal v id b (fdVault d)
  | None => if (length (sSealKey s) =? 32)%nat then seal (sSealKey s) b (fdNonce d) else Ret b
  end.

Definition put_file (id : string) (b : bytes) (d : Disk) : Disk :=
  dir_timelines (<[id := b]> (dTimelines d)) (dTrash d) d.

Definition save_blob_of (s : Store) (id : string) (b : bytes) (d : FileDraws) : M unit :=
  b ← lift (seal_file s id b d); write (put_file id b).
Definition saveTenantBlob (id : string) (b : bytes) (d : FileDraws) : M unit := s ← get; save_blob_of s id b d.

(** A tenant without its timeline is a nil pointer. *)
Definition save_tenant_of (s : Store) (t : Tenant) (d : FileDraws) : M unit :=
  match tTl t with
  | None => panics
  | Some tl => save_blob_of s (tmID (tMeta t)) (Marshal tl true) d
  end.
Definition saveTenant (t : Tenant) (d : FileDraws) : M unit := s ← get; save_tenant_of s t d.

(** ** Loading the directory *)

Definition stamp (council : slice) (tl : Timeline) : Timeline :=
  if (length (sb council) =? PublicKeySize)%nat && (length (sb (CouncilPub tl)) =? 0)%nat
  then SetCouncilPub tl (sb council) else tl.

Definition load_tenant (id : string) : M unit :=
  s ← get;
  match sTenants s !! id with
  | None => mret tt
  | Some t =>
      catch (loadTenantTimeline id)
        (fun tl => modify (put_tenant id (live_tenant (tMeta t) (Some (stamp (sCouncilPub s) tl)))))
        (fun e =>
          if decide (e = errVaultUnlocked) then modify (put_tenant id (live_tenant (tMeta t) None))
          else fails "store: tenant %s: %w")
  end.

Definition emptyStore : Store :=
  {| sSealKey := []; sVault := None; sUsers := ∅; sWebhooks := []; sTenants := ∅; sCouncilPub := None; sLogKey := None;
     sAudit := []; sOutbox := None; sIdem := ∅; sLimiter := newLimiter apiRate apiBurst |}.

Definition of_meta (m : Meta) (s : Store) : Store :=
  {| sSealKey := sSealKey s; sVault := sVault s; sUsers := mUsers m; sWebhooks := mWebhooks m;
     sTenants := (fun t => live_tenant t None) <$> mTenants m; sCouncilPub := mCouncilPub m; sLogKey := mLogKey m;
     sAudit := sAudit s; sOutbox := sOutbox s; sIdem := sIdem s; sLimiter := sLimiter s |}.

Definition load_seal_key (draw : option bytes) : M unit :=
  d ← read_disk;
  let k := sb (dSeal d) in
  if negb (length k =? 32)%nat then
    k ← lift (of_option "rand" draw);
    modify (set_keys k None);; write (dir_seal k)
  else modify (set_keys k None).

Definition load_gateway (order : list string -> list string) : M unit :=
  d ← read_disk;
  match dMeta d with
  | None => mret tt
  | Some b =>
      match parse_meta b with
      | None => fails "store: corrupt gateway.json: %w"
      | Some m =>
          modify (of_meta m);; loadOutbox;;
          for_each (order (map fst (map_to_list (mTenants m)))) load_tenant
      end
  end.

Definition load_log_key (draw : option bytes) : M unit :=
  s ← get;
  if negb (length (sb (sLogKey s)) =? SeedSize)%nat then
    k ← lift (of_option "rand" draw);
    modify (set_keys (sSealKey s) (Some k));; saveMeta
  else mret tt.

(** The world at start: nothing in memory, the directory as it is. *)
Definition booting (d : Disk) : World := {| mem := emptyStore; disk := d; past := []; locked := false |}.

Definition NewStore (order : list string -> list string) (sealDraw logDraw : option bytes) : M unit :=
  load_seal_key sealDraw;; load_gateway order;; load_log_key logDraw.

(** ** Operations *)

Definition set_anchor (pub : bytes) : M unit := with_lock (modify (set_council (clone pub));; saveMeta).
Definition CouncilPublicKey : M slice := with_lock (s ← get; mret (clone (sb (sCouncilPub s)))).

Definition CreateTenant (id name : string) (key : option bytes) (now : Z) (d : FileDraws) : M Tenant :=
  with_lock (
    s ← get;
    match sTenants s !! id with
    | Some _ => fails "tenant %q exists"
    | None =>
        key ← lift (of_option "rand" key);
        tl ← lift (NewTimeline (Some key));
        let tl := if (length (sb (sCouncilPub s)) =? PublicKeySize)%nat then SetCouncilPub tl (sb (sCouncilPub s)) else tl in
        let t := live_tenant {| tmID := id; tmName := name; tmCreated := now; tmKeyHash := sha256Hex (take 32 key) |} (Some tl) in
        modify (put_tenant id t);; saveTenant t d;; saveMeta;; mret t
    end).

Definition trash_name (id : string) (now : Z) : string := (id ++ "-" ++ of_bytes (dec_Z now))%string.

(** [os.Rename] into [trash/]: it fails when that directory does not exist,
    when the source does not, and when the target is taken. *)
Definition move_to_trash (id : string) (now : Z) : M unit :=
  d ← read_disk;
  match dTrash d, dTimelines d !! id with
  | Some tr, Some b =>
      match tr !! trash_name id now with
      | Some _ => fails "rename: file exists"
      | None => write (dir_timelines (delete id (dTimelines d)) (Some (<[trash_name id now := b]> tr)))
      end
  | _, _ => fails "rename: no such file or directory"
  end.

Definition DeleteTenant (id : string) (now : Z) : M unit :=
  with_lock (
    s ← get;
    match sTenants s !! id with
    | None => fails "no such tenant %q"
    | Some _ => modify (set_tenants (delete id (sTenants s)));; move_to_trash id now;; saveMeta
    end).

Definition push_audit (l : list AuditEntry) (e : AuditEntry) : list AuditEntry :=
  let l := l ++ [e] in
  if (auditCap <? length l)%nat then drop (length l - auditCap) l else l.
Definition Audit (e : AuditEntry) : M unit := with_lock (modify (fun s => set_audit (push_audit (sAudit s) e) s)).

Definition audit_match (org user method : string) (since until : Z) (e : AuditEntry) : bool :=
  negb (negb (bool_decide (org = ""%string)) && negb (bool_decide (aeOrg e = org))) &&
  negb (negb (bool_decide (user = ""%string)) && negb (bool_decide (aeUser e = user))) &&
  negb (negb (bool_decide (method = ""%string)) && negb (bool_decide (aeMethod e = method))) &&
  negb ((0 <? since) && (aeTs e <? since) || (0 <? until) && (until <? aeTs e)).
Definition last_n {A} (limit : Z) (l : list A) : list A :=
  if (0 <? limit) && (limit <? zlen l) then drop (length l - Z.to_nat limit) l else l.
Definition SearchAudit (org user method : string) (since until limit : Z) : M (list AuditEntry) :=
  with_lock (s ← get; mret (last_n limit (List.filter (audit_match org user method since until) (sAudit s)))).

(** ** Vault sessions *)

Definition reSealAllTenants (order : list string -> list string) (draws : string -> FileDraws) : M unit :=
  s ← get;
  match sVault s with
  | None => mret tt
  | Some _ =>
      for_each (order (map fst (map_to_list (sTenants s)))) (fun id =>
        match sTenants s !! id with Some t => saveTenant t (draws id) | None => mret tt end)
  end.

Definition load_vaulted (id : string) : M unit :=
  s ← get;
  match sTenants s !! id with
  | None => mret tt
  | Some t =>
      match tTl t with
      | Some _ => mret tt
      | None =>
          catch (loadTenantTimeline id)
            (fun tl => modify (put_tenant id (hydrate (stamp (sCouncilPub s) tl) t)))
            (fun _ => fails "store: tenant %s (vault): %w")
      end
  end.
Definition loadVaultedTenants (order : list string -> list string) : M unit :=
  s ← get; for_each (order (map fst (map_to_list (sTenants s)))) load_vaulted.

(** The vault of [gateway.keys], or a new one, written there, on first boot. *)
Definition unlock_keys (kek : bytes) (dek nonce : option bytes) : M Vault :=
  d ← read_disk;
  match dKeys d with
  | Some b => lift (readVaultKeyFile b kek)
  | None =>
      v ← lift (NewVault dek);
      b ← lift (writeVaultKeyFile nonce kek v);
      write (dir_keys b);; mret v
  end.

Definition UnlockVault (shares : list (option Shard)) (dek nonce : option bytes)
    (order order' : list string -> list string) (draws : string -> FileDraws) : M unit :=
  match JoinKEK shares with
  | Ret kek =>
      with_lock (
        v ← unlock_keys kek dek nonce;
        modify (set_vault (Some v));;
        loadVaultedTenants order;; reSealAllTenants order' draws)
  | Err _ => fails "vault: unwrap session: %w"
  | Panic => panics
  end.

(** [s.vault.Epoch + 1] on an unsigned 64-bit epoch. *)
Definition next_epoch (v nv : Vault) : Vault := {| DEK := DEK nv; Epoch := u64 (Epoch v + 1) |}.

Definition RotateVault (shares : list (option Shard)) (dek nonce : option bytes)
    (order order' : list string -> list string) (draws : string -> FileDraws) : M unit :=
  match JoinKEK shares with
  | Ret kek =>
      with_lock (
        s ← get;
        match sVault s with
        | None => fails "vault: no active vault (gateway booted without -kek-shares)"
        | Some v =>
            nv ← lift (NewVault dek);
            let nv := next_epoch v nv in
            b ← lift (writeVaultKeyFile nonce kek nv);
            write (dir_keys b);;
            modify (set_vault (Some nv));;
            loadVaultedTenants order;; reSealAllTenants order' draws
        end)
  | Err _ => fails "vault: unwrap session: %w"
  | Panic => panics
  end.

(** ** Backup and restore *)

Fixpoint marshal_all (ts : list (string * Tenant)) : outcome (gmap string bytes) :=
  match ts with
  | [] => Ret ∅
  | (id, t) :: ts =>
      match tTl t with
      | None => Panic
      | Some tl => m ← marshal_all ts; Ret (<[id := Marshal tl true]> m)
      end
  end.
Definition Backup : M bytes :=
  with_lock (
    s ← get;
    ts ← lift (marshal_all (map_to_list (sTenants s)));
    mret (print_bundle {| bVersion := 1; bGateway := Some (meta_of s); bTenants := ts |})).

(** One timeline of a bundle: it must parse and verify. *)
Definition restore_tenant (gw : Meta) (id : string) (raw : bytes) : outcome Tenant :=
  match UnmarshalTimeline raw with
  | Ret tl =>
      ok ← Verify tl;
      if negb ok then Err "restore: tenant %s timeline failed verification"
      else
        let m := match mTenants gw !! id with
                 | Some m => m
                 | None => {| tmID := id; tmName := id; tmCreated := 0; tmKeyHash := "" |}
                 end in
        Ret (live_tenant m (Some tl))
  | Err _ => Err "restore: tenant %s timeline: %w"
  | Panic => Panic
  end.
Fixpoint restore_all (gw : Meta) (raws : list (string * bytes)) (acc : gmap string Tenant) : outcome (gmap string Tenant) :=
  match raws with
  | [] => Ret acc
  | (id, raw) :: raws => t ← restore_tenant gw id raw; restore_all gw raws (<[id := t]> acc)
  end.

(** The tenants of a bundle are visited, and saved, in the orders given. *)
Definition Restore (b : bytes) (order : list (string * bytes) -> list (string * bytes))
    (order' : list string -> list string) (draws : string -> FileDraws) : M unit :=
  match parse_bundle b with
  | None => fails "restore: not a backup bundle: %w"
  | Some bu =>
      match bGateway bu with
      | None => fails "restore: unsupported bundle version %d"
      | Some gm =>
          if negb (bVersion bu =? 1) then fails "restore: unsupported bundle version %d"
          else
            s ← get;
            nt ← lift (restore_all gm (order (map_to_list (bTenants bu))) ∅);
            let gw := set_tenants nt (of_meta gm (set_vault (sVault s) (set_keys (sSealKey s) None emptyStore))) in
            save_meta_of gw;;
            for_each (order' (map fst (map_to_list nt))) (fun id =>
              match nt !! id with Some t => save_tenant_of gw t (draws id) | None => mret tt end);;
            with_lock (modify (fun s => set_tenants (sTenants gw) (set_webhooks (sWebhooks gw) (set_users (sUsers gw) s))))
      end
  end.

End store.
