(* ===== verification/StoreTheory.v ===== *)
(** * What the gateway's store keeps: theorems about Store.v

    A world reached by the operations that succeed is in step with its
    directory: a restart, with an unwrap session when there is a vault, brings
    back every tenant's timeline.  The rest: the audit ring, what a restore
    checks, and three ways the store loses something - a crash in the middle of
    a key rotation, the deletion of a tenant, and the watchers of a restored or
    unlocked tenant. *)
From Stdlib Require Import SpecFloat.
From S2P Require Import Prelude Crypto Encoding Json Float Timeline TimelineTheory TimelineFile.
From S2P Require Import TrustState Graph Watchdog Identity Shamir Pq Vault Auth Ratelimit Transport.
From S2P Require Import Fleet Store.

(** ** Running the monad *)

Lemma M_bind_ok {A B} (m : M A) (f : A -> M B) w w' b :
  (m ≫= f) w = (w', ROk b) <-> exists w1 a, m w = (w1, ROk a) /\ f a w1 = (w', ROk b).
Proof.
  unfold mbind, M_bind. destruct (m w) as [w1 [a|e| |]]; split; try naive_solver.
Qed.

Lemma lift_ok {A} (o : outcome A) w w' a : lift o w = (w', ROk a) <-> o = Ret a /\ w' = w.
Proof. unfold lift. destruct o; naive_solver. Qed.

Lemma catch_ok {A B} (m : M A) (ok : A -> M B) bad w w' b :
  catch m ok bad w = (w', ROk b) <->
  (exists w1 a, m w = (w1, ROk a) /\ ok a w1 = (w', ROk b)) \/ (exists w1 e, m w = (w1, RErr e) /\ bad e w1 = (w', ROk b)).
Proof. unfold catch. destruct (m w) as [w1 [a|e| |]]; naive_solver. Qed.

Lemma with_lock_ok {A} (m : M A) w w' a :
  with_lock m w = (w', ROk a) <-> locked w = false /\ exists w1, m (set_locked true w) = (w1, ROk a) /\ w' = set_locked false w1.
Proof.
  unfold with_lock, lock. destruct (locked w); [naive_solver|].
  destruct (m (set_locked true w)) as [w1 r]. naive_solver.
Qed.

Lemma for_each_inv {A} (P : World -> Prop) (l : list A) f :
  (forall x w w', x ∈ l -> P w -> f x w = (w', ROk tt) -> P w') ->
  forall w w', for_each l f w = (w', ROk tt) -> P w -> P w'.
Proof.
  intros Hf. induction l as [|x l IH]; intros w w' E Hw; cbn [for_each] in E; [by injection E as <-|].
  apply M_bind_ok in E as (w1 & [] & E1 & E2). eapply IH; [|exact E2|].
  - intros y v v' Hy. apply Hf. set_solver.
  - eapply Hf; [|exact Hw|exact E1]. set_solver.
Qed.

(** A loop that comes to [x], where it establishes [Q] and never loses it. *)
Lemma for_each_hits {A} (P Q : World -> Prop) (l : list A) f x :
  x ∈ l ->
  (forall y w w', y ∈ l -> P w -> f y w = (w', ROk tt) -> P w' /\ (Q w -> Q w')) ->
  (forall w w', P w -> f x w = (w', ROk tt) -> Q w') ->
  forall w w', for_each l f w = (w', ROk tt) -> P w -> Q w'.
Proof.
  intros Hx Hp Hq. induction l as [|y l IH]; intros w w' E Hw; [by apply elem_of_nil in Hx|].
  cbn [for_each] in E. apply M_bind_ok in E as (w1 & [] & E1 & E2).
  destruct (Hp y w w1 ltac:(set_solver) Hw E1) as [Hw1 _]. apply elem_of_cons in Hx as [->|Hx].
  - apply (for_each_inv (fun w => P w /\ Q w) l f) in E2; [tauto| |split; [done|exact (Hq _ _ Hw E1)]].
    intros z v v' Hz [Hv Hv'] Ez. destruct (Hp z v v' ltac:(set_solver) Hv Ez). auto.
  - eapply IH; [done| |exact E2|done]. intros z v v' Hz. apply Hp. set_solver.
Qed.

(** Invert a successful run. *)
Ltac run_ok :=
  repeat match goal with
  | H : mbind _ _ _ = (_, ROk _) |- _ => apply M_bind_ok in H as (? & ? & ? & H)
  | H : lift _ _ = (_, ROk _) |- _ => apply lift_ok in H as [H ->]
  | H : get _ = (_, ROk _) |- _ => injection H as ? ?; subst
  | H : read_disk _ = (_, ROk _) |- _ => injection H as ? ?; subst
  | H : modify _ _ = (_, ROk _) |- _ => injection H as ?; subst
  | H : write _ _ = (_, ROk _) |- _ => injection H as ?; subst
  | H : fails _ _ = (_, ROk _) |- _ => discriminate H
  | H : panics _ = (_, ROk _) |- _ => discriminate H
  | H : mret _ _ = (_, ROk _) |- _ => injection H as ? ?; subst
  | H : (_, ROk _) = (_, ROk _) |- _ => injection H as ? ?; subst
  | x : unit |- _ => destruct x
  end.

(** ** The audit ring *)

Lemma last_cut {A} (l : list A) (e : A) (c : nat) :
  let d := drop (length l - c) l ++ [e] in
  (if (c <? length d)%nat then drop (length d - c) d else d) = drop (length (l ++ [e]) - c) (l ++ [e]).
Proof.
  cbv zeta. rewrite !length_app, length_drop. cbn [length].
  destruct (Nat.ltb_spec c (length l - (length l - c) + 1)) as [Hl|Hl].
  - rewrite <- (drop_app_le l [e]) by lia. rewrite drop_drop. f_equal. lia.
  - replace (length l - c)%nat with 0%nat by lia. by replace (length l + 1 - c)%nat with 0%nat by lia.
Qed.

Lemma push_audit_last l e :
  push_audit (drop (length l - auditCap) l) e = drop (length (l ++ [e]) - auditCap) (l ++ [e]).
Proof. apply last_cut. Qed.

(** The audit ring holds the last 5000 entries: after any number of actions
    from an empty ring it is the history cut to its last [auditCap], so it never
    grows past that and drops only the oldest; and a search answers the matching
    entries of that window in order, the newest [limit] of them. *)
Theorem audit_ring w es :
  locked w = false -> sAudit (mem w) = [] ->
  exists w', for_each es Audit w = (w', ROk tt) /\
    sAudit (mem w') = drop (length es - auditCap) es /\ (length (sAudit (mem w')) <= auditCap)%nat /\
    forall org user method since until limit, 0 < limit ->
      exists out, snd (SearchAudit org user method since until limit w') = ROk out /\
        out `suffix_of` List.filter (audit_match org user method since until) (drop (length es - auditCap) es) /\
        zlen out = Z.min limit (zlen (List.filter (audit_match org user method since until) (drop (length es - auditCap) es))).
Proof.
  intros Hl Ha.
  assert (exists w', for_each es Audit w = (w', ROk tt) /\ sAudit (mem w') = drop (length es - auditCap) es /\ locked w' = false)
    as (w' & E & Hes & Hl').
  { assert (Hgen : forall es pre w, locked w = false -> sAudit (mem w) = drop (length pre - auditCap) pre ->
      exists w', for_each es Audit w = (w', ROk tt) /\
        sAudit (mem w') = drop (length (pre ++ es) - auditCap) (pre ++ es) /\ locked w' = false).
    { clear. induction es as [|e es IH]; intros pre w Hl Hp.
      - exists w. by rewrite app_nil_r.
      - cbn [for_each].
        edestruct (IH (pre ++ [e]) (set_locked false (fst (modify (fun s => set_audit (push_audit (sAudit s) e) s) (set_locked true w)))))
          as (w' & E & Hw & Hl'); [done| |].
        + cbn. rewrite Hp. apply push_audit_last.
        + exists w'. rewrite <- app_assoc in Hw. split; [|done]. unfold mbind, M_bind, Audit, with_lock, lock. rewrite Hl. exact E. }
    destruct (Hgen es [] w Hl) as (w' & E & Hes & Hl'); [by rewrite Ha|]. by exists w'. }
  exists w'. split; [done|]. split; [done|]. split; [rewrite Hes, length_drop; clear; generalize auditCap; lia|].
  intros org user method since until limit Hpos. unfold SearchAudit, with_lock, lock. rewrite Hl'. unfold get, mret, M_ret, mbind, M_bind. cbn [set_locked mem fst snd]. rewrite Hes.
  set (l := List.filter _ _). eexists. split; [done|]. unfold last_n. replace (0 <? limit) with true by (symmetry; by apply Z.ltb_lt).
  cbn [andb]. unfold zlen. destruct (Z.ltb_spec limit (Z.of_nat (length l))).
  - split; [apply suffix_drop|]. rewrite length_drop. lia.
  - split; [done|lia].
Qed.

(** ** One file *)

Section store.
Context `{HashLaws} `{Ed25519} `{SymmetricLaws} `{MetaTextLaws}.

(** Draws of the right sizes. *)
Definition drawn_file (d : FileDraws) : Prop :=
  (exists dk n1 n2, drawn (fdVault d) dk n1 n2) /\ exists n, fdNonce d = Some n /\ length n = 12%nat.

Definition vaulted (v : option Vault) : bool := match v with Some _ => true | None => false end.

(** A sealed file opens to what was sealed, and shows whether a vault sealed it. *)
Lemma seal_file_opens s id b d :
  drawn_file d -> length (sSealKey s) = 32%nat -> (forall v, sVault s = Some v -> vault_ok v) ->
  exists file, seal_file s id b d = Ret file /\ has_prefix file vaultMagic = vaulted (sVault s) /\
    open_tenant (sSealKey s) (sVault s) id file = UnmarshalTimeline b.
Proof.
  intros [(dk & n1 & n2 & Hd) (n & En & Hn)] Hk Hv. unfold seal_file. destruct (sVault s) as [v|].
  - specialize (Hv v eq_refl). destruct (Seal_shape v id b _ _ _ _ Hd) as (box & data & Es & Hl & Hb & Hp).
    exists (vaultMagic ++ epoch_bytes (Epoch v) ++ box ++ data). split; [done|].
    assert (Hpre : has_prefix (vaultMagic ++ epoch_bytes (Epoch v) ++ box ++ data) vaultMagic = true) by apply has_prefix_app.
    split; [done|]. unfold open_tenant. rewrite Hpre, Open_pieces by (done || apply Hv). rewrite Z.eqb_refl. cbn [negb guard].
    by rewrite Hb, Hp.
  - rewrite Hk. cbn [Nat.eqb]. unfold seal, aes_key_ok. rewrite Hk, En. cbn [Nat.eqb orb negb guard of_option mbind outcome_bind].
    eexists. split; [done|]. split; [reflexivity|]. unfold open_tenant.
    change (has_prefix (encMagic ++ n ++ gcm_seal (sSealKey s) n b) vaultMagic) with false.
    rewrite has_prefix_app. cbn [negb]. unfold openSealed. rewrite Hk. cbn [Nat.eqb negb guard].
    rewrite !length_app, gcm_seal_length, Hn. change (length encMagic) with 6%nat.
    replace (6 + (12 + (length b + 16)) <? 18)%nat with false by (symmetry; apply Nat.ltb_ge; lia).
    rewrite (drop_app_length' encMagic) by done. rewrite take_app_length' by done.
    rewrite (app_assoc encMagic), drop_app_length' by (by rewrite length_app, Hn). by rewrite gcm_open_seal.
Qed.

(** What a timeline is after its file. *)
Definition stored (t : Timeline) : Timeline :=
  {| events := events t; tkey := tkey t; tpub := tpub t; tstart := Some (startPub t); councilPub := councilPub t;
     rotations := []; algo := algo t |}.

Lemma stored_file t : storable t -> UnmarshalTimeline (Marshal t true) = Ret (stored t).
Proof. apply Unmarshal_Marshal. Qed.

(** ** A world in step with its directory *)

(** The file of a live tenant. *)
Record on_disk (seal : bytes) (v : option Vault) (d : Disk) (id : string) (t : Tenant) (tl : Timeline) (file : bytes) : Prop := {
  od_id : tmID (tMeta t) = id;
  od_tl : tTl t = Some tl;
  od_storable : storable tl;
  od_file : dTimelines d !! id = Some file;
  od_magic : has_prefix file vaultMagic = vaulted v;
  od_open : open_tenant seal v id file = Ret (stored tl);
}.

Definition keys_on_disk (v : option Vault) (kek : bytes) (d : Disk) : Prop :=
  match v with
  | None => dKeys d = None
  | Some v => vault_ok v /\ exists b, dKeys d = Some b /\ readVaultKeyFile b kek = Ret v
  end.

Lemma keys_same v kek d d' : dKeys d' = dKeys d -> keys_on_disk v kek d -> keys_on_disk v kek d'.
Proof. unfold keys_on_disk. by intros ->. Qed.

Record Persisted (kek : bytes) (w : World) : Prop := {
  pe_locked : locked w = false;
  pe_seal : length (sSealKey (mem w)) = 32%nat /\ dSeal (disk w) = Some (sSealKey (mem w));
  pe_meta : dMeta (disk w) = Some (print_meta (meta_of (mem w)));
  pe_text : meta_text (meta_of (mem w));
  pe_log : length (sb (sLogKey (mem w))) = SeedSize;
  pe_keys : keys_on_disk (sVault (mem w)) kek (disk w);
  pe_trash : dTrash (disk w) = None;
  pe_tenants : forall id t, sTenants (mem w) !! id = Some t ->
    exists tl file, on_disk (sSealKey (mem w)) (sVault (mem w)) (disk w) id t tl file;
}.

Lemma pe_vault kek w v : Persisted kek w -> sVault (mem w) = Some v -> vault_ok v.
Proof. intros Hp E. pose proof (pe_keys _ _ Hp) as Hk. rewrite E in Hk. apply Hk. Qed.

(** Saving a tenant writes its file, and nothing else. *)
Lemma save_tenant_writes s t d tl w :
  tTl t = Some tl -> storable tl -> drawn_file d -> length (sSealKey s) = 32%nat ->
  (forall v, sVault s = Some v -> vault_ok v) ->
  exists file, save_tenant_of s t d w = write (put_file (tmID (tMeta t)) file) w /\
    has_prefix file vaultMagic = vaulted (sVault s) /\
    open_tenant (sSealKey s) (sVault s) (tmID (tMeta t)) file = Ret (stored tl).
Proof.
  intros Et Hs Hd Hk Hv. destruct (seal_file_opens s (tmID (tMeta t)) (Marshal tl true) d Hd Hk Hv) as (file & Ef & Hm & Ho).
  exists file. unfold save_tenant_of, save_blob_of. rewrite Et. unfold mbind, M_bind, lift. rewrite Ef.
  split; [done|]. split; [done|]. rewrite Ho. by apply stored_file.
Qed.

Lemma on_disk_put seal v d id t tl file id' file' :
  id <> id' -> on_disk seal v d id t tl file -> on_disk seal v (put_file id' file' d) id t tl file.
Proof. intros Hne [? ? ? ? ? ?]. split; try done. cbn. by rewrite lookup_insert_ne. Qed.

Lemma on_disk_same seal v d d' id t tl file :
  dTimelines d' = dTimelines d -> on_disk seal v d id t tl file -> on_disk seal v d' id t tl file.
Proof. intros E [? ? ? ? ? ?]. split; try done. by rewrite E. Qed.

(** ** The loops over the tenants *)

(** Every tenant of [ids] is sealed again; memory and the other files stay. *)
Lemma reseal_loop s ids draws :
  NoDup ids -> (forall id, drawn_file (draws id)) -> length (sSealKey s) = 32%nat ->
  (forall v, sVault s = Some v -> vault_ok v) ->
  (forall id, id ∈ ids -> exists t tl, sTenants s !! id = Some t /\ tmID (tMeta t) = id /\ tTl t = Some tl /\ storable tl) ->
  forall w, mem w = s -> exists w',
    for_each ids (fun id => match sTenants s !! id with Some t => saveTenant t (draws id) | None => mret tt end) w = (w', ROk tt) /\
    mem w' = s /\ locked w' = locked w /\
    (dMeta (disk w'), dSeal (disk w'), dKeys (disk w'), dOutbox (disk w'), dTrash (disk w')) =
      (dMeta (disk w), dSeal (disk w), dKeys (disk w), dOutbox (disk w), dTrash (disk w)) /\
    (forall id, id ∉ ids -> dTimelines (disk w') !! id = dTimelines (disk w) !! id) /\
    (forall id t tl, id ∈ ids -> sTenants s !! id = Some t -> tTl t = Some tl ->
      exists file, on_disk (sSealKey s) (sVault s) (disk w') id t tl file).
Proof.
  intros Hnd Hd Hk Hv. induction Hnd as [|id ids Hni Hnd IH]; intros Hin w Hm.
  - exists w. split_and!; try done. intros id t tl Hi. by apply elem_of_nil in Hi.
  - destruct (Hin id ltac:(set_solver)) as (t & tl & Et & Hid & Htl & Hs).
    destruct (save_tenant_writes s t (draws id) tl w Htl Hs (Hd id) Hk Hv) as (file & Ew & Hmg & Ho).
    destruct (IH ltac:(intros; apply Hin; set_solver) (fst (write (put_file (tmID (tMeta t)) file) w)) Hm)
      as (w' & E & Hm' & Hl & Hdk & Hother & Hall).
    exists w'. split.
    { cbn [for_each]. unfold mbind at 1, M_bind at 1. rewrite Et. unfold saveTenant at 1, get, mbind at 1, M_bind at 1.
      rewrite Hm, Ew. exact E. }
    split; [done|]. split; [done|]. split; [exact Hdk|]. rewrite Hid in *. split.
    + intros id' Hi'. rewrite Hother by set_solver. cbn. rewrite lookup_insert_ne by set_solver. done.
    + intros id' t' tl' [->|Hi']%elem_of_cons Et' Htl'; [|by eapply Hall].
      rewrite Et in Et'. injection Et' as <-. rewrite Htl in Htl'. injection Htl' as <-.
      exists file. split; try done. rewrite Hother by done. cbn. apply lookup_insert_eq.
Qed.

(** ** The operations keep step *)

Lemma Persisted_intro kek w s d :
  mem w = s -> disk w = d -> locked w = false -> length (sSealKey s) = 32%nat -> dSeal d = Some (sSealKey s) ->
  dMeta d = Some (print_meta (meta_of s)) -> meta_text (meta_of s) -> length (sb (sLogKey s)) = SeedSize ->
  keys_on_disk (sVault s) kek d -> dTrash d = None ->
  (forall id t, sTenants s !! id = Some t -> exists tl file, on_disk (sSealKey s) (sVault s) d id t tl file) ->
  Persisted kek w.
Proof. intros <- <- ? ? ? ? ? ? ? ? ?. by split. Qed.

Lemma meta_of_put id t s : meta_of (put_tenant id t s) =
  {| mUsers := sUsers s; mWebhooks := sWebhooks s; mTenants := <[id := tMeta t]> (tMeta <$> sTenants s);
     mCouncilPub := sCouncilPub s; mLogKey := sLogKey s |}.
Proof. unfold meta_of, put_tenant. cbn. by rewrite fmap_insert. Qed.

Lemma meta_text_put id t s : meta_text (meta_of s) -> valid_string id -> utf8_tenant (tMeta t) ->
  meta_text (meta_of (put_tenant id t s)).
Proof. intros [? ? ? ? ?] Hi Ht. rewrite meta_of_put. split; try done. by apply map_Forall_insert_2. Qed.

Lemma meta_of_same id t t' s : sTenants s !! id = Some t -> tMeta t' = tMeta t -> meta_of (put_tenant id t' s) = meta_of s.
Proof.
  intros Ht E. rewrite meta_of_put, E. unfold meta_of. f_equal. apply insert_id. by rewrite lookup_fmap, Ht.
Qed.

Lemma hex_valid b : valid_string (of_bytes (hex_encode b)).
Proof.
  unfold valid_string. rewrite to_of_bytes. apply ascii_valid, forallb_forall. intros c Hc.
  apply list_elem_of_In in Hc. unfold hex_encode in Hc. apply list_elem_of_In, in_concat in Hc as (l & Hl & Hc).
  apply in_map_iff in Hl as (x & <- & _). revert Hc. clear. destruct x; cbn; intros [<-|[<-|[]]]; reflexivity.
Qed.

Lemma storable_anchor t pub : storable t -> length pub = PublicKeySize -> storable (SetCouncilPub t pub).
Proof.
  intros (? & ? & ? & ? & ?) Hp. split_and!; try done. cbn. by destruct pub.
Qed.

Lemma storable_stored t : storable t -> storable (stored t).
Proof.
  intros (Hp & Hs & ? & ? & ?). split_and!; try done. cbn. unfold startPub. by destruct (tstart t).
Qed.

Lemma storable_stamp c t : storable t -> storable (stamp c t).
Proof.
  intros Ht. unfold stamp. case_if; [|done]. apply andb_true_iff in Heqb as [Hc%Nat.eqb_eq _]. by apply storable_anchor.
Qed.

Lemma storable_new key tl : length key = PrivateKeySize -> NewTimeline (Some key) = Ret tl -> storable tl.
Proof.
  intros Hk E. unfold NewTimeline, newTimeline, ed25519_Public in E. cbn [sb default] in E.
  destruct (_ <? 32)%nat; [done|]. cbn [mbind outcome_bind] in E. injection E as <-.
  split; [apply pub_of_length|]. split; [apply pub_of_length|]. split; [exact I|]. split; [exact Hk|constructor].
Qed.

Lemma create_persists kek w id name key now d w' t :
  Persisted kek w -> valid_string id -> valid_string name -> in_int64 now -> length key = PrivateKeySize -> drawn_file d ->
  CreateTenant id name (Some key) now d w = (w', ROk t) -> Persisted kek w'.
Proof.
  intros Hp Hi Hn Ht Hk Hd E. unfold CreateTenant in E. apply with_lock_ok in E as (Hl & w1 & E & ->).
  run_ok. cbn [set_locked mem] in *. destruct (sTenants (mem w) !! id) eqn:Hid; run_ok. cbn [set_locked mem] in *.
  match goal with H : of_option _ _ = Ret _ |- _ => injection H as <- end.
  match goal with H : NewTimeline _ = Ret ?x |- _ => rename H into Etl, x into tl end.
  pose proof (storable_new _ _ Hk Etl) as Hst. set (s := mem w) in *.
  set (tl' := if (length (sb (sCouncilPub s)) =? PublicKeySize)%nat then SetCouncilPub tl (sb (sCouncilPub s)) else tl) in *.
  assert (Hst' : storable tl') by (unfold tl'; destruct (Nat.eqb_spec (length (sb (sCouncilPub s))) PublicKeySize); [by apply storable_anchor|done]).
  set (t' := live_tenant _ (Some tl')) in *. clearbody tl'. clear Etl Hst tl.
  match goal with H : saveTenant _ _ _ = _ |- _ => rename H into Es end.
  unfold saveTenant in Es. run_ok. cbn [mem] in Es.
  destruct (save_tenant_writes (put_tenant id t' s) t' d tl'
    {| mem := put_tenant id t' s; disk := disk w; past := past w; locked := true |} eq_refl Hst' Hd)
    as (file & Ew & Hm & Ho); [apply (pe_seal _ _ Hp)|intros v Hv; by eapply pe_vault|].
  cbn [set_locked] in Es. fold s in Es. rewrite Ew in Es. injection Es as <-.
  match goal with H : saveMeta _ = _ |- _ => unfold saveMeta in H end. run_ok. unfold save_meta_of in *. run_ok.
  cbn [mem disk write set_locked]. eapply Persisted_intro; [reflexivity|reflexivity|done|apply (pe_seal _ _ Hp)|..].
  - cbn. apply (pe_seal _ _ Hp).
  - reflexivity.
  - apply meta_text_put; [apply (pe_text _ _ Hp)|done|]. split_and!; try done. apply hex_valid.
  - apply (pe_log _ _ Hp).
  - by apply (keys_same _ _ (disk w)), (pe_keys _ _ Hp).
  - apply (pe_trash _ _ Hp).
  - intros id' t0 Hl0. cbn in Hl0. destruct (decide (id' = id)) as [->|Hne].
    + rewrite lookup_insert_eq in Hl0. injection Hl0 as <-. exists tl', file. split; try done. cbn. apply lookup_insert_eq.
    + rewrite lookup_insert_ne in Hl0 by done. destruct (pe_tenants _ _ Hp _ _ Hl0) as (tl0 & f0 & Hod).
      exists tl0, f0. apply (on_disk_same _ _ (put_file id file (disk w))); [done|]. by apply on_disk_put.
Qed.

Lemma save_persists kek w id t t' tl d w' :
  Persisted kek w -> sTenants (mem w) !! id = Some t -> tMeta t' = tMeta t -> tTl t' = Some tl -> storable tl -> drawn_file d ->
  (modify (put_tenant id t');; saveTenant t' d) w = (w', ROk tt) -> Persisted kek w'.
Proof.
  intros Hp Ht Hmeta Htl Hs Hd E. run_ok. unfold saveTenant in E. run_ok. cbn [mem] in *. set (s := mem w) in *.
  destruct (pe_tenants _ _ Hp _ _ Ht) as (tl0 & f0 & Hod0).
  destruct (save_tenant_writes (put_tenant id t' s) t' d tl
    {| mem := put_tenant id t' s; disk := disk w; past := past w; locked := locked w |} Htl Hs Hd)
    as (file & Ew & Hm & Ho); [apply (pe_seal _ _ Hp)|intros v Hv; by eapply pe_vault|].
  rewrite Ew in E. injection E as <-. assert (Hid : tmID (tMeta t) = id) by apply Hod0.
  eapply Persisted_intro; [reflexivity|reflexivity|apply (pe_locked _ _ Hp)|apply (pe_seal _ _ Hp)|..].
  - apply (pe_seal _ _ Hp).
  - cbn [mem disk write]. rewrite (meta_of_same id t) by done. apply (pe_meta _ _ Hp).
  - cbn [mem disk write]. rewrite (meta_of_same id t) by done. apply (pe_text _ _ Hp).
  - apply (pe_log _ _ Hp).
  - by apply (keys_same _ _ (disk w)), (pe_keys _ _ Hp).
  - apply (pe_trash _ _ Hp).
  - intros id' t0 Hl0. cbn in Hl0. rewrite Hmeta, Hid in *. destruct (decide (id' = id)) as [->|Hne].
    + rewrite lookup_insert_eq in Hl0. injection Hl0 as <-. exists tl, file. split; try done; [by rewrite Hmeta|]. cbn. apply lookup_insert_eq.
    + rewrite lookup_insert_ne in Hl0 by done. destruct (pe_tenants _ _ Hp _ _ Hl0) as (tl1 & f1 & Hod).
      exists tl1, f1. by apply (on_disk_put _ _ (disk w)).
Qed.

(** What no file but the outbox and the backups holds may change freely: the
    audit ring, the replay cache, budgets, queue, fleets, counters. *)
Record beside (w w' : World) : Prop := {
  be_locked : locked w' = false;
  be_seal : sSealKey (mem w') = sSealKey (mem w);
  be_vault : sVault (mem w') = sVault (mem w);
  be_log : sLogKey (mem w') = sLogKey (mem w);
  be_meta : meta_of (mem w') = meta_of (mem w);
  be_tenants : forall id t', sTenants (mem w') !! id = Some t' ->
    exists t, sTenants (mem w) !! id = Some t /\ tMeta t' = tMeta t /\ tTl t' = tTl t;
  be_disk : dSeal (disk w') = dSeal (disk w) /\ dMeta (disk w') = dMeta (disk w) /\ dKeys (disk w') = dKeys (disk w) /\
    dTimelines (disk w') = dTimelines (disk w) /\ dTrash (disk w') = dTrash (disk w);
}.

Lemma beside_persists kek w w' : Persisted kek w -> beside w w' -> Persisted kek w'.
Proof.
  intros Hp [Hl Hs Hv Hlg Hm Ht (Ds & Dm & Dk & Dt & Dr)]. eapply Persisted_intro; [reflexivity|reflexivity|done|..].
  - rewrite Hs. apply (pe_seal _ _ Hp).
  - rewrite Ds, Hs. apply (pe_seal _ _ Hp).
  - rewrite Dm, Hm. apply (pe_meta _ _ Hp).
  - rewrite Hm. apply (pe_text _ _ Hp).
  - rewrite Hlg. apply (pe_log _ _ Hp).
  - rewrite Hv. by apply (keys_same _ _ (disk w)), (pe_keys _ _ Hp).
  - rewrite Dr. apply (pe_trash _ _ Hp).
  - intros id t' Ht'. destruct (Ht id t' Ht') as (t & Et & Em & Etl). destruct (pe_tenants _ _ Hp id t Et) as (tl & file & Hod).
    exists tl, file. rewrite Hs, Hv. destruct Hod as [? ? ? ? ? ?]. split; try congruence.
Qed.

(** A change of the accounts or the anchor alone, saved. *)
Lemma meta_persists kek w f w' :
  Persisted kek w -> (forall s, sTenants (f s) = sTenants s /\ sSealKey (f s) = sSealKey s /\ sVault (f s) = sVault s /\ sLogKey (f s) = sLogKey s) ->
  meta_text (meta_of (f (mem w))) ->
  (modify f;; saveMeta) w = (w', ROk tt) -> Persisted kek w'.
Proof.
  intros Hp Hf Hx E. run_ok. unfold saveMeta, save_meta_of in E. run_ok. cbn [mem] in *.
  destruct (Hf (mem w)) as (Ht & Hk & Hv & Hlg).
  eapply Persisted_intro; [reflexivity|reflexivity|apply (pe_locked _ _ Hp)|..]; cbn [mem disk dir_meta dSeal dMeta dKeys dTimelines]; rewrite ?Ht, ?Hk, ?Hv, ?Hlg; try done.
  - apply (pe_seal _ _ Hp).
  - apply (pe_seal _ _ Hp).
  - apply (pe_log _ _ Hp).
  - by apply (keys_same _ _ (disk w)), (pe_keys _ _ Hp).
  - apply (pe_trash _ _ Hp).
  - intros id t Hl. destruct (pe_tenants _ _ Hp _ _ Hl) as (tl & file & Hod). exists tl, file. by apply (on_disk_same _ _ (disk w)).
Qed.

(** Tenants that are live are not loaded again. *)
Lemma load_live l : forall w, (forall id t, sTenants (mem w) !! id = Some t -> is_Some (tTl t)) ->
  for_each l load_vaulted w = (w, ROk tt).
Proof.
  induction l as [|id l IH]; intros w Hw; [done|]. cbn [for_each]. unfold mbind, M_bind.
  assert (load_vaulted id w = (w, ROk tt)) as ->; [|by apply IH].
  unfold load_vaulted, get, mbind, M_bind. destruct (sTenants (mem w) !! id) as [t|] eqn:Et; [|done].
  by destruct (Hw id t Et) as [tl ->].
Qed.

Definition perm_order (order : list string -> list string) : Prop := forall l, order l ≡ₚ l.

Lemma keys_order {A} order (m : gmap string A) : perm_order order ->
  NoDup (order (map fst (map_to_list m))) /\ forall id, id ∈ order (map fst (map_to_list m)) <-> is_Some (m !! id).
Proof.
  intros Ho. split; [rewrite (Ho _); apply NoDup_fst_map_to_list|]. intros id. rewrite (Ho _), list_elem_of_fmap. split.
  - intros ([k x] & -> & Hk%elem_of_map_to_list). by exists x.
  - intros (x & Hx). exists (id, x). split; [done|]. by apply elem_of_map_to_list.
Qed.

(** Sealing every tenant again, under the vault of memory, restores the step. *)
Lemma reseal_persists kek order draws w :
  perm_order order -> (forall id, drawn_file (draws id)) ->
  length (sSealKey (mem w)) = 32%nat -> dSeal (disk w) = Some (sSealKey (mem w)) ->
  dMeta (disk w) = Some (print_meta (meta_of (mem w))) -> meta_text (meta_of (mem w)) ->
  length (sb (sLogKey (mem w))) = SeedSize -> keys_on_disk (sVault (mem w)) kek (disk w) -> dTrash (disk w) = None ->
  is_Some (sVault (mem w)) ->
  (forall id t, sTenants (mem w) !! id = Some t -> tmID (tMeta t) = id /\ exists tl, tTl t = Some tl /\ storable tl) ->
  exists w', reSealAllTenants order draws w = (w', ROk tt) /\ mem w' = mem w /\ Persisted kek (set_locked false w').
Proof.
  intros Ho Hd Hk Hsk Hm Hx Hlg Hkeys Htr [v Hv] Hts. unfold reSealAllTenants, get, mbind, M_bind. rewrite Hv.
  destruct (keys_order order (sTenants (mem w)) Ho) as [Hnd Hin].
  destruct (reseal_loop (mem w) (order (map fst (map_to_list (sTenants (mem w))))) draws Hnd Hd Hk) with (w := w)
    as (w' & E & Hm' & Hl' & Hdk & _ & Hall); [| |done|].
  - intros v' Hv'. rewrite Hv in Hkeys, Hv'. injection Hv' as <-. apply Hkeys.
  - intros id [t Ht]%Hin. destruct (Hts id t Ht) as (Hid & tl & Htl & Hs). by exists t, tl.
  - injection Hdk as D1 D2 D3 D4 D5. rewrite E. exists w'. split; [done|]. split; [done|].
    eapply Persisted_intro; [reflexivity|reflexivity|done|..]; cbn [set_locked mem disk]; rewrite ?Hm', ?D1, ?D2; try done.
    + unfold keys_on_disk in *. rewrite Hv in *. by rewrite D3.
    + by rewrite D5.
    + intros id t Ht. destruct (Hts id t Ht) as (_ & tl & Htl & _).
      destruct (Hall id t tl) as (file & Hod); [apply Hin; by eexists|done..|]. exists tl, file. done.
Qed.

Lemma live_after kek w id t : Persisted kek w -> sTenants (mem w) !! id = Some t ->
  tmID (tMeta t) = id /\ exists tl, tTl t = Some tl /\ storable tl.
Proof. intros Hp Ht. destruct (pe_tenants _ _ Hp _ _ Ht) as (tl & file & Hod). split; [apply Hod|]. exists tl. split; apply Hod. Qed.

Lemma unlock_persists kek shares dek nonce order order' draws w w' :
  Persisted kek w -> JoinKEK shares = Ret kek -> length kek = 32%nat -> length dek = 32%nat -> length nonce = 12%nat ->
  perm_order order -> perm_order order' -> (forall id, drawn_file (draws id)) ->
  UnlockVault shares (Some dek) (Some nonce) order order' draws w = (w', ROk tt) -> Persisted kek w'.
Proof.
  intros Hp Ej Hk Hdk Hn Ho Ho' Hd E. unfold UnlockVault in E. rewrite Ej in E.
  apply with_lock_ok in E as (Hl & w1 & E & ->). apply M_bind_ok in E as (w2 & v & Eu & E).
  assert (Hu : mem w2 = mem w /\ keys_on_disk (Some v) kek (disk w2) /\ dSeal (disk w2) = dSeal (disk w) /\
    dMeta (disk w2) = dMeta (disk w) /\ dTrash (disk w2) = dTrash (disk w)).
  { pose proof (pe_keys _ _ Hp) as Hkeys. unfold unlock_keys in Eu. run_ok. cbn [set_locked disk mem] in *.
    destruct (sVault (mem w)) as [v0|].
    - destruct Hkeys as (Hv0 & b & Eb & Er). rewrite Eb in Eu. run_ok. rewrite Er in Eu. injection Eu as <-.
      split_and!; try done. split; [done|]. by exists b.
    - rewrite Hkeys in Eu. run_ok. cbn [of_option NewVault mbind outcome_bind] in *.
      match goal with H : _ = Ret v |- _ => injection H as <- end. cbn [mem disk] in *.
      destruct (key_file_roundtrip {| DEK := dek; Epoch := 1 |} kek nonce) as (b & Eb & _ & Er); [split; [done|cbn; lia]|done..|].
      match goal with H : writeVaultKeyFile _ _ _ = Ret ?x |- _ => rewrite Eb in H; injection H as <- end.
      split_and!; try done. split; [split; [done|cbn; lia]|]. by exists b. }
  destruct Hu as (Hm2 & Hkeys2 & Hs2 & Hmt2 & Htr2). run_ok. cbn [mem disk] in *.
  match goal with H : loadVaultedTenants _ _ = _ |- _ => unfold loadVaultedTenants in H end. run_ok. cbn [mem] in *.
  match goal with H : for_each _ load_vaulted _ = _ |- _ => rewrite load_live in H; [injection H as <-|] end.
  2: { cbn. rewrite Hm2. intros id t Ht. destruct (live_after _ _ _ _ Hp Ht) as (_ & tl & -> & _). by eexists. }
  edestruct (reseal_persists kek order' draws
    {| mem := set_vault (Some v) (mem w2); disk := disk w2; past := past w2; locked := locked w2 |} Ho' Hd)
    as (w3 & E3 & _ & Hp3); cbn [mem disk set_vault sSealKey sVault sTenants sLogKey]; rewrite ?Hm2.
  - apply (pe_seal _ _ Hp).
  - rewrite Hs2. apply (pe_seal _ _ Hp).
  - rewrite Hmt2. apply (pe_meta _ _ Hp).
  - apply (pe_text _ _ Hp).
  - apply (pe_log _ _ Hp).
  - done.
  - rewrite Htr2. apply (pe_trash _ _ Hp).
  - by eexists.
  - intros id t Ht. by eapply live_after.
  - rewrite E3 in E. injection E as <-. done.
Qed.

Lemma rotate_persists kek shares dek nonce order order' draws w w' :
  Persisted kek w -> JoinKEK shares = Ret kek -> length kek = 32%nat -> length dek = 32%nat -> length nonce = 12%nat ->
  perm_order order -> perm_order order' -> (forall id, drawn_file (draws id)) ->
  RotateVault shares (Some dek) (Some nonce) order order' draws w = (w', ROk tt) -> Persisted kek w'.
Proof.
  intros Hp Ej Hk Hdk Hn Ho Ho' Hd E. unfold RotateVault in E. rewrite Ej in E.
  apply with_lock_ok in E as (Hl & w1 & E & ->). run_ok. cbn [set_locked mem] in *.
  destruct (sVault (mem w)) as [v|] eqn:Hv; run_ok. cbn [NewVault of_option mbind outcome_bind] in *.
  match goal with H : _ = Ret ?x |- _ => lazymatch type of x with Vault => injection H as <- end end.
  set (nv := next_epoch v {| DEK := dek; Epoch := 1 |}) in *.
  assert (Hnv : vault_ok nv) by (split; [done|apply u64_range]).
  destruct (key_file_roundtrip nv kek nonce Hnv Hk Hn) as (b & Eb & _ & Er).
  match goal with H : writeVaultKeyFile _ _ _ = Ret ?x |- _ => rewrite Eb in H; injection H as <- end.
  match goal with H : loadVaultedTenants _ _ = _ |- _ => unfold loadVaultedTenants in H end. run_ok. cbn [mem disk] in *.
  match goal with H : for_each _ load_vaulted _ = _ |- _ => rewrite load_live in H; [injection H as <-|] end.
  2: { cbn. intros id t Ht. destruct (live_after _ _ _ _ Hp Ht) as (_ & tl & -> & _). by eexists. }
  match type of E with reSealAllTenants _ _ ?u = _ => destruct (reseal_persists kek order' draws u Ho' Hd) as (w3 & E3 & _ & Hp3) end;
    cbn [mem disk set_vault set_locked dir_keys dSeal dMeta sSealKey sVault sTenants sLogKey].
  - apply (pe_seal _ _ Hp).
  - apply (pe_seal _ _ Hp).
  - apply (pe_meta _ _ Hp).
  - apply (pe_text _ _ Hp).
  - apply (pe_log _ _ Hp).
  - split; [done|]. exists b. done.
  - apply (pe_trash _ _ Hp).
  - by eexists.
  - intros id t Ht. by eapply live_after.
  - rewrite E3 in E. injection E as <-. done.
Qed.

(** A first unwrap session and a rotation succeed, and leave the tenants. *)
Lemma unlock_succeeds kek shares dek nonce order order' draws w :
  Persisted kek w -> sVault (mem w) = None -> JoinKEK shares = Ret kek -> length kek = 32%nat -> length dek = 32%nat ->
  length nonce = 12%nat -> perm_order order' -> (forall id, drawn_file (draws id)) ->
  exists w', UnlockVault shares (Some dek) (Some nonce) order order' draws w = (w', ROk tt) /\
    mem w' = set_vault (Some {| DEK := dek; Epoch := 1 |}) (mem w).
Proof.
  intros Hp Hv Ej Hk Hdk Hn Ho' Hd. set (v := {| DEK := dek; Epoch := 1 |}).
  assert (Hvok : vault_ok v) by (split; [done|cbn; lia]).
  destruct (key_file_roundtrip v kek nonce Hvok Hk Hn) as (b & Eb & _ & Er).
  set (u := {| mem := set_vault (Some v) (mem w); disk := dir_keys b (disk w); past := disk w :: past w; locked := true |}).
  destruct (reseal_persists kek order' draws u Ho' Hd) as (w' & E & Hm & _); try apply (pe_seal _ _ Hp); try apply Hp.
  { split; [done|]. by exists b. } { by eexists. }
  { intros id t Ht. by eapply live_after. }
  exists (set_locked false w'). split; [|exact Hm].
  unfold UnlockVault. rewrite Ej. unfold with_lock, lock. rewrite (pe_locked _ _ Hp).
  unfold unlock_keys, loadVaultedTenants, read_disk, get, mbind, M_bind. cbn [set_locked disk].
  pose proof (pe_keys _ _ Hp) as Hkeys. rewrite Hv in Hkeys. rewrite Hkeys. unfold lift. cbn [NewVault of_option mbind outcome_bind].
  fold v. rewrite Eb. cbn [write modify mem disk past locked set_locked mret M_ret]. unfold mret, M_ret. cbn [mem disk past locked]. fold u.
  rewrite load_live; [by rewrite E|]. intros id t Ht. destruct (live_after _ _ _ _ Hp Ht) as (_ & tl & -> & _). by eexists.
Qed.

Lemma rotate_succeeds kek v shares dek nonce order order' draws w :
  Persisted kek w -> sVault (mem w) = Some v -> JoinKEK shares = Ret kek -> length kek = 32%nat -> length dek = 32%nat ->
  length nonce = 12%nat -> perm_order order' -> (forall id, drawn_file (draws id)) ->
  exists w', RotateVault shares (Some dek) (Some nonce) order order' draws w = (w', ROk tt) /\
    mem w' = set_vault (Some {| DEK := dek; Epoch := u64 (Epoch v + 1) |}) (mem w).
Proof.
  intros Hp Hv Ej Hk Hdk Hn Ho' Hd. set (nv := {| DEK := dek; Epoch := u64 (Epoch v + 1) |}).
  assert (Hvok : vault_ok nv) by (split; [done|apply u64_range]).
  destruct (key_file_roundtrip nv kek nonce Hvok Hk Hn) as (b & Eb & _ & Er).
  set (u := {| mem := set_vault (Some nv) (mem w); disk := dir_keys b (disk w); past := disk w :: past w; locked := true |}).
  destruct (reseal_persists kek order' draws u Ho' Hd) as (w' & E & Hm & _); try apply (pe_seal _ _ Hp); try apply Hp.
  { split; [done|]. by exists b. } { by eexists. }
  { intros id t Ht. by eapply live_after. }
  exists (set_locked false w'). split; [|exact Hm].
  unfold RotateVault. rewrite Ej. unfold with_lock, lock. rewrite (pe_locked _ _ Hp).
  unfold loadVaultedTenants, get, mbind, M_bind. cbn [set_locked mem]. rewrite Hv. unfold lift. cbn [NewVault of_option mbind outcome_bind].
  change (next_epoch v {| DEK := dek; Epoch := 1 |}) with nv. rewrite Eb. cbn [write modify mem disk past locked set_locked]. fold u.
  rewrite load_live; [by rewrite E|]. intros id t Ht. destruct (live_after _ _ _ _ Hp Ht) as (_ & tl & -> & _). by eexists.
Qed.

(** ** Reachable worlds *)

(** The worlds the successful operations reach from an empty directory; [kek] is
    the key the council's shares join to.  [ran_save] is any change of a
    tenant's timeline that is saved (issue, revoke, detection, recovery),
    [ran_beside] any change of what is not kept, [ran_accounts] any change of
    users and webhooks. *)
Inductive Ran (kek : bytes) : World -> Prop :=
| ran_boot order seal log w :
    length seal = 32%nat -> length log = SeedSize ->
    NewStore order (Some seal) (Some log) (booting emptyDisk) = (w, ROk tt) -> Ran kek w
| ran_create w id name key now d t w' :
    Ran kek w -> valid_string id -> valid_string name -> in_int64 now -> length key = PrivateKeySize -> drawn_file d ->
    CreateTenant id name (Some key) now d w = (w', ROk t) -> Ran kek w'
| ran_save w id t t' tl d w' :
    Ran kek w -> sTenants (mem w) !! id = Some t -> tMeta t' = tMeta t -> tTl t' = Some tl -> storable tl -> drawn_file d ->
    (modify (put_tenant id t');; saveTenant t' d) w = (w', ROk tt) -> Ran kek w'
| ran_beside w w' : Ran kek w -> beside w w' -> Ran kek w'
| ran_accounts w us hs w' :
    Ran kek w -> meta_text (meta_of (set_webhooks hs (set_users us (mem w)))) ->
    (modify (fun s => set_webhooks hs (set_users us s));; saveMeta) w = (w', ROk tt) -> Ran kek w'
| ran_anchor w pub w' :
    Ran kek w -> set_anchor pub w = (w', ROk tt) -> Ran kek w'
| ran_unlock w shares dek nonce order order' draws w' :
    Ran kek w -> JoinKEK shares = Ret kek -> length kek = 32%nat -> length dek = 32%nat -> length nonce = 12%nat ->
    perm_order order -> perm_order order' -> (forall id, drawn_file (draws id)) ->
    UnlockVault shares (Some dek) (Some nonce) order order' draws w = (w', ROk tt) -> Ran kek w'
| ran_rotate w shares dek nonce order order' draws w' :
    Ran kek w -> JoinKEK shares = Ret kek -> length kek = 32%nat -> length dek = 32%nat -> length nonce = 12%nat ->
    perm_order order -> perm_order order' -> (forall id, drawn_file (draws id)) ->
    RotateVault shares (Some dek) (Some nonce) order order' draws w = (w', ROk tt) -> Ran kek w'.

Lemma set_locked_locked w b : locked w = b -> set_locked b w = w.
Proof. destruct w. cbn. by intros ->. Qed.

Lemma boot_persists kek order seal log w :
  length seal = 32%nat -> length log = SeedSize ->
  NewStore order (Some seal) (Some log) (booting emptyDisk) = (w, ROk tt) -> Persisted kek w.
Proof.
  intros Hs Hl E. unfold NewStore, load_seal_key, load_gateway, load_log_key, saveMeta, save_meta_of in E. run_ok.
  cbn [booting emptyDisk disk dSeal sb default length Nat.eqb negb] in *. run_ok.
  match goal with H : of_option _ _ = Ret ?x |- _ => injection H as <- end.
  match goal with H : match dMeta _ with Some _ => _ | None => _ end _ = (_, ROk _) |- _ => cbn in H; injection H as <- end.
  cbn [mem] in *.
  change (sLogKey (set_keys seal None emptyStore)) with (@None bytes) in *.
  change (negb (length (sb None) =? SeedSize)%nat) with true in *. cbv iota in *. run_ok.
  match goal with H : of_option _ _ = Ret ?x |- _ => injection H as <- end.
  eapply Persisted_intro; [reflexivity|reflexivity|done|exact Hs|reflexivity|reflexivity| |exact Hl|reflexivity|reflexivity|].
  - split; try done. cbn. destruct log; done.
  - intros id t Ht. cbn in Ht. by rewrite lookup_empty in Ht.
Qed.

Lemma run_persists kek w : Ran kek w -> Persisted kek w.
Proof.
  induction 1 as [order seal log w Hs Hl E|w id name key now d t w' _ IH Hi Hn Ht Hk Hd E|
    w id t t' tl d w' _ IH Ht Hm Htl Hs Hd E|w w' _ IH Hb|
    w us hs w' _ IH Hx E|w pub w' _ IH E|w shares dek nonce order order' draws w' _ IH Ej Hk Hdk Hn Ho Ho' Hd E|
    w shares dek nonce order order' draws w' _ IH Ej Hk Hdk Hn Ho Ho' Hd E].
  - exact (boot_persists kek order seal log w Hs Hl E).
  - exact (create_persists kek w id name key now d w' t IH Hi Hn Ht Hk Hd E).
  - exact (save_persists kek w id t t' tl d w' IH Ht Hm Htl Hs Hd E).
  - exact (beside_persists kek w w' IH Hb).
  - by eapply (meta_persists kek w (fun s => set_webhooks hs (set_users us s))).
  - unfold set_anchor in E. apply with_lock_ok in E as (Hl & w1 & E & ->).
    assert (Hp1 : Persisted kek (set_locked false w1)); [|done].
    assert (E' : (modify (set_council (clone pub));; saveMeta) w = (set_locked false w1, ROk tt)).
    { run_ok. unfold saveMeta, save_meta_of in *. run_ok. unfold set_locked. cbn [mem disk past locked].
      unfold mbind, M_bind, modify, get, write. cbn [mem disk past locked]. by rewrite Hl. }
    eapply (meta_persists kek w (set_council (clone pub))); [done|done| |exact E'].
    destruct (pe_text _ _ IH) as [? ? ? ? ?]. split; try done. cbn. by destruct pub.
  - by eapply (unlock_persists kek shares dek nonce order order' draws w).
  - by eapply (rotate_persists kek shares dek nonce order order' draws w).
Qed.

(** ** The restart *)

(** What a restart makes of a tenant: its timeline as stored, under the
    council's anchor; deferred when a vault sealed it. *)
Definition rebooted (v : option Vault) (council : slice) (t : Tenant) (tl : Timeline) : Tenant :=
  live_tenant (tMeta t) (if vaulted v then None else Some (stamp council (stored tl))).

Lemma load_tenant_file (u : World) id m seal v d t tl file :
  sSealKey (mem u) = seal -> sVault (mem u) = None -> dTimelines (disk u) = dTimelines d ->
  sTenants (mem u) !! id = Some (live_tenant m None) ->
  tMeta t = m -> on_disk seal v d id t tl file ->
  load_tenant id u = modify (put_tenant id (rebooted v (sCouncilPub (mem u)) t tl)) u.
Proof.
  intros Hs Hv Hd Ht Hm Hod. unfold load_tenant, get, mbind, M_bind. rewrite Ht. unfold catch, loadTenantTimeline, get, read_disk, mbind, M_bind.
  rewrite Hd, (od_file _ _ _ _ _ _ _ Hod), Hs, Hv. unfold lift, rebooted. rewrite <- Hm. cbn [tMeta live_tenant].
  destruct v as [v|]; cbn [vaulted].
  - unfold open_tenant. rewrite (od_magic _ _ _ _ _ _ _ Hod). cbn [vaulted]. by rewrite decide_True by done.
  - by rewrite (od_open _ _ _ _ _ _ _ Hod).
Qed.

Lemma load_loop kek w order u :
  Persisted kek w -> perm_order order ->
  sSealKey (mem u) = sSealKey (mem w) -> sVault (mem u) = None -> dTimelines (disk u) = dTimelines (disk w) ->
  sTenants (mem u) = (fun t => live_tenant t None) <$> (tMeta <$> sTenants (mem w)) ->
  exists u', for_each (order (map fst (map_to_list (tMeta <$> sTenants (mem w))))) load_tenant u = (u', ROk tt) /\
    disk u' = disk u /\ locked u' = locked u /\ past u' = past u /\
    (forall ts, set_tenants ts (mem u') = set_tenants ts (mem u)) /\
    (forall id, sTenants (mem w) !! id = None -> sTenants (mem u') !! id = None) /\
    forall id t tl file, sTenants (mem w) !! id = Some t -> on_disk (sSealKey (mem w)) (sVault (mem w)) (disk w) id t tl file ->
      sTenants (mem u') !! id = Some (rebooted (sVault (mem w)) (sCouncilPub (mem u)) t tl).
Proof.
  intros Hp Ho Hs Hv Hd Hts.
  destruct (keys_order order (tMeta <$> sTenants (mem w)) Ho) as [Hnd Hin].
  assert (Hgen : forall l u, NoDup l -> (forall id, id ∈ l -> exists t, sTenants (mem w) !! id = Some t /\
      sTenants (mem u) !! id = Some (live_tenant (tMeta t) None)) ->
    sSealKey (mem u) = sSealKey (mem w) -> sVault (mem u) = None -> dTimelines (disk u) = dTimelines (disk w) ->
    exists u', for_each l load_tenant u = (u', ROk tt) /\ disk u' = disk u /\ locked u' = locked u /\ past u' = past u /\
      (forall ts, set_tenants ts (mem u') = set_tenants ts (mem u)) /\
      (forall id, id ∉ l -> sTenants (mem u') !! id = sTenants (mem u) !! id) /\
      forall id t tl file, id ∈ l -> sTenants (mem w) !! id = Some t ->
        on_disk (sSealKey (mem w)) (sVault (mem w)) (disk w) id t tl file ->
        sTenants (mem u') !! id = Some (rebooted (sVault (mem w)) (sCouncilPub (mem u)) t tl)).
  { clear u Hs Hv Hd Hts Hnd Hin. intros l. induction l as [|id l IH]; intros u Hnd Hin Hs Hv Hd.
    - exists u. split_and!; try done. intros id t tl file Hi. by apply elem_of_nil in Hi.
    - apply NoDup_cons in Hnd as [Hni Hnd]. destruct (Hin id ltac:(set_solver)) as (t & Ht & Hut).
      destruct (pe_tenants _ _ Hp _ _ Ht) as (tl & file & Hod).
      pose proof (load_tenant_file u id (tMeta t) _ _ _ t tl file Hs Hv Hd Hut eq_refl Hod) as El.
      destruct (IH (fst (modify (put_tenant id (rebooted (sVault (mem w)) (sCouncilPub (mem u)) t tl)) u)) Hnd)
        as (u' & E & Hd' & Hl' & Hpa' & Hset & Hother & Hall); [| done..|].
      { intros id' Hi'. destruct (Hin id' ltac:(set_solver)) as (t' & Ht' & Hut'). exists t'. split; [done|].
        cbn. rewrite lookup_insert_ne by set_solver. done. }
      exists u'. split; [cbn [for_each]; unfold mbind, M_bind; by rewrite El|]. split; [done|]. split; [done|]. split; [done|].
      split; [intros ts; by rewrite Hset|]. split.
      + intros id' Hi'. rewrite Hother by set_solver. cbn. by rewrite lookup_insert_ne by set_solver.
      + intros id' t' tl' file' [->|Hi']%elem_of_cons Ht' Hod'; [|by eapply Hall].
        rewrite Hother by done. cbn. rewrite lookup_insert_eq. rewrite Ht in Ht'. injection Ht' as <-.
        pose proof (od_tl _ _ _ _ _ _ _ Hod) as A. rewrite (od_tl _ _ _ _ _ _ _ Hod') in A. by injection A as ->. }
  destruct (Hgen _ u Hnd) as (u' & E & Hd' & Hl' & Hpa' & Hset & Hother & Hall); try done.
  - intros id [m Hm]%Hin. rewrite lookup_fmap in Hm. destruct (sTenants (mem w) !! id) as [t|] eqn:Ht; [|done].
    exists t. split; [done|]. by rewrite Hts, !lookup_fmap, Ht.
  - exists u'. split_and!; try done.
    + intros id Hn. rewrite Hother; [by rewrite Hts, !lookup_fmap, Hn|]. intros [m Hm]%Hin. by rewrite lookup_fmap, Hn in Hm.
    + intros id t tl file Ht Hod. eapply Hall; [|done..]. apply Hin. rewrite lookup_fmap, Ht. by eexists.
Qed.

(** The accounts, the keys and the tenants of two worlds, but for what a restart
    makes of each tenant. *)
Record same_accounts (w w1 : World) (d : Disk) : Prop := {
  sa_meta : meta_of (mem w1) = meta_of (mem w);
  sa_seal : sSealKey (mem w1) = sSealKey (mem w);
  sa_disk : disk w1 = d;
  sa_locked : locked w1 = false;
}.

Lemma loadOutbox_ok u : exists o u', loadOutbox u = (u', ROk tt) /\ mem u' = set_outbox o (mem u) /\ disk u' = disk u /\
  locked u' = locked u.
Proof.
  unfold loadOutbox, read_disk, mbind, M_bind. destruct (dOutbox (disk u)) as [b|].
  - destruct (outbox_unmarshal b) as [l|]; [exists (Some l)|exists (sOutbox (mem u))]; eexists; (split; [reflexivity|]); split; try done.
    by destruct (mem u).
  - exists (sOutbox (mem u)), u. split; [done|]. split; [by destruct (mem u)|done].
Qed.

(** Booting from the directory of a world in step with it. *)
Lemma boot_restores kek w order sd ld d :
  Persisted kek w -> perm_order order ->
  dSeal d = dSeal (disk w) -> dMeta d = dMeta (disk w) -> dTimelines d = dTimelines (disk w) ->
  exists w1, NewStore order sd ld (booting d) = (w1, ROk tt) /\ same_accounts w w1 d /\ sVault (mem w1) = None /\
    (forall id, sTenants (mem w) !! id = None -> sTenants (mem w1) !! id = None) /\
    forall id t tl file, sTenants (mem w) !! id = Some t -> on_disk (sSealKey (mem w)) (sVault (mem w)) (disk w) id t tl file ->
      sTenants (mem w1) !! id = Some (rebooted (sVault (mem w)) (sCouncilPub (mem w)) t tl).
Proof.
  intros Hp Ho Hds Hdm Hdt. destruct (pe_seal _ _ Hp) as [Hk Hdk].
  set (u0 := {| mem := of_meta (meta_of (mem w)) (set_keys (sSealKey (mem w)) None emptyStore); disk := d; past := []; locked := false |}).
  destruct (loadOutbox_ok u0) as (o & u1 & Eo & Hm1 & Hd1 & Hl1).
  destruct (load_loop kek w order u1 Hp Ho) as (u2 & E & Hd2 & Hl2 & _ & Hset & Hnone & Hall);
    [by rewrite Hm1|by rewrite Hm1|by rewrite Hd1|by rewrite Hm1|].
  assert (Hm2 : forall A (f : Store -> A), (forall ts s, f (set_tenants ts s) = f s) -> f (mem u2) = f (mem u1)).
  { intros A f Hf. rewrite <- (Hf ∅ (mem u2)), Hset, Hf. done. }
  exists u2. split.
  { unfold NewStore, load_seal_key, load_gateway, load_log_key, read_disk, get, mbind, M_bind.
    cbn [booting disk]. rewrite Hds, Hdk. cbn [sb default from_option]. unfold Datatypes.id. rewrite Hk. cbn [Nat.eqb negb modify mem disk].
    unfold booting. cbn [disk mem past locked]. rewrite Hdm, (pe_meta _ _ Hp), (parse_print_meta _ (pe_text _ _ Hp)).
    cbn [disk mem past locked]. fold u0. rewrite Eo.
    change (mTenants (meta_of (mem w))) with (tMeta <$> sTenants (mem w)). rewrite E.
    rewrite (Hm2 _ sLogKey) by done. rewrite Hm1. cbn [u0 mem of_meta set_outbox sLogKey meta_of mLogKey].
    by rewrite (pe_log _ _ Hp). }
  split.
  { split; [| |by rewrite Hd2, Hd1|by rewrite Hl2, Hl1].
    - unfold meta_of. rewrite !(Hm2 _ sUsers), !(Hm2 _ sWebhooks), !(Hm2 _ sCouncilPub), !(Hm2 _ sLogKey) by done.
      rewrite Hm1. cbn [u0 mem of_meta set_outbox sUsers sWebhooks sCouncilPub sLogKey meta_of mUsers mWebhooks mCouncilPub mLogKey].
      f_equal. apply map_eq. intros id. rewrite !lookup_fmap. destruct (sTenants (mem w) !! id) as [t|] eqn:Ht.
      + destruct (pe_tenants _ _ Hp _ _ Ht) as (tl & file & Hod). by rewrite (Hall _ _ _ _ Ht Hod).
      + by rewrite (Hnone _ Ht).
    - rewrite (Hm2 _ sSealKey) by done. by rewrite Hm1. }
  split; [rewrite (Hm2 _ sVault) by done; by rewrite Hm1|]. split; [done|].
  intros id t tl file Ht Hod. rewrite (Hall _ _ _ _ Ht Hod). by rewrite Hm1.
Qed.

(** The timelines after a restart: as stored, under the council's anchor. *)
Definition restored (w w' : World) : Prop :=
  meta_of (mem w') = meta_of (mem w) /\ dom (sTenants (mem w')) = dom (sTenants (mem w)) /\
  forall id t, sTenants (mem w) !! id = Some t -> exists t' tl, tTl t = Some tl /\ sTenants (mem w') !! id = Some t' /\
    tTl t' = Some (stamp (sCouncilPub (mem w)) (stored tl)).

Lemma dom_restored w w1 d : same_accounts w w1 d -> dom (sTenants (mem w1)) = dom (sTenants (mem w)).
Proof.
  intros Hs. rewrite <- (dom_fmap_L tMeta (sTenants (mem w1))), <- (dom_fmap_L tMeta (sTenants (mem w))).
  change (dom (mTenants (meta_of (mem w1))) = dom (mTenants (meta_of (mem w)))). by rewrite (sa_meta _ _ _ Hs).
Qed.

(** Loading the deferred tenants under the vault of the key file. *)
Lemma hydrate_loop kek w v order u :
  Persisted kek w -> sVault (mem w) = Some v -> perm_order order ->
  sSealKey (mem u) = sSealKey (mem w) -> sVault (mem u) = Some v -> disk u = disk w ->
  dom (sTenants (mem u)) = dom (sTenants (mem w)) ->
  (forall id t tl file, sTenants (mem w) !! id = Some t -> on_disk (sSealKey (mem w)) (Some v) (disk w) id t tl file ->
     sTenants (mem u) !! id = Some (live_tenant (tMeta t) None)) ->
  exists u', for_each (order (map fst (map_to_list (sTenants (mem u))))) load_vaulted u = (u', ROk tt) /\
    disk u' = disk w /\ locked u' = locked u /\
    (forall ts, set_tenants ts (mem u') = set_tenants ts (mem u)) /\ dom (sTenants (mem u')) = dom (sTenants (mem w)) /\
    forall id t tl file, sTenants (mem w) !! id = Some t -> on_disk (sSealKey (mem w)) (Some v) (disk w) id t tl file ->
      sTenants (mem u') !! id = Some (hydrate (stamp (sCouncilPub (mem u)) (stored tl)) (live_tenant (tMeta t) None)).
Proof.
  intros Hp Hv Ho Hs Hvu Hd Hdom Hts. destruct (keys_order order (sTenants (mem u)) Ho) as [Hnd Hin].
  assert (Hgen : forall l u, NoDup l -> (forall id, id ∈ l -> exists t tl file, sTenants (mem w) !! id = Some t /\
      on_disk (sSealKey (mem w)) (Some v) (disk w) id t tl file /\ sTenants (mem u) !! id = Some (live_tenant (tMeta t) None)) ->
    sSealKey (mem u) = sSealKey (mem w) -> sVault (mem u) = Some v -> disk u = disk w ->
    exists u', for_each l load_vaulted u = (u', ROk tt) /\ disk u' = disk w /\ locked u' = locked u /\
      (forall ts, set_tenants ts (mem u') = set_tenants ts (mem u)) /\
      dom (sTenants (mem u')) = dom (sTenants (mem u)) /\
      (forall id, id ∉ l -> sTenants (mem u') !! id = sTenants (mem u) !! id) /\
      forall id t tl file, id ∈ l -> sTenants (mem w) !! id = Some t ->
        on_disk (sSealKey (mem w)) (Some v) (disk w) id t tl file ->
        sTenants (mem u') !! id = Some (hydrate (stamp (sCouncilPub (mem u)) (stored tl)) (live_tenant (tMeta t) None))).
  { clear u Hs Hvu Hd Hdom Hts Hnd Hin. intros l. induction l as [|id l IH]; intros u Hnd Hin Hs Hvu Hd.
    - exists u. split_and!; try done. intros id t tl file Hi. by apply elem_of_nil in Hi.
    - apply NoDup_cons in Hnd as [Hni Hnd]. destruct (Hin id ltac:(set_solver)) as (t & tl & file & Ht & Hod & Hut).
      set (t1 := hydrate (stamp (sCouncilPub (mem u)) (stored tl)) (live_tenant (tMeta t) None)).
      assert (El : load_vaulted id u = modify (put_tenant id t1) u).
      { unfold load_vaulted, get, mbind, M_bind. rewrite Hut. cbn [tTl live_tenant].
        unfold catch, loadTenantTimeline, get, read_disk, mbind, M_bind.
        by rewrite Hd, (od_file _ _ _ _ _ _ _ Hod), Hs, Hvu, (od_open _ _ _ _ _ _ _ Hod). }
      destruct (IH (fst (modify (put_tenant id t1) u)) Hnd) as (u' & E & Hd' & Hl' & Hset & Hdm & Hother & Hall); [|done..|].
      { intros id' Hi'. destruct (Hin id' ltac:(set_solver)) as (t' & tl' & f' & Ht' & Hod' & Hut'). exists t', tl', f'.
        split; [done|]. split; [done|]. cbn. by rewrite lookup_insert_ne by set_solver. }
      exists u'. split; [cbn [for_each]; unfold mbind, M_bind; by rewrite El|]. split; [done|]. split; [done|].
      split; [intros ts; by rewrite Hset|]. split.
      { rewrite Hdm. cbn. rewrite dom_insert_lookup_L; [done|by eexists]. }
      split.
      + intros id' Hi'. rewrite Hother by set_solver. cbn. by rewrite lookup_insert_ne by set_solver.
      + intros id' t' tl' file' [->|Hi']%elem_of_cons Ht' Hod'; [|by eapply Hall].
        rewrite Hother by done. cbn. rewrite lookup_insert_eq. rewrite Ht in Ht'. injection Ht' as <-.
        pose proof (od_tl _ _ _ _ _ _ _ Hod) as A. rewrite (od_tl _ _ _ _ _ _ _ Hod') in A. by injection A as ->. }
  destruct (Hgen _ u Hnd) as (u' & E & Hd' & Hl' & Hset & Hdm & _ & Hall); try done.
  - intros id Hi%Hin. apply elem_of_dom in Hi. rewrite Hdom in Hi. apply elem_of_dom in Hi as [t Ht].
    destruct (pe_tenants _ _ Hp _ _ Ht) as (tl & file & Hod). rewrite Hv in Hod. exists t, tl, file. split; [done|]. split; [done|].
    by eapply Hts.
  - exists u'. split_and!; try done; [by rewrite Hdm|]. intros id t tl file Ht Hod. eapply Hall; [|done..].
    apply Hin. rewrite (Hts _ _ _ _ Ht Hod). by eexists.
Qed.

(** The unwrap session after a boot. *)
Lemma unlock_restores kek w w1 v shares dek nonce order1 order2 draws :
  Persisted kek w -> sVault (mem w) = Some v -> same_accounts w w1 (disk w) ->
  (forall id, sTenants (mem w) !! id = None -> sTenants (mem w1) !! id = None) ->
  (forall id t tl file, sTenants (mem w) !! id = Some t -> on_disk (sSealKey (mem w)) (Some v) (disk w) id t tl file ->
     sTenants (mem w1) !! id = Some (live_tenant (tMeta t) None)) ->
  JoinKEK shares = Ret kek -> perm_order order1 -> perm_order order2 -> (forall id, drawn_file (draws id)) ->
  exists w2, UnlockVault shares dek nonce order1 order2 draws w1 = (w2, ROk tt) /\
    sVault (mem w2) = Some v /\ restored w w2.
Proof.
  intros Hp Hv Hsa Hnone Hall Ej Ho1 Ho2 Hd.
  assert (Hod : forall id t, sTenants (mem w) !! id = Some t ->
    exists tl file, on_disk (sSealKey (mem w)) (Some v) (disk w) id t tl file).
  { intros id t Ht. rewrite <- Hv. by apply (pe_tenants _ _ Hp). }
  pose proof (pe_keys _ _ Hp) as Hkeys. rewrite Hv in Hkeys. destruct Hkeys as (Hvok & b & Eb & Er).
  set (u0 := {| mem := set_vault (Some v) (mem w1); disk := disk w1; past := past w1; locked := true |}).
  destruct (hydrate_loop kek w v order1 u0) as (u1 & E1 & Hd1 & Hl1 & Hset & Hdm & Hts); try done.
  { apply Hsa. } { apply Hsa. } { exact (dom_restored _ _ _ Hsa). }
  assert (Hf : forall A (f : Store -> A), (forall ts s, f (set_tenants ts s) = f s) -> f (mem u1) = f (set_vault (Some v) (mem w1))).
  { intros A f Hf. rewrite <- (Hf ∅ (mem u1)), Hset, Hf. done. }
  assert (Hmeta : meta_of (mem u1) = meta_of (mem w)).
  { rewrite <- (sa_meta _ _ _ Hsa). unfold meta_of. rewrite !(Hf _ sUsers), !(Hf _ sWebhooks), !(Hf _ sCouncilPub), !(Hf _ sLogKey) by done.
    cbn. f_equal. apply map_eq. intros id. rewrite !lookup_fmap. destruct (sTenants (mem w) !! id) as [t|] eqn:Ht.
    - destruct (Hod _ _ Ht) as (tl & file & Ho). by rewrite (Hall _ _ _ _ Ht Ho), (Hts _ _ _ _ Ht Ho).
    - rewrite (Hnone _ Ht). assert (sTenants (mem u1) !! id = None) as ->; [|done].
      apply not_elem_of_dom. rewrite Hdm. by apply not_elem_of_dom. }
  assert (Hsl : sSealKey (mem u1) = sSealKey (mem w)) by (rewrite (Hf _ sSealKey) by done; apply (sa_seal _ _ _ Hsa)).
  assert (Hvu : sVault (mem u1) = Some v) by (by rewrite (Hf _ sVault)).
  destruct (reseal_persists kek order2 draws u1 Ho2 Hd) as (u2 & E2 & Hm2 & _); rewrite ?Hd1, ?Hsl, ?Hmeta, ?Hvu;
    try apply (pe_seal _ _ Hp); try apply Hp; try done.
  { change (length (sb (mLogKey (meta_of (mem u1)))) = SeedSize). rewrite Hmeta. apply (pe_log _ _ Hp). }
  { split; [done|]. by exists b. }
  { intros id t1 Ht1. assert (is_Some (sTenants (mem w) !! id)) as [t Ht].
    { apply elem_of_dom. rewrite <- Hdm. apply elem_of_dom. by eexists. }
    destruct (Hod _ _ Ht) as (tl & file & Ho). rewrite (Hts _ _ _ _ Ht Ho) in Ht1. injection Ht1 as <-.
    split; [apply Ho|]. eexists. split; [done|]. apply storable_stamp, storable_stored, Ho. }
  exists (set_locked false u2). split.
  { unfold UnlockVault. rewrite Ej. unfold with_lock, lock. rewrite (sa_locked _ _ _ Hsa).
    unfold unlock_keys, loadVaultedTenants, read_disk, get, mbind, M_bind. cbn [set_locked disk]. rewrite (sa_disk _ _ _ Hsa), Eb.
    unfold lift. rewrite Er. cbn [modify mem disk past locked set_locked].
    change {| mem := set_vault (Some v) (mem w1); disk := disk w1; past := past w1; locked := true |} with u0.
    change (mem u0) with (set_vault (Some v) (mem w1)) in E1. rewrite E1, E2. done. }
  split; [cbn; by rewrite Hm2|]. split; [cbn; by rewrite Hm2|]. split; [cbn; by rewrite Hm2|]. intros id t Ht.
  destruct (Hod _ _ Ht) as (tl & file & Ho). eexists _, tl. split; [apply Ho|].
  cbn [set_locked mem]. rewrite Hm2. split; [by eapply Hts|]. cbn [hydrate tTl].
  change (sCouncilPub (mem u0)) with (mCouncilPub (meta_of (mem w1))). by rewrite (sa_meta _ _ _ Hsa).
Qed.

(** C10. The directory is the state: after any run of successful operations from
    an empty directory - tenants created, timelines changed and saved, accounts,
    anchor, vault unlocked and rotated - a restart succeeds and brings back
    accounts and keys and, for every tenant, its timeline as stored; with a
    vault, after the unwrap session with the council's shares, and never
    before it. *)
Theorem restart_restores kek w order sd ld :
  Ran kek w -> perm_order order ->
  exists w1, NewStore order sd ld (booting (disk w)) = (w1, ROk tt) /\
    (sVault (mem w) = None -> restored w w1) /\
    (forall v, sVault (mem w) = Some v ->
      (forall id t, sTenants (mem w1) !! id = Some t -> tTl t = None) /\
      forall shares dek nonce order1 order2 draws, JoinKEK shares = Ret kek -> perm_order order1 -> perm_order order2 ->
        (forall id, drawn_file (draws id)) ->
        exists w2, UnlockVault shares dek nonce order1 order2 draws w1 = (w2, ROk tt) /\
          sVault (mem w2) = Some v /\ restored w w2).
Proof.
  intros Hr Ho. pose proof (run_persists _ _ Hr) as Hp.
  destruct (boot_restores kek w order sd ld (disk w) Hp Ho) as (w1 & E & Hsa & Hv1 & Hnone & Hall); [done..|].
  exists w1. split; [done|]. split.
  - intros Hv. split; [apply Hsa|]. split; [exact (dom_restored _ _ _ Hsa)|]. intros id t Ht.
    destruct (pe_tenants _ _ Hp _ _ Ht) as (tl & file & Hod). eexists _, tl. split; [apply Hod|].
    split; [by eapply Hall|]. by rewrite Hv.
  - intros v Hv. rewrite Hv in Hall. split.
    + intros id t1 Ht1. assert (is_Some (sTenants (mem w) !! id)) as [t Ht].
      { apply elem_of_dom. rewrite <- (dom_restored _ _ _ Hsa). apply elem_of_dom. by eexists. }
      destruct (pe_tenants _ _ Hp _ _ Ht) as (tl & file & Hod). rewrite Hv in Hod. rewrite (Hall _ _ _ _ Ht Hod) in Ht1. by injection Ht1 as <-.
    + intros shares dek nonce order1 order2 draws Ej Ho1 Ho2 Hd. by eapply unlock_restores.
Qed.

(** ** What the store loses *)

Lemma crash_points_write f w w' : write f w = (w', ROk tt) -> crash_points w ⊆ crash_points w'.
Proof. intros [= <-] d Hd. unfold crash_points in *. cbn [past disk rev]. set_solver. Qed.

Lemma save_tenant_points s t d w w' :
  save_tenant_of s t d w = (w', ROk tt) -> crash_points w ⊆ crash_points w'.
Proof.
  unfold save_tenant_of, save_blob_of. intros E. destruct (tTl t); [|done]. apply M_bind_ok in E as (w1 & b & E1 & E2).
  apply lift_ok in E1 as [_ ->]. by eapply crash_points_write.
Qed.

Lemma reseal_points order draws w w' :
  reSealAllTenants order draws w = (w', ROk tt) -> crash_points w ⊆ crash_points w'.
Proof.
  unfold reSealAllTenants, get, mbind, M_bind. destruct (sVault (mem w)); [|by intros [= ->]].
  intros E. apply (for_each_inv (fun u => crash_points w ⊆ crash_points u)) in E; [done| |done].
  intros id u u' _ Hu Eu. destruct (sTenants (mem w) !! id); [|by injection Eu as <-].
  unfold saveTenant, get, mbind, M_bind in Eu. etransitivity; [exact Hu|]. by eapply save_tenant_points.
Qed.

(** A file of another epoch is stale. *)
Lemma open_stale seal v nv id file tl :
  has_prefix file vaultMagic = true -> open_tenant seal (Some v) id file = Ret tl -> Epoch nv <> Epoch v ->
  open_tenant seal (Some nv) id file = Err "store: vault open: %w".
Proof.
  intros Hm Ho Hne. unfold open_tenant in *. rewrite Hm in *. unfold Open, guard in *. rewrite Hm in *. cbn [negb] in *.
  destruct (_ <? _)%nat; [done|]. destruct (Z.eqb_spec (be_Z (take 8 (drop 6 file))) (Epoch v)) as [E|E]; cbn [negb] in *; [|done].
  destruct (Z.eqb_spec (be_Z (take 8 (drop 6 file))) (Epoch nv)) as [E'|E']; [congruence|done].
Qed.

Lemma next_epoch_ne v nv : vault_ok v -> Epoch (next_epoch v nv) <> Epoch v.
Proof.
  intros [_ Hr]. unfold next_epoch, u64. cbn [Epoch]. intros E. destruct (decide (Epoch v + 1 = 2 ^ 64)) as [E1|E1].
  - rewrite E1 in E. change (2 ^ 64 mod 2 ^ 64) with 0 in E. lia.
  - rewrite Z.mod_small in E by lia. lia.
Qed.

(** A crash in the middle of a key rotation loses the tenants: a successful
    rotation of a vault with a tenant passes through a state of the directory -
    the key file already the new one, the tenant files still sealed under the
    old key, which is nowhere any more - from which the gateway boots, but no
    unwrap session with the council's shares gets any further than the error of
    a tenant that does not open. *)
Theorem rotate_crash_loses kek w v id t shares dek nonce order order' draws w' :
  Ran kek w -> sVault (mem w) = Some v -> sTenants (mem w) !! id = Some t ->
  JoinKEK shares = Ret kek -> length kek = 32%nat -> length dek = 32%nat -> length nonce = 12%nat ->
  RotateVault shares (Some dek) (Some nonce) order order' draws w = (w', ROk tt) ->
  exists d, d ∈ crash_points w' /\ dTimelines d = dTimelines (disk w) /\
    forall order0 sd ld, perm_order order0 ->
      exists w1, NewStore order0 sd ld (booting d) = (w1, ROk tt) /\
        forall shares' dek' nonce' order1 order2 draws', JoinKEK shares' = Ret kek -> perm_order order1 ->
          snd (UnlockVault shares' dek' nonce' order1 order2 draws' w1) = RErr "store: tenant %s (vault): %w".
Proof.
  intros Hr Hv Ht Ej Hk Hdk Hn E. pose proof (run_persists _ _ Hr) as Hp.
  unfold RotateVault in E. rewrite Ej in E. apply with_lock_ok in E as (Hl & w1 & E & ->). run_ok. cbn [set_locked mem] in *.
  rewrite Hv in E. run_ok. cbn [NewVault of_option mbind outcome_bind] in *.
  match goal with H : _ = Ret ?x |- _ => lazymatch type of x with Vault => injection H as <- end end.
  set (nv := next_epoch v {| DEK := dek; Epoch := 1 |}) in *.
  assert (Hnv : vault_ok nv) by (split; [done|apply u64_range]).
  destruct (key_file_roundtrip nv kek nonce Hnv Hk Hn) as (b & Eb & _ & Er).
  match goal with H : writeVaultKeyFile _ _ _ = Ret ?x |- _ => rewrite Eb in H; injection H as <- end.
  match goal with H : loadVaultedTenants _ _ = _ |- _ => unfold loadVaultedTenants in H end. run_ok. cbn [mem disk] in *.
  match goal with H : for_each _ load_vaulted _ = _ |- _ => rewrite load_live in H; [injection H as <-|] end.
  2: { cbn. intros id' t' Ht'. destruct (live_after _ _ _ _ Hp Ht') as (_ & tl & -> & _). by eexists. }
  apply reseal_points in E. exists (dir_keys b (disk w)). split.
  { unfold crash_points in *. cbn [set_locked past disk] in *. apply E. cbn. set_solver. }
  split; [done|]. intros order0 sd ld Ho0.
  destruct (boot_restores kek w order0 sd ld (dir_keys b (disk w)) Hp Ho0) as (w2 & E2 & Hsa & _ & _ & Hall); [done..|].
  exists w2. split; [done|]. intros shares' dek' nonce' order1 order2 draws' Ej' Ho1.
  unfold UnlockVault. rewrite Ej'. unfold with_lock, lock. rewrite (sa_locked _ _ _ Hsa).
  unfold unlock_keys, loadVaultedTenants, read_disk, get, mbind, M_bind. cbn [set_locked disk]. rewrite (sa_disk _ _ _ Hsa).
  cbn [dir_keys dKeys]. unfold lift. rewrite Er. cbn [modify mem disk past locked set_locked sTenants set_vault].
  destruct (keys_order order1 (sTenants (mem w2)) Ho1) as [_ Hin].
  destruct (order1 (map fst (map_to_list (sTenants (mem w2))))) as [|x l].
  { destruct (pe_tenants _ _ Hp _ _ Ht) as (tl & file & Hod). exfalso.
    apply (not_elem_of_nil id), Hin. rewrite (Hall _ _ _ _ Ht Hod). by eexists. }
  assert (is_Some (sTenants (mem w) !! x)) as [tx Htx].
  { apply elem_of_dom. rewrite <- (dom_restored _ _ _ Hsa). apply elem_of_dom, Hin. set_solver. }
  destruct (pe_tenants _ _ Hp _ _ Htx) as (tl & file & Hod). cbn [for_each]. unfold mbind, M_bind.
  match goal with |- context [load_vaulted x ?u] => assert (load_vaulted x u = (u, RErr "store: tenant %s (vault): %w")) as -> end; [|done].
  unfold load_vaulted, get, mbind, M_bind. cbn [mem sTenants set_vault]. rewrite (Hall _ _ _ _ Htx Hod). unfold rebooted. rewrite Hv.
  cbn [vaulted tTl live_tenant]. unfold catch, loadTenantTimeline, get, read_disk, mbind, M_bind. cbn [mem disk].
  rewrite (sa_disk _ _ _ Hsa). cbn [dir_keys dTimelines]. rewrite (od_file _ _ _ _ _ _ _ Hod). cbn [sVault set_vault sSealKey].
  rewrite Hv in Hod. rewrite (sa_seal _ _ _ Hsa).
  rewrite (open_stale _ v nv x file (stored tl)); [done|apply Hod|apply Hod|]. apply next_epoch_ne. by eapply pe_vault.
Qed.

(** A tenant cannot be deleted: nothing ever creates the directory [trash],
    so that the rename always fails; the operation answers an error after it
    has dropped the tenant from memory, the directory stays as it was, and the
    next start brings the tenant back. *)
Theorem delete_undone kek w id t now order sd ld :
  Ran kek w -> sTenants (mem w) !! id = Some t -> perm_order order ->
  exists w', DeleteTenant id now w = (w', RErr "rename: no such file or directory") /\
    sTenants (mem w') !! id = None /\ disk w' = disk w /\
    exists w1, NewStore order sd ld (booting (disk w')) = (w1, ROk tt) /\ is_Some (sTenants (mem w1) !! id).
Proof.
  intros Hr Ht Ho. pose proof (run_persists _ _ Hr) as Hp.
  eexists. split.
  { unfold DeleteTenant, with_lock, lock. rewrite (pe_locked _ _ Hp). unfold get, mbind, M_bind. cbn [set_locked mem]. rewrite Ht.
    unfold modify, move_to_trash, read_disk, mbind, M_bind. cbn [disk set_locked]. rewrite (pe_trash _ _ Hp). reflexivity. }
  split; [cbn; apply lookup_delete_eq|]. split; [done|].
  destruct (boot_restores kek w order sd ld (disk w) Hp Ho) as (w1 & E & _ & _ & _ & Hall); [done..|].
  exists w1. split; [exact E|]. destruct (pe_tenants _ _ Hp _ _ Ht) as (tl & file & Hod). rewrite (Hall _ _ _ _ Ht Hod). by eexists.
Qed.

(** ** Restoring a bundle *)

Lemma restore_all_ok gm raws : forall acc nt,
  restore_all gm raws acc = Ret nt ->
  (forall id raw, (id, raw) ∈ raws -> exists t, restore_tenant gm id raw = Ret t) /\
  forall id t, nt !! id = Some t -> acc !! id = Some t \/ exists raw, (id, raw) ∈ raws /\ restore_tenant gm id raw = Ret t.
Proof.
  induction raws as [|[id raw] raws IH]; intros acc nt E; cbn [restore_all] in E.
  - injection E as <-. split; [set_solver|]. auto.
  - destruct (restore_tenant gm id raw) as [t| |] eqn:Et; [|done..]. cbn [mbind outcome_bind] in E.
    destruct (IH _ _ E) as [Ha Hb]. split.
    + intros id' raw' [[= -> ->]|Hi]%elem_of_cons; [by exists t|by apply Ha].
    + intros id' t' Hl. destruct (Hb id' t' Hl) as [Hc|(raw' & Hi & Er)].
      * destruct (decide (id' = id)) as [->|Hne].
        -- rewrite lookup_insert_eq in Hc. injection Hc as <-. right. exists raw. split; [set_solver|done].
        -- rewrite lookup_insert_ne in Hc by done. auto.
      * right. exists raw'. split; [set_solver|done].
Qed.

Lemma restore_tenant_ok gm id raw t : restore_tenant gm id raw = Ret t ->
  exists tl, UnmarshalTimeline raw = Ret tl /\ Verify tl = Ret true /\ tTl t = Some tl /\ fans (tFleet t) = [].
Proof.
  unfold restore_tenant. destruct (UnmarshalTimeline raw) as [tl| |]; [|done..].
  destruct (Verify tl) as [[]| |] eqn:Ev; [|done..]. cbn [mbind outcome_bind negb]. intros [= <-]. by exists tl.
Qed.

Lemma restore_writes gw (ids : list string) (nt : gmap string Tenant) draws w w' :
  for_each ids (fun id => match nt !! id with Some t => save_tenant_of gw t (draws id) | None => mret tt end) w = (w', ROk tt) ->
  mem w' = mem w /\ dMeta (disk w') = dMeta (disk w) /\ locked w' = locked w.
Proof.
  intros E. apply (for_each_inv (fun u => mem u = mem w /\ dMeta (disk u) = dMeta (disk w) /\ locked u = locked w)) in E; [done| |done].
  intros id u u' _ (Hm & Hd & Hl) Eu. destruct (nt !! id) as [t|]; [|by injection Eu as <-].
  unfold save_tenant_of, save_blob_of in Eu. destruct (tTl t); [|done]. apply M_bind_ok in Eu as (u1 & b & E1 & E2).
  apply lift_ok in E1 as [_ ->]. injection E2 as <-. done.
Qed.

Lemma for_each_total {A} (l : list A) f :
  (forall x w, x ∈ l -> exists w', f x w = (w', ROk tt)) -> forall w, exists w', for_each l f w = (w', ROk tt).
Proof.
  intros Hf. induction l as [|x l IH]; intros w; [by exists w|]. cbn [for_each]. unfold mbind, M_bind.
  destruct (Hf x w ltac:(set_solver)) as [w1 ->]. apply IH. intros y v Hy. apply Hf. set_solver.
Qed.

Lemma Restore_succeeds b bu gm nt order order' draws w :
  parse_bundle b = Some bu -> bGateway bu = Some gm -> bVersion bu = 1 ->
  restore_all gm (order (map_to_list (bTenants bu))) ∅ = Ret nt ->
  locked w = false -> length (sSealKey (mem w)) = 32%nat -> (forall v, sVault (mem w) = Some v -> vault_ok v) ->
  (forall id, drawn_file (draws id)) ->
  (forall id t, nt !! id = Some t -> exists tl, tTl t = Some tl /\ storable tl) ->
  exists w', Restore b order order' draws w = (w', ROk tt) /\ sTenants (mem w') = nt.
Proof.
  intros Eb Eg Ev Ent Hl Hk Hv Hd Hs. unfold Restore. rewrite Eb, Eg, Ev. change (negb (1 =? 1)) with false. cbv iota.
  unfold get, mbind, M_bind, lift. rewrite Ent. set (gw := set_tenants nt _). unfold save_meta_of, write.
  match goal with |- context [for_each ?l ?f ?u] => destruct (for_each_total l f) with (w := u) as [w1 E1] end.
  { intros id u _. destruct (nt !! id) as [t|] eqn:Ht; [|by eexists]. destruct (Hs id t Ht) as (tl & Htl & Hst).
    destruct (save_tenant_writes gw t (draws id) tl u Htl Hst (Hd id) Hk Hv) as (file & -> & _). by eexists. }
  rewrite E1. destruct (restore_writes _ _ _ _ _ _ E1) as (Hm & _ & Hl1). cbn [mem locked] in *.
  unfold with_lock, lock. rewrite Hl1, Hl. eexists. split; [reflexivity|]. done.
Qed.

(** A restore takes in verified timelines only: when it succeeds, every
    tenant of the store is one of the bundle's, with a timeline that parsed from
    it and verifies; and when a timeline of the bundle does not parse or does
    not verify, the store and its directory stay exactly as they were. *)
Theorem Restore_verified b bu gm order order' draws w :
  (forall l, order l ≡ₚ l) -> parse_bundle b = Some bu -> bGateway bu = Some gm -> bVersion bu = 1 ->
  (forall w', Restore b order order' draws w = (w', ROk tt) ->
     forall id t, sTenants (mem w') !! id = Some t ->
       exists raw tl, bTenants bu !! id = Some raw /\ UnmarshalTimeline raw = Ret tl /\ tTl t = Some tl /\ Verify tl = Ret true) /\
  (forall id raw, bTenants bu !! id = Some raw -> (forall tl, UnmarshalTimeline raw = Ret tl -> Verify tl = Ret false) ->
     exists e, Restore b order order' draws w = (w, RErr e)).
Proof.
  intros Ho Eb Eg Ev. unfold Restore. rewrite Eb, Eg, Ev. cbn [Z.eqb negb]. change (negb (1 =? 1)) with false. cbv iota.
  assert (Hin : forall id raw, (id, raw) ∈ order (map_to_list (bTenants bu)) <-> bTenants bu !! id = Some raw).
  { intros id raw. rewrite (Ho _). apply elem_of_map_to_list. }
  split.
  - intros w' E id t Ht. apply M_bind_ok in E as (w1 & s & E1 & E). injection E1 as <- <-.
    apply M_bind_ok in E as (w1 & nt & E1 & E). apply lift_ok in E1 as [E1 ->].
    destruct (restore_all_ok _ _ _ _ E1) as [_ Hnt].
    apply M_bind_ok in E as (w2 & [] & E2 & E). apply M_bind_ok in E as (w3 & [] & E3 & E).
    apply with_lock_ok in E as (_ & w4 & E4 & ->). injection E4 as <-. cbn in Ht.
    destruct (Hnt id t Ht) as [Hc|(raw & Hi & Er)]; [by rewrite lookup_empty in Hc|].
    destruct (restore_tenant_ok _ _ _ _ Er) as (tl & Eu & Hv & Htl & _). exists raw, tl. split; [by apply Hin|]. done.
  - intros id raw Hr Hbad. unfold get, mbind, M_bind, lift.
    destruct (restore_all gm (order (map_to_list (bTenants bu))) ∅) as [nt|e|] eqn:E.
    + exfalso. destruct (restore_all_ok _ _ _ _ E) as [Ha _]. destruct (Ha id raw) as [t Et]; [by apply Hin|].
      destruct (restore_tenant_ok _ _ _ _ Et) as (tl & Eu & Hv & _). rewrite (Hbad tl Eu) in Hv. done.
    + by exists e.
    + exfalso. revert E. generalize (order (map_to_list (bTenants bu))), (∅ : gmap string Tenant). clear.
      intros l. induction l as [|[id raw] l IH]; intros acc E; [done|]. cbn [restore_all] in E.
      destruct (restore_tenant gm id raw) eqn:Et; cbn [mbind outcome_bind] in E; [by apply IH in E|done|].
      unfold restore_tenant in Et. destruct (Unmarshal_verifier_safe raw) as [Hnp Hv].
      destruct (UnmarshalTimeline raw) as [tl| |]; [|done..]. destruct (Hv tl eq_refl) as (_ & (v & E1) & _). rewrite E1 in Et. by destruct v.
Qed.

(** A restore splits memory and directory: after it succeeds, the running
    gateway keeps its own council anchor and log key, while [gateway.json] holds
    the bundle's, so that the next start recovers under another trust anchor and
    signs tree heads with another key; and no restored tenant has a subscriber
    on its fleet, so that no score posted for it can ever be recorded as a
    detection. *)
Theorem Restore_anchor b bu gm order order' draws w w' :
  parse_bundle b = Some bu -> bGateway bu = Some gm ->
  Restore b order order' draws w = (w', ROk tt) ->
  sCouncilPub (mem w') = sCouncilPub (mem w) /\ sLogKey (mem w') = sLogKey (mem w) /\
  (exists m, dMeta (disk w') = Some (print_meta m) /\ mCouncilPub m = mCouncilPub gm /\ mLogKey m = mLogKey gm) /\
  forall id t, sTenants (mem w') !! id = Some t -> fans (tFleet t) = [] /\
    forall ord m now now', fans (Ingest ord (tFleet t) m now now') = [].
Proof.
  intros Eb Eg E. unfold Restore in E. rewrite Eb, Eg in E. destruct (negb _); [done|].
  apply M_bind_ok in E as (w1 & s & E1 & E). injection E1 as <- <-.
  apply M_bind_ok in E as (w1 & nt & E1 & E). apply lift_ok in E1 as [E1 ->].
  destruct (restore_all_ok _ _ _ _ E1) as [_ Hnt].
  apply M_bind_ok in E as (w2 & [] & E2 & E). unfold save_meta_of in E2. injection E2 as <-.
  apply M_bind_ok in E as (w3 & [] & E3 & E). apply restore_writes in E3 as (Hm & Hd & Hl).
  apply with_lock_ok in E as (_ & w4 & E4 & ->). injection E4 as <-. cbn [mem disk set_locked].
  split; [cbn; by rewrite Hm|]. split; [cbn; by rewrite Hm|]. split; [rewrite Hd; by eexists|].
  intros id t Ht. cbn in Ht. destruct (Hnt id t Ht) as [Hc|(raw & Hi & Er)]; [by rewrite lookup_empty in Hc|].
  destruct (restore_tenant_ok _ _ _ _ Er) as (tl & _ & _ & _ & Hf). split; [done|].
  intros ord m now now'. unfold Ingest, emit, broadcast. cbn. by rewrite Hf.
Qed.

End store.

(** ** A concrete text of the metadata, and the witnesses *)

Module ToyStore.

#[local] Program Instance byte_countable : Countable byte := inj_countable byte_Z (fun z => Some (Z_byte z)) _.
Next Obligation. intros b. cbn. by rewrite Z_byte_Z. Qed.

Abbreviation user_type := (string * string * list string * list string * gmap string (list string))%type.
Abbreviation hook_type := (string * string * string * list string * bool)%type.
Abbreviation tenant_type := (string * string * Z * string)%type.

#[local] Program Instance user_countable : Countable User :=
  inj_countable (fun u => (uID u, uRole u, uOrgs u, uTokens u, uTokenOrgs u) : user_type)
    (fun '(i, r, o, t, s) => Some {| uID := i; uRole := r; uOrgs := o; uTokens := t; uTokenOrgs := s |}) _.
Next Obligation. by intros []. Qed.

#[local] Instance hook_eq_dec : EqDecision Webhook.
Proof. solve_decision. Defined.
#[local] Program Instance hook_countable : Countable Webhook :=
  inj_countable (fun h => (whID h, whURL h, whSecret h, whEvents h, whActive h) : hook_type)
    (fun '(i, u, s, e, a) => Some {| whID := i; whURL := u; whSecret := s; whEvents := e; whActive := a |}) _.
Next Obligation. by intros []. Qed.

#[local] Instance tenant_eq_dec : EqDecision TenantMeta.
Proof. solve_decision. Defined.
#[local] Program Instance tenant_countable : Countable TenantMeta :=
  inj_countable (fun t => (tmID t, tmName t, tmCreated t, tmKeyHash t) : tenant_type)
    (fun '(i, n, c, k) => Some {| tmID := i; tmName := n; tmCreated := c; tmKeyHash := k |}) _.
Next Obligation. by intros []. Qed.

#[local] Instance meta_eq_dec : EqDecision Meta.
Proof. solve_decision. Defined.
#[local] Program Instance meta_countable : Countable Meta :=
  inj_countable (fun m => (mUsers m, mWebhooks m, mTenants m, mCouncilPub m, mLogKey m))
    (fun '(u, h, t, c, l) => Some {| mUsers := u; mWebhooks := h; mTenants := t; mCouncilPub := c; mLogKey := l |}) _.
Next Obligation. by intros []. Qed.

#[local] Instance bundle_eq_dec : EqDecision Bundle.
Proof. solve_decision. Defined.
#[local] Program Instance bundle_countable : Countable Bundle :=
  inj_countable (fun b => (bVersion b, bGateway b, bTenants b))
    (fun '(v, g, t) => Some {| bVersion := v; bGateway := g; bTenants := t |}) _.
Next Obligation. by intros []. Qed.

#[global] Instance text : MetaText := {|
  print_meta m := ToyX509.pickle m;
  parse_meta b := ToyX509.unpickle b;
  print_bundle m := ToyX509.pickle m;
  parse_bundle b := ToyX509.unpickle b;
|}.

Lemma pickled (b : Bundle) : parse_bundle (print_bundle b) = Some b.
Proof. apply ToyX509.pickle_unpickle. Qed.

#[global] Instance text_laws : MetaTextLaws.
Proof.
  split.
  - intros m _. apply ToyX509.pickle_unpickle.
  - intros b _ _ _. exists (bTenants b). split; [|by split; [|congruence]].
    rewrite pickled. by destruct b.
Qed.

Definition draws (id : string) : FileDraws :=
  {| fdVault := {| sdKey := Some (replicate 32 Byte.x02); sdBox := Some (replicate 12 Byte.x03);
                   sdData := Some (replicate 12 Byte.x04) |};
     fdNonce := Some (replicate 12 Byte.x05) |}.

Lemma draws_ok id : drawn_file (draws id).
Proof.
  split; [|by exists (replicate 12 Byte.x05)].
  exists (replicate 32 Byte.x02), (replicate 12 Byte.x03), (replicate 12 Byte.x04). by split.
Qed.

Lemma id_order : perm_order (fun l => l).
Proof. by intros l. Qed.

(** An empty gateway, and one with a tenant. *)
Definition w0 : World := fst (NewStore (fun l => l) (Some (replicate 32 Byte.x07)) (Some (replicate 32 Byte.x08)) (booting emptyDisk)).
Definition w1 : World := fst (CreateTenant "acme" "Acme" (Some (Toy.key 1)) 1700000000 (draws "acme") w0).

Lemma w0_ran kek : Ran kek w0.
Proof.
  apply (ran_boot kek (fun l => l) (replicate 32 Byte.x07) (replicate 32 Byte.x08)); [reflexivity..|].
  unfold w0. reflexivity.
Qed.

Lemma w1_created : exists t, CreateTenant "acme" "Acme" (Some (Toy.key 1)) 1700000000 (draws "acme") w0 = (w1, ROk t).
Proof. eexists. unfold w1. reflexivity. Qed.

Lemma w1_ran kek : Ran kek w1.
Proof.
  destruct w1_created as [t E].
  refine (ran_create kek w0 "acme" "Acme" (Toy.key 1) 1700000000 (draws "acme") t w1 (w0_ran kek) _ _ _ _ (draws_ok "acme") E);
    clear E.
  - reflexivity.
  - reflexivity.
  - vm_compute. split; [discriminate|reflexivity].
  - reflexivity.
Qed.

End ToyStore.

Lemma audit_ring_witness : exists w',
  for_each [{| aeTs := 1; aeUser := "a"; aeOrg := "acme"; aeMethod := "POST"; aePath := "/v1/orgs"; aeStatus := 201; aeDetails := "" |}]
    Audit ToyStore.w0 = (w', ROk tt) /\ (length (sAudit (mem w')) <= auditCap)%nat.
Proof.
  destruct (audit_ring ToyStore.w0 [{| aeTs := 1; aeUser := "a"; aeOrg := "acme"; aeMethod := "POST"; aePath := "/v1/orgs";
    aeStatus := 201; aeDetails := "" |}]) as (w' & E & _ & Hl & _).
  - reflexivity.
  - reflexivity.
  - exists w'. split; [exact E|exact Hl].
Defined.

Lemma restart_restores_witness : exists w,
  NewStore (fun l => l) None None (booting (disk ToyStore.w1)) = (w, ROk tt) /\ restored ToyStore.w1 w.
Proof.
  destruct (restart_restores wkek ToyStore.w1 (fun l => l) None None (ToyStore.w1_ran wkek) ToyStore.id_order) as (w & E & Hr & _).
  exists w. split; [exact E|]. apply Hr. reflexivity.
Defined.

Module ToyVault.

Lemma joined : JoinKEK (map Some (drop 2 wshares)) = Ret wkek.
Proof.
  apply (ShamirJoin_split wkek 5 3 (fun i => Some (77 + Z.of_nat i)) wshares (drop 2 wshares)); [lia|vm_compute; reflexivity|..].
  - apply (NoDup_fmap_1 SX), (bool_decide_unpack _). vm_compute. exact I.
  - intros x Hx. rewrite <- (take_drop 2 wshares). apply elem_of_app. by right.
  - vm_compute. discriminate.
Qed.

(** The gateway of [ToyStore.w1] with its vault unlocked, and rotated. *)
Lemma unlocked : exists w v t, Ran wkek w /\ sVault (mem w) = Some v /\ sTenants (mem w) !! "acme"%string = Some t.
Proof.
  pose proof (ToyStore.w1_ran wkek) as Hr.
  destruct (unlock_succeeds wkek (map Some (drop 2 wshares)) (replicate 32 Byte.x01) (replicate 12 Byte.x09) (fun l => l) (fun l => l)
    ToyStore.draws ToyStore.w1 (run_persists _ _ Hr) eq_refl joined eq_refl eq_refl eq_refl ToyStore.id_order ToyStore.draws_ok)
    as (w & E & Hm).
  exists w. eexists. eexists. split.
  - exact (ran_unlock wkek ToyStore.w1 (map Some (drop 2 wshares)) (replicate 32 Byte.x01) (replicate 12 Byte.x09) (fun l => l)
      (fun l => l) ToyStore.draws w Hr joined eq_refl eq_refl eq_refl ToyStore.id_order ToyStore.id_order ToyStore.draws_ok E).
  - rewrite Hm. split; reflexivity.
Qed.

End ToyVault.

Lemma rotate_crash_loses_witness : exists w w' d,
  RotateVault (map Some (drop 2 wshares)) (Some (replicate 32 Byte.x0a)) (Some (replicate 12 Byte.x09)) (fun l => l) (fun l => l)
    ToyStore.draws w = (w', ROk tt) /\ d ∈ crash_points w' /\
  exists w1, NewStore (fun l => l) None None (booting d) = (w1, ROk tt) /\
    snd (UnlockVault (map Some (drop 2 wshares)) None None (fun l => l) (fun l => l) ToyStore.draws w1) =
      RErr "store: tenant %s (vault): %w".
Proof.
  destruct ToyVault.unlocked as (w & v & t & Hr & Hv & Ht).
  destruct (rotate_succeeds wkek v (map Some (drop 2 wshares)) (replicate 32 Byte.x0a) (replicate 12 Byte.x09) (fun l => l) (fun l => l)
    ToyStore.draws w (run_persists _ _ Hr) Hv ToyVault.joined eq_refl eq_refl eq_refl ToyStore.id_order ToyStore.draws_ok) as (w' & E & _).
  destruct (rotate_crash_loses wkek w v "acme" t (map Some (drop 2 wshares)) (replicate 32 Byte.x0a) (replicate 12 Byte.x09)
    (fun l => l) (fun l => l) ToyStore.draws w' Hr Hv Ht ToyVault.joined eq_refl eq_refl eq_refl E) as (d & Hd & _ & Hboot).
  exists w, w', d. split; [exact E|]. split; [exact Hd|].
  destruct (Hboot (fun l => l) None None ToyStore.id_order) as (w1 & E1 & Hu). exists w1. split; [exact E1|].
  exact (Hu _ _ _ _ _ _ ToyVault.joined ToyStore.id_order).
Defined.

Lemma delete_undone_witness : exists w',
  DeleteTenant "acme" 1700000100 ToyStore.w1 = (w', RErr "rename: no such file or directory") /\
  sTenants (mem w') !! "acme"%string = None /\
  exists w1, NewStore (fun l => l) None None (booting (disk w')) = (w1, ROk tt) /\ is_Some (sTenants (mem w1) !! "acme"%string).
Proof.
  assert (exists t, sTenants (mem ToyStore.w1) !! "acme"%string = Some t) as [t Ht] by (eexists; reflexivity).
  destruct (delete_undone wkek ToyStore.w1 "acme" t 1700000100 (fun l => l) None None (ToyStore.w1_ran wkek) Ht ToyStore.id_order)
    as (w' & E & Hn & _ & Hb).
  exists w'. split; [exact E|]. split; [exact Hn|exact Hb].
Defined.

(** A bundle of one tenant whose timeline is empty, under the metadata [gm]. *)
Module ToyBundle.
Definition gm : Meta :=
  {| mUsers := ∅; mWebhooks := []; mTenants := ∅; mCouncilPub := Some (replicate 32 Byte.x2a); mLogKey := Some (replicate 32 Byte.x2b) |}.
Definition tl : Timeline :=
  {| events := []; tkey := None; tpub := replicate 32 Byte.x01; tstart := Some (replicate 32 Byte.x01); councilPub := None;
     rotations := []; algo := algoSHA256 |}.
Definition bu : Bundle := {| bVersion := 1; bGateway := Some gm; bTenants := {["acme"%string := Marshal tl false]} |}.

Lemma parsed : parse_bundle (print_bundle bu) = Some bu.
Proof. apply ToyStore.pickled. Qed.
Definition nt : gmap string Tenant :=
  match restore_all gm (map_to_list (bTenants bu)) ∅ with Ret nt => nt | _ => ∅ end.
Lemma checked : restore_all gm (map_to_list (bTenants bu)) ∅ = Ret nt.
Proof. vm_compute. reflexivity. Qed.
Lemma live id t : nt !! id = Some t -> exists tl, tTl t = Some tl /\ storable tl.
Proof.
  intros Ht. destruct (restore_all_ok _ _ _ _ checked) as [_ Hn]. destruct (Hn id t Ht) as [Hc|(raw & Hi & Er)].
  { by rewrite lookup_empty in Hc. }
  unfold bu in Hi. cbn [bTenants] in Hi. rewrite map_to_list_singleton in Hi. apply list_elem_of_singleton in Hi as [= -> ->].
  destruct (restore_tenant_ok _ _ _ _ Er) as (tl' & Eu & _ & Htl & _).
  rewrite Unmarshal_Marshal in Eu by (split_and!; try reflexivity; constructor). injection Eu as <-. eexists. split; [exact Htl|].
  split_and!; try reflexivity; constructor.
Qed.
Lemma restored : exists w', Restore (print_bundle bu) (fun l => l) (fun l => l) ToyStore.draws ToyStore.w1 = (w', ROk tt) /\
  is_Some (sTenants (mem w') !! "acme"%string).
Proof.
  pose proof (run_persists _ _ (ToyStore.w1_ran wkek)) as Hp.
  destruct (Restore_succeeds (print_bundle bu) bu gm nt (fun l => l) (fun l => l) ToyStore.draws ToyStore.w1 parsed eq_refl eq_refl checked
    (pe_locked _ _ Hp) (proj1 (pe_seal _ _ Hp)) (fun v => pe_vault _ _ v Hp) ToyStore.draws_ok live) as (w' & E & Hw).
  exists w'. split; [exact E|]. rewrite Hw. vm_compute. eexists. reflexivity.
Qed.
Lemma orders (l : list (string * bytes)) : (fun l => l) l ≡ₚ l.
Proof. reflexivity. Qed.
End ToyBundle.

Lemma Restore_verified_witness : exists w' t tl,
  Restore (print_bundle ToyBundle.bu) (fun l => l) (fun l => l) ToyStore.draws ToyStore.w1 = (w', ROk tt) /\
  sTenants (mem w') !! "acme"%string = Some t /\ tTl t = Some tl /\ Verify tl = Ret true.
Proof.
  destruct ToyBundle.restored as (w' & E & t & Ht).
  destruct (Restore_verified (print_bundle ToyBundle.bu) ToyBundle.bu ToyBundle.gm (fun l => l) (fun l => l) ToyStore.draws ToyStore.w1
    ToyBundle.orders ToyBundle.parsed eq_refl eq_refl) as [Hok _].
  destruct (Hok w' E "acme"%string t Ht) as (raw & tl & _ & _ & Htl & Hv).
  exists w', t, tl. split; [exact E|]. split; [exact Ht|]. split; [exact Htl|exact Hv].
Defined.

Lemma Restore_anchor_witness : exists w',
  Restore (print_bundle ToyBundle.bu) (fun l => l) (fun l => l) ToyStore.draws ToyStore.w1 = (w', ROk tt) /\
  sCouncilPub (mem w') = sCouncilPub (mem ToyStore.w1) /\
  exists m, dMeta (disk w') = Some (print_meta m) /\ mCouncilPub m = Some (replicate 32 Byte.x2a).
Proof.
  destruct ToyBundle.restored as (w' & E & _). exists w'. split; [exact E|].
  destruct (Restore_anchor (print_bundle ToyBundle.bu) ToyBundle.bu ToyBundle.gm (fun l => l) (fun l => l) ToyStore.draws ToyStore.w1 w'
    ToyBundle.parsed eq_refl E) as (Hc & _ & (m & Hm & Hmc & _) & _).
  split; [exact Hc|]. exists m. split; [exact Hm|exact Hmc].
Defined.
