(* ===== verification/Webhooks.v ===== *)
(** * Outbound notifications: [webhooks.go]

    An event queues one job per matching endpoint in the outbox, which is
    written to [outbox.json]; the drain loop takes the due jobs out and delivers
    them.  The endpoint's answer to a job is an argument ([deliver], one HTTP
    request), as are the clock and the event's details (a JSON object with
    sorted keys, as [encoding/json] writes a map).

    Theorems: an event queues exactly the matching endpoints, and the file on
    disk reads back as the queue; a job whose delivery fails is gone after that
    first attempt. *)
From Stdlib Require Import SpecFloat.
From S2P Require Import Prelude Crypto Encoding Json Float Timeline TimelineFile TrustState Graph.
From S2P Require Import Watchdog Shamir Pq Vault Auth Ratelimit Transport Fleet Store.

Definition HookDetected : string := "detected".
Definition HookRecovery : string := "recovery".
Definition HookRevoke : string := "revoke".
Definition HookIssue : string := "issue".
Definition outboxMaxAttempts : Z := 5.

Definition hookMatches (h : Webhook) (typ : string) : bool :=
  if negb (whActive h) then false
  else if existsb (fun e => bool_decide (e = typ) || bool_decide (e = "*"%string)) (whEvents h) then true
  else match whEvents h with [] => true | _ => false end.

Definition backoff (attempt : Z) : Z :=
  if attempt =? 1 then 5 else if attempt =? 2 then 15 else if attempt =? 3 then 60 else 300.

(** The body of a notification: an object with its keys in order. *)
Definition hook_body (org typ : string) (eventHash : bytes) (details : json) (now : Z) : bytes :=
  print (JObj [jfield "details" details; jfield "event_hash" (JStr (hex_encode eventHash)); jfield "org" (jstring org);
               jfield "ts" (jint now); jfield "type" (jstring typ)]).

Definition job_of (body : bytes) (now : Z) (h : Webhook) : webhookJob :=
  {| wjURL := whURL h; wjSecret := whSecret h; wjEvents := String.concat "," (whEvents h); wjBody := of_bytes body;
     wjAttempts := 0; wjNextAt := now |}.

(** Queue: read the endpoints under the lock, then append under it. *)
Definition FireWebhooks (org typ : string) (eventHash : bytes) (details : json) (now : Z) : M unit :=
  hooks ← with_lock (s ← get; mret (List.filter (fun h => hookMatches h typ) (sWebhooks s)));
  let body := hook_body org typ eventHash details now in
  with_lock (
    modify (fun s =>
      match hooks with
      | [] => s
      | _ => set_outbox (Some (default [] (sOutbox s) ++ map (job_of body now) hooks)) s
      end);;
    saveOutboxLocked).

Definition same_job (j k : webhookJob) : bool := bool_decide (wjURL k = wjURL j) && bool_decide (wjBody k = wjBody j).

Definition with_attempt (k : webhookJob) (now : Z) : webhookJob :=
  {| wjURL := wjURL k; wjSecret := wjSecret k; wjEvents := wjEvents k; wjBody := wjBody k;
     wjAttempts := wjAttempts k + 1; wjNextAt := now + backoff (wjAttempts k + 1) |}.

(** The first queued job like [j]: removed when delivered or exhausted, else
    put back for later. *)
Fixpoint settle (ok : bool) (j : webhookJob) (now : Z) (l : list webhookJob) : list webhookJob :=
  match l with
  | [] => []
  | k :: l =>
      if same_job j k then
        if ok then l
        else if wjAttempts k + 1 >=? outboxMaxAttempts then l
        else with_attempt k now :: l
      else k :: settle ok j now l
  end.

Definition tryDeliver (deliver : webhookJob -> bool) (now : Z) (j : webhookJob) : M unit :=
  let ok := deliver j in
  with_lock (
    modify (fun s => set_outbox (settle ok j now <$> sOutbox s) s);;
    saveOutboxLocked).

Definition drainOutbox (deliver : webhookJob -> bool) (now : Z) : M unit :=
  due ← with_lock (
    s ← get;
    let l := default [] (sOutbox s) in
    modify (set_outbox ((fun l => List.filter (fun j => negb (wjNextAt j <=? now)) l) <$> sOutbox s));;
    mret (List.filter (fun j => wjNextAt j <=? now) l));
  for_each due (tryDeliver deliver now).

(** ** The queue and its file *)

Definition job_text (j : webhookJob) : Prop :=
  valid_string (wjURL j) /\ valid_string (wjSecret j) /\ valid_string (wjEvents j) /\ valid_string (wjBody j) /\
  in_int64 (wjAttempts j) /\ in_int64 (wjNextAt j).

Lemma job_json_ok j : job_text j ->
  wf (job_json j) /\ norm (job_json j) = job_json j /\ depth (job_json j) = 1%nat /\
  decode_struct job_names job_set job_zero (job_json j) = Some j.
Proof.
  intros (Hu & Hs & He & Hb & Ha & Ht). destruct j as [u s e b a t]. cbn [wjURL wjSecret wjEvents wjBody wjAttempts wjNextAt] in *.
  split; [unfold job_json, jfield; cbn [wf all_of snd]; split_and!; first [exact I|apply wf_jint]|].
  split. { unfold job_json, jfield. cbn [norm map fst snd]. rewrite !coerce_name by reflexivity. by rewrite !norm_jstring. }
  split; [done|]. unfold job_json. rewrite decode_struct_obj. unfold job_zero.
  do 6 struct_step job_set. done.
Qed.

Lemma outbox_roundtrip l : Forall job_text l -> outbox_unmarshal (outbox_marshal l) = Some l.
Proof.
  intros Hl. unfold outbox_unmarshal, outbox_marshal. rewrite parse_print.
  - cbn [mbind option_bind norm]. assert (map norm (map job_json l) = map job_json l) as ->.
    { rewrite map_map. apply List.map_ext_in. intros j Hj%list_elem_of_In. apply job_json_ok. by eapply Forall_forall in Hl. }
    cbn [decode_list]. induction Hl as [|j l Hj Hl IH]; [done|]. cbn [map mapM].
    destruct (job_json_ok j Hj) as (_ & _ & _ & ->). cbn [mbind option_bind]. by rewrite IH.
  - cbn [wf]. apply all_of_Forall, Forall_map. eapply Forall_impl; [exact Hl|]. intros j Hj. by apply job_json_ok.
  - pose proof nesting_room. cbn [depth]. etransitivity; [apply (le_n_S _ 1), list_max_le|lia].
    apply Forall_map, Forall_map. eapply Forall_impl; [exact Hl|]. intros j Hj. destruct (job_json_ok j Hj) as (_ & _ & -> & _). lia.
Qed.

(** An event notifies exactly the endpoints that ask for it: firing appends
    to the queue one fresh job per active endpoint whose list of events is
    empty, names the event or holds [*], in order, and nothing else; and what
    it writes reads back as the queue, so that a restart resumes it. *)
Theorem Fire_queues org typ h details now w :
  locked w = false -> Forall job_text (default [] (sOutbox (mem w))) ->
  Forall (fun k => whActive k = true -> job_text (job_of (hook_body org typ h details now) now k)) (sWebhooks (mem w)) ->
  exists w' hs, FireWebhooks org typ h details now w = (w', ROk tt) /\ locked w' = false /\
    (forall k, k ∈ hs <-> k ∈ sWebhooks (mem w) /\ whActive k = true /\
       (whEvents k = [] \/ typ ∈ whEvents k \/ "*"%string ∈ whEvents k)) /\
    hs `sublist_of` sWebhooks (mem w) /\
    default [] (sOutbox (mem w')) = default [] (sOutbox (mem w)) ++ map (job_of (hook_body org typ h details now) now) hs /\
    (hs <> [] -> exists b, dOutbox (disk w') = Some b /\ outbox_unmarshal b = Some (default [] (sOutbox (mem w')))).
Proof.
  intros Hl Hq Hh. set (hs := List.filter (fun k => hookMatches k typ) (sWebhooks (mem w))).
  assert (Hm : forall k, hookMatches k typ = true <-> whActive k = true /\ (whEvents k = [] \/ typ ∈ whEvents k \/ "*"%string ∈ whEvents k)).
  { intros k. unfold hookMatches. destruct (whActive k); cbn [negb]; [|naive_solver].
    destruct (existsb _ _) eqn:E.
    - apply existsb_exists in E as (e & He & E). apply list_elem_of_In in He. split; [|done]. intros _. split; [done|]. right.
      apply orb_true_iff in E as [<-%bool_decide_eq_true|E%bool_decide_eq_true]; [by left|right; by subst].
    - assert (Hno : forall e, e ∈ whEvents k -> e <> typ /\ e <> "*"%string).
      { intros e He. apply not_true_iff_false in E. split; intros ->; apply E, existsb_exists; eexists;
          (split; [by apply list_elem_of_In|]); apply orb_true_iff; [left|right]; by apply bool_decide_eq_true. }
      destruct (whEvents k) as [|e es] eqn:Ee; [naive_solver|]. split; [done|]. intros (_ & [?|[Hi|Hi]]); [done|..]; by apply Hno in Hi as [? ?]. }
  assert (Hsub : hs `sublist_of` sWebhooks (mem w)).
  { unfold hs. clear. induction (sWebhooks (mem w)) as [|k l IH]; [constructor|]. cbn. destruct (hookMatches k typ); by constructor. }
  assert (Hin : forall k, k ∈ hs <-> k ∈ sWebhooks (mem w) /\ hookMatches k typ = true).
  { intros k. unfold hs. rewrite !list_elem_of_In, filter_In. done. }
  set (body := hook_body org typ h details now). set (q := default [] (sOutbox (mem w))) in *.
  assert (Hjobs : Forall job_text (q ++ map (job_of body now) hs)).
  { apply Forall_app. split; [done|]. apply Forall_map, Forall_forall. intros k [Hk Hmk]%Hin.
    rewrite Forall_forall in Hh. apply Hh; [done|]. by apply Hm in Hmk as [? _]. }
  unfold FireWebhooks, with_lock, lock, get, mret, M_ret, mbind, M_bind. rewrite Hl. cbn [set_locked locked mem fst snd]. fold hs body.
  clearbody hs. destruct hs as [|k0 hs0].
  - cbn [modify mem]. unfold saveOutboxLocked, get, mbind, M_bind. cbn [mem set_locked].
    destruct (sOutbox (mem w)) as [l|] eqn:Eo; (eexists _, []; split; [reflexivity|]); (split; [done|]); (split; [intros k; rewrite <- Hm; apply Hin|]);
      (split; [done|]); (split; [unfold q; cbn; by rewrite ?Eo, ?app_nil_r|done]).
  - cbn [modify mem]. unfold saveOutboxLocked, get, mbind, M_bind. cbn [mem set_outbox sOutbox].
    eexists _, (k0 :: hs0). split; [reflexivity|]. split; [done|]. split; [intros k; rewrite <- Hm; apply Hin|]. split; [done|].
    split; [done|]. intros _. eexists. split; [reflexivity|]. cbn. by apply outbox_roundtrip.
Qed.

(** ** A failed delivery *)

Lemma settle_absent ok j now l : (forall k, k ∈ l -> same_job j k = false) -> settle ok j now l = l.
Proof.
  induction l as [|k l IH]; intros Hl; [done|]. cbn [settle]. rewrite Hl by set_solver. f_equal. apply IH. set_solver.
Qed.

(** No delivery is ever retried: the drain takes the due jobs out of the
    queue before it tries them, so that the failure of a delivery finds nothing
    to put back; after a pass in which every delivery fails, the queue and its
    file hold exactly the jobs that were not due (unless one of those has the
    endpoint and body of a due one), just as if every delivery had succeeded. *)
Theorem drain_drops deliver now w l :
  locked w = false -> sOutbox (mem w) = Some l ->
  (forall j k, j ∈ l -> k ∈ l -> wjNextAt j <= now -> now < wjNextAt k -> same_job j k = false) ->
  exists w', drainOutbox deliver now w = (w', ROk tt) /\
    sOutbox (mem w') = Some (List.filter (fun j => negb (wjNextAt j <=? now)) l) /\
    (Exists (fun j => wjNextAt j <= now) l ->
       dOutbox (disk w') = Some (outbox_marshal (List.filter (fun j => negb (wjNextAt j <=? now)) l))).
Proof.
  intros Hl Ho Hne. set (kept := List.filter _ l).
  assert (Hloop : forall due u, (forall j k, j ∈ due -> k ∈ kept -> same_job j k = false) ->
    locked u = false -> sOutbox (mem u) = Some kept ->
    exists u', for_each due (tryDeliver deliver now) u = (u', ROk tt) /\ sOutbox (mem u') = Some kept /\
      (due <> [] \/ dOutbox (disk u) = Some (outbox_marshal kept) -> dOutbox (disk u') = Some (outbox_marshal kept))).
  { induction due as [|j due IH]; intros u Hd Hlu Hou; [exists u; split_and!; try done; by intros [?|?]|].
    cbn [for_each]. unfold mbind at 1, M_bind at 1. unfold tryDeliver at 1, with_lock, lock. rewrite Hlu.
    unfold saveOutboxLocked, get, mbind, M_bind.
    cbn [modify set_locked mem disk past set_outbox sOutbox]. rewrite Hou. cbn [fmap option_fmap option_map].
    rewrite settle_absent by (intros; apply Hd; set_solver). cbn [write mem disk past set_locked].
    match goal with |- context [for_each due _ ?v] => destruct (IH v) as (u' & E & Hou' & Hf) end; [intros; apply Hd; set_solver|done..|].
    exists u'. split; [exact E|]. split; [done|]. intros _. apply Hf. by right. }
  unfold drainOutbox, with_lock, lock, get, mret, M_ret, mbind, M_bind. rewrite Hl. cbn [set_locked mem locked modify]. rewrite Ho.
  cbn [default fmap option_fmap option_map]. fold kept.
  match goal with |- context [for_each ?d _ ?v] => destruct (Hloop d v) as (u' & E & Hou' & Hf) end; [|done|done|].
  - intros j k Hj Hk. apply list_elem_of_In, filter_In in Hj as [Hj Hjn]. apply list_elem_of_In, filter_In in Hk as [Hk Hkn].
    apply Hne; [by apply list_elem_of_In..|by apply Z.leb_le|]. apply negb_true_iff, Z.leb_gt in Hkn. done.
  - exists u'. split; [exact E|]. split; [done|]. intros Hex. apply Hf. left. apply Exists_exists in Hex as (j & Hj & Hn).
    intros En. assert (j ∈ ([] : list webhookJob)) as Hno by (rewrite <- En; apply list_elem_of_In, filter_In; split;
      [by apply list_elem_of_In|by apply Z.leb_le]). by apply elem_of_nil in Hno.
Qed.

(** ** Witnesses *)

Module ToyHooks.
Definition hook (id : string) (es : list string) : Webhook :=
  {| whID := id; whURL := "https://ops.example/" ++ id; whSecret := "s3cret"; whEvents := es; whActive := true |}.
Definition job : webhookJob :=
  {| wjURL := "https://ops.example/wh-1"; wjSecret := "s3cret"; wjEvents := ""; wjBody := "{}"; wjAttempts := 0; wjNextAt := 100 |}.
Definition world : World :=
  {| mem := set_outbox (Some [job]) (set_webhooks [hook "wh-1" []; hook "wh-2" ["issue"%string]; hook "wh-3" ["revoke"%string]] emptyStore);
     disk := emptyDisk; past := []; locked := false |}.
End ToyHooks.

Lemma Fire_queues_witness : exists w' hs, FireWebhooks "acme" HookRevoke [Byte.x01] JNull 200 ToyHooks.world = (w', ROk tt) /\
  default [] (sOutbox (mem w')) = [ToyHooks.job] ++ map (job_of (hook_body "acme" HookRevoke [Byte.x01] JNull 200) 200) hs.
Proof.
  destruct (Fire_queues "acme" HookRevoke [Byte.x01] JNull 200 ToyHooks.world) as (w' & hs & E & _ & _ & _ & Hq & _).
  - reflexivity.
  - apply Forall_cons. split; [|apply Forall_nil; exact I]. repeat (split; try reflexivity); vm_compute; congruence.
  - repeat (apply Forall_cons; split; [intros _; repeat (split; try reflexivity); vm_compute; congruence|]). apply Forall_nil. exact I.
  - exists w', hs. split; [exact E|exact Hq].
Defined.

Lemma drain_drops_witness : exists w', drainOutbox (fun _ => false) 200 ToyHooks.world = (w', ROk tt) /\ sOutbox (mem w') = Some [].
Proof.
  destruct (drain_drops (fun _ => false) 200 ToyHooks.world [ToyHooks.job]) as (w' & E & Ho & _).
  - reflexivity.
  - reflexivity.
  - intros j k Hj%list_elem_of_singleton Hk%list_elem_of_singleton _ Hn. exfalso. rewrite Hk in Hn. cbn in Hn. lia.
  - exists w'. split; [exact E|exact Ho].
Defined.
