(* ===== verification/Compliance.v ===== *)
(** * Evidence-based compliance reports: [compliance.go]

    The facts computed from a deployment's evidence, the verdict of each
    control, and the five framework tables with their tallies.  The time of the
    report and the orders of the ranges over maps are arguments; roles are
    sorted, so that the report does not depend on them.

    Theorems: the tallies add up and every verdict is backed; the controls on
    the log pass exactly when the chain verifies; but three controls pass on the
    events of a chain that does not. *)
From Stdlib Require Import SpecFloat.
From stdpp Require Import sorting.
From S2P Require Import Prelude Crypto Encoding Json Float Timeline TimelineTheory TrustState Graph.
From S2P Require Import Watchdog Shamir Frost Pq Vault Auth Ratelimit Transport Fleet Store.

Inductive ControlStatus := StatusPass | StatusManual | StatusMissing.

#[global] Instance status_eq_dec : EqDecision ControlStatus.
Proof. solve_decision. Defined.

Record ControlResult := {
  crID : string;
  crTitle : string;
  crStatus : ControlStatus;
  crEvidence : list string;
  crNote : string;
}.

Record FrameworkReport := { frName : string; frControls : list ControlResult; frPass : Z; frManual : Z; frMissing : Z }.

Record ComplianceSummary := {
  csEvents : Z;
  csValid : bool;
  csCouncilAnchor : bool;
  csDetections : Z;
  csRecoveries : Z;
  csRevocations : Z;
  csAuditEntries : Z;
  csUsers : Z;
  csRoles : list string;
  csHasBackup : bool;
  csHasVault : bool;
  csWebhooks : Z;
  csPolicyViolations : list string;
}.

Record ComplianceReport := {
  rpGenerated : Z;
  rpEvidence : ComplianceSummary;
  rpFrameworks : list FrameworkReport;
  rpFindings : list string;
}.

Record ComplianceEvidence := {
  ceTimeline : option Timeline;
  ceAuditEntries : list AuditEntry;
  ceUsers : gmap string string;   (* id -> role *)
  ceWebhooks : Z;
  ceHasBackup : bool;
  ceHasVault : bool;
  ceMaxIssues : Z;                (* Policy.MaxIssuesPerIdentityPerWindow *)
}.

(** ** Verdicts *)

Definition verdict_of (st : ControlStatus) (evidence : list string) (note : string) : ControlResult :=
  {| crID := ""; crTitle := ""; crStatus := st; crEvidence := evidence; crNote := note |}.
Definition pass (e : string) : ControlResult := verdict_of StatusPass [e] "".
Definition manual (note : string) : ControlResult := verdict_of StatusManual [] note.
Definition missing : ControlResult := verdict_of StatusMissing [] "".
Definition manualStatic (note : string) (s : ComplianceSummary) : ControlResult := manual note.

(** [fmt]'s [%d], and [strings.Join(l, ", ")]. *)
Definition fmt_d (z : Z) : string := of_bytes (dec_Z z).
Definition joined (l : list string) : string := String.concat ", " l.

Definition rbacStatus (s : ComplianceSummary) : ControlResult :=
  if csUsers s =? 0 then missing
  else if zlen (csRoles s) >=? 2 then pass ("role-based access: " ++ joined (csRoles s))
  else manual "single role present — attest least-privilege mapping".

Definition authStatus (s : ComplianceSummary) : ControlResult :=
  if csUsers s =? 0 then missing
  else pass "bearer-token auth; tokens stored as SHA-256; per-token org scoping".

Definition adminStatus (s : ComplianceSummary) : ControlResult :=
  if existsb (fun r => bool_decide (r = RoleAdmin)) (csRoles s) then pass "privileged role separated (admin)"
  else missing.

Definition logStatus (s : ComplianceSummary) : ControlResult :=
  if csValid s && (csEvents s >? 0)
  then pass ("append-only signed hash chain, " ++ fmt_d (csEvents s) ++ " events, verification PASS")
  else if csEvents s >? 0 then verdict_of StatusMissing [] "timeline failed chain verification"
  else missing.

Definition monitorStatus (s : ComplianceSummary) : ControlResult :=
  if csDetections s >? 0
  then pass (fmt_d (csDetections s) ++ " DETECTED events from the watchdog ensemble (3/5 fusion)")
  else manual "no detection evidence — run bench S1-S7 or a live watchdog fleet".

Definition backupStatus (s : ComplianceSummary) : ControlResult :=
  if csHasBackup s then pass "backup artifact present (snapshot bundle / data dir copy)" else missing.

Definition cryptoStatus (s : ComplianceSummary) : ControlResult :=
  if csHasVault s then pass "envelope encryption: KEK in 3-of-5 council shares, DEK, per-epoch HKDF subkeys"
  else manual "no vault evidence — attest seal key (gateway.key) or envelope at-rest policy".

Definition incidentStatus (s : ComplianceSummary) : ControlResult :=
  if (csRecoveries s >? 0) && csCouncilAnchor s
  then pass (fmt_d (csRecoveries s) ++ " recoveries threshold-signed by the FROST council")
  else if csRecoveries s >? 0 then manual "recoveries on record — attest the response playbook"
  else missing.

Definition changeStatus (s : ComplianceSummary) : ControlResult :=
  if csValid s && (csEvents s >? 0)
  then pass "every change is a signed chain event: ISSUE/REVOKE/POLICY_CHANGE/RECOVERY"
  else missing.

Definition recordStatus (s : ComplianceSummary) : ControlResult :=
  if csAuditEntries s >? 0 then pass (fmt_d (csAuditEntries s) ++ " gateway action entries (who/what/when)")
  else if csEvents s >? 0
  then manual "timeline is signed but no action audit provided — export /v1/audit?source=actions"
  else missing.

(** The controls the tables define in place. *)
Definition provisioningStatus (s : ComplianceSummary) : ControlResult :=
  if (csUsers s >? 0) && (csAuditEntries s >? 0) then pass "user lifecycle recorded in the action audit"
  else manual "attest provisioning/de-provisioning procedure and its audit trail".
Definition rolesStatus (s : ComplianceSummary) : ControlResult :=
  if zlen (csRoles s) >=? 2 then pass ("distinct roles: " ++ joined (csRoles s)) else missing.
Definition recoveryStatus (s : ComplianceSummary) : ControlResult :=
  if csHasBackup s && (csRecoveries s >? 0)
  then pass (fmt_d (csRecoveries s) ++ " recoveries on record; backup artifact present")
  else if csHasBackup s || (csRecoveries s >? 0)
  then manual "backup or recovery evidence is partial — attest the full cycle"
  else missing.
Definition integrityStatus (s : ComplianceSummary) : ControlResult :=
  if csValid s && (csEvents s >? 0) then pass "signed hash chain detects tampering; verification PASS" else missing.
Definition processingStatus (s : ComplianceSummary) : ControlResult :=
  if csValid s && csHasVault s then pass "signed chain + envelope encryption at rest"
  else manual "chain or at-rest encryption evidence incomplete".
Definition breachStatus (s : ComplianceSummary) : ControlResult :=
  if csWebhooks s >? 0 then pass (fmt_d (csWebhooks s) ++ " webhook endpoint(s) on detected/recovery events")
  else manual "register notification endpoints (webhooks) and attest the notification procedure".

(** ** The framework tables *)

Definition controlDef : Type := string * string * (ComplianceSummary -> ControlResult).

Definition iso27001 : list controlDef :=
  [("A.5.15", "Access control", rbacStatus);
   ("A.5.17", "Authentication information", authStatus);
   ("A.8.2", "Privileged access rights", adminStatus);
   ("A.8.11", "Logging", logStatus);
   ("A.8.12", "Monitoring", monitorStatus);
   ("A.8.13", "Information backup", backupStatus);
   ("A.8.24", "Use of cryptography", cryptoStatus)]%string.
Definition soc2 : list controlDef :=
  [("CC6.1", "Restrict logical access", rbacStatus);
   ("CC6.2", "User provisioning and de-provisioning", provisioningStatus);
   ("CC6.3", "Role-based access", rolesStatus);
   ("CC6.6", "Logical access security", authStatus);
   ("CC7.2", "Anomaly detection", monitorStatus);
   ("CC7.3", "Incident response", incidentStatus);
   ("CC8.1", "Change management", changeStatus);
   ("A1.2", "Recovery", recoveryStatus)]%string.
Definition pciDss : list controlDef :=
  [("Req 7", "Restrict access to system components", rbacStatus);
   ("Req 8", "Identify users and authenticate access", authStatus);
   ("Req 3", "Protect stored account data", cryptoStatus);
   ("Req 4", "Protect transmissions", manualStatic "mTLS TLS 1.3 on the fleet/council wire; attest key rotation policy");
   ("Req 10", "Log and monitor all access", logStatus);
   ("Req 11", "Test security regularly", manualStatic "evidence: bench S1-S7, kill suite K1-K6, TLA+ model check, fuzz targets");
   ("Req 12", "Support information security", manualStatic "incident response plan, roles and risk assessment")]%string.
Definition hipaa : list controlDef :=
  [("164.312(a)", "Access control", rbacStatus);
   ("164.312(b)", "Audit controls", recordStatus);
   ("164.312(c)", "Integrity", integrityStatus);
   ("164.312(e)", "Transmission security", manualStatic "mTLS TLS 1.3 on the fleet/council wire");
   ("164.308(a)(1)(ii)(B)", "Contingency plan (backup)", backupStatus)]%string.
Definition gdpr : list controlDef :=
  [("Art. 25", "Data protection by design", manualStatic "minimal blast-radius re-issuance (P5); encryption at rest by default");
   ("Art. 30", "Records of processing", recordStatus);
   ("Art. 32", "Security of processing", processingStatus);
   ("Art. 33/34", "Breach notification", breachStatus)]%string.
Definition table : list (string * list controlDef) :=
  [("ISO 27001:2022", iso27001); ("SOC 2", soc2); ("PCI DSS 4.0", pciDss); ("HIPAA", hipaa); ("GDPR", gdpr)]%string.

Definition evaluate (s : ComplianceSummary) (d : controlDef) : ControlResult :=
  let '(id, title, fn) := d in
  let r := fn s in
  {| crID := id; crTitle := title; crStatus := crStatus r; crEvidence := crEvidence r; crNote := crNote r |}.

(** One control added to a framework's report. *)
Definition add_control (fr : FrameworkReport) (r : ControlResult) : FrameworkReport :=
  {| frName := frName fr; frControls := frControls fr ++ [r];
     frPass := frPass fr + (if decide (crStatus r = StatusPass) then 1 else 0);
     frManual := frManual fr + (if decide (crStatus r = StatusManual) then 1 else 0);
     frMissing := frMissing fr + (if decide (crStatus r = StatusMissing) then 1 else 0) |}.
Definition framework (s : ComplianceSummary) (f : string * list controlDef) : FrameworkReport :=
  foldl (fun fr d => add_control fr (evaluate s d))
    {| frName := f.1; frControls := []; frPass := 0; frManual := 0; frMissing := 0 |} f.2.
Definition buildFrameworks (s : ComplianceSummary) : list FrameworkReport := map (framework s) table.

(** ** Facts and findings *)

Section compliance.
Context `{Hashes} `{Ed25519}.

Definition count_type (ty : string) (es : list TrustEvent) : Z :=
  zlen (List.filter (fun e => bool_decide (EType e = ty)) es).

(** Roles in the order the range meets them, without repetition, then sorted. *)
Definition distinct_roles (order : list string -> list string) (users : gmap string string) : list string :=
  foldl (fun seen id => match users !! id with
                        | Some r => if decide (r ∈ seen) then seen else seen ++ [r]
                        | None => seen
                        end) [] (order (map fst (map_to_list users))).

Definition computeFacts (order order' : list string -> list string) (ev : ComplianceEvidence) : outcome ComplianceSummary :=
  let es := match ceTimeline ev with Some t => Events t | None => [] end in
  valid ← match ceTimeline ev with Some t => Verify t | None => Ret false end;
  Ret {| csEvents := zlen es; csValid := valid;
         csCouncilAnchor := match ceTimeline ev with
                            | Some t => (length (sb (CouncilPub t)) =? PublicKeySize)%nat
                            | None => false
                            end;
         csDetections := count_type EvDetected es; csRecoveries := count_type EvRecovery es;
         csRevocations := count_type EvRevoke es; csAuditEntries := zlen (ceAuditEntries ev);
         csUsers := Z.of_nat (size (ceUsers ev));
         csRoles := merge_sort string_le (distinct_roles order (ceUsers ev));
         csHasBackup := ceHasBackup ev; csHasVault := ceHasVault ev; csWebhooks := ceWebhooks ev;
         csPolicyViolations :=
           if (ceMaxIssues ev >? 0) && bool_decide (is_Some (ceTimeline ev))
           then map of_bytes (CheckPolicy order' es (ceMaxIssues ev)) else [] |}.

Definition when (b : bool) (finding : string) : list string := if b then [finding] else [].

Definition findings_of (f : ComplianceSummary) : list string :=
  when (negb (csValid f) && (csEvents f >? 0)) "TIMELINE FAILS VERIFICATION — do not submit this report" ++
  when (csUsers f =? 0) "no gateway users defined — RBAC not configured" ++
  when (csAuditEntries f =? 0) "no action audit entries — export /v1/audit?source=actions" ++
  when (negb (csHasBackup f)) "no backup artifact — A.8.13 / SOC 2 A1.2 / HIPAA 164.308(a)(1)(ii)(B) evidence missing" ++
  when (negb (csHasVault f)) "no at-rest encryption evidence (gateway.keys / vault envelope)" ++
  map (fun v => "POLICY VIOLATION: " ++ v)%string (csPolicyViolations f).

Definition BuildComplianceReport (order order' : list string -> list string) (now : Z) (ev : ComplianceEvidence)
    : outcome ComplianceReport :=
  facts ← computeFacts order order' ev;
  Ret {| rpGenerated := now; rpEvidence := facts; rpFrameworks := buildFrameworks facts;
         rpFindings := findings_of facts |}.

(** ** What the tables guarantee *)

(** A verdict is backed when a pass names its evidence and a manual one says
    what to provide. *)
Definition backed (r : ControlResult) : Prop :=
  match crStatus r with
  | StatusPass => Forall (fun e => e <> "") (crEvidence r) /\ crEvidence r <> [] /\ crNote r = ""
  | StatusManual => crEvidence r = [] /\ crNote r <> ""
  | StatusMissing => crEvidence r = []
  end.

Definition count_status (st : ControlStatus) (rs : list ControlResult) : Z :=
  zlen (List.filter (fun r => bool_decide (crStatus r = st)) rs).

Lemma count_status_snoc st rs r :
  count_status st (rs ++ [r]) = count_status st rs + (if decide (crStatus r = st) then 1 else 0).
Proof.
  unfold count_status, zlen. rewrite List.filter_app, length_app. cbn [List.filter].
  destruct (decide _); [rewrite bool_decide_true by done|rewrite bool_decide_false by done]; cbn [length]; lia.
Qed.

Lemma foldl_controls s ds : forall fr,
  let out := foldl (fun fr d => add_control fr (evaluate s d)) fr ds in
  frName out = frName fr /\ frControls out = frControls fr ++ map (evaluate s) ds /\
  (frPass fr = count_status StatusPass (frControls fr) -> frPass out = count_status StatusPass (frControls out)) /\
  (frManual fr = count_status StatusManual (frControls fr) -> frManual out = count_status StatusManual (frControls out)) /\
  (frMissing fr = count_status StatusMissing (frControls fr) -> frMissing out = count_status StatusMissing (frControls out)).
Proof.
  induction ds as [|d ds IH]; intros fr; cbn [foldl map]; [by rewrite app_nil_r|].
  destruct (IH (add_control fr (evaluate s d))) as (Hn & Hc & Hp & Hm & Hx). cbn [add_control frName frControls frPass frManual frMissing] in *.
  rewrite !count_status_snoc in Hp, Hm, Hx. split; [done|]. rewrite Hc, <- app_assoc. split; [done|].
  rewrite Hc, <- app_assoc in Hp, Hm, Hx. repeat split; intros E; [apply Hp|apply Hm|apply Hx]; lia.
Qed.

Lemma count_total rs :
  count_status StatusPass rs + count_status StatusManual rs + count_status StatusMissing rs = zlen rs.
Proof.
  induction rs as [|r rs IH]; [done|]. unfold count_status, zlen in *. cbn [List.filter length].
  destruct (crStatus r); repeat (rewrite ?(bool_decide_true (_ = _)) by done; rewrite ?(bool_decide_false (_ = _)) by done);
    cbn [length]; lia.
Qed.

Lemma append_nonempty a b : b <> "" -> (a ++ b)%string <> "".
Proof. by destruct a. Qed.

(** Every control of the tables gives a backed verdict. *)
Lemma table_backed s f d : f ∈ table -> d ∈ f.2 -> backed (evaluate s d).
Proof.
  intros Hf Hd. assert (Hall : Forall (fun f => Forall (fun d => backed (evaluate s d)) f.2) table).
  { repeat (apply Forall_cons; split; [|try apply Forall_nil; try exact I]);
    repeat (apply Forall_cons; split; [|try apply Forall_nil; try exact I]); try apply Forall_nil; try exact I.
    all: unfold evaluate, backed, rbacStatus, authStatus, adminStatus, logStatus, monitorStatus, backupStatus, cryptoStatus,
      provisioningStatus, rolesStatus, incidentStatus, changeStatus, recoveryStatus, recordStatus, integrityStatus,
      processingStatus, breachStatus, manualStatic, pass, manual, missing, verdict_of.
    all: repeat case_match; cbn [crStatus crEvidence crNote] in *; try discriminate.
    all: repeat split; try done; try (apply Forall_cons; split; [|apply Forall_nil; exact I]); try done.
    all: by apply append_nonempty. }
  rewrite Forall_forall in Hall. specialize (Hall f Hf). cbv beta in Hall. rewrite Forall_forall in Hall. by apply Hall.
Qed.

Lemma buildFrameworks_spec s fr :
  fr ∈ buildFrameworks s <-> exists f, f ∈ table /\ fr = framework s f.
Proof. unfold buildFrameworks. rewrite list_elem_of_In, in_map_iff. setoid_rewrite list_elem_of_In. split; intros (f & A & B); by exists f. Qed.

Lemma framework_controls s f : frControls (framework s f) = map (evaluate s) f.2.
Proof. unfold framework. by destruct (foldl_controls s f.2 {| frName := f.1; frControls := []; frPass := 0; frManual := 0; frMissing := 0 |}) as (_ & -> & _). Qed.

(** C34. The tallies of a compliance report are sound: in each of the five frameworks the pass, manual and missing
    counts are the numbers of controls with that status and add up to the number of controls, every control that
    passes carries evidence that is not empty and no note, every manual control says what to provide, and a missing
    one claims no evidence - whatever the evidence the report is built from. *)
Theorem report_tallies order order' now ev r :
  BuildComplianceReport order order' now ev = Ret r ->
  map frName (rpFrameworks r) = map fst table /\
  Forall (fun fr =>
    frPass fr = count_status StatusPass (frControls fr) /\
    frManual fr = count_status StatusManual (frControls fr) /\
    frMissing fr = count_status StatusMissing (frControls fr) /\
    frPass fr + frManual fr + frMissing fr = zlen (frControls fr) /\
    Forall backed (frControls fr)) (rpFrameworks r).
Proof.
  unfold BuildComplianceReport. destruct (computeFacts order order' ev) as [s| |]; [|done..]. cbn [mbind outcome_bind].
  intros [= <-]. cbn [rpFrameworks]. split; [done|]. apply Forall_forall. intros fr (f & Hf & ->)%buildFrameworks_spec.
  unfold framework. destruct (foldl_controls s f.2 {| frName := f.1; frControls := []; frPass := 0; frManual := 0; frMissing := 0 |})
    as (_ & Hc & Hp & Hm & Hx). cbn [frControls frPass frManual frMissing] in *.
  rewrite Hp, Hm, Hx by done. repeat (split; [done|]). split; [apply count_total|].
  rewrite Hc. cbn [app]. apply Forall_forall. intros c (d & <- & Hd)%list_elem_of_In%in_map_iff.
  apply (table_backed s f d Hf). by apply list_elem_of_In.
Qed.

(** The controls that stand for the signed log. *)
Definition log_controls : list string := ["A.8.11"; "CC8.1"; "Req 10"; "164.312(c)"]%string.

Definition all_controls (r : ComplianceReport) : list ControlResult := concat (map frControls (rpFrameworks r)).

Lemma all_controls_spec s r c :
  rpFrameworks r = buildFrameworks s -> c ∈ all_controls r <-> c ∈ map (evaluate s) (concat (map snd table)).
Proof.
  intros E. unfold all_controls. rewrite E. unfold buildFrameworks. rewrite map_map.
  rewrite concat_map, map_map. by rewrite (map_ext _ _ (framework_controls s)).
Qed.

Lemma log_controls_pass s c :
  c ∈ map (evaluate s) (concat (map snd table)) -> crID c ∈ log_controls ->
  crStatus c = StatusPass <-> csValid s && (csEvents s >? 0) = true.
Proof.
  intros Hc Hl.
  assert (Hall : Forall (fun c => crID c ∈ log_controls -> crStatus c = StatusPass <-> csValid s && (csEvents s >? 0) = true)
    (map (evaluate s) (concat (map snd table)))).
  { cbn [table iso27001 soc2 pciDss hipaa gdpr concat map app snd].
    repeat (apply Forall_cons; split; [|]); [..|apply Forall_nil; exact I].
    all: cbn [evaluate crID crStatus]; intros Hi;
      first [exfalso; apply (bool_decide_pack _) in Hi; exact Hi
            |unfold logStatus, changeStatus, integrityStatus; destruct (csValid s), (csEvents s >? 0); cbn; by split]. }
  rewrite Forall_forall in Hall. by apply Hall.
Qed.

Lemma computeFacts_timeline order order' ev t :
  ceTimeline ev = Some t -> keys_ok t ->
  exists s b, computeFacts order order' ev = Ret s /\ Verify t = Ret b /\ csValid s = b /\ csEvents s = zlen (events t) /\
    csDetections s = count_type EvDetected (events t) /\ csRecoveries s = count_type EvRecovery (events t) /\
    csCouncilAnchor s = (length (sb (councilPub t)) =? PublicKeySize)%nat /\ csHasBackup s = ceHasBackup ev.
Proof.
  intros Ht Hk. destruct (Verify_total t Hk) as [b Hb]. unfold computeFacts. rewrite Ht, Hb. cbn [mbind outcome_bind].
  eexists _, b. repeat (split; [reflexivity|]). cbn. unfold CouncilPub, clone. by destruct (sb (councilPub t)).
Qed.

Definition alarm : string := "TIMELINE FAILS VERIFICATION — do not submit this report".

Lemma alarm_spec s : csPolicyViolations s = [] -> alarm ∈ findings_of s <-> csValid s = false /\ csEvents s > 0.
Proof.
  intros Hv. unfold findings_of. rewrite Hv, elem_of_app. cbn [map]. rewrite app_nil_r.
  match goal with |- _ \/ alarm ∈ ?rest <-> _ => assert (Hr : alarm ∉ rest) end.
  { unfold when. destruct (csUsers s =? 0), (csAuditEntries s =? 0), (csHasBackup s), (csHasVault s);
      apply (bool_decide_unpack _); reflexivity. }
  unfold when. destruct (csValid s), (Z.gtb_spec (csEvents s) 0); cbn [negb andb]; rewrite ?list_elem_of_singleton, ?elem_of_nil; naive_solver lia.
Qed.

(** A compliance report passes its log controls - ISO A.8.11, SOC 2 CC8.1, PCI Req 10, HIPAA 164.312(c) - exactly
    when the evidence has a timeline with events whose chain verifies in full (the declarative chain: signatures, hash
    links, rotations, council handoffs), and warns in its findings exactly when a timeline with events does not. *)
Theorem report_log order order' now ev t :
  ceTimeline ev = Some t -> keys_ok t -> ceMaxIssues ev <= 0 ->
  exists r, BuildComplianceReport order order' now ev = Ret r /\
    (forall c, c ∈ all_controls r -> crID c ∈ log_controls -> crStatus c = StatusPass <-> good t /\ events t <> []) /\
    (alarm ∈ rpFindings r <-> ~ good t /\ events t <> []).
Proof.
  intros Ht Hk Hm. destruct (computeFacts_timeline order order' ev t Ht Hk) as (s & b & E & Hv & Hb & He & _).
  assert (Hne : csEvents s > 0 <-> events t <> []).
  { rewrite He. unfold zlen. destruct (events t); cbn; split; (done || lia). }
  assert (Hg : csValid s = true <-> good t) by (rewrite Hb, <- (Verify_good t Hk), Hv; split; [by intros ->|by intros [= ->]]).
  unfold BuildComplianceReport. rewrite E. cbn [mbind outcome_bind]. eexists. split; [done|]. split.
  - intros c Hc%(all_controls_spec s) Hl; [|done]. rewrite (log_controls_pass s c Hc Hl), andb_true_iff, Hg, <- Hne.
    destruct (Z.gtb_spec (csEvents s) 0); split; intros [? ?]; (split; [done|]); (done || lia).
  - cbn [rpFindings]. rewrite alarm_spec.
    + by rewrite Hne, <- Hg, not_true_iff_false.
    + revert E. unfold computeFacts. rewrite Ht, Hv. cbn [mbind outcome_bind]. intros [= <-]. cbn [csPolicyViolations].
      by destruct (Z.gtb_spec (ceMaxIssues ev) 0); [lia|].
Qed.

(** The monitoring and incident controls do not depend on the chain: whatever [Verify] says of the timeline - in
    particular when it fails and the report warns about it - a DETECTED event in it makes CC7.2 and A.8.12 pass, and a
    RECOVERY event next to a pinned council key makes CC7.3 pass with "recoveries threshold-signed by the FROST
    council", although no signature was checked. *)
Theorem unverified_pass order order' now ev t :
  ceTimeline ev = Some t -> keys_ok t ->
  (exists e, e ∈ events t /\ EType e = EvDetected) -> (exists e, e ∈ events t /\ EType e = EvRecovery) ->
  length (sb (councilPub t)) = PublicKeySize ->
  exists r, BuildComplianceReport order order' now ev = Ret r /\
    forall c, c ∈ all_controls r -> crID c ∈ ["CC7.2"; "A.8.12"; "CC7.3"]%string ->
      crStatus c = StatusPass /\
      (crID c = "CC7.3" -> crEvidence c =
        [fmt_d (count_type EvRecovery (events t)) ++ " recoveries threshold-signed by the FROST council"]%string).
Proof.
  intros Ht Hk Hd Hr Hc. destruct (computeFacts_timeline order order' ev t Ht Hk) as (s & b & E & _ & _ & _ & Ed & Er & Ea & _).
  assert (Hpos : forall ty, (exists e, e ∈ events t /\ EType e = ty) -> count_type ty (events t) >? 0 = true).
  { intros ty (e & He & Ee). unfold count_type, zlen. assert (Hin : List.In e (List.filter (fun e => bool_decide (EType e = ty)) (events t))).
    { apply filter_In. split; [by apply list_elem_of_In|by apply bool_decide_eq_true]. }
    destruct (List.filter _ _); [by apply in_nil in Hin|]. cbn. by apply Z.gtb_lt. }
  pose proof (Hpos _ Hd) as Hd'. pose proof (Hpos _ Hr) as Hr'. rewrite <- Ed in Hd'. rewrite Hc, Nat.eqb_refl in Ea.
  unfold BuildComplianceReport. rewrite E. cbn [mbind outcome_bind]. eexists. split; [done|].
  intros c Hin%(all_controls_spec s) Hl; [|done]. rewrite <- Er in *. clear E Ed Er. revert c Hin Hl. rewrite <- Forall_forall.
  cbn [table iso27001 soc2 pciDss hipaa gdpr concat map app snd].
  repeat (apply Forall_cons; split; [|]); [..|apply Forall_nil; exact I].
  all: cbn [evaluate crID crStatus crEvidence]; intros Hi;
      first [exfalso; apply (bool_decide_pack _) in Hi; exact Hi
            |unfold monitorStatus, incidentStatus; rewrite ?Hd', ?Hr', ?Ea; by split].
Qed.
End compliance.

(** ** Witnesses *)

Module ToyReport.
Definition event (ty : string) : TrustEvent :=
  {| EType := ty; ETimestamp := 5; EPayload := None; EParentHash := None; ESignature := None |}.
(** Nothing in this timeline is signed. *)
Definition forged : Timeline :=
  {| events := [event EvDetected; event EvRecovery]; tkey := None; tpub := pub_of (Toy.key 1); tstart := None;
     councilPub := Some (pub_of (Toy.key 2)); rotations := []; algo := algoDual |}.
Definition evidence (t : Timeline) : ComplianceEvidence :=
  {| ceTimeline := Some t; ceAuditEntries := []; ceUsers := <["ann"%string := RoleAdmin]> ∅; ceWebhooks := 1;
     ceHasBackup := true; ceHasVault := false; ceMaxIssues := 0 |}.
End ToyReport.

Lemma report_tallies_witness : exists r, BuildComplianceReport id id 9 (ToyReport.evidence ToyReport.forged) = Ret r /\
  map frName (rpFrameworks r) = map fst table.
Proof.
  destruct (computeFacts_timeline id id (ToyReport.evidence ToyReport.forged) ToyReport.forged) as (s & b & E & _);
    [reflexivity|vm_compute; reflexivity|].
  eexists. split; [|eapply (report_tallies id id 9 (ToyReport.evidence ToyReport.forged))];
    unfold BuildComplianceReport; rewrite E; reflexivity.
Defined.

Lemma report_log_witness : exists r, BuildComplianceReport id id 9 (ToyReport.evidence ToyReport.forged) = Ret r /\
  (alarm ∈ rpFindings r <-> ~ good ToyReport.forged /\ events ToyReport.forged <> []).
Proof.
  destruct (report_log id id 9 (ToyReport.evidence ToyReport.forged) ToyReport.forged) as (r & E & _ & Ha);
    [reflexivity|vm_compute; reflexivity|reflexivity|].
  exists r. split; [exact E|exact Ha].
Defined.

Lemma unverified_pass_witness : Verify ToyReport.forged = Ret false /\
  exists r, BuildComplianceReport id id 9 (ToyReport.evidence ToyReport.forged) = Ret r.
Proof.
  split; [vm_compute; reflexivity|].
  destruct (unverified_pass id id 9 (ToyReport.evidence ToyReport.forged) ToyReport.forged) as (r & E & _).
  - reflexivity.
  - vm_compute. reflexivity.
  - exists (ToyReport.event EvDetected). split; [left|reflexivity].
  - exists (ToyReport.event EvRecovery). split; [right; left|reflexivity].
  - vm_compute. reflexivity.
  - exists r. exact E.
Defined.
