(* ===== verification/Gateway.v ===== *)
(** * The gateway's REST surface: [api.go]

    A request is the data its handler reads: method, path, the two headers, the
    values the route's pattern binds, the query and the body; a response is a
    status and its text.  The route table is [spec_of]; [serve] is the
    middleware in its order - authentication, role, budget, organisation and
    scopes, idempotent replay, the handler under [recover], the audit entry -
    over the handlers, each a function of the world (Store.v).  Requests are
    served one after the other.  What a request draws and reads off the clock,
    and the orders of ranges over maps, are its [Env].

    A [json.RawMessage] is the text [print] gives its value, and an error's
    text is its format string.  The metrics text is left out (it changes
    nothing).  GatewayTheory.v and GatewayFlaws.v prove what the surface
    guarantees. *)
From Stdlib Require Import SpecFloat.
From S2P Require Import Prelude Crypto Encoding Json Indent Float Timeline TimelineFile Graph TrustState.
From S2P Require Import Watchdog Merkle Gossip Shamir Frost Council Pq Vault Auth Ratelimit.
From S2P Require Import Transport CouncilNet Fleet Store Webhooks.

(** ** Requests and responses *)

Definition maxBody : nat := Z.to_nat (2 ^ 20).

Record Request := {
  rqMethod : string;
  rqPath : string;                     (* URL.Path *)
  rqAuth : string;                     (* Authorization *)
  rqIdem : string;                     (* Idempotency-Key *)
  rqOrg : string;                      (* PathValue("org") *)
  rqID : string;                       (* PathValue("id") *)
  rqQuery : list (string * string);
  rqBody : bytes;
}.

Record Response := { rsStatus : Z; rsBody : bytes }.

#[global] Instance response_eq_dec : EqDecision Response.
Proof. solve_decision. Defined.

(** What one request draws and observes. *)
Record Env := {
  nowLimit : Z;        (* nanoseconds, at the budget check *)
  nowLookup : Z;       (* at the replay lookup *)
  now : Z;             (* in the handler *)
  nowHook : Z;         (* when webhooks are queued *)
  nowSeen : Z * Z;     (* nanoseconds, of a score and of its verdict *)
  nowStore : Z;        (* when the response is cached *)
  nowAudit : Z;
  draw : option bytes;                       (* a token, a key or a data key *)
  nonce : option bytes;
  fileDraw : FileDraws;
  tenantDraws : string -> FileDraws;
  orders : list string -> list string;       (* ranges over maps keyed by strings *)
  raws : list (string * bytes) -> list (string * bytes);
}.

Definition writeJSON (code : Z) (v : json) : Response := {| rsStatus := code; rsBody := indent 0 v |}.
Definition writeErr (code : Z) (e : error) : Response := writeJSON code (JObj [jfield "error" (jstring e)]).

Definition jhex (b : bytes) : json := jstring (of_bytes (hex_encode b)).
Definition jstrings (l : list string) : json := JArr (map jstring l).
(** A slice that is nil unless something was put in it. *)
Definition jnil (l : list string) : json := match l with [] => JNull | _ => jstrings l end.
Definition jarr_nil (l : list json) : json := match l with [] => JNull | _ => JArr l end.
Definition hashesHex (p : list bytes) : json := JArr (map jhex p).

(** [url.Values]: the first value of a key, and whether it is there. *)
Definition q_get (rq : Request) (k : string) : string :=
  match List.find (fun p => bool_decide (p.1 = k)) (rqQuery rq) with Some p => p.2 | None => "" end.
Definition q_has (rq : Request) (k : string) : bool := existsb (fun p => bool_decide (p.1 = k)) (rqQuery rq).

(** [strconv.ParseInt(s, 10, 64)]: a sign, then digits, within 64 bits. *)
Definition ParseInt (s : string) : option Z :=
  match to_bytes s with
  | b :: r => if decide (b = ch "+") then (if bool_decide (head r = Some (ch "-")) then None else parse_int64 r)
              else parse_int64 (b :: r)
  | [] => None
  end.
Definition qint (rq : Request) (name : string) : Z := default 0 (ParseInt (q_get rq name)).

(** [readJSON]: the body up to the cap, decoded; [json.Decoder.Decode]: the
    first value of the body, whatever follows it. *)
Definition read_body (rq : Request) : bytes := take maxBody (rqBody rq).
Definition readJSON {T} (dec : json -> option T) (rq : Request) : outcome T :=
  match read_body rq with
  | [] => Err "empty body"
  | b => of_option "json" (v ← parse b; dec v)
  end.
Definition decode_first {T} (dec : json -> option T) (b : bytes) : option T :=
  '(v, _) ← parse_value (1 + length b) maxNestingDepth b; dec v.


(** ** Tenant updates *)

Definition tenant_with (t : Tenant) (tl : option Timeline) (f : FleetServer) (d : bool) (cs : gmap string Z)
    (sz : Z) (root : slice) : Tenant :=
  {| tMeta := tMeta t; tTl := tl; tFleet := f; tDetected := d; tCounters := cs; tCtSize := sz; tCtRoot := root |}.
Definition set_fleet (f : FleetServer) (t : Tenant) : Tenant :=
  tenant_with t (tTl t) f (tDetected t) (tCounters t) (tCtSize t) (tCtRoot t).
Definition set_detected (b : bool) (t : Tenant) : Tenant :=
  tenant_with t (tTl t) (tFleet t) b (tCounters t) (tCtSize t) (tCtRoot t).
Definition set_ct (sz : Z) (root : slice) (t : Tenant) : Tenant :=
  tenant_with t (tTl t) (tFleet t) (tDetected t) (tCounters t) sz root.
(** [t.counters[k]++] *)
Definition bump (k : string) (t : Tenant) : Tenant :=
  tenant_with t (tTl t) (tFleet t) (tDetected t) (<[k := default 0 (tCounters t !! k) + 1]> (tCounters t)) (tCtSize t) (tCtRoot t).

Definition tID (t : Tenant) : string := tmID (tMeta t).
Definition put (t : Tenant) : M unit := modify (put_tenant (tID t) t).

(** A nil timeline is a nil pointer. *)
Definition deref (t : Tenant) : M Timeline := match tTl t with Some tl => mret tl | None => panics end.

(** Answer the request with what [m] computes; [code] when it fails. *)
Definition answer {A} (code : Z) (m : M A) (k : A -> M Response) : M Response :=
  catch m k (fun e => mret (writeErr code e)).

(** ** The route table *)

Inductive Route :=
| RHealth | RCreateUser | RListUsers | RUserToken | RCreateOrg | RListOrgs | ROrgDetail | RDeleteOrg | RTimeline
| RIssue | RRevoke | RState | RGraph | RScores | RRecover | RPubKey | RCTSTH | RCTProof | RCTGossip | RAudit
| RListWebhooks | RCreateWebhook | RDeleteWebhook | RBackup | RDownload | RRestore | RRotate.

#[global] Instance route_eq_dec : EqDecision Route.
Proof. solve_decision. Defined.

Definition everyone : list string := [RoleViewer; RoleAuditor; RoleOperator; RoleAdmin].
Definition operators : list string := [RoleOperator; RoleAdmin].

(** Pattern, roles (none: any authenticated user), and whether the route is
    scoped to an organisation. *)
Definition spec_of (r : Route) : string * list string * bool :=
  match r with
  | RHealth => ("GET /v1/health", [], false)
  | RCreateUser => ("POST /v1/users", [RoleAdmin], false)
  | RListUsers => ("GET /v1/users", [RoleAdmin], false)
  | RUserToken => ("POST /v1/users/{id}/tokens", [RoleAdmin], false)
  | RCreateOrg => ("POST /v1/orgs", [RoleAdmin], false)
  | RListOrgs => ("GET /v1/orgs", [], false)
  | ROrgDetail => ("GET /v1/orgs/{org}", [], true)
  | RDeleteOrg => ("DELETE /v1/orgs/{org}", [RoleAdmin], false)
  | RTimeline => ("GET /v1/orgs/{org}/timeline", everyone, true)
  | RIssue => ("POST /v1/orgs/{org}/issue", operators, true)
  | RRevoke => ("POST /v1/orgs/{org}/revoke", operators, true)
  | RState => ("GET /v1/orgs/{org}/state", everyone, true)
  | RGraph => ("GET /v1/orgs/{org}/graph", everyone, true)
  | RScores => ("POST /v1/orgs/{org}/scores", operators, true)
  | RRecover => ("POST /v1/orgs/{org}/recover", operators, true)
  | RPubKey => ("GET /v1/orgs/{org}/pubkey", everyone, true)
  | RCTSTH => ("GET /v1/orgs/{org}/ct/sth", everyone, true)
  | RCTProof => ("GET /v1/orgs/{org}/ct/proof", everyone, true)
  | RCTGossip => ("POST /v1/orgs/{org}/ct/gossip", everyone, true)
  | RAudit => ("GET /v1/audit", [RoleAuditor; RoleOperator; RoleAdmin], false)
  | RListWebhooks => ("GET /v1/webhooks", [RoleAdmin], false)
  | RCreateWebhook => ("POST /v1/webhooks", [RoleAdmin], false)
  | RDeleteWebhook => ("DELETE /v1/webhooks/{id}", [RoleAdmin], false)
  | RBackup => ("POST /v1/backup", [RoleAdmin], false)
  | RDownload => ("GET /v1/backup/{id}/download", [RoleAdmin], false)
  | RRestore => ("POST /v1/restore", [RoleAdmin], false)
  | RRotate => ("POST /v1/rotate", [RoleAdmin], false)
  end%string.
Definition roles_of (r : Route) : list string := (spec_of r).1.2.
Definition scoped (r : Route) : bool := (spec_of r).2.

Definition hasRole (role : string) (want : list string) : bool :=
  match want with [] => true | _ => existsb (fun w => bool_decide (role = w)) want end.

(** ** Request bodies *)

Record createUserReq := { cuID : string; cuRole : string; cuOrgs : list string }.
Definition create_user_set (n : string) (v : json) (r : createUserReq) : option createUserReq :=
  let '{| cuID := i; cuRole := ro; cuOrgs := o |} := r in
  let mk i ro o := Some {| cuID := i; cuRole := ro; cuOrgs := o |} in
  if decide (n = "id"%string) then i ← decode_string i v; mk i ro o
  else if decide (n = "role"%string) then ro ← decode_string ro v; mk i ro o
  else o ← decode_strings v; mk i ro o.
Definition decode_create_user : json -> option createUserReq :=
  decode_struct ["id"; "role"; "orgs"]%string create_user_set {| cuID := ""; cuRole := ""; cuOrgs := [] |}.

(** [createOrgReq]: id and name. *)
Definition decode_create_org : json -> option (string * string) :=
  decode_struct ["id"; "name"]%string (fun n v r =>
    if decide (n = "id"%string) then i ← decode_string r.1 v; Some (i, r.2)
    else m ← decode_string r.2 v; Some (r.1, m)) (""%string, ""%string).

(** [issueReq] has the fields of [issuePayload]; [revokeReq] the certificate. *)
Definition decode_issue : json -> option issuePayload :=
  decode_struct ["cert_id"; "identity"; "via"]%string issue_set {| pCertID := ""; pIdentity := ""; pVia := "" |}.
Definition decode_revoke : json -> option string :=
  decode_struct ["cert_id"%string] (fun _ v c => decode_string c v) ""%string.
Definition decode_token : json -> option (list string) := decode_struct ["orgs"%string] (fun _ v _ => decode_strings v) [].

Record recoverReq := { rrTimelineRaw : bytes; rrHandoff : option FrostCommit }.
Definition decode_handoff (prev : option FrostCommit) (v : json) : option (option FrostCommit) :=
  match v with JNull => Some None | _ => c ← decode_struct fc_names fc_set (default fc_zero prev) v; Some (Some c) end.
Definition decode_recover : json -> option recoverReq :=
  decode_struct ["timeline"; "commit"]%string (fun n v r =>
    if decide (n = "timeline"%string) then Some {| rrTimelineRaw := print v; rrHandoff := rrHandoff r |}
    else c ← decode_handoff (rrHandoff r) v; Some {| rrTimelineRaw := rrTimelineRaw r; rrHandoff := c |})
    {| rrTimelineRaw := []; rrHandoff := None |}.

Record gossipReq := { grSize : Z; grTime : Z; grRoot : slice; grSig : slice; grFrom : Z; grProof : list string }.
Definition gossip_set (n : string) (v : json) (r : gossipReq) : option gossipReq :=
  let '{| grSize := z; grTime := t; grRoot := ro; grSig := s; grFrom := f; grProof := p |} := r in
  let mk z t ro s f p := Some {| grSize := z; grTime := t; grRoot := ro; grSig := s; grFrom := f; grProof := p |} in
  if decide (n = "tree_size"%string) then z ← decode_int64 z v; mk z t ro s f p
  else if decide (n = "timestamp"%string) then t ← decode_int64 t v; mk z t ro s f p
  else if decide (n = "root_b64"%string) then ro ← decode_bytes v; mk z t ro s f p
  else if decide (n = "signature_b64"%string) then s ← decode_bytes v; mk z t ro s f p
  else if decide (n = "proof_from"%string) then f ← decode_int64 f v; mk z t ro s f p
  else p ← decode_strings v; mk z t ro s f p.
Definition decode_gossip : json -> option gossipReq :=
  decode_struct ["tree_size"; "timestamp"; "root_b64"; "signature_b64"; "proof_from"; "proof_hex"]%string gossip_set
    {| grSize := 0; grTime := 0; grRoot := None; grSig := None; grFrom := 0; grProof := [] |}.

(** [webhookReq]: url, secret, events. *)
Definition decode_webhook : json -> option (string * string * list string) :=
  decode_struct ["url"; "secret"; "events"]%string (fun n v r =>
    if decide (n = "url"%string) then u ← decode_string r.1.1 v; Some (u, r.1.2, r.2)
    else if decide (n = "secret"%string) then s ← decode_string r.1.2 v; Some (r.1.1, s, r.2)
    else e ← decode_strings v; Some (r.1.1, r.1.2, e)) (""%string, ""%string, []).

(** A share of a sealed secret carries the secret's length. *)
Definition decode_shard : json -> option Shard :=
  decode_struct ["x"; "y"; "len"]%string (fun n v s =>
    if decide (n = "x"%string) then x ← decode_big v; Some {| SX := x; SY := SY s; SLen := SLen s |}
    else if decide (n = "y"%string) then y ← decode_big v; Some {| SX := SX s; SY := y; SLen := SLen s |}
    else l ← decode_int64 (SLen s) v; Some {| SX := SX s; SY := SY s; SLen := l |}) {| SX := None; SY := None; SLen := 0 |}.
Definition decode_rotate : json -> option (list Shard) := decode_struct ["shares"%string] (fun _ v _ => decode_list decode_shard v) [].

Definition webhook_json (h : Webhook) : json :=
  JObj [jfield "id" (jstring (whID h)); jfield "url" (jstring (whURL h)); jfield "secret" (jstring (whSecret h));
        jfield "events" (jnil (whEvents h)); jfield "active" (JBool (whActive h))].

(** [url.Parse], as far as it is used: the scheme and the host name. *)
Class UrlText := { parse_url : string -> option (string * string) }.

Definition loopback (host : string) : bool := bool_decide (host ∈ ["localhost"; "127.0.0.1"; "::1"]%string).
Definition url_allowed `{UrlText} (u : string) : bool :=
  match parse_url u with
  | None => false
  | Some (scheme, host) =>
      bool_decide (scheme = "https"%string) || (bool_decide (scheme = "http"%string) && loopback host)
  end.

(** [strings.ToLower] of one rune, as far as it gives an ASCII letter: the two
    letters outside ASCII that do are the Kelvin sign and the dotted I. *)
Definition lower_rune (r : option bytes) : bytes :=
  match r with
  | Some [c] => [if in_range c 65 90 then Z_byte (byte_Z c + 32) else c]
  | Some [Byte.xe2; Byte.x84; Byte.xaa] => [ch "k"]
  | Some [Byte.xc4; Byte.xb0] => [ch "i"]
  | _ => []
  end.
Definition slug_byte (c : byte) : bytes :=
  if in_range c 97 122 || in_range c 48 57 || bool_decide (c = ch "-") then [c]
  else if bool_decide (c = ch " ") then [ch "-"] else [].
Definition slugify (name : string) (nano : Z) : string :=
  match concat (map slug_byte (concat (map lower_rune (runes (to_bytes name))))) with
  | [] => of_bytes (to_bytes "org-" ++ dec_Z (Z.rem nano 1000000))
  | b => of_bytes b
  end.

(** The first RECOVERY event. *)
Fixpoint branch_point (es : list TrustEvent) : option nat :=
  match es with
  | [] => None
  | e :: es => if decide (EType e = EvRecovery) then Some 0%nat else Datatypes.S <$> branch_point es
  end.

Definition minBadIndex (scores : list Score) : Z :=
  foldl (fun bad sc =>
    if fle threshold (ScoreV sc) then bad
    else match evidence_unmarshal (sb (Evidence sc)) with
         | Some z => if (0 <=? z) && ((bad <? 0) || (z <? bad)) then z else bad
         | None => bad
         end) (-1) scores.

Section gateway.
Context `{Hashes} `{Ed25519} `{Symmetric} `{MetaText} `{FloatText} `{UrlText}.

(** ** Middleware *)

Definition authenticate (order : list string -> list string) (auth : string) : M (User * string) :=
  raw ← lift (BearerToken auth);
  with_lock (
    s ← get;
    match List.find (fun u => Authed u raw) (omap (fun id => sUsers s !! id) (order (map fst (map_to_list (sUsers s))))) with
    | Some u => mret (u, tokenHash raw)
    | None => fails "invalid token"
    end).

Definition spend (hash : string) (t : Z) : M bool :=
  s ← get;
  let '(l, ok) := allow (sLimiter s) hash t in
  modify (set_limiter l);; mret ok.

Definition find_org (org : string) : M (option Tenant) := with_lock (s ← get; mret (sTenants s !! org)).

(** The replay key; only a route that is not scoped puts the user in it. *)
Definition idemKey (r : Route) (rq : Request) (u : User) : string :=
  if bool_decide (rqIdem rq = ""%string) || negb (bool_decide (rqMethod rq ∈ ["POST"; "PUT"]%string)) then ""
  else
    let who := if scoped r then ""%string else uID u in
    sha256Hex (to_bytes (rqMethod rq) ++ ch "|" :: to_bytes (rqPath rq) ++ ch "|" :: to_bytes who ++ ch "|" ::
               to_bytes (rqIdem rq) ++ ch "|" :: rqBody rq).

Definition replay_window : Z := 24 * 3600.
Definition idemLookup (key : string) (t : Z) : M (option idemEntry) :=
  with_lock (
    s ← get;
    match sIdem s !! key with
    | Some e =>
        if t - ieTs e >? replay_window then modify (set_idem (delete key (sIdem s)));; mret None
        else mret (Some e)
    | None => mret None
    end).

Definition idemStore (key : string) (r : Response) (t : Z) : M unit :=
  if bool_decide (key = ""%string) then mret tt
  else with_lock (modify (fun s =>
    let m := if (4096 <? size (sIdem s))%nat then ∅ else sIdem s in
    set_idem (<[key := {| ieStatus := rsStatus r; ieBody := rsBody r; ieTs := t |}]> m) s)).

Definition audit_of (u : string) (rq : Request) (status : Z) (details : string) (t : Z) : AuditEntry :=
  {| aeTs := t; aeUser := u; aeOrg := rqOrg rq; aeMethod := rqMethod rq; aePath := rqPath rq; aeStatus := status;
     aeDetails := details |}.

(** [defer recover()]: a panic answers 500. *)
Definition recovered (m : M Response) : M Response := fun w =>
  match m w with
  | (w, RPanic) => (w, ROk (writeErr 500 "panic: %v"))
  | r => r
  end.

(** ** Users *)

Definition handleHealth (e : Env) : M Response :=
  mret (writeJSON 200 (JObj [jfield "status" (jstring "ok"); jfield "ts" (jint (now e))])).

Definition put_user (id : string) (u : User) : M unit := modify (fun s => set_users (<[id := u]> (sUsers s)) s).

Definition handleCreateUser (rq : Request) (e : Env) : M Response :=
  answer 400 (lift (readJSON decode_create_user rq)) (fun req =>
  if bool_decide (cuID req = ""%string) || bool_decide (cuRole req = ""%string)
  then mret (writeErr 400 "id and role required")
  else
    with_lock (
      s ← get;
      match sUsers s !! cuID req with
      | Some _ => mret (writeErr 409 "user %q exists")
      | None =>
          answer 400 (lift (NewUser (cuID req) (cuRole req) (cuOrgs req) (draw e))) (fun '(u, raw) =>
          put_user (cuID req) u;;
          answer 500 saveMeta (fun _ =>
          mret (writeJSON 201 (JObj [jfield "id" (jstring (uID u)); jfield "orgs" (jnil (uOrgs u));
                                     jfield "role" (jstring (uRole u)); jfield "token" (jstring raw)]))))
      end)).

Definition handleListUsers (e : Env) : M Response :=
  with_lock (
    s ← get;
    let item id := u ← sUsers s !! id;
      Some (JObj [jfield "id" (jstring id); jfield "orgs" (jnil (uOrgs u)); jfield "role" (jstring (uRole u));
                  jfield "tokens" (jint (zlen (uTokens u)))]) in
    mret (writeJSON 200 (JObj [jfield "users" (JArr (omap item (orders e (map fst (map_to_list (sUsers s))))))]))).

(** The body may be absent. *)
Definition token_scope (rq : Request) : outcome (list string) :=
  match read_body rq with
  | [] => Ret []
  | b => of_option "json" (v ← parse b; decode_token v)
  end.
Definition handleUserToken (rq : Request) (e : Env) : M Response :=
  answer 400 (lift (token_scope rq)) (fun orgs =>
  with_lock (
    s ← get;
    match sUsers s !! rqID rq with
    | None => mret (writeErr 404 "no such user %q")
    | Some u =>
        answer 500 (lift (NewToken u (draw e) orgs)) (fun '(u, raw) =>
        put_user (rqID rq) u;;
        answer 500 saveMeta (fun _ =>
        mret (writeJSON 201 (JObj [jfield "id" (jstring (uID u)); jfield "orgs" (jnil orgs); jfield "token" (jstring raw)]))))
    end)).

(** ** Organisations *)

(** [watchOrg]: subscribe a watcher to the fleet of a tenant. *)
Definition watch (id : string) : M unit :=
  s ← get;
  match sTenants s !! id with
  | Some t => modify (put_tenant id (set_fleet (Subscribe (tFleet t)) t))
  | None => mret tt
  end.

Definition handleCreateOrg (rq : Request) (e : Env) : M Response :=
  answer 400 (lift (readJSON decode_create_org rq)) (fun '(id, name) =>
  if bool_decide (name = ""%string) then mret (writeErr 400 "name required")
  else
    let id := if bool_decide (id = ""%string) then slugify name (now e) else id in
    answer 409 (CreateTenant id name (draw e) (now e) (fileDraw e)) (fun t =>
    watch (tID t);;
    mret (writeJSON 201 (JObj [jfield "created" (jint (tmCreated (tMeta t))); jfield "id" (jstring (tID t));
                               jfield "name" (jstring (tmName (tMeta t)))])))).

Definition visibleOrgs (u : User) (e : Env) : M (list Tenant) :=
  with_lock (
    s ← get;
    mret (List.filter (fun t => inOrg u (tID t)) (omap (fun id => sTenants s !! id) (orders e (map fst (map_to_list (sTenants s))))))).

Definition orgJSON (t : Tenant) : M json :=
  tl ← deref t;
  mret (JObj [jfield "created" (jint (tmCreated (tMeta t))); jfield "detected" (JBool (tDetected t));
              jfield "events" (jint (zlen (Events tl))); jfield "id" (jstring (tID t)); jfield "name" (jstring (tmName (tMeta t)))]).

Fixpoint collect {A B} (f : A -> M B) (l : list A) : M (list B) :=
  match l with
  | [] => mret []
  | x :: l => y ← f x; ys ← collect f l; mret (y :: ys)
  end.

Definition handleListOrgs (u : User) (e : Env) : M Response :=
  ts ← visibleOrgs u e;
  js ← collect orgJSON ts;
  mret (writeJSON 200 (JObj [jfield "orgs" (JArr js)])).

Definition handleOrgDetail (t : Tenant) : M Response := j ← orgJSON t; mret (writeJSON 200 j).

Definition handleDeleteOrg (rq : Request) (e : Env) : M Response :=
  answer 404 (DeleteTenant (rqOrg rq) (now e)) (fun _ =>
  mret (writeJSON 200 (JObj [jfield "deleted" (jstring (rqOrg rq))]))).

Definition handleOrgPubKey (t : Tenant) : M Response :=
  tl ← deref t;
  mret (writeJSON 200 (JObj [jfield "org" (jstring (tID t)); jfield "pubkey_hex" (jhex (Pub tl))])).

(** ** The transparency log of an organisation *)

Definition orgMerkle (es : list TrustEvent) : MerkleLog :=
  foldl (fun m e => (Merkle.Append m (Hash e)).1) NewMerkleLog es.

(** [NewKeyFromSeed] panics on a seed of the wrong length. *)
Definition logKey (s : Store) : outcome bytes :=
  if (length (sb (sLogKey s)) =? SeedSize)%nat then Ret (ed_keygen (sb (sLogKey s))) else Panic.
Definition ctLogPub (s : Store) : outcome bytes := k ← logKey s; Ret (pub_of k).

Definition locked_log (t : Tenant) : M MerkleLog := lock;; tl ← deref t; unlock;; mret (orgMerkle (Events tl)).

Definition handleCTSTH (t : Tenant) (e : Env) : M Response :=
  m ← locked_log t;
  s ← get;
  k ← lift (logKey s);
  sth ← lift (SignSTH (Some k) (Root m) (Merkle.Size m) (now e));
  mret (writeJSON 200 (JObj [jfield "log_key_hex" (jhex (pub_of k)); jfield "org" (jstring (tID t));
    jfield "root_hex" (jhex (SRoot sth)); jfield "signature_hex" (jhex (Signature sth));
    jfield "timestamp" (jint (Timestamp sth)); jfield "tree_size" (jint (TreeSize sth))])).

Definition handleCTProof (t : Tenant) (rq : Request) : M Response :=
  m ← locked_log t;
  if q_has rq "index" then
    match ParseInt (q_get rq "index"), ParseInt (q_get rq "size") with
    | Some idx, Some size =>
        if (idx <? 0) || (size <=? 0) then mret (writeErr 400 "index and size must be non-negative integers")
        else
          answer 400 (lift (InclusionProof m idx size)) (fun '(_, proof) =>
          leaf ← lift (match LogHashes m !! Z.to_nat idx with Some h => Ret h | None => Panic end);
          mret (writeJSON 200 (JObj [jfield "index" (jint idx); jfield "leaf_hash_hex" (jhex leaf); jfield "org" (jstring (tID t));
            jfield "proof" (hashesHex proof); jfield "root_hex" (jhex (mth (LogHashes m) 0 (Z.to_nat size))); jfield "size" (jint size)])))
    | _, _ => mret (writeErr 400 "index and size must be non-negative integers")
    end
  else if q_has rq "from" then
    match ParseInt (q_get rq "from"), ParseInt (q_get rq "to") with
    | Some from, Some to =>
        if (from <? 0) || (to <=? from) then mret (writeErr 400 "from and to must satisfy 0 <= from < to")
        else
          answer 400 (lift (ConsistencyProof m from to)) (fun '(old, new, proof) =>
          mret (writeJSON 200 (JObj [jfield "from" (jint from); jfield "new_root_hex" (jhex new); jfield "old_root_hex" (jhex old);
            jfield "org" (jstring (tID t)); jfield "proof" (hashesHex proof); jfield "to" (jint to)])))
    | _, _ => mret (writeErr 400 "from and to must satisfy 0 <= from < to")
    end
  else mret (writeErr 400 "give index+size (inclusion) or from+to (consistency)").

Definition stale_head (t : Tenant) : SignedTreeHead :=
  {| TreeSize := tCtSize t; Timestamp := 0; SRoot := sb (tCtRoot t); Signature := [] |}.

(** What the gateway trusts after an accepted head. *)
Definition adopt_head (accepted : bool) (sth : SignedTreeHead) (root : slice) (t : Tenant) : Tenant :=
  if accepted && (TreeSize sth >? tCtSize t) then set_ct (TreeSize sth) root t else t.

Definition handleCTGossip (t : Tenant) (rq : Request) : M Response :=
  match decode_first decode_gossip (rqBody rq) with
  | None => mret (writeErr 400 "json")
  | Some g =>
      match mapM (fun h => hex_decode (to_bytes h)) (grProof g) with
      | None => mret (writeErr 400 "encoding/hex")
      | Some proof =>
          s ← get;
          pub ← lift (ctLogPub s);
          let sth := {| TreeSize := grSize g; Timestamp := grTime g; SRoot := sb (grRoot g); Signature := sb (grSig g) |} in
          '(node, accepted, _) ← lift (Observe (NewGossipNode pub (Some (stale_head t))) (Some sth) proof (grFrom g));
          let t := adopt_head accepted sth (grRoot g) t in
          put t;;
          mret (writeJSON 200 (JObj [jfield "accepted" (JBool accepted); jfield "alarm" (jstring (Alarm node));
            jfield "org" (jstring (tID t)); jfield "trusted_root_hex" (jhex (sb (tCtRoot t)));
            jfield "trusted_tree_size" (jint (tCtSize t))]))
      end
  end.

(** ** Reading the timeline *)

(** A map's keys print in order; the later of two writes to a key stays. *)
Definition eventJSON (e : TrustEvent) : list (bytes * json) :=
  let p := match issue_unmarshal (sb (EPayload e)) with
           | Some p => if bool_decide (pCertID p = ""%string) then None else Some p
           | None => None
           end in
  let cert := match revoke_unmarshal (sb (EPayload e)) with
              | Some c => if bool_decide (c = ""%string) then pCertID <$> p else Some c
              | None => pCertID <$> p
              end in
  let opt (n : string) (s : option string) := match s with Some s => [jfield n (jstring s)] | None => [] end in
  opt "cert_id"%string cert ++ [jfield "hash" (jhex (Hash e))] ++ opt "identity"%string (pIdentity <$> p) ++
  [jfield "parent_hash" (jhex (sb (EParentHash e)));
   jfield "payload_b64" (jstring (of_bytes (b64_encode (sb (EPayload e))))); jfield "ts" (jint (ETimestamp e));
   jfield "type" (jstring (EType e))] ++
  opt "via"%string (p ← p; if bool_decide (pVia p = ""%string) then None else Some (pVia p)).

Definition in_period (since until ts : Z) : bool := negb (((since >? 0) && (ts <? since)) || ((until >? 0) && (ts >? until))).
Definition of_type (typ : string) (e : TrustEvent) : bool := bool_decide (typ = ""%string) || bool_decide (EType e = typ).

(** The events of the type and the period asked for, and the last [limit]. *)
Definition matching (rq : Request) (es : list TrustEvent) : list TrustEvent :=
  List.filter (fun e => of_type (q_get rq "type") e && in_period (qint rq "since") (qint rq "until") (ETimestamp e)) es.
Definition page (limit : Z) (es : list TrustEvent) : list TrustEvent :=
  let limit := if (limit <=? 0) || (limit >? 500) then 100 else limit in
  if zlen es >? limit then drop (length es - Z.to_nat limit) es else es.

Definition handleTimeline (t : Tenant) (rq : Request) : M Response :=
  tl ← deref t;
  let out := matching rq (Events tl) in
  let shown := page (qint rq "limit") out in
  mret (writeJSON 200 (JObj [jfield "count" (jint (zlen shown)); jfield "events" (JArr (map (fun e => JObj (eventJSON e)) shown));
    jfield "org" (jstring (tID t)); jfield "total" (jint (zlen out))])).

Definition cert_json (c : Cert) : json := JObj [jfield "Identity" (jstring (Identity c)); jfield "Revoked" (JBool (Revoked c))].
Definition handleState (t : Tenant) : M Response :=
  tl ← deref t;
  let certs := Certs (Fold tl) in
  mret (writeJSON 200 (JObj [
    jfield "certs" (JObj (omap (fun id => c ← certs !! id; Some (jfield id (cert_json c))) (sorted_keys certs)));
    jfield "org" (jstring (tID t))])).

Definition graph_step (acc : gset string * list (string * string)) (e : TrustEvent) : gset string * list (string * string) :=
  match issued e with
  | None => acc
  | Some p =>
      let nodes := {[id_node (pIdentity p); cert_node (pCertID p)]} ∪ acc.1 in
      if bool_decide (pVia p = ""%string) then (nodes, acc.2)
      else ({[cert_node (pVia p)]} ∪ nodes, acc.2 ++ [(cert_node (pVia p), cert_node (pCertID p))])
  end.
Definition handleGraph (t : Tenant) (e : Env) : M Response :=
  tl ← deref t;
  let '(nodes, edges) := foldl graph_step (∅, []) (Events tl) in
  mret (writeJSON 200 (JObj [jfield "edges" (JArr (map (fun p => jstrings [p.1; p.2]) edges));
    jfield "nodes" (jstrings (orders e (elements nodes))); jfield "org" (jstring (tID t))])).

(** ** Writing the timeline *)

(** [issuePayload] as it is signed. *)
Definition issue_payload (p : issuePayload) : bytes :=
  print (JObj ([jfield "cert_id" (jstring (pCertID p)); jfield "identity" (jstring (pIdentity p))] ++ omit_string "via" (pVia p))).

Definition answer_unlocked {A} (m : M A) (k : A -> M Response) : M Response :=
  catch m k (fun e => unlock;; mret (writeErr 500 e)).

(** Append, count, save - between a lock and an unlock that a panic skips. *)
Definition append_event (t : Tenant) (typ : string) (payload : bytes) (counter : string) (e : Env) (answered : bytes -> M Response)
    : M Response :=
  lock;;
  tl ← deref t;
  answer_unlocked (lift (Timeline.Append tl typ (Some payload) (now e))) (fun '(tl, h) =>
    let t := bump "events" (bump counter (set_tl (Some tl) t)) in
    put t;;
    answer_unlocked (saveTenant t (fileDraw e)) (fun _ => unlock;; answered h)).

Definition handleIssue (t : Tenant) (rq : Request) (e : Env) : M Response :=
  answer 400 (lift (readJSON decode_issue rq)) (fun req =>
  if bool_decide (pCertID req = ""%string) || bool_decide (pIdentity req = ""%string)
  then mret (writeErr 400 "cert_id and identity required")
  else
    append_event t EvIssue (issue_payload req) "issues" e (fun h =>
    FireWebhooks (tID t) HookIssue h (JObj [jfield "cert_id" (jstring (pCertID req)); jfield "identity" (jstring (pIdentity req))])
      (nowHook e);;
    mret (writeJSON 201 (JObj [jfield "hash" (jhex h); jfield "org" (jstring (tID t))])))).

Definition handleRevoke (t : Tenant) (rq : Request) (e : Env) : M Response :=
  answer 400 (lift (readJSON decode_revoke rq)) (fun cert =>
  if bool_decide (cert = ""%string) then mret (writeErr 400 "cert_id required")
  else
    append_event t EvRevoke (print (revoke_json cert)) "revokes" e (fun h =>
    FireWebhooks (tID t) HookRevoke h (JObj [jfield "cert_id" (jstring cert)]) (nowHook e);;
    mret (writeJSON 201 (JObj [jfield "hash" (jhex h); jfield "org" (jstring (tID t))])))).

Definition score_set (n : string) (v : json) (s : Score) : option Score :=
  let '{| NodeID := i; ScoreV := x; PValue := p; Evidence := ev |} := s in
  if decide (n = "node_id"%string) then i ← decode_string i v; Some {| NodeID := i; ScoreV := x; PValue := p; Evidence := ev |}
  else if decide (n = "score"%string) then x ← decode_f64 x v; Some {| NodeID := i; ScoreV := x; PValue := p; Evidence := ev |}
  else if decide (n = "p_value"%string) then p ← decode_f64 p v; Some {| NodeID := i; ScoreV := x; PValue := p; Evidence := ev |}
  else Some {| NodeID := i; ScoreV := x; PValue := p; Evidence := Some (print v) |}.
Definition decode_score : json -> option Score :=
  decode_struct ["node_id"; "score"; "p_value"; "evidence"]%string score_set
    {| NodeID := ""; ScoreV := S754_zero false; PValue := S754_zero false; Evidence := None |}.

Definition handleScores (t : Tenant) (rq : Request) (e : Env) : M Response :=
  answer 400 (lift (readJSON decode_score rq)) (fun sc =>
  if bool_decide (NodeID sc = ""%string) then mret (writeErr 400 "node_id required")
  else
    let '(t1, t2) := nowSeen e in
    put (set_fleet (Ingest (orders e) (tFleet t) (WireMsgFromScore sc "api") t1 t2) t);;
    mret (match print_f64 (ScoreV sc) with
          | Some x => writeJSON 202 (JObj [jfield "node" (jstring (NodeID sc)); jfield "org" (jstring (tID t)); jfield "score" (JNum x)])
          | None => writeErr 500 "json: unsupported value"
          end)).

(** ** Recovery *)

Definition same_prefix (n : nat) (cur fork : list TrustEvent) : bool :=
  forallb (fun p => bytes_equal (Hash p.1) (Hash p.2)) (zip (take n cur) (take n fork)).

(** The checks of [handleRecover], in order: what it adopts. *)
Definition check_fork (anchor : slice) (cur : option Timeline) (fc : FrostCommit) (raw : bytes) : outcome Timeline :=
  guard (negb (length (sb anchor) =? PublicKeySize)%nat) "council trust anchor not configured" (
  ok ← Valid fc (sb anchor) quorum;
  guard (negb ok) "handoff signature invalid" (
  match UnmarshalTimeline raw with
  | Err _ => Err "bad fork: %w"
  | Panic => Panic
  | Ret fork =>
      ok ← Verify fork;
      guard (negb ok) "fork chain verification failed" (
      match branch_point (Events fork), cur with
      | None, _ => Err "fork has no recovery handoff"
      | Some _, None => Panic
      | Some idx, Some cur =>
          guard (length (Events cur) <? idx)%nat "fork does not descend from this org's timeline" (
          guard (negb (same_prefix idx (Events cur) (Events fork))) "fork prefix mismatch" (
          guard (lastEpoch (Events fork) <=? lastEpoch (Events cur)) "fork epoch does not advance" (
          Ret fork)))
      end)
  end)).

Definition adopt_fork (t : Tenant) (fork : Timeline) : Tenant := bump "recoveries" (set_detected false (set_tl (Some fork) t)).

(** A failed check is 422; a failed save, after the fork is in place, 500. *)
Definition recover_locked (t : Tenant) (fc : FrostCommit) (raw : bytes) (e : Env) : M (Timeline + Response) :=
  with_lock (
    s ← get;
    catch (lift (check_fork (sCouncilPub s) (tTl t) fc raw))
      (fun fork =>
        let t := adopt_fork t fork in
        put t;;
        catch (saveTenant t (fileDraw e)) (fun _ => mret (inl fork)) (fun err => mret (inr (writeErr 500 err))))
      (fun err => mret (inr (writeErr 422 err)))).

Definition handleRecover (t : Tenant) (rq : Request) (e : Env) : M Response :=
  answer 400 (lift (readJSON decode_recover rq)) (fun req =>
  match rrHandoff req, rrTimelineRaw req with
  | Some fc, (_ :: _) as raw =>
      r ← recover_locked t fc raw e;
      match r with
      | inr resp => mret resp
      | inl fork =>
          let epoch := jint (fcEpoch fc) in
          let issued := jint (zlen (fcMembers fc)) in
          FireWebhooks (tID t) HookRecovery (sb (Head fork)) (JObj [jfield "epoch" epoch; jfield "issued" issued]) (nowHook e);;
          mret (writeJSON 200 (JObj [jfield "epoch" epoch; jfield "head" (jhex (sb (Head fork))); jfield "issued" issued;
                                     jfield "org" (jstring (tID t))]))
      end
  | _, _ => mret (writeErr 400 "timeline and commit required")
  end).

(** ** Audit *)

Definition audit_json (a : AuditEntry) : json :=
  JObj ([jfield "ts" (jint (aeTs a)); jfield "user" (jstring (aeUser a))] ++ omit_string "org" (aeOrg a) ++
        [jfield "method" (jstring (aeMethod a)); jfield "path" (jstring (aePath a)); jfield "status" (jint (aeStatus a))] ++
        omit_string "details" (aeDetails a)).

(** An event passes the identity and certificate filters when its payload does
    not decode as an issuance's. *)
Definition audit_event (rq : Request) (e : TrustEvent) : bool :=
  of_type (q_get rq "type") e && in_period (qint rq "since") (qint rq "until") (ETimestamp e) &&
  match issue_unmarshal (sb (EPayload e)) with
  | None => true
  | Some p =>
      let id := q_get rq "identity" in let cert := q_get rq "cert" in
      (bool_decide (id = ""%string) || bool_decide (pIdentity p = id)) &&
      (bool_decide (cert = ""%string) || bool_decide (pCertID p = cert))
  end.

(** The fields of an event and its organisation, keys in order. *)
Definition with_org (org : string) (l : list (bytes * json)) : json :=
  let before := List.filter (fun kv => String.leb (of_bytes kv.1) "org") l in
  let after := List.filter (fun kv => negb (String.leb (of_bytes kv.1) "org")) l in
  JObj (before ++ jfield "org" (jstring org) :: after).

Definition audit_org (rq : Request) (t : Tenant) : M (list json) :=
  tl ← deref t; mret (map (fun e => with_org (tID t) (eventJSON e)) (List.filter (audit_event rq) (Events tl))).

Definition handleAudit (u : User) (rq : Request) (e : Env) : M Response :=
  if bool_decide (q_get rq "source" = "actions"%string) then
    let org := q_get rq "org" in
    if negb (bool_decide (org = ""%string)) && negb (inOrg u org) then mret (writeErr 403 "not scoped to that org")
    else
      es ← SearchAudit org (q_get rq "user") (q_get rq "method") (qint rq "since") (qint rq "until") (qint rq "limit");
      mret (writeJSON 200 (JObj [jfield "actions" (jarr_nil (map audit_json es))]))
  else
    ts ← visibleOrgs u e;
    js ← collect (audit_org rq) ts;
    mret (writeJSON 200 (JObj [jfield "count" (jint (zlen (concat js))); jfield "events" (JArr (concat js))])).

Definition lastDetected (es : list TrustEvent) : outcome TrustEvent :=
  of_option "no DETECTED event on this org's timeline; post watchdog scores first"
    (last (List.filter (fun e => bool_decide (EType e = EvDetected)) es)).

(** ** Webhooks *)

Definition handleListWebhooks : M Response :=
  with_lock (s ← get; mret (writeJSON 200 (JObj [jfield "webhooks" (jarr_nil (map webhook_json (sWebhooks s)))]))).

Definition handleCreateWebhook (rq : Request) (e : Env) : M Response :=
  answer 400 (lift (readJSON decode_webhook rq)) (fun '(url, secret, events) =>
  if negb (url_allowed url) then mret (writeErr 400 "webhook url must be https (or http on loopback)")
  else
    with_lock (
      let h := {| whID := of_bytes (to_bytes "wh-" ++ dec_Z (now e)); whURL := url; whSecret := secret; whEvents := events;
                  whActive := true |} in
      modify (fun s => set_webhooks (sWebhooks s ++ [h]) s);;
      answer 500 saveMeta (fun _ => mret (writeJSON 201 (webhook_json h))))).

(** The first webhook of that id. *)
Fixpoint drop_hook (id : string) (l : list Webhook) : option (list Webhook) :=
  match l with
  | [] => None
  | h :: l => if bool_decide (whID h = id) then Some l else cons h <$> drop_hook id l
  end.
Definition handleDeleteWebhook (rq : Request) : M Response :=
  with_lock (
    s ← get;
    match drop_hook (rqID rq) (sWebhooks s) with
    | None => mret (writeErr 404 "no such webhook %q")
    | Some l =>
        modify (set_webhooks l);;
        answer 500 saveMeta (fun _ => mret (writeJSON 200 (JObj [jfield "deleted" (jstring (rqID rq))])))
    end).

(** ** Backup, restore, rotation *)

Definition handleBackup (e : Env) : M Response :=
  answer 500 Backup (fun b =>
  let id := of_bytes (to_bytes "bk-" ++ dec_Z (now e)) in
  write (dir_backup id b);;
  mret (writeJSON 201 (JObj [jfield "download" (jstring ("/v1/backup/" ++ id ++ "/download")); jfield "id" (jstring id);
                             jfield "size" (jint (zlen b))]))).

Definition handleBackupDownload (rq : Request) : M Response :=
  d ← read_disk;
  mret (match dBackups d !! rqID rq with
        | None => writeErr 404 "no such backup %q"
        | Some b => {| rsStatus := 200; rsBody := b |}
        end).

Definition handleRestore (rq : Request) (e : Env) : M Response :=
  answer 400 (Restore (read_body rq) (raws e) (orders e) (tenantDraws e)) (fun _ =>
  mret (writeJSON 200 (JObj [jfield "restored" (JBool true)]))).

Definition handleRotate (rq : Request) (e : Env) : M Response :=
  match decode_first decode_rotate (read_body rq) with
  | None | Some [] => mret (writeErr 400 "rotate: body needs {shares: [3 or more Shard JSON files]}")
  | Some shares =>
      answer 400 (RotateVault (map Some shares) (draw e) (nonce e) (orders e) (orders e) (tenantDraws e)) (fun _ =>
      epoch ← with_lock (s ← get; match sVault s with Some v => mret (Epoch v) | None => panics end);
      mret (writeJSON 200 (JObj [jfield "epoch" (jint epoch); jfield "rotated" (JBool true)])))
  end.

(** ** The watcher of an organisation *)

Definition detected_payload (bad : Z) : bytes := print (JObj [jfield "bad_index" (jint bad)]).

(** One verdict, under the lock: the rising edge of a detection appends the
    evidence and saves (a failed save is ignored); a quiet verdict rearms. *)
Definition on_verdict (t : Tenant) (v : FleetVerdict) (e : Env) : M (option (bytes * Z)) :=
  if fvDetected v && negb (tDetected t) then
    tl ← deref t;
    let bad := minBadIndex (fvScores v) in
    let bad := if bad <? 0 then zlen (events tl) else bad in
    let raised t := bump "events" (bump "detections" (set_detected true t)) in
    match Timeline.Append tl EvDetected (Some (detected_payload bad)) (now e) with
    | Ret (tl, h) =>
        let t := raised (set_tl (Some tl) t) in
        put t;; catch (saveTenant t (fileDraw e)) (fun _ => mret (Some (h, bad))) (fun _ => mret (Some (h, bad)))
    | Err _ => put (raised t);; mret None
    | Panic => panics
    end
  else if negb (fvDetected v) then put (set_detected false t);; mret None
  else mret None.

(** One turn of the watcher's loop.  A panic in it is not recovered. *)
Definition watcher (id : string) (v : FleetVerdict) (e : Env) : M unit :=
  lock;;
  s ← get;
  match sTenants s !! id with
  | None => unlock
  | Some t =>
      fired ← on_verdict t v e;
      unlock;;
      match fired with
      | Some (h, bad) => FireWebhooks (tID t) HookDetected h (JObj [jfield "bad_index" (jint bad)]) (nowHook e)
      | None => mret tt
      end
  end.

(** ** Dispatch, and the middleware around it *)

Definition on_user (r : Route) (rq : Request) (u : User) (e : Env) : M Response :=
  match r with
  | RHealth => handleHealth e
  | RCreateUser => handleCreateUser rq e
  | RListUsers => handleListUsers e
  | RUserToken => handleUserToken rq e
  | RCreateOrg => handleCreateOrg rq e
  | RListOrgs => handleListOrgs u e
  | RDeleteOrg => handleDeleteOrg rq e
  | RAudit => handleAudit u rq e
  | RListWebhooks => handleListWebhooks
  | RCreateWebhook => handleCreateWebhook rq e
  | RDeleteWebhook => handleDeleteWebhook rq
  | RBackup => handleBackup e
  | RDownload => handleBackupDownload rq
  | RRestore => handleRestore rq e
  | _ => handleRotate rq e
  end.
Definition on_org (r : Route) (rq : Request) (t : Tenant) (e : Env) : M Response :=
  match r with
  | ROrgDetail => handleOrgDetail t
  | RTimeline => handleTimeline t rq
  | RIssue => handleIssue t rq e
  | RRevoke => handleRevoke t rq e
  | RState => handleState t
  | RGraph => handleGraph t e
  | RScores => handleScores t rq e
  | RRecover => handleRecover t rq e
  | RPubKey => handleOrgPubKey t
  | RCTSTH => handleCTSTH t e
  | RCTProof => handleCTProof t rq
  | _ => handleCTGossip t rq
  end.

(** Replay, or run the handler, cache its answer and record the action. *)
Definition respond (r : Route) (rq : Request) (u : User) (e : Env) (h : M Response) : M Response :=
  let key := idemKey r rq u in
  cached ← (if bool_decide (key = ""%string) then mret None else idemLookup key (nowLookup e));
  match cached with
  | Some c =>
      Audit (audit_of (uID u) rq (ieStatus c) "idempotent replay" (nowAudit e));;
      mret {| rsStatus := ieStatus c; rsBody := ieBody c |}
  | None =>
      resp ← recovered h;
      idemStore key resp (nowStore e);;
      Audit (audit_of (uID u) rq (rsStatus resp) "" (nowAudit e));;
      mret resp
  end.

(** What follows authentication. *)
Definition admit_request (r : Route) (rq : Request) (e : Env) (uh : User * string) : M Response :=
  let '(u, hash) := uh in
  if negb (hasRole (uRole u) (roles_of r)) then mret (writeErr 403 "insufficient role: need ")
  else
    ok ← spend hash (nowLimit e);
    if negb ok then mret (writeErr 429 "rate limit exceeded")
    else if scoped r then
      t ← find_org (rqOrg rq);
      match t with
      | None => mret (writeErr 404 "no such org %q")
      | Some t =>
          if negb (inOrg u (rqOrg rq)) then mret (writeErr 403 "user %q not scoped to org %q")
          else if negb (tokenInOrg u hash (rqOrg rq)) then mret (writeErr 403 "token not scoped to org %q")
          else respond r rq u e (on_org r rq t e)
      end
    else respond r rq u e (on_user r rq u e).

Definition serve_request (r : Route) (rq : Request) (e : Env) : M Response :=
  match r with
  | RHealth =>
      resp ← recovered (handleHealth e);
      Audit (audit_of "" rq (rsStatus resp) "" (nowAudit e));; mret resp
  | _ => answer 401 (authenticate (orders e) (rqAuth rq)) (admit_request r rq e)
  end.

(** ** Starting the gateway *)

Definition seed_admin (bootstrap : string) (draw : option bytes) : M string :=
  '(u, raw) ← lift (NewUser "admin" RoleAdmin [] draw);
  let '(u, raw) :=
    if bool_decide (bootstrap = ""%string) then (u, raw)
    else (with_token u (tokenHash bootstrap) (uTokenOrgs u), bootstrap) in
  put_user "admin" u;; saveMeta;; mret raw.

Definition NewGateway (bootstrap : string) (draw sealDraw logDraw : option bytes) (order order' : list string -> list string)
    : M string :=
  NewStore order sealDraw logDraw;;
  s ← get;
  token ← (if (size (sUsers s) =? 0)%nat then seed_admin bootstrap draw else mret ""%string);
  s ← get;
  for_each (order' (map fst (map_to_list (sTenants s)))) watch;;
  mret token.

End gateway.
