(* ===== verification/GatewayTheory.v ===== *)
(** * What the REST surface guarantees

    - a request reaches a handler only with a token, a role, a budget and a
      scope that allow it; a refused one changes nothing but its budget;
    - a repeated request with an idempotency key is answered from the cache and
      changes nothing but the budget and the audit ring;
    - an issuance that is answered 201 is on the timeline and on disk;
    - a recovery is adopted exactly when its checks pass;
    - the watcher writes one DETECTED event per rising edge;
    - the head the gateway trusts of a transparency log only grows. *)
From Stdlib Require Import SpecFloat.
From S2P Require Import Prelude Crypto Encoding Json Float Timeline TimelineTheory TimelineFile.
From S2P Require Import Graph TrustState Watchdog Merkle Gossip Shamir Frost Council Pq Vault Auth.
From S2P Require Import Ratelimit Transport CouncilNet Fleet Store StoreTheory Webhooks Gateway.

Section gateway.
Context `{Hashes} `{Ed25519} `{Symmetric} `{MetaText} `{FloatText} `{UrlText}.

(** ** Runs *)

Lemma bind_run {A B} (m : M A) (f : A -> M B) w w1 a : m w = (w1, ROk a) -> (m ≫= f) w = f a w1.
Proof. intros E. unfold mbind, M_bind. by rewrite E. Qed.
Lemma bind_stop {A B} (m : M A) (f : A -> M B) w w1 : m w = (w1, RBlocked) -> (m ≫= f) w = (w1, RBlocked).
Proof. intros E. unfold mbind, M_bind. by rewrite E. Qed.
Lemma answer_run {A} code (m : M A) k w w1 a : m w = (w1, ROk a) -> answer code m k w = k a w1.
Proof. intros E. unfold answer, catch. by rewrite E. Qed.
Lemma answer_err {A} code (m : M A) k w w1 e : m w = (w1, RErr e) -> answer code m k w = (w1, ROk (writeErr code e)).
Proof. intros E. unfold answer, catch. by rewrite E. Qed.
Lemma catch_run {A B} (m : M A) (k : A -> M B) bad w a w1 : m w = (w1, ROk a) -> catch m k bad w = k a w1.
Proof. intros E. unfold catch. by rewrite E. Qed.
Lemma then_catch {A B} (m : M unit) (m' : M A) (k : A -> M B) bad w w1 a :
  (m;; m') w = (w1, ROk a) -> (m;; catch m' k bad) w = k a w1.
Proof. intros (w2 & [] & E1 & E2)%M_bind_ok. rewrite (bind_run _ _ _ _ _ E1). by apply catch_run. Qed.
Lemma with_lock_run {A} (m : M A) w w1 r :
  locked w = false -> m (set_locked true w) = (w1, r) -> with_lock m w = (set_locked false w1, r).
Proof. intros Hl E. unfold with_lock, lock. by rewrite Hl, E. Qed.
Lemma with_lock_blocked {A} (m : M A) w : locked w = true -> with_lock m w = (w, RBlocked).
Proof. intros Hl. unfold with_lock, lock. by rewrite Hl. Qed.

Definition with_mem (s : Store) (w : World) : World := {| mem := s; disk := disk w; past := past w; locked := locked w |}.
Lemma with_mem_same w : with_mem (mem w) w = w.
Proof. by destruct w. Qed.

(** ** Who may *)

(** The user and the token a request acts for. *)
Record Authorized (s : Store) (r : Route) (rq : Request) (u : User) (hash : string) : Prop := {
  au_token : exists raw, BearerToken (rqAuth rq) = Ret raw /\ hash = tokenHash raw /\ Authed u raw = true;
  au_user : exists id, sUsers s !! id = Some u;
  au_role : roles_of r = [] \/ uRole u ∈ roles_of r;
  au_scope : scoped r = true ->
    is_Some (sTenants s !! rqOrg rq) /\ inOrg u (rqOrg rq) = true /\ tokenInOrg u hash (rqOrg rq) = true;
}.

Lemma hasRole_spec role want : hasRole role want = true <-> want = [] \/ role ∈ want.
Proof.
  unfold hasRole. destruct want as [|x l]; [by split; [left|]|]. rewrite existsb_exists. split.
  - intros (y & Hy & E%bool_decide_eq_true). right. apply list_elem_of_In. by subst.
  - intros [?|Hi]; [done|]. exists role. split; [by apply list_elem_of_In|by apply bool_decide_eq_true].
Qed.

Definition of_order (order : list string -> list string) (s : Store) : list User :=
  omap (fun id => sUsers s !! id) (order (map fst (map_to_list (sUsers s)))).

Lemma of_order_spec order s u : perm_order order -> u ∈ of_order order s <-> exists id, sUsers s !! id = Some u.
Proof.
  intros Ho. unfold of_order. rewrite list_elem_of_omap. split; [naive_solver|]. intros (id & E). exists id. split; [|done].
  by apply (keys_order order (sUsers s) Ho).
Qed.

Lemma authenticate_run order auth w : locked w = false ->
  (exists raw u, BearerToken auth = Ret raw /\ List.find (fun u => Authed u raw) (of_order order (mem w)) = Some u /\
     authenticate order auth w = (w, ROk (u, tokenHash raw))) \/
  (exists e, authenticate order auth w = (w, RErr e)).
Proof.
  intros Hl. unfold authenticate.
  assert (Hb : (exists raw, BearerToken auth = Ret raw) \/ exists e, BearerToken auth = Err e).
  { unfold BearerToken. destruct (Fields _) as [|a [|b [|c l]]]; eauto. destruct (_ || _); eauto. }
  destruct Hb as [(raw & E)|(e & E)]; [|right; exists e; unfold mbind, M_bind, lift; by rewrite E].
  rewrite (bind_run _ _ w w raw) by (unfold lift; by rewrite E).
  destruct (List.find (fun u => Authed u raw) (of_order order (mem w))) as [u|] eqn:Ef; [left; exists raw, u|right; exists "invalid token"];
    (do 2 (try (split; [done|]))).
  - rewrite (with_lock_run _ w (set_locked true w) (ROk (u, tokenHash raw)) Hl); [by destruct w; cbn in *; subst|].
    unfold get, mbind, M_bind. cbn [mem set_locked]. unfold of_order in Ef. by rewrite Ef.
  - rewrite (with_lock_run _ w (set_locked true w) (RErr "invalid token") Hl); [by destruct w; cbn in *; subst|].
    unfold get, mbind, M_bind. cbn [mem set_locked]. unfold of_order in Ef. by rewrite Ef.
Qed.

Lemma find_org_run org w : locked w = false -> find_org org w = (w, ROk (sTenants (mem w) !! org)).
Proof. intros Hl. unfold find_org. rewrite (with_lock_run _ w (set_locked true w) (ROk (sTenants (mem w) !! org)) Hl); [|done]. destruct w. cbn in *. by subst. Qed.

(** The world after a request has paid. *)
Definition paid (hash : string) (t : Z) (w : World) : World :=
  with_mem (set_limiter (allow (sLimiter (mem w)) hash t).1 (mem w)) w.
Definition in_budget (s : Store) (hash : string) (t : Z) : bool := (allow (sLimiter s) hash t).2.

Lemma spend_run hash t w : spend hash t w = (paid hash t w, ROk (in_budget (mem w) hash t)).
Proof.
  unfold spend, get, mbind, M_bind, in_budget, paid. cbn [mem].
  destruct (allow (sLimiter (mem w)) hash t) as [l ok]. done.
Qed.

Definition handler_of (r : Route) (rq : Request) (u : User) (e : Env) (s : Store) : M Response :=
  if scoped r then match sTenants s !! rqOrg rq with Some t => on_org r rq t e | None => mret (writeErr 404 "no such org %q") end
  else on_user r rq u e.

Lemma serve_authenticated r rq e w : r <> RHealth ->
  serve_request r rq e w = answer 401 (authenticate (orders e) (rqAuth rq)) (admit_request r rq e) w.
Proof. by destruct r. Qed.

Lemma find_auth order w raw u : perm_order order ->
  List.find (fun u => Authed u raw) (of_order order (mem w)) = Some u -> Authed u raw = true /\ exists id, sUsers (mem w) !! id = Some u.
Proof. intros Ho E. apply find_some in E as [Hi Ha]. split; [done|]. apply (of_order_spec order (mem w) u Ho). by apply list_elem_of_In. Qed.

Definition refusals : list Z := [401; 403; 404; 429].


(** ** Replay *)

(** The request is let in, for that user and token. *)
Record admitted (r : Route) (rq : Request) (e : Env) (w : World) (u : User) (hash : string) : Prop := {
  ad_route : r <> RHealth;
  ad_free : locked w = false;
  ad_user : authenticate (orders e) (rqAuth rq) w = (w, ROk (u, hash));
  ad_role : hasRole (uRole u) (roles_of r) = true;
  ad_budget : in_budget (mem w) hash (nowLimit e) = true;
  ad_scope : scoped r = true ->
    is_Some (sTenants (mem w) !! rqOrg rq) /\ inOrg u (rqOrg rq) = true /\ tokenInOrg u hash (rqOrg rq) = true;
}.

Lemma serve_admitted r rq e w u hash : admitted r rq e w u hash ->
  serve_request r rq e w = respond r rq u e (handler_of r rq u e (mem w)) (paid hash (nowLimit e) w).
Proof.
  intros [Hr Hl E Er Eb Hs]. rewrite serve_authenticated by done. rewrite (answer_run _ _ _ _ _ _ E). unfold admit_request, handler_of.
  rewrite Er. cbn [negb]. rewrite (bind_run _ _ _ _ _ (spend_run _ _ _)), Eb. cbn [negb]. destruct (scoped r); [|done].
  destruct (Hs eq_refl) as ([t Et] & Ei & Eo).
  rewrite (bind_run _ _ _ _ _ (find_org_run (rqOrg rq) (paid hash (nowLimit e) w) Hl)). cbn [paid with_mem mem].
  change (sTenants (set_limiter ?l ?s)) with (sTenants s). by rewrite Et, Ei, Eo.
Qed.

Lemma audit_run a w : locked w = false -> Audit a w = (with_mem (set_audit (push_audit (sAudit (mem w)) a) (mem w)) w, ROk tt).
Proof.
  intros Hl. unfold Audit. rewrite (with_lock_run _ w _ (ROk tt) Hl eq_refl). destruct w as [s d p l]. cbn in *. by subst.
Qed.

Lemma respond_cached r rq u e h w c :
  locked w = false -> idemKey r rq u <> ""%string -> sIdem (mem w) !! idemKey r rq u = Some c ->
  nowLookup e - ieTs c <= replay_window ->
  exists a, respond r rq u e h w = (with_mem (set_audit a (mem w)) w, ROk {| rsStatus := ieStatus c; rsBody := ieBody c |}).
Proof.
  intros Hl Hk Hc Ht. unfold respond. cbv zeta. rewrite bool_decide_false by done.
  assert (idemLookup (idemKey r rq u) (nowLookup e) w = (w, ROk (Some c))) as El.
  { unfold idemLookup. rewrite (with_lock_run _ w (set_locked true w) (ROk (Some c)) Hl).
    - destruct w. cbn in *. by subst.
    - unfold get, mbind, M_bind. cbn [mem set_locked]. rewrite Hc. by destruct (Z.gtb_spec (nowLookup e - ieTs c) replay_window); [lia|]. }
  rewrite (bind_run _ _ _ _ _ El). rewrite (bind_run _ _ _ _ _ (audit_run _ _ Hl)). by eexists.
Qed.

Lemma respond_caches r rq u e h w w1 resp :
  idemKey r rq u <> ""%string -> locked w = false -> sIdem (mem w) !! idemKey r rq u = None ->
  respond r rq u e h w = (w1, ROk resp) ->
  locked w1 = false /\ sIdem (mem w1) !! idemKey r rq u = Some {| ieStatus := rsStatus resp; ieBody := rsBody resp; ieTs := nowStore e |}.
Proof.
  intros Hk Hl Hc. unfold respond. cbv zeta. rewrite bool_decide_false by done.
  assert (idemLookup (idemKey r rq u) (nowLookup e) w = (w, ROk None)) as El.
  { unfold idemLookup. rewrite (with_lock_run _ w (set_locked true w) (ROk None) Hl).
    - destruct w. cbn in *. by subst.
    - unfold get, mbind, M_bind. cbn [mem set_locked]. by rewrite Hc. }
  rewrite (bind_run _ _ _ _ _ El). intros E. apply M_bind_ok in E as (w2 & resp' & _ & E).
  apply M_bind_ok in E as (w3 & [] & E3 & E). apply M_bind_ok in E as (w4 & [] & E4 & E). injection E as -> ->.
  unfold idemStore in E3. rewrite bool_decide_false in E3 by done. apply with_lock_ok in E3 as (Hl2 & w5 & E3 & ->).
  injection E3 as <-. apply with_lock_ok in E4 as (_ & w6 & E4 & ->). injection E4 as <-. split; [done|]. cbn.
  by rewrite lookup_insert_eq.
Qed.

(** The same request but for who sends it. *)
Definition same_request (rq rq' : Request) : Prop :=
  rqMethod rq' = rqMethod rq /\ rqPath rq' = rqPath rq /\ rqIdem rq' = rqIdem rq /\ rqBody rq' = rqBody rq.


(** ** Appending through the surface *)

Lemma fire_run org typ h details t w : locked w = false ->
  exists w' o, FireWebhooks org typ h details t w = (w', ROk tt) /\ beside w w' /\ mem w' = set_outbox o (mem w).
Proof.
  intros Hl. unfold FireWebhooks. set (body := hook_body org typ h details t). clearbody body.
  rewrite (bind_run _ _ w w (List.filter (fun h => hookMatches h typ) (sWebhooks (mem w)))).
  2: { rewrite (with_lock_run _ w (set_locked true w) _ Hl eq_refl). destruct w. cbn in *. by subst. }
  generalize (List.filter (fun h => hookMatches h typ) (sWebhooks (mem w))) as hs. intros hs.
  set (o := match hs with [] => sOutbox (mem w) | _ => Some (default [] (sOutbox (mem w)) ++ map (job_of body t) hs) end).
  assert (Ho : match hs with [] => mem w | _ :: _ => set_outbox (Some (default [] (sOutbox (mem w)) ++ map (job_of body t) hs)) (mem w) end
    = set_outbox o (mem w)) by (unfold o; destruct hs; [by destruct (mem w)|done]).
  unfold with_lock, lock. rewrite Hl. unfold modify, mbind, M_bind, saveOutboxLocked, get. cbn [set_locked mem disk past locked].
  rewrite Ho. clearbody o. cbn [sOutbox set_outbox]. destruct o as [l|]; eexists _, _; (split; [reflexivity|]); (split; [|reflexivity]);
    (split; try done; intros id t' Et; by exists t').
Qed.

Lemma issue_payload_reads p : valid_string (pCertID p) -> valid_string (pIdentity p) -> valid_string (pVia p) ->
  issue_unmarshal (issue_payload p) = Some p.
Proof.
  destruct p as [c i v]. cbn [pCertID pIdentity pVia]. intros Hc Hi Hv. unfold issue_unmarshal, issue_payload.
  cbn [pCertID pIdentity pVia].
  set (j := JObj _). assert (Hj : norm j = j).
  { unfold j, omit_string, jfield. destruct (decide (v = ""%string)); cbn [app norm map fst snd];
      by rewrite !coerce_name, !norm_jstring by done. }
  rewrite parse_print; [cbn [mbind option_bind]; rewrite Hj|by unfold j, omit_string; destruct (decide _)|
    unfold j, omit_string; destruct (decide _); vm_compute; lia].
  unfold j, omit_string. rewrite decode_struct_obj. destruct (decide (v = ""%string)) as [->|Hne]; cbn [app].
  - struct_step issue_set. struct_step issue_set. done.
  - struct_step issue_set. struct_step issue_set. struct_step issue_set. done.
Qed.

End gateway.

Section durable.
Context `{HashLaws} {ED : Ed25519} {EL : Ed25519Laws} `{SymmetricLaws} `{MetaTextLaws} `{FloatText} `{UrlText}.

Lemma append_storable t typ payload ts t' h :
  storable t -> valid_string typ -> in_int64 ts -> Timeline.Append t typ payload ts = Ret (t', h) -> storable t'.
Proof.
  intros (Hp & Hs & Hc & Hk & He) Hv Ht E. destruct (append_ret t typ payload ts t' h E) as (sig & priv & _ & _ & -> & -> & _).
  split_and!; try done. cbn. apply Forall_app. split; [done|]. by apply Forall_singleton.
Qed.

(** Saving a changed tenant from inside the lock. *)
Lemma save_locked kek w id t t' tl d :
  Ran kek w -> sTenants (mem w) !! id = Some t -> tMeta t' = tMeta t -> tTl t' = Some tl -> storable tl -> drawn_file d ->
  exists w', (put t';; saveTenant t' d) (set_locked true w) = (set_locked true w', ROk tt) /\ Ran kek w' /\
    mem w' = put_tenant id t' (mem w) /\ locked w' = false.
Proof.
  intros Hr Et Hm Htl Hs Hd. pose proof (run_persists _ _ Hr) as Hp.
  destruct (pe_tenants _ _ Hp _ _ Et) as (tl0 & f0 & Hod). assert (Hid : tID t' = id) by (unfold tID; rewrite Hm; apply Hod).
  destruct (save_tenant_writes (put_tenant id t' (mem w)) t' d tl
    {| mem := put_tenant id t' (mem w); disk := disk w; past := past w; locked := false |} Htl Hs Hd) as (file & Ew & _);
    [apply (pe_seal _ _ Hp)|intros v Hv; by eapply pe_vault|].
  destruct (save_tenant_writes (put_tenant id t' (mem w)) t' d tl
    {| mem := put_tenant id t' (mem w); disk := disk w; past := past w; locked := true |} Htl Hs Hd) as (file' & Ew' & _);
    [apply (pe_seal _ _ Hp)|intros v Hv; by eapply pe_vault|].
  assert (file' = file) as ->.
  { unfold save_tenant_of, save_blob_of in Ew, Ew'. rewrite Htl in Ew, Ew'. unfold mbind, M_bind, lift in Ew, Ew'.
    destruct (seal_file _ _ _ _); [|done..]. injection Ew as E1. injection Ew' as E2. 
    apply (f_equal (lookup (tmID (tMeta t')))) in E1, E2. rewrite !lookup_insert_eq in E1, E2. congruence. }
  eexists. split; [|split; [|split]].
  - unfold put. rewrite Hid. unfold saveTenant, modify, mbind, M_bind, get. cbn [set_locked mem disk past locked]. rewrite Ew'. 
    instantiate (1 := {| mem := put_tenant id t' (mem w); disk := put_file (tmID (tMeta t')) file (disk w);
                         past := disk w :: past w; locked := false |}). reflexivity.
  - eapply (ran_save kek w id t t' tl d); try done. unfold saveTenant, modify, mbind, M_bind, get. cbn [mem].
    rewrite (pe_locked _ _ Hp), Ew. reflexivity.
  - done.
  - done.
Qed.

Lemma append_event_run kek w t tl typ payload ctr e k :
  Ran kek w -> sTenants (mem w) !! tID t = Some t -> tTl t = Some tl -> is_Some (tkey tl) -> valid_string typ ->
  in_int64 (now e) -> drawn_file (fileDraw e) ->
  exists w' tl' h, append_event t typ payload ctr e k w = k h w' /\ Ran kek w' /\ storable tl' /\
    Timeline.Append tl typ (Some payload) (now e) = Ret (tl', h) /\
    mem w' = put_tenant (tID t) (bump "events" (bump ctr (set_tl (Some tl') t))) (mem w).
Proof.
  intros Hr Et Htl [priv Hk] Hv Hn Hd. pose proof (run_persists _ _ Hr) as Hp.
  destruct (live_after _ _ _ _ Hp Et) as (Hid & tl0 & Etl & Hs). rewrite Htl in Etl. injection Etl as <-.
  destruct (append_some tl priv typ (Some payload) (now e) Hk) as (tl' & h & Ea).
  { destruct Hs as (_ & _ & _ & Hkl & _). rewrite Hk in Hkl. exact Hkl. }
  assert (Hs' : storable tl') by (by eapply append_storable).
  destruct (save_locked kek w (tID t) t (bump "events" (bump ctr (set_tl (Some tl') t))) tl' (fileDraw e) Hr Et eq_refl eq_refl Hs' Hd)
    as (w' & Es & Hr' & Em & Hl').
  exists w', tl', h. split; [|split_and!; done].
  unfold append_event. rewrite (bind_run _ _ w (set_locked true w) tt) by (unfold lock; by rewrite (pe_locked _ _ Hp)).
  unfold deref. rewrite Htl. rewrite (bind_run _ _ _ _ tl eq_refl). unfold answer_unlocked.
  rewrite (catch_run _ _ _ _ (tl', h) (set_locked true w)) by (unfold Timeline.Append; by rewrite Ea).
  cbv beta iota zeta. rewrite (then_catch _ _ _ _ _ _ _ Es).
  rewrite (bind_run _ _ _ w' tt); [done|]. unfold unlock. f_equal. destruct w'. cbn in *. by subst.
Qed.

(** The certificate of an issuance: the identity, unless it was revoked. *)
Definition after_issue (p : issuePayload) (c : option Cert) : option Cert :=
  match c with
  | Some c => if Revoked c then Some c else Some {| Identity := pIdentity p; Revoked := false |}
  | None => Some {| Identity := pIdentity p; Revoked := false |}
  end.

(** What an issuance that is answered leaves. *)
Record after_issuance (kek : bytes) (w w1 : World) (p : issuePayload) (time : Z) (t t' : Tenant) (tl tl' : Timeline)
    (ev : TrustEvent) : Prop := {
  ai_ran : Ran kek w1;
  ai_mem : exists o, mem w1 = set_outbox o (put_tenant (tID t) t' (mem w));
  ai_tenant : tMeta t' = tMeta t /\ tTl t' = Some tl';
  ai_events : events tl' = events tl ++ [ev];
  ai_event : EType ev = EvIssue /\ ETimestamp ev = time /\ issue_unmarshal (sb (EPayload ev)) = Some p;
  ai_writable : writable tl -> writable tl';
}.

Lemma issue_handled kek w t tl rq e p :
  Ran kek w -> sTenants (mem w) !! tID t = Some t -> tTl t = Some tl -> is_Some (tkey tl) ->
  readJSON decode_issue rq = Ret p -> pCertID p <> ""%string -> pIdentity p <> ""%string ->
  valid_string (pCertID p) -> valid_string (pIdentity p) -> valid_string (pVia p) ->
  in_int64 (now e) -> drawn_file (fileDraw e) ->
  exists w1 t' tl' ev, handleIssue t rq e w =
      (w1, ROk (writeJSON 201 (JObj [jfield "hash" (jhex (Hash ev)); jfield "org" (jstring (tID t))]))) /\
    after_issuance kek w w1 p (now e) t t' tl tl' ev.
Proof.
  intros Hr Et Htl Hk Hb Hc Hi Vc Vi Vv Hn Hd. unfold handleIssue.
  rewrite (answer_run _ _ _ _ w p) by (unfold lift; by rewrite Hb). rewrite !bool_decide_false by done. cbn [orb].
  match goal with |- context [append_event _ _ _ _ _ ?k] =>
    destruct (append_event_run kek w t tl EvIssue (issue_payload p) "issues" e k Hr Et Htl Hk) as (w1 & tl' & h & E & Hr1 & Hs & Ea & Em);
      [reflexivity|done|done|] end.
  rewrite E. match goal with |- context [FireWebhooks ?a ?b ?c ?d ?f] =>
    destruct (fire_run a b c d f w1 (pe_locked _ _ (run_persists _ _ Hr1))) as (w' & o & Ef & Hbe & Em') end.
  rewrite (bind_run _ _ _ _ _ Ef). destruct (append_ret _ _ _ _ _ _ Ea) as (sig & priv & _ & _ & _ & Etl' & Eh).
  eexists w', _, tl', _. split; [by rewrite Eh|]. split.
  - by eapply ran_beside.
  - exists o. by rewrite Em', Em.
  - split; reflexivity.
  - by rewrite Etl'.
  - split; [done|]. split; [done|]. by apply issue_payload_reads.
  - intros Hw. by eapply (append_writable tl EvIssue).
Qed.

(** An issuance the gateway answers is recorded: over a store any run of operations reaches, for a live organisation
    that holds its key and a request whose body decodes to a certificate and an identity, the handler answers 201; the
    timeline has exactly one more event, an ISSUE at that time whose payload decodes to the request; the certificate is
    in the trust state unless it was revoked before; a timeline that verifies still does; no other organisation changes;
    and the store is again one the run reaches, so that a restart restores it from its directory. *)
Theorem issue_durable kek w t tl rq e p :
  Ran kek w -> sTenants (mem w) !! tID t = Some t -> tTl t = Some tl -> is_Some (tkey tl) ->
  readJSON decode_issue rq = Ret p -> pCertID p <> ""%string -> pIdentity p <> ""%string ->
  valid_string (pCertID p) -> valid_string (pIdentity p) -> valid_string (pVia p) ->
  in_int64 (now e) -> drawn_file (fileDraw e) ->
  exists w' resp tl' t' ev, handleIssue t rq e w = (w', ROk resp) /\ rsStatus resp = 201 /\ Ran kek w' /\
    sTenants (mem w') = <[tID t := t']> (sTenants (mem w)) /\ tMeta t' = tMeta t /\ tTl t' = Some tl' /\
    events tl' = events tl ++ [ev] /\ EType ev = EvIssue /\ ETimestamp ev = now e /\
    issue_unmarshal (sb (EPayload ev)) = Some p /\
    Certs (Fold tl') !! pCertID p = after_issue p (Certs (Fold tl) !! pCertID p) /\
    (writable tl -> writable tl' /\ good tl').
Proof.
  intros Hr Et Htl Hk Hb Hc Hi Vc Vi Vv Hn Hd.
  destruct (issue_handled kek w t tl rq e p Hr Et Htl Hk Hb Hc Hi Vc Vi Vv Hn Hd)
    as (w' & t' & tl' & ev & E & [Hr' (o & Em) [Hm Htl'] Hev (Hty & Hts & Hp) Hw]).
  eexists w', _, tl', t', ev. split; [exact E|]. split; [done|]. split; [done|]. split; [by rewrite Em|].
  do 6 (split; [done|]). split; [|intros ?; split; [|apply writable_good]; auto].
  unfold Fold. cbn [Certs]. rewrite Hev, fold_certs_snoc, fold_event_lookup. unfold issued.
  rewrite decide_True, Hp by done. by rewrite decide_True.
Qed.

(** ** The watcher *)

Lemma put_beside w id t t' : locked w = false -> sTenants (mem w) !! id = Some t -> tMeta t' = tMeta t -> tTl t' = tTl t ->
  beside w {| mem := put_tenant id t' (mem w); disk := disk w; past := past w; locked := false |}.
Proof.
  intros Hl Et Hm Htl. split; try done; [cbn; by apply (meta_of_same id t)|].
  intros id0 t0. cbn. destruct (decide (id0 = id)) as [->|Hne]; [rewrite lookup_insert_eq|rewrite lookup_insert_ne by done].
  - intros [= <-]. by exists t.
  - intros E0. by exists t0.
Qed.

Lemma append_key tl typ pl ts tl' h : Timeline.Append tl typ pl ts = Ret (tl', h) -> is_Some (tkey tl') /\
  exists e, events tl' = events tl ++ [e] /\ EType e = typ.
Proof. intros E. destruct (append_ret _ _ _ _ _ _ E) as (sig & priv & Hk & _ & _ & -> & _). split; [by exists priv|]. by eexists. Qed.

(** The watcher after one verdict. *)
Record watched (kek : bytes) (id : string) (tl : Timeline) (n : nat) (b : bool) (w' : World) : Prop := {
  wa_ran : Ran kek w';
  wa_tenant : exists t' tl' ds, sTenants (mem w') !! id = Some t' /\ tDetected t' = b /\ tTl t' = Some tl' /\ is_Some (tkey tl') /\
    events tl' = events tl ++ ds /\ length ds = n /\ Forall (fun d => EType d = EvDetected) ds /\ (writable tl -> writable tl');
}.

Lemma watcher_step kek w id t tl v e :
  Ran kek w -> sTenants (mem w) !! id = Some t -> tTl t = Some tl -> is_Some (tkey tl) ->
  in_int64 (now e) -> drawn_file (fileDraw e) ->
  exists w', watcher id v e w = (w', ROk tt) /\
    watched kek id tl (if fvDetected v && negb (tDetected t) then 1 else 0) (fvDetected v) w'.
Proof.
  intros Hr Et Htl [priv Hk] Hn Hd. pose proof (run_persists _ _ Hr) as Hp. pose proof (pe_locked _ _ Hp) as Hl.
  destruct (live_after _ _ _ _ Hp Et) as (Hid & tl0 & Etl & Hs). rewrite Htl in Etl. injection Etl as <-.
  unfold watcher. rewrite (bind_run _ _ w (set_locked true w) tt) by (unfold lock; by rewrite Hl).
  rewrite (bind_run _ _ _ (set_locked true w) (mem w)) by done. rewrite Et. unfold on_verdict.
  destruct (fvDetected v && negb (tDetected t)) eqn:Er.
  - apply andb_true_iff in Er as [Ev _]. unfold deref. rewrite Htl, Ev.
    set (bad := if minBadIndex (fvScores v) <? 0 then zlen (events tl) else minBadIndex (fvScores v)).
    destruct (append_some tl priv EvDetected (Some (detected_payload bad)) (now e) Hk) as (tl' & h & Ea).
    { destruct Hs as (_ & _ & _ & Hkl & _). rewrite Hk in Hkl. exact Hkl. }
    assert (Hs' : storable tl') by (by eapply (append_storable tl EvDetected)).
    destruct (append_key _ _ _ _ _ _ Ea) as (Hk' & ev & Hev & Hty).
    set (t' := bump "events" (bump "detections" (set_detected true (set_tl (Some tl') t)))).
    destruct (save_locked kek w id t t' tl' (fileDraw e) Hr Et eq_refl eq_refl Hs' Hd) as (w1 & Es & Hr1 & Em & Hl1).
    rewrite (bind_run _ _ _ (set_locked true w1) (Some (h, bad))).
    2: { rewrite (bind_run _ _ _ (set_locked true w) tl) by done. cbv zeta. fold bad. unfold Timeline.Append. rewrite Ea. fold t'.
         by rewrite (then_catch _ _ _ _ _ _ _ Es). }
    rewrite (bind_run _ _ _ w1 tt) by (unfold unlock; f_equal; destruct w1; cbn in *; by subst).
    destruct (fire_run (tID t) HookDetected h (JObj [jfield "bad_index" (jint bad)]) (nowHook e) w1 Hl1) as (w' & o & Ef & Hb & Em').
    exists w'. split; [exact Ef|]. split; [by eapply ran_beside|]. exists t', tl', [ev].
    split; [rewrite Em', Em; apply lookup_insert_eq|]. do 5 (split; [done|]). split; [by constructor|].
    intros Hw. by eapply (append_writable tl EvDetected).
  - assert (Hkeep : watched kek id tl 0 (tDetected t) w).
    { split; [done|]. exists t, tl, []. rewrite app_nil_r. do 3 (split; [done|]). split; [by exists priv|]. by split_and!. }
    destruct (fvDetected v) eqn:Ev; cbn [negb].
    + destruct (tDetected t); [|done]. rewrite (bind_run _ _ _ (set_locked true w) None) by done.
      exists w. split; [|done]. rewrite (bind_run _ _ _ w tt); [done|]. unfold unlock. f_equal. destruct w. cbn in *. by subst.
    + set (w1 := {| mem := put_tenant id (set_detected false t) (mem w); disk := disk w; past := past w; locked := false |}).
      rewrite (bind_run _ _ _ (set_locked true w1) None).
      2: { unfold put. change (tID (set_detected false t)) with (tID t). unfold tID. by rewrite Hid. }
      exists w1. split; [done|]. split; [eapply ran_beside; [exact Hr|]; by apply (put_beside w id t)|].
      exists (set_detected false t), tl, []. rewrite app_nil_r. split; [apply lookup_insert_eq|]. do 2 (split; [done|]).
      split; [by exists priv|]. by split_and!.
Qed.

Lemma last_default {A} (l : list A) : forall x d, List.last (x :: l) d = List.last l x.
Proof. induction l as [|y l IH]; intros x d; [done|]. change (List.last (y :: l) d = List.last (y :: l) x). by rewrite !IH. Qed.

(** The rising edges of a sequence of verdicts. *)
Fixpoint edges (b : bool) (vs : list bool) : nat :=
  match vs with
  | [] => 0
  | v :: vs => (if v && negb b then 1 else 0) + edges v vs
  end.


(** ** Recovery *)

(** What [handleRecover] asks of a fork. *)
Record Adoptable (anchor : bytes) (cur fork : Timeline) (fc : FrostCommit) (raw : bytes) : Prop := {
  ad_anchor : length anchor = PublicKeySize;
  ad_handoff : Valid fc anchor quorum = Ret true;
  ad_text : UnmarshalTimeline raw = Ret fork;
  ad_chain : good fork;
  ad_branch : exists idx, branch_point (events fork) = Some idx /\ (idx <= length (events cur))%nat /\
    map Hash (take idx (events cur)) = map Hash (take idx (events fork));
  ad_epoch : lastEpoch (events cur) < lastEpoch (events fork);
}.

Lemma branch_point_lt es idx : branch_point es = Some idx -> (idx < length es)%nat.
Proof.
  revert idx. induction es as [|e es IH]; intros idx; cbn [branch_point length]; [done|].
  destruct (decide (EType e = EvRecovery)); [intros [= <-]; lia|].
  destruct (branch_point es) as [k|]; [|done]. cbn [fmap option_fmap option_map]. intros [= <-]. specialize (IH k eq_refl). lia.
Qed.

Lemma same_prefix_spec n cur fork : (n <= length cur)%nat -> (n <= length fork)%nat ->
  same_prefix n cur fork = true <-> map Hash (take n cur) = map Hash (take n fork).
Proof.
  intros Hc Hf. unfold same_prefix. revert cur fork Hc Hf. induction n as [|n IH]; intros [|a cur] [|b fork] Hc Hf; cbn in *; try done; try lia.
  rewrite andb_true_iff, IH by lia. unfold bytes_equal. rewrite bool_decide_eq_true. split; [intros [-> ->]; done|]. by intros [= -> ->].
Qed.

Lemma check_fork_spec anchor cur fc raw :
  check_fork anchor (Some cur) fc raw <> Panic /\
  forall fork, check_fork anchor (Some cur) fc raw = Ret fork <-> Adoptable (sb anchor) cur fork fc raw.
Proof.
  unfold check_fork, guard. destruct (Nat.eqb_spec (length (sb anchor)) PublicKeySize) as [Ha|Ha]; cbn [negb];
    [|split; [done|]; intros fork; split; [done|by intros []]].
  assert (exists b, Valid fc (sb anchor) quorum = Ret b) as [b Hb].
  { unfold Valid, ed25519_Verify. rewrite Ha, Nat.eqb_refl. destruct (_ || _); by eexists. }
  rewrite Hb. cbn [mbind outcome_bind]. destruct b; cbn [negb]; [|split; [done|]; intros fork; split; [done|intros [? E]; congruence]].
  destruct (UnmarshalTimeline raw) as [fork|err|] eqn:Eu.
  2: { split; [done|]. intros fork. split; [done|intros [? ? E]; congruence]. }
  2: { exfalso. revert Eu. unfold UnmarshalTimeline. destruct (parse raw ≫= _) as [f|]; [|done].
       unfold of_file, guard. repeat case_if; try done; by destruct (algoCodes _). }
  assert (keys_ok fork) as Hk.
  { revert Eu. unfold UnmarshalTimeline. destruct (parse raw ≫= _) as [f|]; [|done]. intros Eu. by apply of_file_keys in Eu as [? _]. }
  destruct (Verify_total fork Hk) as [v Hv]. rewrite Hv. cbn [mbind outcome_bind].
  assert (Hg : v = true <-> good fork) by (rewrite <- (Verify_good fork Hk), Hv; split; [by intros ->|by intros [= ->]]).
  destruct v; cbn [negb]; [|split; [done|]; intros f; split; [done|intros [? ? E Hgo]; rewrite Eu in E; injection E as <-; by apply Hg in Hgo]].
  unfold Events. destruct (branch_point (events fork)) as [idx|] eqn:Ei;
    [|split; [done|]; intros f; split; [done|intros [? ? E _ (? & ? & _)]; rewrite Eu in E; injection E as <-; congruence]].
  destruct (Nat.ltb_spec (length (events cur)) idx) as [Hi|Hi];
    [split; [done|]; intros f; split; [done|intros [? ? E _ (i & E' & ? & _)]; rewrite Eu in E; injection E as <-; rewrite Ei in E'; injection E' as <-; lia]|].
  pose proof (same_prefix_spec idx (events cur) (events fork) Hi ltac:(apply branch_point_lt in Ei; lia)) as Hsp.
  destruct (same_prefix idx (events cur) (events fork)); cbn [negb];
    [|split; [done|]; intros f; split; [done|intros [? ? E _ (i & E' & ? & Hm)]; rewrite Eu in E; injection E as <-; rewrite Ei in E'; injection E' as <-; by apply Hsp in Hm]].
  destruct (Z.leb_spec (lastEpoch (events fork)) (lastEpoch (events cur))) as [He|He];
    [split; [done|]; intros f; split; [done|intros [? ? E]; rewrite Eu in E; injection E as <-; lia]|].
  split; [done|]. intros f. split.
  - intros [= <-]. split; try done; [by apply Hg|]. exists idx. split_and!; try done. by apply Hsp.
  - intros [? ? E]. congruence.
Qed.

Lemma recover_decoded t rq e fc raw w : readJSON decode_recover rq = Ret {| rrTimelineRaw := raw; rrHandoff := Some fc |} -> raw <> [] ->
  handleRecover t rq e w = (r ← recover_locked t fc raw e;
      match r with
      | inr resp => mret resp
      | inl fork =>
          FireWebhooks (tID t) HookRecovery (sb (Head fork))
            (JObj [jfield "epoch" (jint (fcEpoch fc)); jfield "issued" (jint (zlen (fcMembers fc)))]) (nowHook e);;
          mret (writeJSON 200 (JObj [jfield "epoch" (jint (fcEpoch fc)); jfield "head" (jhex (sb (Head fork)));
            jfield "issued" (jint (zlen (fcMembers fc))); jfield "org" (jstring (tID t))]))
      end) w.
Proof.
  intros Hb Hraw. unfold handleRecover. rewrite (answer_run _ _ _ _ w _) by (unfold lift; rewrite Hb; reflexivity).
  cbn [rrHandoff rrTimelineRaw]. by destruct raw.
Qed.

Lemma recover_adopted kek w t cur rq e fc raw fork :
  Ran kek w -> sTenants (mem w) !! tID t = Some t -> tTl t = Some cur ->
  readJSON decode_recover rq = Ret {| rrTimelineRaw := raw; rrHandoff := Some fc |} -> raw <> [] -> drawn_file (fileDraw e) ->
  Adoptable (sb (sCouncilPub (mem w))) cur fork fc raw -> storable fork ->
  exists w' resp, handleRecover t rq e w = (w', ROk resp) /\ rsStatus resp = 200 /\ Ran kek w' /\
      sTenants (mem w') = <[tID t := adopt_fork t fork]> (sTenants (mem w)).
Proof.
  intros Hr Et Htl Hb Hraw Hd Ha Hs. pose proof (run_persists _ _ Hr) as Hp.
  destruct (check_fork_spec (sCouncilPub (mem w)) cur fc raw) as [_ Hspec]. apply Hspec in Ha.
  destruct (save_locked kek w (tID t) t (adopt_fork t fork) fork (fileDraw e) Hr Et eq_refl eq_refl Hs Hd) as (w1 & Es & Hr1 & Em & Hl1).
  destruct (fire_run (tID t) HookRecovery (sb (Head fork)) (JObj [jfield "epoch" (jint (fcEpoch fc)); jfield "issued" (jint (zlen (fcMembers fc)))])
    (nowHook e) w1 Hl1) as (w' & o & Ef & Hbe & Em').
  eexists w', (writeJSON 200 _). split; [|split; [reflexivity|split; [by eapply ran_beside|by rewrite Em', Em]]].
  rewrite (recover_decoded t rq e fc raw w Hb Hraw). rewrite (bind_run _ _ w w1 (inl fork)).
  - by rewrite (bind_run _ _ _ _ _ Ef).
  - unfold recover_locked. assert (w1 = set_locked false (set_locked true w1)) as Hw1 by (destruct w1; cbn in *; by subst).
    rewrite Hw1 at 1. apply with_lock_run; [apply (pe_locked _ _ Hp)|].
    rewrite (bind_run _ _ _ (set_locked true w) (mem w)) by done. rewrite Htl.
    rewrite (catch_run _ _ _ (set_locked true w) fork (set_locked true w)) by (unfold lift; by rewrite Ha).
    cbv zeta. by rewrite (then_catch _ _ _ _ _ _ _ Es).
Qed.



(** ** The trusted head of a log *)

Lemma observe_grows g t0 sth proof from node al :
  trusted g = Some t0 -> Observe g (Some sth) proof from = Ret (node, true, al) -> TreeSize t0 < TreeSize sth ->
  STH_Verify (Some sth) (gpub g) = Ret true /\
  (TreeSize t0 = 0 \/ (from = TreeSize t0 /\ VerifyConsistency (SRoot t0) (SRoot sth) (TreeSize t0) (TreeSize sth) proof = true)).
Proof.
  intros Ht. unfold Observe. cbn [set_alarm gpub trusted]. destruct (STH_Verify (Some sth) (gpub g)) as [ok| |]; [|done..].
  cbn [mbind outcome_bind]. destruct ok; cbn [negb]; [|done]. rewrite Ht. intros E Hlt. split; [done|]. revert E.
  destruct (Z.eqb_spec (TreeSize t0) 0); [by left|]. right. revert E.
  destruct (Z.ltb_spec (TreeSize sth) (TreeSize t0)); [lia|]. destruct (Z.eqb_spec (TreeSize sth) (TreeSize t0)); [lia|].
  destruct (Z.eqb_spec from (TreeSize t0)); cbn [negb]; [|done]. by destruct (VerifyConsistency _ _ _ _ _).
Qed.

(** The head the gateway trusts of an organisation's log only moves forward: whatever is gossiped, a request that is
    answered leaves its size no smaller, and when it grows it is to a head the log key signed which the gateway checked to
    extend the one it trusted (unless it trusted none); every other field of the organisation, and the directory, stay. *)
Theorem gossip_forward t rq w w' resp :
  sTenants (mem w) !! tID t = Some t -> handleCTGossip t rq w = (w', ROk resp) ->
  disk w' = disk w /\ exists t', sTenants (mem w') = <[tID t := t']> (sTenants (mem w)) /\
    t' = set_ct (tCtSize t') (tCtRoot t') t /\ tCtSize t <= tCtSize t' /\
    (t' = t \/ exists sth proof key, logKey (mem w) = Ret key /\ STH_Verify (Some sth) (pub_of key) = Ret true /\
       tCtSize t' = TreeSize sth /\ sb (tCtRoot t') = SRoot sth /\
       (tCtSize t = 0 \/ VerifyConsistency (sb (tCtRoot t)) (SRoot sth) (tCtSize t) (TreeSize sth) proof = true)).
Proof.
  intros Et. assert (Hsame : disk w = disk w /\ exists t', sTenants (mem w) = <[tID t := t']> (sTenants (mem w)) /\
    t' = set_ct (tCtSize t') (tCtRoot t') t /\ tCtSize t <= tCtSize t' /\ (t' = t \/ exists sth proof key, logKey (mem w) = Ret key /\
      STH_Verify (Some sth) (pub_of key) = Ret true /\ tCtSize t' = TreeSize sth /\ sb (tCtRoot t') = SRoot sth /\
      (tCtSize t = 0 \/ VerifyConsistency (sb (tCtRoot t)) (SRoot sth) (tCtSize t) (TreeSize sth) proof = true))).
  { split; [done|]. exists t. split; [by rewrite insert_id|]. split; [by destruct t|]. split; [lia|by left]. }
  unfold handleCTGossip. destruct (decode_first decode_gossip (rqBody rq)) as [g|]; [|by intros [= <- _]].
  destruct (mapM _ (grProof g)) as [proof|]; [|by intros [= <- _]]. clear Hsame.
  intros E. run_ok. match goal with H : ctLogPub _ = Ret ?p |- _ => rename H into Hpub; rename p into pub end.
  match goal with H : Observe _ _ _ _ = Ret ?o |- _ => destruct o as [[node acc] al]; rename H into Hobs end.
  run_ok. unfold put in *. run_ok. cbn [mem disk]. split; [done|].
  assert (Hid : tID (adopt_head acc {| TreeSize := grSize g; Timestamp := grTime g; SRoot := sb (grRoot g); Signature := sb (grSig g) |} (grRoot g) t) = tID t)
    by (unfold adopt_head; by case_match).
  rewrite Hid. eexists. split; [reflexivity|]. unfold adopt_head.
  destruct (acc && _) eqn:Ea; [|split; [by destruct t|]; split; [lia|by left]].
  apply andb_true_iff in Ea as [-> Hgt%Z.gtb_lt]. cbn [TreeSize] in *. split; [done|]. cbn [set_ct tenant_with tCtSize tCtRoot]. split; [lia|]. right.
  unfold ctLogPub in Hpub. match type of Hpub with context [logKey ?s] => destruct (logKey s) as [key| |] eqn:Ek end; [|done..]. cbn [mbind outcome_bind] in Hpub. injection Hpub as <-.
  destruct (observe_grows (NewGossipNode (pub_of key) (Some (stale_head t))) (stale_head t) _ proof (grFrom g) node al eq_refl Hobs Hgt) as [Hv Hc].
  eexists _, proof, key. split; [done|]. split; [exact Hv|]. split; [done|]. split; [done|].
  destruct Hc as [Hc|[_ Hc]]; [by left|by right].
Qed.

End durable.
