(* ===== verification/GatewayFlaws.v ===== *)
(** * Where the REST surface falls short

    Theorems about the same definitions: a recovery that no council signed, a
    request that stops the gateway, and actions shown outside a user's scope. *)
From Stdlib Require Import SpecFloat.
From S2P Require Import Prelude Crypto Encoding Json Float Timeline TimelineTheory TimelineFile.
From S2P Require Import Graph TrustState Watchdog Merkle Gossip Shamir Frost Council Recovery Pq.
From S2P Require Import Vault Auth Ratelimit Transport CouncilNet CouncilNetTheory Fleet Store StoreTheory Webhooks Gateway.
From S2P Require Import GatewayTheory.

(** ** A fork under one's own keys *)

Section hijack.
Context `{HashLaws} {ED : Ed25519} {EL : Ed25519Laws}.

Definition own_event (key : bytes) (typ : string) (payload : bytes) (par : slice) : TrustEvent :=
  {| EType := typ; ETimestamp := 0; EPayload := Some payload; EParentHash := par;
     ESignature := Some (ed_sign key (canonical {| EType := typ; ETimestamp := 0; EPayload := Some payload; EParentHash := par;
                                                   ESignature := None |})) |}.

(** A handoff to [rk] signed with [ck] alone, for the start of a chain. *)
Definition unsigned_handoff (rk : bytes) : FrostCommit :=
  {| fcEpoch := 0; fcCheckpoint := None; fcPrev := 0; fcNewPub := Some (pub_of rk); fcPayload := None; fcSig := None;
     fcMembers := ["m"%string] |}.
Definition own_handoff (ck rk : bytes) : FrostCommit :=
  {| fcEpoch := 0; fcCheckpoint := None; fcPrev := 0; fcNewPub := Some (pub_of rk); fcPayload := None;
     fcSig := Some (ed_sign ck (descriptor (unsigned_handoff rk))); fcMembers := ["m"%string] |}.

Definition epoch_payload (n : Z) : bytes := print (JObj [jfield "epoch" (jint n)]).
Definition hijack (ck rk : bytes) (n : Z) : Timeline :=
  let e0 := own_event rk EvRecovery (print (fc_json (own_handoff ck rk))) None in
  let e1 := own_event rk EvCommit (epoch_payload n) (Some (hashWith algoSHA256 (signedBytes e0))) in
  {| events := [e0; e1]; tkey := Some rk; tpub := pub_of rk; tstart := Some (pub_of rk); councilPub := Some (pub_of ck);
     rotations := []; algo := algoSHA256 |}.

Lemma own_signed rk typ payload par : real_key rk -> Signed (pub_of rk) (own_event rk typ payload par).
Proof. intros Hk. by apply (signed_event rk typ (Some payload) 0 par). Qed.

Lemma hijack_good ck rk n : real_key ck -> real_key rk -> good (hijack ck rk n).
Proof.
  intros Hc Hr. exists (pub_of rk). unfold hijack. cbn [councilPub algo startPub tstart events].
  eapply chain_cons; [|eapply chain_cons; [|apply chain_nil]].
  - apply accept_recover with (newPub := pub_of rk); [done|done| |by apply own_signed].
    exists (own_handoff ck rk). split.
    { cbn [own_event EPayload sb default from_option id]. apply fc_roundtrip; [done..|]. by apply Forall_singleton. }
    split; [done|]. split; [done|]. split; [apply pub_of_length|]. split; [apply pub_of_length|]. split; [|done].
    by apply (ed_sign_verify ck (descriptor (unsigned_handoff rk))).
  - apply accept_plain; [done|done|done|by apply own_signed].
Qed.

Lemma hijack_storable ck rk n : real_key ck -> real_key rk -> storable (hijack ck rk n).
Proof.
  intros Hc Hr. split_and!; cbn; try apply pub_of_length; [by apply real_key_length|].
  repeat (apply Forall_cons; split); [..|by apply Forall_nil]; by split.
Qed.

Lemma epoch_payload_reads n : in_int64 n -> epoch_unmarshal (epoch_payload n) = Some n.
Proof.
  intros Hi. unfold epoch_unmarshal, epoch_payload. rewrite parse_print.
  - assert (norm (JObj [jfield "epoch" (jint n)]) = JObj [jfield "epoch" (jint n)]) as ->.
    { unfold jfield. cbn [norm map fst snd]. by rewrite coerce_name, norm_jint. }
    cbn [mbind option_bind]. rewrite decode_struct_obj. cbn [foldl]. unfold decode_member, jfield. cbn [fst snd].
    change (resolve ["epoch"%string] (to_bytes "epoch")) with (Some "epoch"%string). cbv iota.
    by rewrite decode_jint by done.
  - split; [apply (wf_jint n)|done].
  - pose proof nesting_room. cbn. lia.
Qed.

Lemma hijack_epoch ck rk n : 0 < n -> in_int64 n -> lastEpoch (events (hijack ck rk n)) = n.
Proof.
  intros Hn Hi. unfold lastEpoch, hijack. cbn [events foldl]. unfold epoch_step at 2.
  rewrite decide_False by done. unfold epoch_step. rewrite decide_True by done.
  cbn [own_event EPayload sb default from_option id]. rewrite epoch_payload_reads by done. by destruct (Z.gtb_spec n 0); [|lia].
Qed.
End hijack.

Section flaws.
Context `{HashLaws} {ED : Ed25519} {EL : Ed25519Laws} `{SymmetricLaws} `{MetaTextLaws} `{FloatText} `{UrlText}.

Lemma hijack_adoptable anchor cur fc ck rk :
  length anchor = PublicKeySize -> Valid fc anchor quorum = Ret true -> real_key ck -> real_key rk ->
  lastEpoch (events cur) < 2 ^ 63 - 1 ->
  let fork := hijack ck rk (lastEpoch (events cur) + 1) in
  Adoptable anchor cur fork fc (Marshal fork true) /\ storable fork.
Proof.
  intros Ha Hv Hc Hk He fork. assert (storable fork) as Hs by (by apply hijack_storable). split; [|done]. split; try done.
  - rewrite stored_file by done. done.
  - by apply hijack_good.
  - exists 0%nat. split; [done|]. split; [lia|done].
  - pose proof (lastEpoch_nonneg (events cur)). unfold fork. rewrite hijack_epoch by (unfold in_int64; lia). lia.
Qed.

(** C14. The handoff a recovery request shows need not be the one in its fork: the gateway checks the request's handoff
    against the council's key, but the fork only against the council key the fork itself names.  So whoever may call
    the route and knows any handoff the council ever signed - they are on every recovered timeline - gets a timeline
    adopted that holds two events signed with keys of its own choice, shares nothing with the organisation's, names its
    own council and carries its own root key.  [ck] and [rk] are any two key pairs. *)
Theorem recover_hijack kek w t cur rq e fc ck rk :
  Ran kek w -> sTenants (mem w) !! tID t = Some t -> tTl t = Some cur ->
  length (sb (sCouncilPub (mem w))) = PublicKeySize -> Valid fc (sb (sCouncilPub (mem w))) quorum = Ret true ->
  real_key ck -> real_key rk -> lastEpoch (events cur) < 2 ^ 63 - 1 -> drawn_file (fileDraw e) ->
  let fork := hijack ck rk (lastEpoch (events cur) + 1) in
  readJSON decode_recover rq = Ret {| rrTimelineRaw := Marshal fork true; rrHandoff := Some fc |} ->
  exists w' resp t', handleRecover t rq e w = (w', ROk resp) /\ rsStatus resp = 200 /\
    sTenants (mem w') !! tID t = Some t' /\ tTl t' = Some fork /\
    councilPub fork = Some (pub_of ck) /\ tkey fork = Some rk /\ length (events fork) = 2%nat.
Proof.
  intros Hr Et Htl Ha Hv Hc Hk He Hd fork Hb. destruct (hijack_adoptable _ cur fc ck rk Ha Hv Hc Hk He) as [Had Hs].
  destruct (recover_adopted kek w t cur rq e fc (Marshal fork true) fork Hr Et Htl Hb) as (w' & resp & E & Hst & _ & Et'); [done..|].
  exists w', resp, (adopt_fork t fork). split; [done|]. split; [done|]. split; [rewrite Et'; apply lookup_insert_eq|].
    by split_and!.
Qed.

(** ** A mutex left locked *)

(** Requests that reach the timeline between a lock and an unlock that is not deferred. *)
Definition touches_timeline (r : Route) (rq : Request) : Prop :=
  r = RCTSTH \/ r = RCTProof \/
  (r = RIssue /\ exists p, readJSON decode_issue rq = Ret p /\ pCertID p <> ""%string /\ pIdentity p <> ""%string) \/
  (r = RRevoke /\ exists c, readJSON decode_revoke rq = Ret c /\ c <> ""%string).

Lemma locked_deref {A} t (k : Timeline -> M A) w : locked w = false -> tTl t = None ->
  (lock;; (tl ← deref t; k tl)) w = (set_locked true w, RPanic).
Proof. intros Hl Ht. rewrite (bind_run _ _ w (set_locked true w) tt) by (unfold lock; by rewrite Hl). unfold deref. by rewrite Ht. Qed.

Lemma touch_panics r rq t e w : touches_timeline r rq -> locked w = false -> tTl t = None ->
  on_org r rq t e w = (set_locked true w, RPanic).
Proof.
  assert (Hm : forall w, locked w = false -> tTl t = None -> locked_log t w = (set_locked true w, RPanic)).
  { intros w0 Hl Ht. unfold locked_log. by apply locked_deref. }
  intros Hr Hl Ht. destruct Hr as [->|[->|[(-> & p & Hb & Hc & Hi)|(-> & c & Hb & Hc)]]]; cbn [on_org].
  - unfold handleCTSTH, mbind at 1, M_bind. by rewrite Hm.
  - unfold handleCTProof, mbind at 1, M_bind. by rewrite Hm.
  - unfold handleIssue. rewrite (answer_run _ _ _ _ w p) by (unfold lift; by rewrite Hb). rewrite !bool_decide_false by done.
    cbn [orb]. unfold append_event. by apply locked_deref.
  - unfold handleRevoke. rewrite (answer_run _ _ _ _ w c) by (unfold lift; by rewrite Hb). rewrite bool_decide_false by done.
    unfold append_event. by apply locked_deref.
Qed.

Lemma authenticate_blocked order auth w raw : locked w = true -> BearerToken auth = Ret raw ->
  authenticate order auth w = (w, RBlocked).
Proof.
  intros Hl Hb. unfold authenticate. rewrite (bind_run _ _ w w raw) by (unfold lift; by rewrite Hb). by apply with_lock_blocked.
Qed.

(** C40. One request stops the gateway: on an organisation whose timeline waits for the vault - every one, after a restart
    that is not yet unlocked - a request by any user let in for its tree head or a proof (a viewer will do), or to issue
    or revoke, panics between [mu.Lock] and [mu.Unlock].  The middleware recovers the panic but nothing unlocks: that
    request blocks in its own audit, and from then on so does every other request with a well-formed token, and the
    unlocking of the vault itself. *)
Theorem deferred_deadlock r rq e w u hash t :
  admitted r rq e w u hash -> touches_timeline r rq -> sTenants (mem w) !! rqOrg rq = Some t -> tTl t = None ->
  idemKey r rq u = ""%string \/ sIdem (mem w) !! idemKey r rq u = None ->
  exists w', serve_request r rq e w = (w', RBlocked) /\ locked w' = true /\
    (forall r' rq' e' raw, r' <> RHealth -> BearerToken (rqAuth rq') = Ret raw -> serve_request r' rq' e' w' = (w', RBlocked)) /\
    (forall shares kek dek nonce o o' ds, JoinKEK shares = Ret kek -> UnlockVault shares dek nonce o o' ds w' = (w', RBlocked)).
Proof.
  intros Ha Ht Et Htl Hkey. pose proof (ad_free _ _ _ _ _ _ Ha) as Hl. exists (set_locked true (paid hash (nowLimit e) w)).
  split; [|split; [done|split]].
  - rewrite (serve_admitted _ _ _ _ _ _ Ha). unfold respond. cbv zeta.
    assert (Hs : scoped r = true) by (destruct Ht as [->|[->|[[-> _]|[-> _]]]]; done).
    set (pw := paid hash (nowLimit e) w). assert (Hlp : locked pw = false) by exact Hl.
    rewrite (bind_run _ _ pw pw None).
    2: { case_bool_decide as Hk; [done|]. destruct Hkey as [|Hc]; [done|]. unfold idemLookup.
      assert (pw = set_locked false (set_locked true pw)) as Hw by (destruct pw; cbn in *; by subst).
      rewrite Hw at 2. apply with_lock_run; [done|]. rewrite (bind_run _ _ _ (set_locked true pw) (mem pw)) by done.
      change (sIdem (mem pw)) with (sIdem (mem w)). by rewrite Hc. }
    rewrite (bind_run _ _ pw (set_locked true pw) (writeErr 500 "panic: %v")).
    2: { unfold recovered, handler_of. rewrite Hs, Et. by rewrite (touch_panics r rq t e pw Ht Hlp Htl). }
    unfold idemStore. case_bool_decide as Hk.
    + rewrite (bind_run _ _ _ (set_locked true pw) tt) by done. apply bind_stop. by apply with_lock_blocked.
    + apply bind_stop. by apply with_lock_blocked.
  - intros r' rq' e' raw Hr' Hb. rewrite serve_authenticated by done. unfold answer, catch.
    by rewrite (authenticate_blocked _ _ _ raw).
  - intros shares kek dek nonce o o' ds Ej. unfold UnlockVault. rewrite Ej. by apply with_lock_blocked.
Qed.

(** ** Actions outside the scope *)

(** The search of actions is not scoped unless it names an organisation: a user restricted to other organisations
    that asks for [source=actions] without one is answered every entry of the ring, [org]'s included - while asking for
    [org] by name is refused, and the search of events only visits the organisations in scope. *)
Theorem audit_unscoped u rq e w org a :
  locked w = false -> inOrg u org = false -> org <> ""%string -> a ∈ sAudit (mem w) -> aeOrg a = org ->
  rqQuery rq = [("source", "actions")]%string ->
  (exists es, handleAudit u rq e w = (w, ROk (writeJSON 200 (JObj [jfield "actions" (jarr_nil (map audit_json es))]))) /\ a ∈ es) /\
  handleAudit u {| rqMethod := rqMethod rq; rqPath := rqPath rq; rqAuth := rqAuth rq; rqIdem := rqIdem rq; rqOrg := rqOrg rq;
    rqID := rqID rq; rqQuery := [("source", "actions"); ("org", org)]%string; rqBody := rqBody rq |} e w =
    (w, ROk (writeErr 403 "not scoped to that org")).
Proof.
  intros Hl Hi Hne Ha Ho Hq. split.
  - assert (Hno : forall k, k <> "source"%string -> q_get rq k = ""%string).
    { intros k Hk. unfold q_get. rewrite Hq. cbn [List.find fst]. by rewrite bool_decide_false. }
    assert (Hsrc : q_get rq "source" = "actions"%string) by (unfold q_get; by rewrite Hq).
    unfold handleAudit, qint. rewrite Hsrc, !Hno by done. rewrite !bool_decide_true by done. cbn [negb andb]. cbv iota zeta.
    exists (sAudit (mem w)). split; [|done].
    assert (List.filter (audit_match "" "" "" 0 0) (sAudit (mem w)) = sAudit (mem w)) as Hf.
    { clear. induction (sAudit (mem w)) as [|x l IH]; [done|]. cbn [List.filter]. by rewrite IH. }
    rewrite (bind_run _ _ w w (sAudit (mem w))); [done|]. unfold SearchAudit.
    assert (w = set_locked false (set_locked true w)) as Hw by (destruct w; cbn in *; by subst).
    rewrite Hw at 2. apply with_lock_run; [done|]. rewrite (bind_run _ _ _ (set_locked true w) (mem w)) by done.
    unfold mret, M_ret. f_equal. f_equal. exact Hf.
  - unfold handleAudit. set (rq' := Build_Request _ _ _ _ _ _ _ _).
    assert (Hsrc : q_get rq' "source" = "actions"%string) by done. assert (Horg : q_get rq' "org" = org) by done.
    rewrite Hsrc, Horg. rewrite bool_decide_true by done. rewrite bool_decide_false by done. by rewrite Hi.
Qed.

End flaws.

(** ** Witnesses *)

Module ToyGateway.
#[global] Instance url_text : UrlText := {| parse_url u := Some ("https"%string, "ops.example"%string) |}.

Definition raw (b : byte) : string := of_bytes (hex_encode [b; b]).
Definition user (id : string) (b : byte) : User :=
  {| uID := id; uRole := RoleOperator; uOrgs := ["acme"%string]; uTokens := [tokenHash (raw b)]; uTokenOrgs := ∅ |}.
Definition ann : User := user "ann" Byte.x01.
Definition bob : User := user "bob" Byte.x02.
Definition env : Env :=
  {| nowLimit := 5; nowLookup := 100; now := 100; nowHook := 100; nowSeen := (7, 8); nowStore := 100; nowAudit := 100;
     draw := None; nonce := None; fileDraw := ToyStore.draws "acme"; tenantDraws := ToyStore.draws; orders := fun l => l;
     raws := fun l => l |}.
Definition request (m path : string) (tok : byte) (body : bytes) (q : list (string * string)) : Request :=
  {| rqMethod := m; rqPath := path; rqAuth := "Bearer " ++ raw tok; rqIdem := "k1"; rqOrg := "acme"; rqID := ""; rqQuery := q;
     rqBody := body |}.

(** A store in memory: two operators, and an organisation without a timeline. *)
Definition meta : TenantMeta := {| tmID := "acme"; tmName := "Acme"; tmCreated := 1; tmKeyHash := "" |}.
Definition acme : Tenant := live_tenant meta None.
Definition foreign : AuditEntry :=
  {| aeTs := 1; aeUser := "eve"; aeOrg := "beta"; aeMethod := "POST"; aePath := "/v1/orgs/beta/issue"; aeStatus := 201; aeDetails := "" |}.
Definition store : Store :=
  set_audit [foreign] (set_keys [] (Some (replicate 32 Byte.x08)) (set_tenants {["acme"%string := acme]}
    (set_users (<["ann"%string := ann]> {["bob"%string := bob]}) emptyStore))).
Definition world : World := {| mem := store; disk := emptyDisk; past := []; locked := false |}.

Definition score_body : bytes :=
  print (JObj [jfield "node_id" (jstring "W1"); jfield "score" (JNum (to_bytes "30")); jfield "p_value" (JNum (to_bytes "1"))]).
Definition scores (tok : byte) : Request := request "POST" "/v1/orgs/acme/scores" tok score_body [].
Definition served : World := fst (serve_request RScores (scores Byte.x01) env world).
Definition answered : Response :=
  match snd (serve_request RScores (scores Byte.x01) env world) with ROk r => r | _ => writeErr 0 "" end.

Lemma first_served : serve_request RScores (scores Byte.x01) env world = (served, ROk answered).
Proof.
  unfold served, answered. rewrite (surjective_pairing (serve_request RScores (scores Byte.x01) env world)) at 1. f_equal.
Qed.

Lemma ann_admitted : admitted RScores (scores Byte.x01) env world ann (tokenHash (raw Byte.x01)).
Proof.
  split; [discriminate|reflexivity|vm_compute; reflexivity|reflexivity|vm_compute; reflexivity|].
  intros _. split; [eexists; vm_compute; reflexivity|]. split; vm_compute; reflexivity.
Qed.
Lemma bob_admitted : admitted RScores (scores Byte.x02) env served bob (tokenHash (raw Byte.x02)).
Proof.
  split; [discriminate|vm_compute; reflexivity|vm_compute; reflexivity|reflexivity|vm_compute; reflexivity|].
  intros _. split; [eexists; vm_compute; reflexivity|]. split; vm_compute; reflexivity.
Qed.
End ToyGateway.



Lemma deferred_deadlock_witness : exists w',
  serve_request RCTSTH (ToyGateway.request "GET" "/v1/orgs/acme/ct/sth" Byte.x01 [] []) ToyGateway.env ToyGateway.world = (w', RBlocked) /\
  locked w' = true.
Proof.
  destruct (deferred_deadlock RCTSTH (ToyGateway.request "GET" "/v1/orgs/acme/ct/sth" Byte.x01 [] []) ToyGateway.env ToyGateway.world
    ToyGateway.ann (tokenHash (ToyGateway.raw Byte.x01)) ToyGateway.acme) as (w' & E & Hl & _).
  - split; [discriminate|reflexivity|vm_compute; reflexivity|reflexivity|vm_compute; reflexivity|].
    intros _. split; [eexists; vm_compute; reflexivity|]. split; vm_compute; reflexivity.
  - left. reflexivity.
  - vm_compute. reflexivity.
  - reflexivity.
  - left. reflexivity.
  - exists w'. split; [exact E|exact Hl].
Defined.

Lemma audit_unscoped_witness : exists es,
  handleAudit ToyGateway.ann (ToyGateway.request "GET" "/v1/audit" Byte.x01 [] [("source", "actions")]%string) ToyGateway.env ToyGateway.world =
    (ToyGateway.world, ROk (writeJSON 200 (JObj [jfield "actions" (jarr_nil (map audit_json es))]))) /\ ToyGateway.foreign ∈ es.
Proof.
  apply (audit_unscoped ToyGateway.ann (ToyGateway.request "GET" "/v1/audit" Byte.x01 [] [("source", "actions")]%string) ToyGateway.env
    ToyGateway.world "beta" ToyGateway.foreign).
  - reflexivity.
  - vm_compute. reflexivity.
  - discriminate.
  - left.
  - reflexivity.
  - reflexivity.
Defined.

(** An organisation in a store that ran. *)
Module ToyRun.
Definition tl : Timeline := match NewTimeline (Some (Toy.key 1)) with Ret tl => tl | _ => ToyBundle.tl end.
Definition t : Tenant :=
  live_tenant {| tmID := "acme"; tmName := "Acme"; tmCreated := 1700000000; tmKeyHash := sha256Hex (take 32 (Toy.key 1)) |} (Some tl).
Lemma there : sTenants (mem ToyStore.w1) !! "acme"%string = Some t.
Proof. reflexivity. Qed.
Lemma has_key : is_Some (tkey tl).
Proof. eexists. reflexivity. Qed.

Definition issue_body : bytes := print (JObj [jfield "cert_id" (jstring "c1"); jfield "identity" (jstring "alice")]).
Definition issue : Request := ToyGateway.request "POST" "/v1/orgs/acme/issue" Byte.x01 issue_body [].
Definition payload : issuePayload := {| pCertID := "c1"; pIdentity := "alice"; pVia := "" |}.

Definition verdict (b : bool) : FleetVerdict * Env :=
  ({| fvDetected := b; fvCount := 3; fvTotal := 3; fvScores := [] |}, ToyGateway.env).

(** The same store under the council's key, and a handoff the council signed. *)
Definition anchored : World := fst (set_anchor (pub_of (Toy.key 9)) ToyStore.w1).
Lemma anchored_ran : Ran wkek anchored.
Proof. apply (ran_anchor wkek ToyStore.w1 (pub_of (Toy.key 9))); [apply ToyStore.w1_ran|]. unfold anchored. reflexivity. Qed.
Lemma anchored_there : sTenants (mem anchored) !! "acme"%string = Some t.
Proof. reflexivity. Qed.
Lemma anchored_key : sCouncilPub (mem anchored) = Some (pub_of (Toy.key 9)).
Proof. reflexivity. Qed.
Definition old_handoff (sig : slice) : FrostCommit :=
  {| fcEpoch := 1; fcCheckpoint := Some (replicate 32 Byte.x01); fcPrev := 0; fcNewPub := Some (replicate 32 Byte.x02);
     fcPayload := None; fcSig := sig; fcMembers := ["m1"; "m2"; "m3"]%string |}.
Definition signed_handoff : FrostCommit := old_handoff (Some (Toy.sign (Toy.key 9) (descriptor (old_handoff None)))).
Definition fork : Timeline := hijack (Toy.key 7) (Toy.key 8) 1.
Definition recover_body : bytes :=
  print (JObj [jfield "timeline" (file_json (to_file fork true)); jfield "commit" (fc_json signed_handoff)]).
Definition recover : Request := ToyGateway.request "POST" "/v1/orgs/acme/recover" Byte.x01 recover_body [].
Lemma decoded : readJSON decode_recover recover = Ret {| rrTimelineRaw := Marshal fork true; rrHandoff := Some signed_handoff |}.
Proof. vm_compute. reflexivity. Qed.

(** A tree head gossiped to the store of [ToyGateway]. *)
Definition log_key : bytes := Toy.keygen (replicate 32 Byte.x08).
Definition sth : SignedTreeHead :=
  match SignSTH (Some log_key) (replicate 32 Byte.x05) 3 50 with Ret s => s | _ => stale_head t end.
Definition gossip : Request :=
  ToyGateway.request "POST" "/v1/orgs/acme/ct/gossip" Byte.x01
    (print (JObj [jfield "tree_size" (jint 3); jfield "timestamp" (jint 50); jfield "root_b64" (jslice (Some (SRoot sth)));
                  jfield "signature_b64" (jslice (Some (Signature sth)))])) [].
Definition gossiped : World := fst (handleCTGossip ToyGateway.acme gossip ToyGateway.world).
Definition told : Response := match snd (handleCTGossip ToyGateway.acme gossip ToyGateway.world) with ROk r => r | _ => writeErr 0 "" end.
Lemma gossip_served : handleCTGossip ToyGateway.acme gossip ToyGateway.world = (gossiped, ROk told).
Proof.
  unfold gossiped, told. rewrite (surjective_pairing (handleCTGossip ToyGateway.acme gossip ToyGateway.world)) at 1. f_equal.
Qed.
End ToyRun.

Lemma issue_durable_witness : exists w' resp,
  handleIssue ToyRun.t ToyRun.issue ToyGateway.env ToyStore.w1 = (w', ROk resp) /\ rsStatus resp = 201 /\ Ran wkek w'.
Proof.
  destruct (issue_durable wkek ToyStore.w1 ToyRun.t ToyRun.tl ToyRun.issue ToyGateway.env ToyRun.payload (ToyStore.w1_ran wkek) ToyRun.there
    eq_refl ToyRun.has_key) as (w' & resp & tl' & t' & ev & E & Hs & Hr & _).
  - vm_compute. reflexivity.
  - discriminate.
  - discriminate.
  - reflexivity.
  - reflexivity.
  - reflexivity.
  - vm_compute. split; [discriminate|reflexivity].
  - apply ToyStore.draws_ok.
  - exists w', resp. split; [exact E|]. split; [exact Hs|exact Hr].
Defined.



Lemma recover_hijack_witness : exists w' resp t',
  handleRecover ToyRun.t ToyRun.recover ToyGateway.env ToyRun.anchored = (w', ROk resp) /\ rsStatus resp = 200 /\
  sTenants (mem w') !! "acme"%string = Some t' /\ tTl t' = Some ToyRun.fork.
Proof.
  destruct (recover_hijack wkek ToyRun.anchored ToyRun.t ToyRun.tl ToyRun.recover ToyGateway.env ToyRun.signed_handoff (Toy.key 7) (Toy.key 8)
    ToyRun.anchored_ran ToyRun.anchored_there eq_refl) as (w' & resp & t' & E & Hs & Et & Htl & _).
  - rewrite ToyRun.anchored_key. reflexivity.
  - rewrite ToyRun.anchored_key. vm_compute. reflexivity.
  - apply Toy.real_toy_key.
  - apply Toy.real_toy_key.
  - vm_compute. reflexivity.
  - apply ToyStore.draws_ok.
  - exact ToyRun.decoded.
  - exists w', resp, t'. split; [exact E|]. split; [exact Hs|]. split; [exact Et|exact Htl].
Defined.

Lemma gossip_forward_witness : exists t', sTenants (mem ToyRun.gossiped) = <["acme"%string := t']> (sTenants (mem ToyGateway.world)) /\
  0 <= tCtSize t'.
Proof.
  destruct (gossip_forward ToyGateway.acme ToyRun.gossip ToyGateway.world ToyRun.gossiped ToyRun.told) as (_ & t' & E & _ & Hs & _).
  - vm_compute. reflexivity.
  - exact ToyRun.gossip_served.
  - exists t'. split; [exact E|exact Hs].
Defined.
