(* ===== verification/Operator.v ===== *)
(** * The operator's offline tools: [cmd/orchestrator], [cmd/pdp], [cmd/auditor]
      and the watchdog replay of [cmd/to]

    Each command reads files and prints.  The files are a map from paths to
    contents, a printed line is a constructor with what the line shows, and a
    command returns its lines: none of those modelled fails after it has printed.
    A pointer to a timeline that may be nil is an option.  Orders of ranges over
    maps are arguments.  The commands that open sockets ([serve], [--live]) and
    the compliance report's reading of gateway.json are left out.

    Theorems: two dumps that [verify] passes against the same root are the same
    history; the rollback a dry run previews is the one [Rollback] does; the
    policy point denies every identity the audit names.  And: a dump without
    events crashes every command; an unknown checkpoint is ignored. *)
From Stdlib Require Import SpecFloat.
From S2P Require Import Prelude Crypto Encoding Json Float Timeline TimelineTheory TimelineFile Graph TrustState.
From S2P Require Import Watchdog Frost FrostTheory CouncilNet Cli.

(** ** What is printed *)

Inductive Line :=
| LScore (s : Score)
| LEnsemble (detected : bool)
| LEpoch (epoch : Z)
| LAnchor (head : slice)
| LEvent (i : Z) (typ cert identity : string) (ts : Z)
| LBroken (i : Z)
| LMismatch (head : slice)
| LVerified
| LNode (node : string)
| LLoaded (max : Z)
| LViolation (v : bytes)
| LConforms (n : Z)
| LIntact
| LPlan (checkpoint bad : Z)
| LWould (certs ids : Z)
| LCert (id : string)
| LStates (before after : Z)
| LDecision (id : string) (allow : bool) (issues max : Z)
| LDecided (allow deny total : Z)
| LChainPass (head : slice)
| LPolicy (pass : bool)
| LEscalate
| LCycle (i : Z) (s : Score).

Section operator.
Context `{Hashes} `{Ed25519}.
Variable quoted : string -> bytes.

(** ** Files *)

Definition LoadTimeline (fs : Files) (path : string) : outcome Timeline := b ← ReadFile fs path; UnmarshalTimeline b.

(** The evidence envelope: the text of its timeline, and its index. *)
Definition envelope_timeline (b : bytes) : option bytes :=
  v ← parse b; decode_struct ["timeline"%string] (fun _ v _ => Some (print v)) [] v.
Definition inner_timeline (fs : Files) (path : string) : option Timeline :=
  raw ← fs !! path;
  t ← envelope_timeline raw;
  if (0 <? length t)%nat then match UnmarshalTimeline t with Ret tl => Some tl | _ => None end else None.

Definition nonempty (r : outcome Timeline) : option Timeline :=
  match r with Ret tl => if (0 <? length (Events tl))%nat then Some tl else None | _ => None end.

(** Twelve issuances under a fresh key; the errors of [Append] are dropped. *)
Definition demo_payload (i : nat) : bytes :=
  print (JObj [jfield "cert_id" (jstring (of_bytes (ch "c" :: dec_Z (Z.of_nat i)))); jfield "identity" (jstring "user")]).
Fixpoint demo_issue (ks : list nat) (t : Timeline) : outcome Timeline :=
  match ks with
  | [] => Ret t
  | k :: ks => match Append t EvIssue (Some (demo_payload k)) (Z.of_nat k) with
               | Ret (t, _) => demo_issue ks t
               | Err _ => demo_issue ks t
               | Panic => Panic
               end
  end.
Definition demo (key : bytes) : outcome Timeline := t ← NewTimeline (Some key); demo_issue (seq 0 12) t.

(** [load] of cmd/orchestrator: the error it returns at the end is that of the
    first attempt, which may be nil; so may the timeline. *)
Definition load (fs : Files) (key : bytes) (path : string) : outcome (option Timeline) :=
  if bool_decide (path = ""%string) then (t ← demo key; Ret (Some t))
  else
    let r := LoadTimeline fs path in
    match nonempty r with
    | Some tl => Ret (Some tl)
    | None =>
        match inner_timeline fs path with
        | Some tl => Ret (Some tl)
        | None => match r with Ret _ => Ret None | Err e => Err e | Panic => Panic end
        end
    end.
(** Any use of a nil timeline. *)
Definition deref_tl (t : option Timeline) : outcome Timeline := match t with Some t => Ret t | None => Panic end.

(** [loadTimelineOrEvidence] of cmd/to. *)
Definition loadTimelineOrEvidence (fs : Files) (path : string) : outcome Timeline :=
  match nonempty (LoadTimeline fs path) with
  | Some tl => Ret tl
  | None =>
      match fs !! path with
      | None => Err "load %s: %w"
      | Some _ => match inner_timeline fs path with Some tl => Ret tl | None => LoadTimeline fs path end
      end
  end.

(** ** The commands of cmd/orchestrator *)

(** The five detectors of [status], with the parameters it gives them. *)
Definition DefaultH1 : f64 := f64_of_Z 3.
Definition half : f64 := flit 5 1.
Definition status_watchdogs : list Watchdog :=
  [NewWatchdog "W1" WDIssuanceRate (f64_of_Z 1) (f64_of_Z 1) DefaultH1;
   NewWatchdog "W2" WDLogIntegrity (f64_of_Z 0) (f64_of_Z 0) (f64_of_Z 0);
   NewWatchdog "W3" WDGraphAnomaly half half (f64_of_Z 3);
   NewWatchdog "W4" WDExternalProbe (f64_of_Z 0) (f64_of_Z 0) (f64_of_Z 0);
   NewWatchdogBaseline "W5" WDBehaviorBaseline (f64_of_Z 1) half (f64_of_Z 2) {["user"%string := f64_of_Z 1]}].

(** Every event is a batch of its own, for every detector. *)
Fixpoint observe_each (wd : list Watchdog) (e : TrustEvent) (i : Z) : outcome (list Watchdog) :=
  match wd with
  | [] => Ret []
  | w :: wd => w ← ObserveBatch w [e] i; wd ← observe_each wd e i; Ret (w :: wd)
  end.
Fixpoint observe_all (wd : list Watchdog) (i : Z) (es : list TrustEvent) : outcome (list Watchdog) :=
  match es with
  | [] => Ret wd
  | e :: es => wd ← observe_each wd e i; observe_all wd (i + 1) es
  end.
Fixpoint score_each (order : list string -> list string) (tl : Timeline) (log : AuditorLog) (wd : list Watchdog)
    : outcome (list Score) :=
  match wd with
  | [] => Ret []
  | w :: wd => '(_, s) ← WScore quoted order w tl (Some log); ss ← score_each order tl log wd; Ret (s :: ss)
  end.
Definition mirror_of (es : list TrustEvent) : AuditorLog := foldl Mirror (NewAuditorLog algoSHA256) es.

(** The highest epoch of the COMMIT events: the loop is that of [lastEpoch]. *)
Definition epoch (tl : Timeline) : Z := foldl epoch_step 0 (Events tl).

Definition status (order : list string -> list string) (tl : Timeline) : outcome (list Line) :=
  wd ← observe_all status_watchdogs 0 (Events tl);
  scores ← score_each order tl (mirror_of (Events tl)) wd;
  Ret (map LScore scores ++ [LEnsemble (Detect scores (f64_of_Z 25) 3); LEpoch (epoch tl); LAnchor (Head tl)]).

(** [json.Unmarshal] whose error is dropped: a member of the wrong type is
    passed over, a text that is no JSON changes nothing. *)
Definition loose_member {T} (names : list string) (set : string -> json -> T -> option T) (t : T) (kv : bytes * json) : T :=
  match resolve names kv.1 with Some n => default t (set n kv.2 t) | None => t end.
Definition cert_identity (b : bytes) : string * string :=
  match parse b with
  | Some (JObj l) =>
      foldl (loose_member ["cert_id"; "identity"]%string (fun n v p =>
        if decide (n = "cert_id"%string) then c ← decode_string p.1 v; Some (c, p.2)
        else i ← decode_string p.2 v; Some (p.1, i))) (""%string, ""%string) l
  | _ => (""%string, ""%string)
  end.
Definition event_line (i : Z) (e : TrustEvent) : Line :=
  let '(c, id) := cert_identity (sb (EPayload e)) in LEvent i (EType e) c id (ETimestamp e).
(** A negative tail slices from past the end. *)
Definition timeline (tl : Timeline) (tail : Z) : outcome (list Line) :=
  let n := zlen (Events tl) in
  let tail := if n <? tail then n else tail in
  if tail <? 0 then Panic
  else Ret (imap (fun k e => event_line (n - tail + Z.of_nat k) e) (drop (Z.to_nat (n - tail)) (Events tl))).

Definition verify (t : option Timeline) (args : list string) : outcome (list Line) :=
  let root := see_flag "--root" args "" in
  guard (bool_decide (root = ""%string)) "verify requires --root <hash>" (
  want ← of_option "root: %w" (hex_decode (to_bytes root));
  tl ← deref_tl t;
  bad ← LocateBadEvent tl;
  if bad >=? 0 then Ret [LBroken bad]
  else if negb (bytes_equal want (sb (Head tl))) then Ret [LMismatch (Head tl)]
  else Ret [LVerified]).

Definition graph (reach : range_order) (order : list string -> list string) (t : option Timeline) (args : list string)
    : outcome (list Line) :=
  let id := see_flag "--identity" args "" in
  guard (bool_decide (id = ""%string)) "graph requires --identity <fingerprint>" (
  tl ← deref_tl t;
  Ret (map LNode (order (elements (default ∅ (Reachable reach (BuildGraph tl) (id_node id))))))).

(** [to.Policy]. *)
Definition policy_unmarshal (b : bytes) : option Z :=
  v ← parse b; decode_struct ["max_issues_per_identity_per_window"%string] (fun _ v z => decode_int64 z v) 0 v.
Definition read_policy (fs : Files) (path : string) : outcome Z := raw ← ReadFile fs path; of_option "json" (policy_unmarshal raw).

Definition policyReload (fs : Files) (order : list string -> list string) (t : option Timeline) (args : list string)
    : outcome (list Line) :=
  let path := flag (take_flags ["--policy"%string] args) "--policy" in
  guard (bool_decide (path = ""%string)) "policy reload requires --policy <file>" (
  max ← read_policy fs path;
  guard (max <=? 0) "policy: max_issues_per_identity_per_window must be > 0" (
  tl ← deref_tl t;
  let v := CheckPolicy order (Events tl) max in
  Ret (LLoaded max :: match v with [] => [LConforms (zlen (Events tl))] | _ => map LViolation v end))).

(** ** The rollback's dry run *)

(** The first event whose hash is [want]. *)
Fixpoint find_hash (want : bytes) (i : Z) (es : list TrustEvent) : option Z :=
  match es with
  | [] => None
  | e :: es => if bytes_equal (Hash e) want then Some i else find_hash want (i + 1) es
  end.

(** The index of the evidence, when the chain itself is intact. *)
Definition evidence_index (fs : Files) (path : string) : Z :=
  if bool_decide (path = ""%string) then -1
  else match raw ← fs !! path; evidence_unmarshal raw with
       | Some z => if z >? 0 then z else -1
       | None => -1
       end.

Record Plan := { plCheckpoint : Z; plBad : Z; plCerts : gset string; plIds : gset string; plBefore : State; plAfter : State }.

Definition plan (reach : range_order) (tl : Timeline) (bad checkpoint : Z) : outcome Plan :=
  '(certs, ids) ← InvalidationSet reach tl (checkpoint + 1);
  match Events tl !! Z.to_nat checkpoint with
  | None => Panic
  | Some e =>
      fork ← Fork tl (Hash e);
      Ret {| plCheckpoint := checkpoint; plBad := bad; plCerts := certs; plIds := ids;
             plBefore := Fold fork; plAfter := Fold tl |}
  end.
Definition zsize (s : gset string) : Z := Z.of_nat (size s).
Definition plan_lines (order : list string -> list string) (p : Plan) : list Line :=
  LPlan (plCheckpoint p) (plBad p) :: LWould (zsize (plCerts p)) (zsize (plIds p)) ::
  map LCert (order (elements (plCerts p))) ++
  [LStates (Z.of_nat (size (Certs (plBefore p)))) (Z.of_nat (size (Certs (plAfter p))))].

Definition rollbackDryRun (fs : Files) (reach : range_order) (order : list string -> list string) (t : option Timeline)
    (args : list string) : outcome (list Line) :=
  let toHash := flag (take_flags ["--to"%string] args) "--to" in
  want ← (if bool_decide (toHash = ""%string) then Ret [] else of_option "--to: %w" (hex_decode (to_bytes toHash)));
  tl ← deref_tl t;
  bad ← LocateBadEvent tl;
  let bad := if bad <? 0 then evidence_index fs (see_flag "--events" args "") else bad in
  if bad <? 0 then Ret [LIntact]
  else
    let checkpoint := default (bad - 1) (find_hash want 0 (Events tl)) in
    guard ((checkpoint <? 0) || (checkpoint >=? bad)) "--to: checkpoint is not before the first bad event (#%d)" (
    p ← plan reach tl bad checkpoint; Ret (plan_lines order p)).

(** [main]: the commands that only read; [args] starts with the command. *)
Definition orchestrator (fs : Files) (key : bytes) (reach : range_order) (order : list string -> list string)
    (args : list string) : outcome (list Line) :=
  match args with
  | [] => Err "usage"
  | cmd :: rest =>
      let f := take_flags ["--events"; "--tail"]%string rest in
      t ← load fs key (flag f "--events");
      let tail := foldl (fun n s => sscanf_d s n) 20 (values f "--tail") in
      if decide (cmd = "status"%string) then tl ← deref_tl t; status order tl
      else if decide (cmd = "timeline"%string) then tl ← deref_tl t; timeline tl tail
      else if decide (cmd = "verify"%string) then verify t rest
      else if decide (cmd = "graph"%string) then graph reach order t rest
      else if decide (cmd = "policy"%string) then policyReload fs order t rest
      else if decide (cmd = "rollback"%string) then rollbackDryRun fs reach order t rest
      else Err "usage"
  end.

(** ** cmd/pdp and cmd/auditor *)

(** [struct{ Identity string }]. *)
Definition identity_unmarshal (b : bytes) : option string :=
  v ← parse b; decode_struct ["identity"%string] (fun _ v i => decode_string i v) ""%string v.
Definition holder (e : TrustEvent) : option string :=
  if decide (EType e = EvIssue) then identity_unmarshal (sb (EPayload e)) else None.
Definition tally_step (f : TrustEvent -> option string) (m : gmap string Z) (e : TrustEvent) : gmap string Z :=
  match f e with Some id => <[id := default 0 (m !! id) + 1]> m | None => m end.
Definition tally (f : TrustEvent -> option string) (es : list TrustEvent) : gmap string Z := foldl (tally_step f) ∅ es.

Definition decision (per : gmap string Z) (max : Z) (id : string) : Line :=
  let n := default 0 (per !! id) in LDecision id (negb (n >? max)) n max.
Definition check (fs : Files) (args : list string) : outcome (list Line) :=
  let f := take_flags ["--policy"; "--events"]%string args in
  guard (bool_decide (flag f "--policy" = ""%string) || bool_decide (flag f "--events" = ""%string)) "usage" (
  max ← read_policy fs (flag f "--policy");
  tl ← LoadTimeline fs (flag f "--events");
  guard (length (Events tl) =? 0)%nat "no events in timeline" (
  let per := tally holder (Events tl) in
  let ids := sorted_keys per in
  let denied := zlen (filter (fun id => default 0 (per !! id) > max) ids) in
  Ret (map (decision per max) ids ++ [LDecided (zlen ids - denied) denied (zlen ids)]))).

Definition audit (fs : Files) (order : list string -> list string) (logPath policyPath : string) : outcome (list Line) :=
  tl ← LoadTimeline fs logPath;
  max ← read_policy fs policyPath;
  bad ← LocateBadEvent tl;
  let v := CheckPolicy order (Events tl) max in
  Ret ((if bad >=? 0 then LBroken bad else LChainPass (Head tl)) ::
       match v with [] => [LPolicy true] | _ => LPolicy false :: map LViolation v ++ [LEscalate] end).

(** ** The watchdog's replay, [watchdogRun] of cmd/to without [--live] *)

(** The outcome of a probe in a cycle: an error's text when it fails. *)
Definition cycleScore (order : list string -> list string) (tl : Timeline) (log : AuditorLog)
    (probe : option (Z -> option bytes)) (w : Watchdog) (i : Z) (e : TrustEvent) : outcome (Watchdog * Score) :=
  w ← ObserveBatch w [e] i;
  '(w, s) ← WScore quoted order w tl (Some log);
  Ret (w, match probe with
          | None => s
          | Some p =>
              match p i with
              | Some err => {| NodeID := NodeID s; ScoreV := f64_of_Z 0; PValue := flit 1 2;
                               Evidence := Some (to_bytes "probe failed: " ++ err) |}
              | None => {| NodeID := NodeID s; ScoreV := f64_of_Z 100; PValue := f64_of_Z 1; Evidence := None |}
              end
          end).
Fixpoint cycles_of (order : list string -> list string) (tl : Timeline) (log : AuditorLog)
    (probe : option (Z -> option bytes)) (w : Watchdog) (i : Z) (es : list TrustEvent) : outcome (list Line) :=
  match es with
  | [] => Ret []
  | e :: es =>
      '(w, s) ← cycleScore order tl log probe w i e;
      ls ← cycles_of order tl log probe w (i + 1) es;
      Ret (LCycle i s :: ls)
  end.

(** The operating point of a detector when no parameters are given. *)
Definition default_params (kind : string) : f64 * f64 * f64 :=
  if decide (kind = WDGraphAnomaly) then (half, half, f64_of_Z 3)
  else if decide (kind = WDBehaviorBaseline) then (f64_of_Z 1, half, f64_of_Z 2)
  else (f64_of_Z 1, f64_of_Z 1, DefaultH1).
Definition last_events (tail : Z) (es : list TrustEvent) : list TrustEvent :=
  if (0 <? tail) && (tail <? zlen es) then drop (Z.to_nat (zlen es - tail)) es else es.
Definition watchdogRun (fs : Files) (order : list string -> list string) (events kind nodeID : string) (tail : Z)
    (probe : option (Z -> option bytes)) : outcome (list Line) :=
  guard (bool_decide (events = ""%string)) "usage" (
  tl ← loadTimelineOrEvidence fs events;
  let es := last_events tail (Events tl) in
  guard (length es =? 0)%nat "run: no events in timeline" (
  let '(m, d, b) := default_params kind in
  let w := NewWatchdog (if decide (nodeID = ""%string) then "W1"%string else nodeID) kind m d b in
  cycles_of order tl (mirror_of es) probe w 0 es)).

(** ** Files that are loaded *)

Lemma Unmarshal_keys b t : UnmarshalTimeline b = Ret t -> keys_ok t.
Proof.
  unfold UnmarshalTimeline. destruct (parse b ≫= _) as [f|]; [|done]. intros E. by apply of_file_keys in E as [? _].
Qed.

Lemma LoadTimeline_keys fs path t : LoadTimeline fs path = Ret t -> keys_ok t.
Proof. intros E. apply bind_ret in E as (b & _ & E). by eapply Unmarshal_keys. Qed.

Lemma inner_keys fs path t : inner_timeline fs path = Some t -> keys_ok t.
Proof.
  unfold inner_timeline. destruct (fs !! path) as [raw|]; [|done]. cbn [mbind option_bind].
  destruct (envelope_timeline raw) as [b|]; [|done]. cbn [mbind option_bind]. case_if; [|done].
  destruct (UnmarshalTimeline b) as [tl| |] eqn:E; [|done..]. intros [= <-]. by eapply Unmarshal_keys.
Qed.

Lemma load_keys fs key path t : path <> ""%string -> load fs key path = Ret (Some t) -> keys_ok t.
Proof.
  intros Hp. unfold load. rewrite bool_decide_eq_false_2 by done. cbv zeta.
  destruct (LoadTimeline fs path) as [tl|e|] eqn:E; cbn [nonempty]; [case_if; [intros [= <-]; by eapply LoadTimeline_keys|]|..];
    (destruct (inner_timeline fs path) eqn:Ei; [intros [= <-]; by eapply inner_keys|done]).
Qed.

(** A dump that is no envelope and holds no events is loaded as a nil
    timeline without an error: [status], and every other command with it, is a
    nil pointer dereference. *)
Lemma load_empty fs key reach order path tl : path <> ""%string ->
  LoadTimeline fs path = Ret tl -> Events tl = [] -> inner_timeline fs path = None ->
  orchestrator fs key reach order ["status"; "--events"; path]%string = Panic.
Proof.
  intros Hp E En Ei. unfold orchestrator.
  assert (flag (take_flags ["--events"; "--tail"]%string ["--events"%string; path]) "--events" = path) as -> by reflexivity.
  unfold load. rewrite bool_decide_eq_false_2 by done. cbv zeta. rewrite E. cbn [nonempty]. by rewrite En, Ei.
Qed.

(** ** [verify] *)

Lemma hex_decode_nil s : hex_decode s = Some [] -> s = [].
Proof. destruct s as [|x [|y s]]; cbn; [done|done|]. by destruct (hex_val x), (hex_val y), (hex_decode s). Qed.

Lemma verify_passed t args : verify (Some t) args = Ret [LVerified] ->
  exists want bad, want <> [] /\ hex_decode (to_bytes (see_flag "--root" args "")) = Some want /\
    sb (Head t) = want /\ LocateBadEvent t = Ret bad /\ bad < 0.
Proof.
  intros Hv. unfold verify in Hv. apply guard_ret in Hv as [Hr Hv]. apply bool_decide_eq_false in Hr.
  apply bind_ret in Hv as (want & Hw & Hv). apply of_option_ret in Hw. cbn [deref_tl mbind outcome_bind] in Hv.
  apply bind_ret in Hv as (bad & Hb & Hv). destruct (bad >=? 0) eqn:Hb0; [done|].
  destruct (bytes_equal want (sb (Head t))) eqn:He; [|done]. apply bytes_equal_true in He. exists want, bad.
  split_and!; [|done|done|done|]. 2: { rewrite Z.geb_leb in Hb0. lia. }
  intros ->. apply Hr. apply to_bytes_inj. by apply hex_decode_nil.
Qed.

Lemma intact_good t bad : keys_ok t -> LocateBadEvent t = Ret bad -> bad < 0 -> good t.
Proof.
  intros Hk Hb Hlt. apply Verify_good; [done|]. unfold Verify. rewrite Hb. cbn. f_equal. apply Z.eqb_eq.
  unfold LocateBadEvent, walkVerify, zlen in Hb. rewrite Nat2Z.id in Hb.
  destruct (walk_spec (councilPub t) (algo t) (length (events t)) (events t) None (startPub t) 0 Hk)
    as [[E _]|(k & _ & E & _)]; [lia|..]; rewrite E in Hb; injection Hb; lia.
Qed.

Context {HL : HashLaws} {EL : Ed25519Laws}.

(** A root is a history: when [verify] passes two dumps, from whatever files
    and under whatever keys the files name, against the same root, the dumps
    hold the same events (of the same hash algorithm, unless the link hash
    collides on the strings it was applied to); a dump with one event changed,
    dropped or added fails for one of the two operators. *)
Theorem verified_same_history fs1 fs2 key path1 path2 args t1 t2 :
  path1 <> ""%string -> path2 <> ""%string ->
  load fs1 key path1 = Ret (Some t1) -> load fs2 key path2 = Ret (Some t2) ->
  algo t1 = algo t2 -> Forall event_ok (events t1) -> Forall event_ok (events t2) ->
  link_free (algo t1) (map signedBytes (events t1 ++ events t2)) ->
  verify (Some t1) args = Ret [LVerified] -> verify (Some t2) args = Ret [LVerified] ->
  events t1 = events t2.
Proof.
  intros Hp1 Hp2 Hl1 Hl2 Ha Ho1 Ho2 Hf Hv1 Hv2. apply load_keys in Hl1, Hl2; [|done..].
  apply verify_passed in Hv1 as (want & b1 & Hne & Hw & Hh1 & Hb1 & Hlt1).
  apply verify_passed in Hv2 as (want2 & b2 & _ & Hw2 & Hh2 & Hb2 & Hlt2).
  rewrite Hw in Hw2. injection Hw2 as <-. rewrite <- Hh2 in Hh1.
  destruct (intact_good _ _ Hl1 Hb1 Hlt1) as [q1 Hc1]. destruct (intact_good _ _ Hl2 Hb2 Hlt2) as [q2 Hc2].
  unfold Head, thead, eventDigest in Hh1, Hh2. rewrite <- Ha in *.
  destruct (last (events t1)) as [e1|] eqn:E1, (last (events t2)) as [e2|] eqn:E2; cbn in Hh1, Hh2;
    [|by apply hashWith_nonempty in Hh1|by rewrite <- Hh2 in Hne|by rewrite <- Hh2 in Hne].
  exact (chain_inj (algo t1) _ _ _ _ _ _ e1 e2 q1 q2 Ho1 Ho2 Hf Hc1 Hc2 E1 E2 Hh1).
Qed.

(** ** The dry run *)

Lemma find_hash_none es i : find_hash [] i es = None.
Proof.
  revert i. induction es as [|e es IH]; intros i; [done|]. cbn [find_hash].
  destruct (bytes_equal (Hash e) []) eqn:E; [|done]. apply bytes_equal_true in E.
  unfold Hash in E. apply (f_equal length) in E. by rewrite sha256_length in E.
Qed.

Lemma find_hash_absent want i es : Forall (fun e => Hash e <> want) es -> find_hash want i es = None.
Proof.
  intros Hf. revert i. induction Hf as [|e es He _ IH]; intros i; [done|]. cbn [find_hash].
  destruct (bytes_equal (Hash e) want) eqn:E; [|done]. by apply bytes_equal_true in E.
Qed.

(** The first bad event the command goes by. *)
Definition bad_found (fs : Files) (t : Timeline) (args : list string) (bad : Z) : Prop :=
  exists b, LocateBadEvent t = Ret b /\ bad = if b <? 0 then evidence_index fs (see_flag "--events" args "") else b.
Definition checkpoint_wanted (args : list string) : string := flag (take_flags ["--to"%string] args) "--to".

Lemma dry_run_from fs reach order t args bad want : bad_found fs t args bad -> 0 < bad ->
  (if bool_decide (checkpoint_wanted args = ""%string) then Ret [] else of_option "--to: %w" (hex_decode (to_bytes (checkpoint_wanted args)))) = Ret want ->
  find_hash want 0 (events t) = None ->
  rollbackDryRun fs reach order (Some t) args = (p ← plan reach t bad (bad - 1); Ret (plan_lines order p)).
Proof.
  intros (b & Hb & Eb) Hpos Hw Hn. unfold rollbackDryRun. fold (checkpoint_wanted args). rewrite Hw. cbn [mbind outcome_bind deref_tl].
  rewrite Hb. cbn [mbind outcome_bind]. rewrite <- Eb. destruct (Z.ltb_spec bad 0); [lia|].
  change (Events t) with (events t). rewrite Hn. cbn [default from_option].
  by replace ((bad - 1 <? 0) || (bad - 1 >=? bad)) with false by (symmetry; apply orb_false_iff; rewrite Z.geb_leb; lia).
Qed.

Lemma dry_run_at fs reach order t args bad : bad_found fs t args bad -> 0 < bad -> checkpoint_wanted args = ""%string ->
  rollbackDryRun fs reach order (Some t) args = (p ← plan reach t bad (bad - 1); Ret (plan_lines order p)).
Proof. intros Hb Hpos Hw. apply (dry_run_from _ _ _ _ _ _ []); [done|done|by rewrite Hw|apply find_hash_none]. Qed.


(** A checkpoint that is in nobody's chain is as good as none: the operator who
    asks for the rollback to it is shown another one. *)
Lemma dry_run_unknown_checkpoint fs reach order t args bad want :
  bad_found fs t args bad -> 0 < bad -> hex_decode (to_bytes (checkpoint_wanted args)) = Some want ->
  Forall (fun e => Hash e <> want) (events t) ->
  rollbackDryRun fs reach order (Some t) args = (p ← plan reach t bad (bad - 1); Ret (plan_lines order p)).
Proof.
  intros Hb Hpos Hw Hf. destruct (decide (checkpoint_wanted args = ""%string)) as [He|Hne]; [by apply dry_run_at|].
  apply (dry_run_from _ _ _ _ _ _ want); [done|done| |by apply find_hash_absent].
  by rewrite bool_decide_eq_false_2, Hw.
Qed.

(** An index past the end, in the evidence of an intact chain, is a panic. *)
Lemma dry_run_past_end fs reach order t args bad : bad_found fs t args bad -> zlen (events t) < bad -> checkpoint_wanted args = ""%string ->
  rollbackDryRun fs reach order (Some t) args = Panic.
Proof.
  intros Hb Hlt Hw. rewrite (dry_run_at fs reach order t args bad Hb) by (done || (unfold zlen in *; lia)).
  unfold plan, InvalidationSet. replace (bad - 1 + 1) with bad by lia.
  replace ((bad <? 0) || (bad >? zlen (events t))) with true; [done|].
  symmetry. apply orb_true_iff. right. rewrite Z.gtb_ltb. lia.
Qed.

(** ** The policy point and the audit *)

Lemma resolve_identity k :
  resolve ["identity"%string] k =
  match resolve ["cert_id"; "identity"; "via"]%string k with
  | Some n => if decide (n = "identity"%string) then Some n else None
  | None => None
  end.
Proof.
  unfold resolve. cbn [List.find].
  repeat match goal with |- context [bool_decide ?P] => destruct (bool_decide_reflect P) as [?E|?E]; cbn [List.find] end;
    subst; try done; exfalso;
    match goal with
    | E : to_bytes _ = to_bytes _ |- _ => vm_compute in E; discriminate E
    | E : fold_name (to_bytes _) = fold_name (to_bytes _) |- _ => vm_compute in E; discriminate E
    | E : fold_name ?a = fold_name ?k, E' : fold_name ?b = fold_name ?k |- _ =>
        rewrite <- E' in E; vm_compute in E; discriminate E
    end.
Qed.

Lemma issue_identity l p q : foldl (decode_member ["cert_id"; "identity"; "via"]%string issue_set) (Some p) l = Some q ->
  foldl (decode_member ["identity"%string] (fun _ v i => decode_string i v)) (Some (pIdentity p)) l = Some (pIdentity q).
Proof.
  revert p. induction l as [|[k v] l IH]; intros p; [by intros [= ->]|]. cbn [foldl].
  assert (Hn : forall l, foldl (decode_member ["cert_id"; "identity"; "via"]%string issue_set) None l = None).
  { clear. induction l as [|kv l IH]; [done|]. exact IH. }
  unfold decode_member at 2 4. cbn [fst snd]. rewrite resolve_identity.
  destruct (resolve ["cert_id"; "identity"; "via"]%string k) as [n|]; [|apply IH]. destruct p as [c i w].
  unfold issue_set. cbn [pIdentity].
  destruct (decide (n = "cert_id"%string)) as [->|Hc]; [|destruct (decide (n = "identity"%string)) as [->|Hi]].
  - destruct (decode_string c v) as [c'|]; cbn [mbind option_bind]; [|by rewrite Hn]. rewrite decide_False by done. apply (IH {| pCertID := c'; pIdentity := i; pVia := w |}).
  - rewrite ?decide_False by done. destruct (decode_string i v) as [i'|]; cbn [mbind option_bind]; [|by rewrite Hn].
    apply (IH {| pCertID := c; pIdentity := i'; pVia := w |}).
  - destruct (decode_string w v) as [w'|]; cbn [mbind option_bind]; [|by rewrite Hn]. apply (IH {| pCertID := c; pIdentity := i; pVia := w' |}).
Qed.

Lemma issued_holder e p : issued e = Some p -> holder e = Some (pIdentity p).
Proof.
  unfold issued, holder. case_decide; [|done]. unfold issue_unmarshal, identity_unmarshal.
  destruct (parse _) as [[| | | | |l]|]; cbn [mbind option_bind decode_struct]; try done.
  - by intros [= <-].
  - apply (issue_identity l {| pCertID := ""; pIdentity := ""; pVia := "" |} p).
Qed.

(** A tally at one key is the number of events that give it. *)
Definition times (f : TrustEvent -> option string) (id : string) (es : list TrustEvent) : Z :=
  zlen (filter (fun e => f e = Some id) es).

Lemma tally_lookup f es id : tally f es !! id = if times f id es =? 0 then None else Some (times f id es).
Proof.
  induction es as [|e es IH] using rev_ind; [done|]. unfold tally in *. rewrite foldl_snoc. unfold tally_step at 1.
  unfold times in *. rewrite filter_app. unfold zlen in *. rewrite length_app. cbn [filter list_filter].
  destruct (f e) as [i|] eqn:Ef.
  - destruct (decide (i = id)) as [->|Hne].
    + rewrite decide_True by done. cbn [length]. rewrite lookup_insert_eq, IH.
      destruct (Z.eqb_spec (Z.of_nat (length (filter (fun e => f e = Some id) es))) 0) as [E|E]; cbn [default from_option].
      * destruct (Z.eqb_spec (Z.of_nat (length (filter (fun e => f e = Some id) es) + 1)) 0); [lia|]. f_equal. lia.
      * destruct (Z.eqb_spec (Z.of_nat (length (filter (fun e => f e = Some id) es) + 1)) 0); [lia|]. f_equal. unfold Datatypes.id. lia.
    + rewrite decide_False by congruence. cbn [length]. rewrite lookup_insert_ne, Nat.add_0_r by done. exact IH.
  - rewrite decide_False by done. cbn [length]. rewrite Nat.add_0_r. exact IH.
Qed.

Lemma count_issues_tally es : count_issues es = tally (fun e => pIdentity <$> issued e) es.
Proof.
  unfold count_issues, tally. induction es as [|e es IH] using rev_ind; [done|]. rewrite !foldl_snoc, IH.
  unfold tally_step. by destruct (issued e).
Qed.

Lemma times_mono f g id es : (forall e, f e = Some id -> g e = Some id) -> times f id es <= times g id es.
Proof.
  intros Hfg. unfold times, zlen. induction es as [|e es IH]; [done|]. rewrite !filter_cons.
  destruct (decide (f e = Some id)) as [E|]; [rewrite decide_True by auto; cbn [length]; lia|].
  case_decide; cbn [length]; lia.
Qed.

Lemma times_ext f g id es : Forall (fun e => f e = g e) es -> times f id es = times g id es.
Proof.
  intros Hf. unfold times. induction Hf as [|e es E _ IH]; [done|]. rewrite !filter_cons, E. unfold zlen in *.
  case_decide; cbn [length]; lia.
Qed.

Lemma tally_some f es id n : tally f es !! id = Some n <-> times f id es = n /\ 0 < n.
Proof.
  rewrite tally_lookup. unfold times, zlen. destruct (Z.eqb_spec (Z.of_nat (length (filter (fun e => f e = Some id) es))) 0) as [E|E].
  - split; [done|]. intros [<- ?]. lia.
  - split; [intros [= <-]; split; [done|lia]|by intros [-> _]].
Qed.

Lemma CheckPolicy_in order es max id n : permutes order -> count_issues es !! id = Some n -> n > max ->
  violation id n max ∈ CheckPolicy order es max.
Proof.
  intros Ho Hn Hgt. unfold CheckPolicy. apply list_elem_of_omap. exists id. split.
  - rewrite (Ho _), list_elem_of_fmap. exists (id, n). split; [done|]. by apply elem_of_map_to_list.
  - rewrite Hn. by replace (n >? max) with true by (symmetry; rewrite Z.gtb_ltb; apply Z.ltb_lt; lia).
Qed.

Lemma denied_in per max id n rest : (forall l, LDecision id false n max <> LDecided l.1.1 l.1.2 l.2) ->
  LDecision id false n max ∈ map (decision per max) (sorted_keys per) ++ [LDecided rest.1.1 rest.1.2 rest.2] <->
  per !! id = Some n /\ n > max.
Proof.
  intros Hd. rewrite elem_of_app, list_elem_of_fmap, list_elem_of_singleton. unfold decision. split.
  - intros [(i & E & Hi)|E]; [|by destruct (Hd rest)]. injection E as <- Hb Hn.
    rewrite sorted_keys_perm, elem_of_keys in Hi. destruct Hi as [m Hm]. rewrite Hm in *. cbn in *. subst m.
    split; [done|]. symmetry in Hb. apply negb_false_iff in Hb. rewrite Z.gtb_ltb, Z.ltb_lt in Hb. lia.
  - intros [Hn Hgt]. left. exists id. rewrite sorted_keys_perm, elem_of_keys, Hn. split; [|by eexists].
    cbn. f_equal. symmetry. apply negb_false_iff. rewrite Z.gtb_ltb. apply Z.ltb_lt. lia.
Qed.

(** The policy point and the auditor judge alike: on the same files, every
    identity the audit names as a violation - in whatever order it visits its
    map - is one the policy point denies, with a count at least as high; and
    when each issuance of the dump is one the engine can read, the policy point
    denies exactly the identities the audit names, with the same counts. *)
Theorem pdp_agrees fs pp ep max tl order :
  pp <> ""%string -> ep <> ""%string -> read_policy fs pp = Ret max -> LoadTimeline fs ep = Ret tl -> Events tl <> [] ->
  permutes order ->
  exists lines, check fs ["--policy"; pp; "--events"; ep]%string = Ret lines /\
    (forall id n, count_issues (Events tl) !! id = Some n -> n > max ->
       violation id n max ∈ CheckPolicy order (Events tl) max /\
       exists m, n <= m /\ LDecision id false m max ∈ lines) /\
    (Forall (fun e => holder e = pIdentity <$> issued e) (Events tl) ->
       forall id n, LDecision id false n max ∈ lines <-> count_issues (Events tl) !! id = Some n /\ n > max).
Proof.
  intros Hp He Hm Ht Hn Ho. unfold check.
  assert (flag (take_flags ["--policy"; "--events"]%string ["--policy"; pp; "--events"; ep]%string) "--policy" = pp) as -> by reflexivity.
  assert (flag (take_flags ["--policy"; "--events"]%string ["--policy"; pp; "--events"; ep]%string) "--events" = ep) as -> by reflexivity.
  rewrite !bool_decide_eq_false_2 by done. cbn [orb guard]. rewrite Hm. cbn [mbind outcome_bind]. rewrite Ht. cbn [mbind outcome_bind].
  replace (length (Events tl) =? 0)%nat with false by (symmetry; apply Nat.eqb_neq; by destruct (Events tl)). cbn [guard].
  eexists. split; [reflexivity|].
  set (per := tally holder (Events tl)). set (ids := sorted_keys per). set (dn := zlen (filter _ ids)).
  assert (Hin : forall id n, LDecision id false n max ∈ map (decision per max) ids ++ [LDecided (zlen ids - dn) dn (zlen ids)] <->
    per !! id = Some n /\ n > max) by (intros id n; by apply (denied_in per max id n (zlen ids - dn, dn, zlen ids))).
  split.
  - intros id n Hc Hgt. split; [by apply CheckPolicy_in|].
    rewrite count_issues_tally in Hc. apply tally_some in Hc as [Hc Hpos].
    assert (Hle : times (fun e => pIdentity <$> issued e) id (Events tl) <= times holder id (Events tl)).
    { apply times_mono. intros e Hi. destruct (issued e) as [p|] eqn:Ei; [|done]. cbn in Hi. injection Hi as <-. by apply issued_holder. }
    exists (times holder id (Events tl)). split; [lia|]. apply Hin. split; [|lia]. apply tally_some. split; [done|lia].
  - intros Hf id n. rewrite Hin. unfold per. rewrite count_issues_tally, !tally_some.
    by rewrite (times_ext _ _ _ _ Hf).
Qed.

End operator.

(** A certificate id that is no string: the policy point counts the issuance,
    the audit does not. *)
Lemma pdp_counts_more :
  let e := {| EType := EvIssue; ETimestamp := 1; EParentHash := None; ESignature := None;
              EPayload := Some (print (JObj [jfield "cert_id" (jint 7); jfield "identity" (jstring "eve")])) |} in
  holder e = Some "eve"%string /\ issued e = None.
Proof. split; vm_compute; reflexivity. Qed.

(** ** Concrete files *)

Module ToyFiles.
Import TimelineWitness StateWitness.

Definition root : string := of_bytes (hex_encode (sb (Head s5))).
Definition fs : Files :=
  {["a.json" := Marshal s5 false; "b.json" := Marshal s5 true;
    "ev.json" := print (JObj [jfield "bad_index" (jint 2); jfield "timeline" (file_json (to_file s5 false))]);
    "pol.json" := print (JObj [jfield "max_issues_per_identity_per_window" (jint 1)]);
    "empty.json" := Marshal s0 false]}%string.
Definition s5v : Timeline := get (LoadTimeline fs "a.json") empty.
Definition s5k : Timeline := get (LoadTimeline fs "b.json") empty.

Lemma loaded_events : events s5v = events s5 /\ events s5k = events s5.
Proof. split; vm_compute; reflexivity. Qed.

Lemma s5_ok : Forall event_ok (events s5).
Proof. repeat constructor; vm_compute; first [reflexivity|discriminate]. Qed.

Lemma readable : Forall (fun e => holder e = pIdentity <$> issued e) (Events s5v).
Proof. unfold Events. rewrite (proj1 loaded_events). repeat constructor; vm_compute; reflexivity. Qed.

End ToyFiles.

Lemma verified_same_history_witness :
  verify (Some ToyFiles.s5v) ["verify"; "--root"; ToyFiles.root]%string = Ret [LVerified] /\
  events ToyFiles.s5v = events ToyFiles.s5k.
Proof.
  split; [vm_compute; reflexivity|].
  apply (verified_same_history ToyFiles.fs ToyFiles.fs TimelineWitness.k1 "a.json" "b.json"
    ["verify"; "--root"; ToyFiles.root]%string ToyFiles.s5v ToyFiles.s5k).
  1-2: discriminate.
  1-2: vm_compute; reflexivity.
  - vm_compute. reflexivity.
  - rewrite (proj1 ToyFiles.loaded_events). apply ToyFiles.s5_ok.
  - rewrite (proj2 ToyFiles.loaded_events). apply ToyFiles.s5_ok.
  - rewrite (proj1 ToyFiles.loaded_events), (proj2 ToyFiles.loaded_events).
    assert (algo ToyFiles.s5v = algoSHA256) as -> by (vm_compute; reflexivity).
    apply collision_free_b_spec. vm_compute. reflexivity.
  - vm_compute. reflexivity.
  - vm_compute. reflexivity.
Defined.


Lemma pdp_agrees_witness : exists lines,
  check ToyFiles.fs ["--policy"; "pol.json"; "--events"; "a.json"]%string = Ret lines /\
  LDecision "eve" false 2 1 ∈ lines /\ ~ LDecision "bob" false 1 1 ∈ lines.
Proof.
  destruct (pdp_agrees ToyFiles.fs "pol.json" "a.json" 1 ToyFiles.s5v (@rev string)) as (lines & E & _ & H).
  1-2: discriminate.
  1-2: vm_compute; reflexivity.
  - vm_compute. discriminate.
  - intros l. symmetry. apply Permutation_rev.
  - specialize (H ToyFiles.readable). exists lines. split; [exact E|]. split.
    + apply (proj2 (H "eve"%string 2)). split; [vm_compute; reflexivity|reflexivity].
    + intros [_ Hb]%(proj1 (H "bob"%string 1)). discriminate Hb.
Defined.
