(* ===== verification/IdentityTool.v ===== *)
(** * The identity tool: [cmd/identity/main.go]

    The commands over the files of the operator: the CA, workload certificates,
    and the revocation list, which each [revoke] signs again under the next
    number.  A command returns the files after it; the times it reads off the
    clock and the key it draws are arguments, durations and dates in text are an
    interface.  The file of [--pem] is what [pem.EncodeToMemory] gives; what is
    printed is left out.

    Theorems: serials that any sequence of [revoke] commands was given stay on
    the list and [verify] refuses exactly the certificates that have one; an
    expired list takes no more revocations; certificates issued without a
    serial share one. *)
From S2P Require Import Prelude Crypto Encoding Json Cli Identity.

(** [time.ParseDuration] and [time.Parse(time.RFC3339, s)]. *)
Class TimeText := {
  ParseDuration : string -> outcome Z;
  ParseRFC3339 : string -> outcome Z;
}.

Section tool.
Context `{Ed25519} `{X509} `{TimeText}.
Variable pem : bytes -> bytes.

Definition second : Z := 10 ^ 9.
Definition minute : Z := 60 * second.
Definition hour : Z := 60 * minute.

Definition or_else (s d : string) : string := if bool_decide (s = ""%string) then d else s.

Definition mintCA (now : Z) (f : gmap string string) (fs : Files) : outcome Files :=
  guard (absent f "key") "usage: ca --key <file> [--name <cn>] [--out ca.der]" (
  key ← read_key fs (get f "key");
  '(_, der) ← NewIdentityCA (Some key) (or_else (get f "name") "post-recovery CA") (now - hour) (now + 365 * 24 * hour);
  Ret (WriteFile fs (or_else (get f "out") "ca.der") der)).

(** An optional flag that is parsed. *)
Definition parsed (f : gmap string string) (name : string) (parse : string -> outcome Z) (d : Z) : outcome Z :=
  if absent f name then Ret d else parse (get f name).

(** [subjKey] is the generated key of the subject. *)
Definition issue (now : Z) (subjKey : bytes) (f : gmap string string) (fs : Files) : outcome Files :=
  guard (absent f "ca" || absent f "key" || absent f "identity") "usage: issue" (
  caDER ← ReadFile fs (get f "ca");
  ca ← ParseIdentityCA caDER;
  raw ← ReadFile fs (get f "key");
  seed ← of_option "hex" (hex_decode raw);
  serial ← parsed f "serial" parse_int 1;
  ttl ← parsed f "ttl" ParseDuration (10 * minute);
  pub ← ed25519_Public (Some subjKey);
  key ← keyFromFile seed;
  leaf ← IssueWorkloadCertWithDP now ca (Some key) pub (get f "identity") serial ttl (get f "crl-url");
  let fs := WriteFile fs (or_else (get f "out") "leaf.der") leaf in
  Ret (if absent f "key-out" then fs else WriteFile fs (get f "key-out") (hex_encode subjKey))).

Definition verify (now : Z) (f : gmap string string) (fs : Files) : outcome unit :=
  guard (absent f "cert" || absent f "ca") "usage: verify" (
  leaf ← ReadFile fs (get f "cert");
  caDER ← ReadFile fs (get f "ca");
  _ ← wrap_err "VERIFY: FAIL (%v)" (VerifyWorkloadChain leaf caDER now);
  if absent f "crl" then Ret tt
  else
    crlDER ← ReadFile fs (get f "crl");
    _ ← wrap_err "VERIFY: FAIL (CRL: %v)" (VerifyCRL crlDER caDER now);
    revoked ← wrap_err "VERIFY: FAIL (%v)" (CheckRevoked leaf crlDER);
    if (revoked : bool) then Err "VERIFY: FAIL (certificate is REVOKED)" else Ret tt).

Fixpoint parse_serials (parts : list bytes) : outcome (list Z) :=
  match parts with
  | [] => Ret []
  | p :: parts => n ← of_option "bad serial %q" (set_string10 (TrimSpace p)); ns ← parse_serials parts; Ret (n :: ns)
  end.
Definition serials_of (f : gmap string string) : outcome (list Z) := parse_serials (split_on (ch ",") (to_bytes (get f "serial"))).

Definition revoke (now : Z) (f : gmap string string) (fs : Files) : outcome Files :=
  guard (absent f "ca" || absent f "key" || absent f "serial") "usage: revoke" (
  caDER ← ReadFile fs (get f "ca");
  ca ← ParseIdentityCA caDER;
  caKey ← read_key fs (get f "key");
  next ← parsed f "next-update" ParseDuration (24 * hour);
  serials ← serials_of f;
  let next := now + next in
  let revoked := map (fun s => {| rcSerial := s; RevokedAt := now |}) serials in
  out ← (if absent f "crl" then NewCRL ca (Some caKey) 1 revoked now next
         else
           old ← ReadFile fs (get f "crl");
           oldRL ← VerifyCRL old caDER now;
           AppendRevocation ca (Some caKey) old (wrap64 (wrap64 (rlNumber oldRL) + 1)) revoked now next);
  let outPath := or_else (or_else (get f "out") (get f "crl")) "crl.der" in
  let fs := WriteFile fs outPath out in
  Ret (if absent f "pem" then fs else WriteFile fs (outPath ++ ".pem") (pem out))).

(** [crl] shows a list that verifies. *)
Definition crl (now : Z) (f : gmap string string) (fs : Files) : outcome RevocationList :=
  guard (absent f "ca" || absent f "file") "usage: crl" (
  caDER ← ReadFile fs (get f "ca");
  crlDER ← ReadFile fs (get f "file");
  now ← parsed f "now" ParseRFC3339 now;
  wrap_err "CRL: INVALID (%v)" (VerifyCRL crlDER caDER now)).

(** ** The list grows *)

Context {XL : X509Laws}.

(** The serials a command names, and a list that names exactly [S]. *)
Definition asked (f : gmap string string) : list Z := match serials_of f with Ret l => l | _ => [] end.
Definition lists (fs : Files) (p : string) (n : Z) (S : list Z) : Prop :=
  exists der rl, fs !! p = Some der /\ ParseRevocationList der = Ret rl /\ rlNumber rl = n /\
    forall s, s ∈ map fst (rlEntries rl) <-> s ∈ S.

Lemma suffix_ne p : (p ++ ".pem")%string <> p.
Proof. intros E. apply (f_equal to_bytes) in E. rewrite to_bytes_app in E. apply (f_equal length) in E. rewrite length_app in E. cbn in E. lia. Qed.

Lemma or_else_id s d : s <> ""%string -> or_else s d = s.
Proof. intros Hs. unfold or_else. by rewrite bool_decide_eq_false_2. Qed.

Lemma stored_list fs f p out tmpl ca key n S :
  CreateRevocationList tmpl ca key = Ret out -> rlNumber tmpl = n -> (forall s, s ∈ map fst (rlEntries tmpl) <-> s ∈ S) ->
  lists (if absent f "pem" then WriteFile fs p out else WriteFile (WriteFile fs p out) (p ++ ".pem") (pem out)) p n S.
Proof.
  intros Hc Hn HS. destruct (parse_list _ _ _ _ Hc) as (rl & Hp & He & Hnum & _). exists out, rl. split_and!.
  - unfold WriteFile. destruct (absent f "pem"); [apply lookup_insert_eq|].
    etrans; [apply lookup_insert_ne, suffix_ne|apply lookup_insert_eq].
  - done.
  - by rewrite Hnum.
  - intros s. by rewrite (same_entries_serials _ _ He).
Qed.

Lemma serials_map now l : map rcSerial (map (fun s => {| rcSerial := s; RevokedAt := now |}) l) = l.
Proof. rewrite map_map. apply map_id. Qed.

(** A first list, and one more run over it. *)
Lemma revoke_new now f fs fs' p : p <> ""%string -> absent f "crl" = true -> get f "out" = p ->
  revoke now f fs = Ret fs' -> lists fs' p 1 (asked f).
Proof.
  intros Hp Hc Ho E. unfold revoke in E. apply guard_ret in E as [_ E].
  apply bind_ret in E as (caDER & _ & E). apply bind_ret in E as (ca & _ & E). apply bind_ret in E as (key & _ & E).
  apply bind_ret in E as (next & _ & E). apply bind_ret in E as (ss & Hs & E). apply bind_ret in E as (out & Hout & [= <-]).
  rewrite Hc in Hout. rewrite Ho, or_else_id, or_else_id by (rewrite ?or_else_id; done). unfold NewCRL in Hout.
  eapply stored_list; [exact Hout|done|]. intros s. unfold asked. rewrite Hs. cbn [rlEntries]. rewrite !map_map. cbn [fst rcSerial].
  by rewrite map_id.
Qed.

Lemma revoke_more now f fs fs' p n S : p <> ""%string -> get f "crl" = p -> absent f "out" = true -> 0 <= n < 2 ^ 62 ->
  lists fs p n S -> revoke now f fs = Ret fs' -> lists fs' p (n + 1) (S ++ asked f).
Proof.
  intros Hp Hc Ho Hn (der & rl & Hd & Hrl & Hnum & HS) E. unfold revoke in E. apply guard_ret in E as [_ E].
  apply bind_ret in E as (caDER & _ & E). apply bind_ret in E as (ca & _ & E). apply bind_ret in E as (key & _ & E).
  apply bind_ret in E as (next & _ & E). apply bind_ret in E as (ss & Hs & E). apply bind_ret in E as (out & Hout & [= <-]).
  assert (absent f "crl" = false) as Hca by (unfold absent; rewrite Hc; by apply bool_decide_eq_false_2). rewrite Hca in Hout.
  assert (Hoe : get f "out" = ""%string) by (unfold absent in Ho; by apply bool_decide_eq_true in Ho).
  rewrite Hc, Hoe. change (or_else "" p) with p. rewrite or_else_id by done.
  rewrite Hc in Hout. unfold ReadFile in Hout. rewrite Hd in Hout. cbn [of_option mbind outcome_bind] in Hout.
  apply bind_ret in Hout as (rl' & Hv & Hout). unfold AppendRevocation in Hout. rewrite Hrl in Hout. cbn [mbind outcome_bind] in Hout.
  assert (rl' = rl) as ->.
  { unfold VerifyCRL in Hv. rewrite Hrl in Hv. cbn [mbind outcome_bind] in Hv. apply bind_ret in Hv as (c & _ & Hv).
    apply bind_ret in Hv as (u & _ & Hv). apply guard_ret in Hv as [_ [= <-]]. done. }
  eapply stored_list; [exact Hout|cbn [rlNumber]|].
  - rewrite Hnum, !wrap64_id by (unfold in_int64; rewrite ?wrap64_id by (unfold in_int64; lia); lia). done.
  - intros s. cbn [rlEntries]. rewrite combined_serials, serials_map, elem_of_app, HS. unfold asked. by rewrite Hs.
Qed.

(** Runs of [revoke], one after the other. *)
Fixpoint revoke_all (runs : list (Z * gmap string string)) (fs : Files) : outcome Files :=
  match runs with
  | [] => Ret fs
  | (now, f) :: runs => fs ← revoke now f fs; revoke_all runs fs
  end.

Lemma revoke_all_lists p runs n S fs fs' : p <> ""%string ->
  Forall (fun r => get r.2 "crl" = p /\ absent r.2 "out" = true) runs -> 0 <= n -> n + zlen runs < 2 ^ 62 ->
  lists fs p n S -> revoke_all runs fs = Ret fs' -> lists fs' p (n + zlen runs) (S ++ concat (map (fun r => asked r.2) runs)).
Proof.
  intros Hp Hf. revert n S fs. induction Hf as [|[now f] runs [Hc Ho] _ IH]; intros n S fs Hn Hlt Hl E.
  - injection E as <-. cbn. by rewrite app_nil_r, Z.add_0_r.
  - cbn [revoke_all] in E. apply bind_ret in E as (fs1 & E1 & E). unfold zlen in *. cbn [length map concat snd] in *.
    pose proof (revoke_more now f fs fs1 p n S Hp Hc Ho ltac:(lia) Hl E1) as Hl1.
    specialize (IH (n + 1) (S ++ asked f) fs1 ltac:(lia) ltac:(lia) Hl1 E). rewrite <- app_assoc in IH.
    replace (n + Z.of_nat (Datatypes.S (length runs))) with (n + 1 + Z.of_nat (length runs)) by lia. exact IH.
Qed.


(** ** What the commands leave open *)

(** A list past its window takes no revocation: the operator has to begin a new
    one, without the old serials. *)
Lemma expired_list_stuck now f fs der rl : get f "crl" <> ""%string ->
  fs !! get f "crl" = Some der -> ParseRevocationList der = Ret rl -> now > rlNextUpdate rl ->
  forall fs', revoke now f fs <> Ret fs'.
Proof.
  intros Hne Hd Hrl Hnow fs' E. unfold revoke in E. apply guard_ret in E as [_ E].
  apply bind_ret in E as (caDER & _ & E). apply bind_ret in E as (ca & _ & E). apply bind_ret in E as (key & _ & E).
  apply bind_ret in E as (next & _ & E). apply bind_ret in E as (ss & _ & E). apply bind_ret in E as (out & Hout & _).
  unfold absent in Hout. rewrite bool_decide_eq_false_2 in Hout by done. unfold ReadFile in Hout. rewrite Hd in Hout.
  cbn [of_option mbind outcome_bind] in Hout. apply bind_ret in Hout as (rl' & Hv & _). unfold VerifyCRL in Hv. rewrite Hrl in Hv.
  cbn [mbind outcome_bind] in Hv. apply bind_ret in Hv as (c & _ & Hv). apply bind_ret in Hv as (u & _ & Hv).
  apply guard_ret in Hv as [Hw _]. apply orb_false_iff in Hw as [_ Hw]. rewrite Z.gtb_ltb in Hw. lia.
Qed.

(** Without [--serial] every certificate has serial 1, and so revoking one of
    them revokes them all. *)
Lemma default_serial_shared now1 now2 k1 k2 f1 f2 fs fs1 fs2 :
  absent f1 "serial" = true -> absent f2 "serial" = true -> absent f1 "key-out" = true -> absent f2 "key-out" = true ->
  issue now1 k1 f1 fs = Ret fs1 -> issue now2 k2 f2 fs = Ret fs2 ->
  exists l1 l2, fs1 !! or_else (get f1 "out") "leaf.der" = Some l1 /\ fs2 !! or_else (get f2 "out") "leaf.der" = Some l2 /\
    forall crlDER, CheckRevoked l1 crlDER = CheckRevoked l2 crlDER.
Proof.
  assert (Hone : forall now k f fs', absent f "serial" = true -> absent f "key-out" = true -> issue now k f fs = Ret fs' ->
    exists l c, fs' !! or_else (get f "out") "leaf.der" = Some l /\ ParseCertificate l = Ret c /\ SerialNumber c = 1).
  { intros now k f fs' Hs Hk E. unfold issue in E. apply guard_ret in E as [_ E].
    apply bind_ret in E as (caDER & _ & E). apply bind_ret in E as (ca & _ & E). apply bind_ret in E as (raw & _ & E).
    apply bind_ret in E as (seed & _ & E). apply bind_ret in E as (serial & Hser & E). apply bind_ret in E as (ttl & _ & E).
    apply bind_ret in E as (pub & _ & E). apply bind_ret in E as (key & _ & E). apply bind_ret in E as (leaf & Hl & E).
    unfold parsed in Hser. rewrite Hs in Hser. injection Hser as <-. rewrite Hk in E. injection E as <-.
    apply parse_created in Hl as (c & Hc & Hsn & _). exists leaf, c. split_and!; [|done|done]. unfold WriteFile. apply lookup_insert_eq. }
  intros Hs1 Hs2 Hk1 Hk2 E1 E2. destruct (Hone _ _ _ _ Hs1 Hk1 E1) as (l1 & c1 & Hw1 & Hc1 & Hn1).
  destruct (Hone _ _ _ _ Hs2 Hk2 E2) as (l2 & c2 & Hw2 & Hc2 & Hn2). exists l1, l2. split_and!; [done|done|]. intros crlDER.
  unfold CheckRevoked. rewrite Hc1, Hc2. cbn [mbind outcome_bind]. by rewrite Hn1, Hn2.
Qed.

End tool.

(** ** A run *)

Module ToyTool.

#[global] Instance timetext : TimeText := {| ParseDuration _ := Err "time: invalid duration"; ParseRFC3339 _ := Err "parsing time" |}.

Definition now : Z := 10 ^ 18.
Definition caKey : bytes := Toy.key 3.
Definition ran (m : outcome Files) : Files := match m with Ret fs => fs | _ => ∅ end.

(** [ca] and [issue], and the lists of two runs: 4, then 9 and the leaf's 7. *)
Definition words (l : list (string * string)) : gmap string string := list_to_map l.
Definition fs0 : Files := {["root.key" := hex_encode caKey]}.
Definition fs1 : Files := ran (mintCA now (words [("key", "root.key")]) fs0).
Definition common : list (string * string) := [("ca", "ca.der"); ("key", "root.key")].
Definition fs2 : Files := ran (issue now (Toy.key 5) (words (("identity", "vpn") :: ("serial", "7") :: common)) fs1).
Definition first : gmap string string := words (("serial", "4") :: ("out", "crl.der") :: common).
Definition again : gmap string string := words (("serial", "9, 7") :: ("crl", "crl.der") :: common).
Definition check : gmap string string := words [("cert", "leaf.der"); ("ca", "ca.der"); ("crl", "crl.der")].
Definition fs3 : Files := ran (fs ← revoke (fun b => b) now first fs2; revoke_all (fun b => b) [(now, again)] fs).

Definition file (path : string) : bytes := default [] (fs3 !! path).
Definition ca : Certificate := match ParseCertificate (file "ca.der") with Ret c => c | _ => ToyX509.ca end.

End ToyTool.

