(* ===== verification/ShareFiles.v ===== *)
(** * Share files: the JSON of [FrostShareFile] ([frost.go]) and [Shard] ([shamir.go])

    What the ceremony tools write for each member and the other programs load.
    The keys of a share are byte strings that are never nil.  Lemmas: a file
    that was written is the file that is loaded; a share of a ceremony without a
    dealer passes the checks of [Signer]. *)
From S2P Require Import Prelude Crypto Encoding Json Indent Cli Modular Edwards EdwardsTheory EdwardsCodec.
From S2P Require Import Shamir Frost FrostTheory FrostSpec Dkg DkgTheory TimelineTheory TimelineFile Identity Council Recovery Gateway.

(** ** FROST shares *)

Definition commits_json (g : DkgCommitJSON) : json :=
  JObj [jfield "id" (jstring (dcID g)); jfield "commits" (JArr (map jstring (dcCommits g)))].
Definition omit_empty {A} (n : string) (f : A -> json) (l : list A) : list (bytes * json) :=
  match l with [] => [] | _ => [jfield n (JArr (map f l))] end.
Definition share_json (f : FrostShareFile) : json :=
  JObj ([jfield "id" (jstring (ffID f)); jfield "x" (jint (ffX f)); jfield "y" (jbig (ffY f));
         jfield "group_pub" (jslice (Some (ffGroupPub f))); jfield "pub_share" (jslice (Some (ffPubShare f)))] ++
        omit_empty "vk" jstring (ffVK f) ++ omit_empty "global_vk" commits_json (ffGlobalVK f)).

(** [FrostShareFile.Marshal]. *)
Definition Marshal (f : FrostShareFile) : bytes := print (share_json f).

Definition commits_names : list string := ["id"; "commits"]%string.
Definition commits_set (n : string) (v : json) (g : DkgCommitJSON) : option DkgCommitJSON :=
  if decide (n = "id"%string) then i ← decode_string (dcID g) v; Some {| dcID := i; dcCommits := dcCommits g |}
  else c ← decode_strings v; Some {| dcID := dcID g; dcCommits := c |}.
Definition decode_commits : json -> option DkgCommitJSON :=
  decode_struct commits_names commits_set {| dcID := ""; dcCommits := [] |}.

Definition share_names : list string := ["id"; "x"; "y"; "group_pub"; "pub_share"; "vk"; "global_vk"]%string.
Definition share_set (n : string) (v : json) (f : FrostShareFile) : option FrostShareFile :=
  let '{| ffID := i; ffX := x; ffY := y; ffGroupPub := g; ffPubShare := p; ffVK := k; ffGlobalVK := gk |} := f in
  let mk i x y g p k gk :=
    Some {| ffID := i; ffX := x; ffY := y; ffGroupPub := g; ffPubShare := p; ffVK := k; ffGlobalVK := gk |} in
  if decide (n = "id"%string) then i ← decode_string i v; mk i x y g p k gk
  else if decide (n = "x"%string) then x ← decode_int64 x v; mk i x y g p k gk
  else if decide (n = "y"%string) then y ← decode_big v; mk i x y g p k gk
  else if decide (n = "group_pub"%string) then g ← decode_bytes v; mk i x y (sb g) p k gk
  else if decide (n = "pub_share"%string) then p ← decode_bytes v; mk i x y g (sb p) k gk
  else if decide (n = "vk"%string) then k ← decode_strings v; mk i x y g p k gk
  else gk ← decode_list decode_commits v; mk i x y g p k gk.
Definition share_zero : FrostShareFile :=
  {| ffID := ""; ffX := 0; ffY := None; ffGroupPub := []; ffPubShare := []; ffVK := []; ffGlobalVK := [] |}.
Definition decode_share : json -> option FrostShareFile := decode_struct share_names share_set share_zero.

(** [loadShare]: one file, as a signing participant. *)
Definition loadShare (fs : Files) (path : string) : outcome FrostSigner :=
  b ← ReadFile fs path;
  match v ← parse b; decode_share v with
  | None => Err "share %s: %w"
  | Some f => match Signer f with Err _ => Err "share %s: %w" | r => r end
  end.

(** ** Shares of a secret *)

Definition shard_json (s : Shard) : json :=
  JObj ([jfield "x" (jbig (SX s)); jfield "y" (jbig (SY s))] ++ (if SLen s =? 0 then [] else [jfield "len" (jint (SLen s))])).
Definition MarshalShard (s : Shard) : bytes := print (shard_json s).

(** ** What is written is loaded *)

Definition commits_ok (g : DkgCommitJSON) : Prop := valid_string (dcID g) /\ Forall valid_string (dcCommits g).
Definition file_ok (f : FrostShareFile) : Prop :=
  valid_string (ffID f) /\ in_int64 (ffX f) /\ Forall valid_string (ffVK f) /\ Forall commits_ok (ffGlobalVK f).

Lemma decode_strings_json l : decode_strings (JArr (map jstring l)) = Some l.
Proof. apply decode_list_strings. Qed.

Lemma commits_decode g : commits_ok g -> decode_commits (commits_json g) = Some g.
Proof.
  intros [Hi Hc]. unfold decode_commits, commits_json. rewrite decode_struct_obj.
  struct_step commits_set. struct_step_with commits_set ltac:(rewrite decode_strings_json). by destruct g.
Qed.

Lemma commits_good g : commits_ok g ->
  wf (commits_json g) /\ norm (commits_json g) = commits_json g /\ (depth (commits_json g) <= 2)%nat.
Proof.
  intros [Hi Hc]. unfold commits_json, jfield. split_and!.
  - cbn [wf all_of snd]. split_and!; [exact I|apply wf_strings|exact I].
  - cbn [norm map fst snd]. rewrite !coerce_ascii by done. rewrite norm_jstring by done.
    change (JArr (map norm (map jstring (dcCommits g)))) with (norm (JArr (map jstring (dcCommits g)))). by rewrite norm_strings.
  - pose proof (depth_strings (dcCommits g)) as Hd. change (depth (JObj ?l)) with (S (list_max (map (fun kv => depth kv.2) l))).
    cbn [map snd list_max foldr]. cbn [depth jstring] in *. lia.
Qed.

Lemma forall_good {A} (f : A -> json) (d : nat) l :
  Forall (fun x => wf (f x) /\ norm (f x) = f x /\ (depth (f x) <= d)%nat) l ->
  wf (JArr (map f l)) /\ norm (JArr (map f l)) = JArr (map f l) /\ (depth (JArr (map f l)) <= S d)%nat.
Proof.
  intros HF. split_and!.
  - cbn [wf]. apply all_of_Forall, Forall_map. eapply Forall_impl; [exact HF|]. by intros x (? & _).
  - cbn [norm]. f_equal. rewrite map_map. induction HF as [|x l (_ & Hx & _) _ IH]; [done|]. cbn [map]. by rewrite Hx, IH.
  - cbn [depth]. apply le_n_S, list_max_le. rewrite map_map. apply Forall_map. eapply Forall_impl; [exact HF|]. by intros x (_ & _ & ?).
Qed.

(** The members of an object, one by one. *)
Definition field_good (kv : bytes * json) : Prop :=
  coerce kv.1 = kv.1 /\ wf kv.2 /\ norm kv.2 = kv.2 /\ (depth kv.2 <= 3)%nat.

Lemma fields_ok l : Forall field_good l -> wf (JObj l) /\ norm (JObj l) = JObj l /\ (depth (JObj l) <= 4)%nat.
Proof.
  intros HF. split_and!.
  - cbn [wf]. apply all_of_Forall. eapply Forall_impl; [exact HF|]. by intros x (_ & ? & _).
  - cbn [norm]. f_equal. induction HF as [|[k v] l (Hk & _ & Hv & _) _ IH]; [done|].
    cbn [map fst snd] in *. by rewrite Hk, Hv, IH.
  - cbn [depth]. apply le_n_S, list_max_le, Forall_map. eapply Forall_impl; [exact HF|]. by intros x (_ & _ & _ & ?).
Qed.

Lemma fields_parse l : Forall field_good l -> parse (print (JObj l)) = Some (JObj l).
Proof. intros (? & Hn & ?)%fields_ok. rewrite parse_print; [by rewrite Hn|done|pose proof nesting_room; lia]. Qed.
Lemma fields_reparse l : Forall field_good l -> parse (indent 0 (JObj l)) = Some (JObj l).
Proof. intros (? & Hn & ?)%fields_ok. rewrite parse_indent; [by rewrite Hn|done|pose proof nesting_room; lia]. Qed.

Lemma field_intro n v : forallb (fun b => byte_Z b <? 128) (to_bytes n) = true ->
  wf v -> norm v = v -> (depth v <= 3)%nat -> field_good (jfield n v).
Proof. intros Hn Hw Hv Hd. split_and!; [by apply coerce_ascii|done..]. Qed.

Lemma slice_field n s : forallb (fun b => byte_Z b <? 128) (to_bytes n) = true -> field_good (jfield n (jslice s)).
Proof. intros Hn. apply field_intro; [done|apply wf_jslice|apply norm_jslice|]. destruct s; cbn; lia. Qed.

Lemma omit_field {A} n (f : A -> json) l : forallb (fun b => byte_Z b <? 128) (to_bytes n) = true ->
  Forall (fun x => wf (f x) /\ norm (f x) = f x /\ (depth (f x) <= 2)%nat) l -> Forall field_good (omit_empty n f l).
Proof.
  intros Hn HF. unfold omit_empty. destruct l as [|x l]; [constructor|]. destruct (forall_good f 2 _ HF) as (? & ? & ?).
  constructor; [by apply field_intro|constructor].
Qed.

Lemma share_fields f : file_ok f -> parse (Marshal f) = Some (share_json f).
Proof.
  intros (Hi & Hx & Hv & Hg). unfold Marshal, share_json. apply fields_parse.
  apply Forall_app; split; [|apply Forall_app; split].
  - repeat (apply Forall_cons; split); [..|constructor]; try apply slice_field; try done;
      apply field_intro; try done; try apply wf_jint; try apply wf_jbig; try apply norm_jbig.
    + by apply norm_jstring.
    + cbn. lia.
    + cbn. lia.
    + destruct (ffY f); cbn; lia.
  - apply omit_field; [done|]. eapply Forall_impl; [exact Hv|]. intros x Hx'. split; [exact I|].
    split; [by apply norm_jstring|cbn; lia].
  - apply omit_field; [done|]. eapply Forall_impl; [exact Hg|]. apply commits_good.
Qed.

Lemma decode_list_json {A} (f : A -> json) dec l : Forall (fun x => dec (f x) = Some x) l -> decode_list dec (JArr (map f l)) = Some l.
Proof. intros HF. cbn. induction HF as [|x l Hx _ IH]; [done|]. cbn. by rewrite Hx, IH. Qed.

(** A share file that is written is the share file that is loaded. *)
Theorem share_roundtrip f : file_ok f -> (v ← parse (Marshal f); decode_share v) = Some f.
Proof.
  intros Hf. rewrite share_fields by done. destruct Hf as (Hi & Hx & Hv & Hg). cbn [mbind option_bind].
  assert (HG : decode_list decode_commits (JArr (map commits_json (ffGlobalVK f))) = Some (ffGlobalVK f)).
  { apply decode_list_json. eapply Forall_impl; [exact Hg|]. apply commits_decode. }
  unfold decode_share, share_json. rewrite decode_struct_obj. cbn [app]. unfold share_zero.
  do 2 struct_step share_set. struct_step_with share_set ltac:(rewrite decode_jbig). do 2 struct_step share_set. cbn [sb].
  destruct f as [i x y g p [|k ks] [|gk gks]]; cbn [ffID ffX ffY ffGroupPub ffPubShare ffVK ffGlobalVK omit_empty app] in *;
    try (struct_step_with share_set ltac:(rewrite decode_strings_json));
    try (struct_step_with share_set ltac:(rewrite HG)); reflexivity.
Qed.

Definition shard_ok (s : Shard) : Prop := in_int64 (SLen s).

Lemma shard_roundtrip s : shard_ok s -> (v ← parse (MarshalShard s); decode_shard v) = Some s.
Proof.
  intros Hs. unfold MarshalShard, shard_json. rewrite fields_parse.
  - cbn [mbind option_bind]. unfold decode_shard. rewrite decode_struct_obj. destruct s as [x y l]. cbn [SX SY SLen app] in *.
    rewrite decode_member_cons by (apply (bool_decide_unpack _); vm_compute; exact I). cbn beta. rewrite decide_True by done.
    rewrite decode_jbig. cbn [mbind option_bind SY SLen].
    rewrite decode_member_cons by (apply (bool_decide_unpack _); vm_compute; exact I). cbn beta. rewrite decide_False, decide_True by done.
    rewrite decode_jbig. cbn [mbind option_bind SX SLen]. destruct (Z.eqb_spec l 0) as [->|]; [done|].
    rewrite decode_member_cons by (apply (bool_decide_unpack _); vm_compute; exact I). cbn beta. rewrite !decide_False by done.
    by rewrite decode_jint.
  - apply Forall_app. split.
    + repeat (apply Forall_cons; split); [..|constructor];
        (apply field_intro; [done|apply wf_jbig|apply norm_jbig|]; destruct (SX s), (SY s); cbn; lia).
    + destruct (SLen s =? 0); constructor; [|constructor]. apply field_intro; [done|apply wf_jint|done|cbn; lia].
Qed.

(** ** Shares of a ceremony load *)

(** The file of a signer, without dealer: its vectors are the members'. *)
Definition dkg_file (s : FrostSigner) : FrostShareFile :=
  {| ffID := fsID s; ffX := fsX s; ffY := Some (Share s); ffGroupPub := GroupPub s; ffPubShare := PubShare s;
     ffVK := []; ffGlobalVK := GlobalVK s |}.

Lemma own_commits_one id xs (hs : list string) : id ∈ map member_id xs ->
  own_commits id (map (fun x => {| dcID := member_id x; dcCommits := hs |}) xs) = hs.
Proof.
  unfold own_commits. intros Hin.
  assert (Hg : forall vk, (vk = hs \/ id ∈ map member_id xs) -> foldl (fun vk g => if decide (dcID g = id) then dcCommits g else vk) vk
    (map (fun x => {| dcID := member_id x; dcCommits := hs |}) xs) = hs); [|apply Hg; by right].
  clear Hin. induction xs as [|x xs IH]; intros vk Hv; cbn [map foldl]; [by destruct Hv as [|?%not_elem_of_nil]|].
  cbn [dcID dcCommits]. apply IH. case_decide; [by left|]. destruct Hv as [|[?|]%elem_of_cons]; [by left|congruence|by right].
Qed.

Lemma dkg_file_ok n gp F s : good_signer n gp F s -> publishes n F (GlobalVK s) -> file_ok (dkg_file s).
Proof.
  intros ([_ _ _ _ Hi] & _ & _ & x & Hx & Hid & HX) (hs & pts & f & xs & _ & _ & _ & _ & Hhs & Hxs & HG).
  split_and!; cbn [dkg_file ffID ffX ffVK ffGlobalVK].
  - rewrite Hid. apply member_id_valid.
  - unfold index_ok in Hi. unfold in_int64. lia.
  - constructor.
  - rewrite HG. apply Forall_map, Forall_forall. intros y _. split; [apply member_id_valid|done].
Qed.

(** The signer a ceremony's file loads as: with its own commitments. *)
Definition reloaded (s s' : FrostSigner) : Prop :=
  fsID s' = fsID s /\ fsX s' = fsX s /\ Share s' = Share s /\ GroupPub s' = GroupPub s /\
  PubShare s' = PubShare s /\ used s' = false.

Lemma dkg_file_signer n gp F s : encodes gp (peval F 0) -> good_signer n gp F s -> publishes n F (GlobalVK s) ->
  exists s', Signer (dkg_file s) = Ret s' /\ reloaded s s'.
Proof.
  intros Hg (Hk & _ & Hr & x & Hx & Hid & HX) (hs & pts & f & xs & Ep & Hp & Hf & Hne & _ & Hxs & HG).
  assert (H1 : length (GroupPub s) = 32%nat) by (rewrite (k_pub _ _ _ Hk); by eapply encodes_length).
  assert (H2 : length (PubShare s) = 32%nat) by (eapply encodes_length, k_pubshare, Hk).
  unfold Signer, dkg_file. cbn [ffY ffGroupPub ffPubShare ffVK ffGlobalVK ffID ffX]. rewrite H1, H2.
  replace ((Share s >=? fl) || (Share s <? 0)) with false by (symmetry; apply orb_false_iff; lia).
  cbn [guard PublicKeySize Nat.eqb negb orb].
  assert (Hown : own_commits (fsID s) (GlobalVK s) = hs).
  { rewrite HG. apply own_commits_one. rewrite Hid, Hxs. by apply list_elem_of_In, in_map, list_elem_of_In. }
  destruct hs as [|h hs]; [cbn in Ep; by injection Ep as <-|].
  destruct (GlobalVK s) as [|g gs] eqn:Eg; [by cbn in Hown|]. rewrite Hown, Ep. cbn [mbind outcome_bind].
  destruct (ShareVerifies_spec pts f (fsX s) (Share s) (proj1 (k_index _ _ _ Hk)) (proj1 Hr) Hp) as (b & -> & Hb).
  rewrite (proj2 Hb) by (rewrite Hf; apply Hk). eexists. split; [done|]. by split.
Qed.

(** The same through the file system. *)
Lemma dkg_file_loads n gp F s fs path : encodes gp (peval F 0) -> good_signer n gp F s -> publishes n F (GlobalVK s) ->
  fs !! path = Some (Marshal (dkg_file s)) -> exists s', loadShare fs path = Ret s' /\ reloaded s s'.
Proof.
  intros Hg Hs Hp Hfs. destruct (dkg_file_signer n gp F s Hg Hs Hp) as (s' & E & Hr). exists s'. split; [|done].
  unfold loadShare, ReadFile. rewrite Hfs. cbn [of_option mbind outcome_bind].
  pose proof (share_roundtrip _ (dkg_file_ok n gp F s Hs Hp)) as Hd. cbn [mbind option_bind] in Hd. rewrite Hd. by rewrite E.
Qed.

Lemma reloaded_good n gp F s s' : reloaded s s' -> good_signer n gp F s -> good_signer n gp F s'.
Proof.
  intros (Hi & HX & Hy & Hg & Hp & Hu) ([] & _ & Hr & x & Hx & Hid & HX'). split; [|split; [done|split; [by rewrite Hy|]]].
  - split; rewrite ?Hg, ?Hy, ?HX, ?Hp; done.
  - exists x. by rewrite Hi, HX.
Qed.
