(* ===== verification/CouncilTool.v ===== *)
(** * The council tool: [cmd/council/main.go]

    The commands over the files of the operator: the one-time ceremony that
    writes a share file per member, the start of a networked ceremony or of a
    serving member from its files, and the offline recovery from share files and
    an evidence file.  Directories are part of the paths; the clock, the random
    draws and the orders of map iteration are arguments.  TLS sockets are left
    out: a node or server is what is built before it listens.

    Theorem: from any quorum of the files of one ceremony, and the evidence of a
    compromise of a timeline anchored to it, the offline recovery writes a fork
    that loads, verifies and passes the checks of the gateway that is anchored to
    the council - but without a key to go on signing it. *)
From S2P Require Import Prelude Crypto Encoding Json Indent Cli Timeline TimelineTheory TimelineFile Graph TrustState.
From S2P Require Import Modular Edwards EdwardsCodec Shamir Frost FrostTheory FrostSpec Dkg DkgTheory Identity Pq.
From S2P Require Import Council CouncilTheory Recovery CouncilNet CouncilNetTheory.
From S2P Require Import Gateway GatewayTheory ShareFiles.

(** ** The ceremony *)

(** [mustInt]: a character that is no digit makes it 0, and the number wraps. *)
Fixpoint must_int (n : Z) (b : bytes) : Z :=
  match b with
  | [] => n
  | c :: b => if is_digit c then must_int (wrap64 (n * 10 + (byte_Z c - 48))) b else 0
  end.
Definition mustInt (s : string) : Z := must_int 0 (to_bytes s).

Definition share_path (dir id : string) : string := (dir ++ "/share-" ++ id ++ ".json")%string.
Definition write_shares (dir : string) (ss : list FrostSigner) (fs : Files) : Files :=
  foldl (fun fs s => WriteFile fs (share_path dir (fsID s)) (Marshal (dkg_file s))) fs ss.

(** The files, and the group key that is printed. *)
Definition dkgCmd (ord : loop -> list string -> list string) (draws : Z -> nat -> option bytes)
    (f : gmap string string) (fs : Files) : outcome (Files * bytes) :=
  guard (absent f "members" || absent f "threshold" || absent f "out") "usage: dkg" (
  let n := mustInt (get f "members") in
  let k := mustInt (get f "threshold") in
  guard ((k <? 2) || (k >? n)) "need 2 <= threshold <= members" (
  '(signers, groupPub) ← DkgCeremony ord n k draws;
  Ret (write_shares (get f "out") signers fs, groupPub))).

(** ** The networked member *)

Section member.
Context `{Hashes} `{Ed25519} `{X509}.

Definition memberTLS (f : gmap string string) (fs : Files) : outcome (bytes * TLSConfig) :=
  raw ← ReadFile fs (get f "key");
  seed ← of_option "hex" (hex_decode (TrimSpace raw));
  key ← keyFromFile seed;
  caDER ← ReadFile fs (get f "ca");
  leaf ← ReadFile fs (get f "cert");
  cfg ← MutualTLSConfig caDER leaf (Some key);
  Ret (key, cfg).

Fixpoint read_peers (parts : list bytes) (m : gmap string string) : outcome (gmap string string) :=
  match parts with
  | [] => Ret m
  | p :: parts =>
      '(id, addr) ← of_option "bad --peers entry: " (cut (ch ":") p);
      read_peers parts (<[of_bytes id := of_bytes addr]> m)
  end.

Definition needs (names : list string) (f : gmap string string) : bool := existsb (absent f) names.

(** [dkgNetCmd] up to the listener, and what it writes when [RunOn] is done. *)
Definition dkg_net_node (order : list string -> list string) (draw : nat -> option bytes)
    (f : gmap string string) (fs : Files) : outcome (DkgNode * TLSConfig) :=
  guard (needs ["me"; "members"; "threshold"; "out"; "ca"; "cert"; "key"; "peers"]%string f) "usage: dkg-net" (
  n ← parse_int (get f "members");
  t ← parse_int (get f "threshold");
  peers ← read_peers (split_on (ch ",") (to_bytes (get f "peers"))) ∅;
  guard (negb (Z.of_nat (size peers) =? n)) "--members %d != %d peers" (
  '(_, cfg) ← memberTLS f fs;
  node ← NewDkgNode order (get f "me") (get f "addr") n t peers draw;
  Ret (node, cfg))).
Definition dkg_net_file (f : gmap string string) (s : FrostSigner) (group : bytes) (fs : Files) : Files :=
  WriteFile fs (Join (get f "out") (get f "me" ++ ".json"))
    (indent 0 (share_json {| ffID := get f "me"; ffX := fsX s; ffY := Some (Share s); ffGroupPub := group;
                             ffPubShare := PubShare s; ffVK := []; ffGlobalVK := GlobalVK s |})).

(** [serveCmd] up to the listener: the server, from its share and its last epoch. *)
Definition serve_member (f : gmap string string) (fs : Files) : outcome (CouncilMemberServer * bytes * TLSConfig) :=
  guard (needs ["id"; "addr"; "share"; "ca"; "cert"; "key"]%string f) "usage: serve" (
  signer ← loadShare fs (get f "share");
  '(key, cfg) ← memberTLS f fs;
  Ret (NewCouncilMemberServer (get f "id") (Some signer) (get f "epoch") (fs !! get f "epoch"), key, cfg)).

End member.

(** ** Offline recovery *)

Record RecoverArgs := { raEvidence : string; raShares : list string; raOut : string }.

(** [taking]: the words after [--shares], up to the next flag. *)
Fixpoint recover_args (args : list string) (taking : bool) (r : RecoverArgs) : RecoverArgs :=
  match args with
  | [] => r
  | a :: rest =>
      if taking && negb (String.prefix "--" a) then
        recover_args rest true {| raEvidence := raEvidence r; raShares := raShares r ++ [a]; raOut := raOut r |}
      else if decide (a = "--evidence"%string) then
        match rest with
        | v :: rest => recover_args rest false {| raEvidence := v; raShares := raShares r; raOut := raOut r |}
        | [] => r
        end
      else if decide (a = "--shares"%string) then recover_args rest true r
      else if decide (a = "--out"%string) then
        match rest with
        | v :: rest => recover_args rest false {| raEvidence := raEvidence r; raShares := raShares r; raOut := v |}
        | [] => r
        end
      else recover_args rest false r
  end.

(** [evidenceFile]: the index, and the text of the timeline. *)
Definition evidence_file (b : bytes) : option (Z * bytes) :=
  v ← parse b;
  decode_struct ["bad_index"; "timeline"]%string (fun n v e =>
    if decide (n = "bad_index"%string) then z ← decode_int64 e.1 v; Some (z, e.2) else Some (e.1, print v)) (0, []) v.

Fixpoint load_shares (fs : Files) (paths : list string) : outcome (list FrostSigner) :=
  match paths with
  | [] => Ret []
  | p :: paths => s ← loadShare fs p; ss ← load_shares fs paths; Ret (s :: ss)
  end.

Definition detected (badIdx : Z) : TrustEvent :=
  {| EType := EvDetected; ETimestamp := 0; EPayload := Some (print (JObj [jfield "bad_index" (jint badIdx)]));
     EParentHash := None; ESignature := None |}.

Section recovery.
Context `{Hashes} `{Ed25519} `{X509}.

Definition recover (o : Orders) (seed : option bytes) (now : Z) (draw : nat -> option bytes)
    (evidencePath : string) (sharePaths : list string) (outDir : string) (fs : Files) : outcome Files :=
  raw ← ReadFile fs evidencePath;
  ev ← of_option "evidence: %w" (evidence_file raw);
  tl ← wrap_err "evidence timeline: %w" (UnmarshalTimeline ev.2);
  signers ← load_shares fs sharePaths;
  '(_, rep) ← Recover o seed now draw (NewCouncil (map member_of signers)) tl (Some (detected ev.1)) 3;
  rep ← rep;
  guard (negb (Pass (Some (rrVerify rep)))) "recovery verification failed" (
  Ret (if bool_decide (outDir = ""%string) then fs
       else WriteFile (WriteFile fs (outDir ++ "/fork.json") (TimelineFile.Marshal (rrTimeline rep) false))
              (outDir ++ "/commit.json") (indent 0 (fc_json (rrCommit rep))))).

Definition recoverCmd (o : Orders) (seed : option bytes) (now : Z) (draw : nat -> option bytes)
    (args : list string) (fs : Files) : outcome Files :=
  let r := recover_args args false {| raEvidence := ""; raShares := []; raOut := "" |} in
  guard (bool_decide (raEvidence r = ""%string) || (length (raShares r) <? 3)%nat) "usage: recover" (
  recover o seed now draw (raEvidence r) (raShares r) (raOut r) fs).

End recovery.

Example recover_words :
  recover_args ["x"; "--shares"; "a"; "b"; "c"; "--out"; "d"; "e"; "--evidence"; "f"]%string false
    {| raEvidence := ""; raShares := []; raOut := "" |} =
  {| raEvidence := "f"; raShares := ["a"; "b"; "c"]%string; raOut := "d" |}.
Proof. reflexivity. Qed.

(** ** The files of a ceremony *)

#[global] Instance share_path_inj dir : Inj (=) (=) (share_path dir).
Proof.
  intros i j E. unfold share_path in E. apply (f_equal to_bytes) in E. rewrite !to_bytes_app in E.
  apply app_inv_head, app_inv_head, app_inv_tail in E. by apply (inj to_bytes).
Qed.

Lemma write_shares_lookup dir ss fs p : NoDup (map fsID ss) ->
  write_shares dir ss fs !! p =
    match list_find (fun s => share_path dir (fsID s) = p) ss with
    | Some (_, s) => Some (Marshal (dkg_file s))
    | None => fs !! p
    end.
Proof.
  unfold write_shares. induction ss as [|s ss IH] in fs |- *; cbn [map foldl list_find]; [done|].
  intros [Hs Hnd]%NoDup_cons. rewrite IH by done. case_decide as Hp.
  - destruct (list_find _ ss) as [[i s']|] eqn:Ef.
    + apply list_find_Some in Ef as (Hi & Hp' & _). exfalso. apply Hs. apply list_elem_of_In, in_map_iff.
      exists s'. split; [apply (inj (share_path dir)); congruence|]. by apply list_elem_of_In, (list_elem_of_lookup_2 _ i).
    + cbn. rewrite <- Hp. apply lookup_insert_eq.
  - destruct (list_find _ ss) as [[i s']|]; cbn; [done|]. by apply lookup_insert_ne.
Qed.

Lemma share_written dir ss fs s : NoDup (map fsID ss) -> s ∈ ss ->
  write_shares dir ss fs !! share_path dir (fsID s) = Some (Marshal (dkg_file s)).
Proof.
  intros Hnd Hs. rewrite write_shares_lookup by done.
  destruct (list_find _ ss) as [[i s']|] eqn:Ef.
  - apply list_find_Some in Ef as (Hi & Hp & _). apply (inj (share_path dir)) in Hp.
    apply list_elem_of_lookup in Hs as [k Hk].
    assert (i = k) as <-; [|congruence]. apply (NoDup_lookup (map fsID ss) i k (fsID s)); [done|..];
      by rewrite list_lookup_fmap, ?Hi, ?Hk; cbn; rewrite ?Hp.
  - apply list_find_None in Ef. rewrite Forall_forall in Ef. by destruct (Ef s Hs).
Qed.

(** A selection of the files, loaded. *)
Lemma shares_load n gp F dir sel fs : encodes gp (peval F 0) ->
  Forall (good_signer n gp F) sel -> Forall (fun s => publishes n F (GlobalVK s)) sel ->
  Forall (fun s => fs !! share_path dir (fsID s) = Some (Marshal (dkg_file s))) sel ->
  exists sel', load_shares fs (map (fun s => share_path dir (fsID s)) sel) = Ret sel' /\ Forall2 reloaded sel sel'.
Proof.
  intros Hg Hs Hp Hf. induction sel as [|s sel IH]; [by exists []|]. apply Forall_cons in Hs as [Hs1 Hs], Hp as [Hp1 Hp], Hf as [Hf1 Hf].
  cbn [map load_shares]. destruct (dkg_file_loads n gp F s fs _ Hg Hs1 Hp1 Hf1) as (s' & -> & Hr). cbn [mbind outcome_bind].
  destruct (IH Hs Hp Hf) as (sel' & -> & H2). cbn [mbind outcome_bind]. exists (s' :: sel'). split; [done|by constructor].
Qed.

Lemma reloaded_ids sel sel' : Forall2 reloaded sel sel' -> ids_of sel' = ids_of sel.
Proof. induction 1 as [|s s' l l' Hr _ IH]; [done|]. cbn. by rewrite (proj1 Hr), IH. Qed.

(** Loaded shares of one ceremony are a quorum of its council. *)
Lemma loaded_quorum n gp F min sel : encodes gp (peval F 0) -> Forall (good_signer n gp F) sel -> NoDup (ids_of sel) ->
  0 < min <= zlen sel -> zlen F <= zlen sel ->
  let c := NewCouncil (map member_of sel) in quorum gp F (map fsID (holders (members c))) min c.
Proof.
  intros Hg Hs Hnd Hm HF c.
  assert (Hw : wanted (map fsID (holders (members c))) (members c) = sel) by (rewrite wanted_all; apply holders_of).
  split; rewrite ?Hw; try done.
  - unfold c. cbn [NewCouncil cGroup]. rewrite holders_of. destruct sel as [|s sel]; [unfold zlen in Hm; cbn in Hm; lia|].
    apply Forall_cons in Hs as [[Hk _] _]. cbn. by rewrite (k_pub _ _ _ Hk).
  - eapply Forall_impl; [exact Hs|]. by intros s [].
  - eapply Forall_impl; [exact Hs|]. intros s (_ & _ & _ & x & _ & -> & ->). done.
  - eapply Forall_impl; [exact Hs|]. by intros s (_ & ? & _).
  - lia.
  - unfold zlen in HF. lia.
  - intros ->. unfold zlen in Hm. cbn in Hm. lia.
Qed.

(** ** The evidence *)

(** What the benchmark tool writes: the index and the timeline, with its key. *)
Definition evidence_text (badIdx : Z) (t : Timeline) : bytes :=
  indent 0 (JObj [jfield "bad_index" (jint badIdx); jfield "timeline" (file_json (to_file t true))]).

Lemma members_value l : Forall member_good l -> wf (JObj l) /\ norm (JObj l) = JObj l /\ (depth (JObj l) <= 3)%nat.
Proof.
  intros HF. split_and!.
  - cbn [wf]. apply all_of_Forall. eapply Forall_impl; [exact HF|]. intros x Hx. apply Hx.
  - cbn [norm]. f_equal. induction HF as [|[k w] l ((m & Hk & Hm) & _ & Hv & _) _ IH]; [done|].
    cbn [map fst snd] in *. by rewrite Hk, coerce_ascii, Hv, IH by done.
  - cbn [depth]. apply le_n_S, list_max_le, Forall_map. eapply Forall_impl; [exact HF|]. intros x Hx. apply Hx.
Qed.

Lemma evidence_reads badIdx t : in_int64 badIdx -> storable t ->
  evidence_file (evidence_text badIdx t) = Some (badIdx, TimelineFile.Marshal t true).
Proof.
  intros Hb Hst. destruct (file_members_ok t true Hst) as [Hl Hgood]. unfold evidence_file, evidence_text, TimelineFile.Marshal.
  rewrite Hl. set (v := JObj (file_members t true)). rewrite fields_reparse.
  - cbn [mbind option_bind]. rewrite decode_struct_obj.
    rewrite decode_member_cons by (apply (bool_decide_unpack _); vm_compute; exact I). cbn beta. rewrite decide_True by done.
    rewrite decode_jint by done. cbn [mbind option_bind snd].
    rewrite decode_member_cons by (apply (bool_decide_unpack _); vm_compute; exact I). cbn beta. by rewrite decide_False.
  - apply Forall_cons. split; [|apply Forall_cons; split; [|constructor]].
    + apply field_intro; [done|apply wf_jint|done|cbn; lia].
    + assert (wf v /\ norm v = v /\ (depth v <= 3)%nat) as (? & ? & ?); [|by apply field_intro].
      by apply members_value.
Qed.

Lemma detected_decodes z : 0 <= z < 2 ^ 62 -> evidence_unmarshal (sb (EPayload (detected z))) = Some z.
Proof. apply evidence_decodes. Qed.

(** A timeline without rotations is what its file holds. *)
Lemma reload t : storable t -> rotations t = [] -> tstart t <> None ->
  UnmarshalTimeline (TimelineFile.Marshal t true) = Ret t.
Proof.
  intros Hst Hr Hs. rewrite Unmarshal_Marshal by done. f_equal. destruct t as [es k p st cp rot a]. cbn in *. subst rot.
  unfold startPub. cbn. by destruct st.
Qed.

(** ** The checks of a recovery *)

Definition two_checks (ck : gmap string bool) : Prop := forall k, is_Some (ck !! k) -> k = "P3"%string \/ k = "P5"%string.

Lemma two_insert ck k b : k = "P3"%string \/ k = "P5"%string -> two_checks ck -> two_checks (<[k := b]> ck).
Proof. intros Hk Hc j. destruct (decide (j = k)) as [->|Hne]; [done|]. rewrite lookup_insert_ne by done. apply Hc. Qed.

Lemma two_fold {A} (step : gmap string bool -> A -> gmap string bool) l ck :
  (forall c x, two_checks c -> two_checks (step c x)) -> two_checks ck -> two_checks (foldl step ck l).
Proof. intros Hs. induction l as [|x l IH] in ck |- *; cbn [foldl]; auto. Qed.

Lemma VerifyRecovery_pass pre post certs ids :
  Checks (VerifyRecovery pre post certs ids) !! "P3"%string = Some true ->
  Checks (VerifyRecovery pre post certs ids) !! "P5"%string = Some true ->
  Pass (Some (VerifyRecovery pre post certs ids)) = true.
Proof.
  assert (H2 : two_checks (Checks (VerifyRecovery pre post certs ids))).
  { unfold VerifyRecovery. cbn [Checks]. apply two_fold; [|apply two_fold].
    - intros ck [k c] Hc. unfold check_post. destruct (_ !! _); [done|]. destruct (negb _); [apply two_insert; auto|done].
    - intros ck [k c] Hc. unfold check_pre. cbv zeta.
      assert (two_checks (if Revoked c && match Certs post !! k with
        | Some pc => negb (Revoked pc) || negb (bool_decide (Identity pc = Identity c)) | None => true end
        then <["P3"%string := false]> ck else ck)) as Hc'; [destruct (_ && _); [apply two_insert; auto|done]|].
      destruct (_ && negb (bool_decide (_ = Some c))); [apply two_insert; auto|done].
    - intros k. destruct (decide (k = "P3"%string)) as [->|H3]; [auto|]. destruct (decide (k = "P5"%string)) as [->|H5]; [auto|].
      intros [b Hb]. rewrite lookup_insert_ne in Hb by done. apply lookup_singleton_Some in Hb as [? _]. auto. }
  intros H3 H5. cbn [Pass]. apply forallb_forall. intros [k b] Hk%list_elem_of_In%elem_of_map_to_list. cbn [snd].
  destruct (H2 k) as [-> | ->]; [by eexists|congruence..].
Qed.

(** ** From the ceremony to the recovered fork *)

(** A timeline read back without its key shows what it showed. *)
Definition keyless (t : Timeline) : Timeline :=
  {| events := events t; tkey := None; tpub := tpub t; tstart := Some (startPub t); councilPub := councilPub t;
     rotations := []; algo := algo t |}.

Lemma keyless_reads t : storable t -> UnmarshalTimeline (TimelineFile.Marshal t false) = Ret (keyless t).
Proof. apply Unmarshal_Marshal. Qed.

Lemma keyless_same `{Hashes} `{Ed25519} t : Verify (keyless t) = Verify t /\ Fold (keyless t) = Fold t /\ startPub (keyless t) = startPub t.
Proof. by split_and!. Qed.

Lemma mustInt_range s : in_int64 (mustInt s).
Proof.
  unfold mustInt. assert (H0 : in_int64 0) by (split; lia). revert H0. generalize 0.
  induction (to_bytes s) as [|c b IH]; intros z Hz; cbn [must_int]; [done|].
  destruct (is_digit c); [apply IH, wrap64_range|split; lia].
Qed.

Lemma dkg_files ord draws f fs : let n := mustInt (get f "members") in let k := mustInt (get f "threshold") in
  absent f "members" = false -> absent f "threshold" = false -> absent f "out" = false ->
  2 <= k <= n -> all_permute ord -> ceremony_drawn n k draws ->
  exists fs1 gp F ss, dkgCmd ord draws f fs = Ret (fs1, gp) /\ encodes gp (peval F 0) /\ zlen F = k /\
    ids_of ss ≡ₚ map member_id (indices n) /\ Forall (good_signer n gp F) ss /\
    Forall (fun s => publishes n F (GlobalVK s)) ss /\
    Forall (fun s => fs1 !! share_path (get f "out") (fsID s) = Some (Marshal (dkg_file s))) ss.
Proof.
  intros n k Hm Ht Ho Hk Hord Hd. pose proof (mustInt_range (get f "members")) as [_ Hn].
  destruct (DkgCeremony_full ord n k draws ltac:(lia) Hn Hord Hd) as (ss & gp & F & Ec & Hids & Hss & Hg & HF & Hpub).
  exists (write_shares (get f "out") ss fs), gp, F, ss. split; [|split_and!; try done].
  - unfold dkgCmd. rewrite Hm, Ht, Ho. cbn [orb guard]. fold n k.
    replace ((k <? 2) || (k >? n)) with false by (symmetry; apply orb_false_iff; lia). cbn [guard]. by rewrite Ec.
  - apply Forall_forall. intros s Hs. apply share_written; [|done]. change (map fsID ss) with (ids_of ss).
    rewrite Hids. by apply member_ids.
Qed.

(** The signers of a selection of the ids. *)
Lemma select_signers who ss : who ⊆ ids_of ss -> exists sel, ids_of sel = who /\ sel ⊆ ss.
Proof.
  induction who as [|id who IH]; intros Hs; [exists []; split; [done|by intros x Hx%elem_of_nil]|].
  destruct IH as (sel & <- & Hsel); [intros x Hx; apply Hs; by right|].
  assert (Hid : id ∈ ids_of ss) by (apply Hs; left). apply list_elem_of_fmap in Hid as (s & -> & Hin).
  exists (s :: sel). split; [done|]. intros x [->|Hx]%elem_of_cons; auto.
Qed.

Lemma reparse_text v : wf v -> (depth v <= maxNestingDepth)%nat -> parse (indent 0 v) = parse (print v).
Proof. intros Hw Hd. by rewrite parse_indent, parse_print. Qed.

Lemma commit_reads fc : fc_unmarshal (indent 0 (fc_json fc)) = fc_unmarshal (print (fc_json fc)).
Proof.
  destruct (fc_json_ok fc) as [Hw Hd]. unfold fc_unmarshal. rewrite reparse_text; [done|done|pose proof nesting_room; lia].
Qed.

Lemma some_val {A} (e : error) (x : A) : of_option e (Some x) = Ret x.
Proof. done. Qed.
Lemma ret_bind {A B} (x : A) (k : A -> outcome B) : (Ret x ≫= k) = k x.
Proof. done. Qed.

(** The steps of the tool, once the parts answer. *)
Lemma recover_steps `{Hashes} `{Ed25519} `{X509} o seed now draw evidencePath sharePaths outDir fs badIdx t sel c' rep :
  fs !! evidencePath = Some (evidence_text badIdx t) -> in_int64 badIdx -> storable t -> rotations t = [] -> tstart t <> None ->
  load_shares fs sharePaths = Ret sel -> outDir <> ""%string ->
  Recover o seed now draw (NewCouncil (map member_of sel)) t (Some (detected badIdx)) 3 = Ret (c', Ret rep) ->
  Pass (Some (rrVerify rep)) = true ->
  recover o seed now draw evidencePath sharePaths outDir fs =
    Ret (WriteFile (WriteFile fs (outDir ++ "/fork.json") (TimelineFile.Marshal (rrTimeline rep) false))
           (outDir ++ "/commit.json") (indent 0 (fc_json (rrCommit rep)))).
Proof.
  intros Hev Hb Hst Hrot Htst Hload Hout Er Hpass. unfold recover, ReadFile. rewrite Hev, some_val, ret_bind.
  rewrite evidence_reads, some_val, ret_bind by done. cbn [fst snd].
  rewrite reload by done. unfold wrap_err. rewrite ret_bind, Hload, ret_bind, Er, ret_bind, ret_bind, Hpass.
  rewrite bool_decide_eq_false_2 by done. reflexivity.
Qed.

(** The first handoff of the fork is the recovery's, and its epoch the last. *)
Lemma branch_after es re rest : Forall plain es -> EType re = EvRecovery -> branch_point (es ++ re :: rest) = Some (length es).
Proof.
  intros HF Hr. induction HF as [|e es He _ IH]; cbn [app branch_point length]; [by rewrite decide_True|].
  rewrite decide_False by exact He. by rewrite IH.
Qed.

Lemma skip_member {T} names (set : string -> json -> T -> option T) acc n v l : resolve names (to_bytes n) = None ->
  foldl (decode_member names set) (Some acc) (jfield n v :: l) = foldl (decode_member names set) (Some acc) l.
Proof. intros Hn. cbn [foldl]. unfold decode_member at 2, jfield. cbn [fst snd]. by rewrite Hn. Qed.

Lemma commit_epoch fc : in_int64 (fcEpoch fc) -> epoch_unmarshal (print (commit_json fc)) = Some (fcEpoch fc).
Proof.
  intros He. unfold epoch_unmarshal, commit_json. rewrite fields_parse.
  - cbn [mbind option_bind]. rewrite decode_struct_obj, skip_member by (vm_compute; reflexivity).
    rewrite decode_member_cons by (apply (bool_decide_unpack _); vm_compute; exact I). cbn beta. rewrite decode_jint by done.
    by rewrite skip_member by (vm_compute; reflexivity).
  - repeat (apply Forall_cons; split); [..|constructor]; try (by apply slice_field). apply field_intro; [done|apply wf_jint|done|cbn; lia].
Qed.

Lemma lastEpoch_last es ce z : last es = Some ce -> EType ce = EvCommit -> epoch_unmarshal (sb (EPayload ce)) = Some z -> z <= lastEpoch es.
Proof.
  intros Hl Ht Hz. destruct es as [|x es _] using rev_ind; [done|]. rewrite last_snoc in Hl. injection Hl as ->.
  unfold lastEpoch. rewrite foldl_app. cbn [foldl]. unfold epoch_step at 1. rewrite decide_True by done. rewrite Hz.
  destruct (Z.gtb_spec z (foldl epoch_step 0 es)); lia.
Qed.

Lemma writable_plain `{HL : HashLaws} `{EL : Ed25519Laws} priv t0 t :
  real_key priv -> NewTimeline (Some priv) = Ret t0 -> rtc TStep t0 t -> Forall plain (events t).
Proof.
  intros Hk Hnew Hr. destruct (new_origin priv algoSHA256 t0 Hk Hnew) as (Hw0 & Hst0 & _).
  destruct (steps_writable _ _ Hr Hw0 Hst0) as [(q & _ & _ & _ & _ & Hp & _) _]. done.
Qed.

Section offline.
Context `{HL : HashLaws} `{EL : Ed25519Laws} {Std : Ed25519Std} `{X : X509}.
Context (priv : bytes) (t0 t : Timeline) (badIdx : Z) (gp : bytes).
Context (o : Orders) (seed : bytes) (now : Z) (draw : nat -> option bytes) (ca : Certificate) (der : bytes).

(** A SHA-256 timeline the engine built without a rotation, anchored to the
    council, that goes wrong at [badIdx]. *)
Hypothesis Hpriv : real_key priv.
Hypothesis Hnew : NewTimeline (Some priv) = Ret t0.
Hypothesis Hreach : rtc TStep t0 t.
Hypothesis Hevents : Forall event_ok (events t).
Hypothesis Hnames : Forall named_ok (events t).
Hypothesis Hcf : collision_free sha256 (map signedBytes (events t)).
Hypothesis Hbad : 0 < badIdx <= zlen (events t).
Hypothesis Hlong : zlen (events t) < 2 ^ 62.
Hypothesis Hrot : rotations t = [].
Hypothesis Hfirst : lastEpoch (events t) < 1.
Hypothesis Hanchor : councilPub t = Some gp.
Hypothesis Hseed : length seed = SeedSize.
Hypothesis Hinv : valid_order (oInvalid o).
Hypothesis Hsign : valid_order (oSign o).
Hypothesis HoIds : permutes (oIds o).
Hypothesis HoAff : permutes (oAff o).
Hypothesis Hca : NewIdentityCA (Some (ed_keygen seed)) "to root epoch 1" now (AddYears now 10) = Ret (ca, der).

Let pre : gmap string Cert := fold_certs (take (Z.to_nat badIdx) (events t)).

(** What the two files of a recovery hold. *)
Definition recovered_files (certs ids : gset string) (outDir : string) (fs : Files) : Prop :=
  exists fork fc b b', fs !! (outDir ++ "/fork.json")%string = Some b /\ UnmarshalTimeline b = Ret fork /\
    fs !! (outDir ++ "/commit.json")%string = Some b' /\ fc_unmarshal b' = Some fc /\
    Adoptable gp t fork fc b /\ fcEpoch fc = 1 /\
    take (Z.to_nat badIdx) (events t) `prefix_of` events fork /\
    startPub fork = startPub t /\ tpub fork = pub_of (ed_keygen seed) /\ tkey fork = None /\
    (forall x y, x ∈ certs -> Certs (Fold fork) !! x = Some y -> Revoked y = true) /\
    (forall i, i ∈ ids -> is_Some (Certs (Fold fork) !! reissued_id i 0)).

Lemma branch_here f re e rep : events t !! Z.to_nat (badIdx - 1) = Some e -> Fork t (Hash e) = Ret f ->
  events f ++ [re] `prefix_of` events rep -> EType re = EvRecovery ->
  exists idx, branch_point (events rep) = Some idx /\ (idx <= length (events t))%nat /\
    map Hash (take idx (events t)) = map Hash (take idx (events rep)).
Proof.
  intros He Ef [rest Erep] Hre.
  destruct (Rollback_writable priv algoSHA256 t0 t badIdx) as (f' & Er & Hev & _); try done.
  { unfold first_rotation. rewrite Hrot. lia. }
  unfold Rollback in Er. destruct (Z.leb_spec badIdx 0); [lia|]. rewrite He, Ef in Er. injection Er as <-.
  exists (Z.to_nat badIdx). rewrite Erep, Hev, <- app_assoc. cbn [app].
  assert (Hlen : length (take (Z.to_nat badIdx) (events t)) = Z.to_nat badIdx) by (rewrite length_take; unfold zlen in Hbad; lia).
  rewrite branch_after; [|apply Forall_take; by eapply writable_plain|done]. rewrite Hlen. split; [done|].
  split; [unfold zlen in Hbad; lia|]. rewrite take_app_le, take_take by lia. by rewrite Nat.min_id.
Qed.

Lemma quorum_recovers F n sel certs ids fs evidencePath sharePaths outDir :
  encodes gp (peval F 0) -> Forall (good_signer n gp F) sel -> NoDup (ids_of sel) -> 3 <= zlen sel -> zlen F <= zlen sel ->
  all_drawn draw 0 (2 * length sel) -> load_shares fs sharePaths = Ret sel ->
  fs !! evidencePath = Some (evidence_text badIdx t) -> outDir <> ""%string ->
  InvalidationSet (oInvalid o) t badIdx = Ret (certs, ids) ->
  (forall i, i ∈ ids -> pre !! reissued_id i 0 = None) ->
  exists fs', recover o (Some seed) now draw evidencePath sharePaths outDir fs = Ret fs' /\
    recovered_files certs ids outDir fs'.
Proof.
  intros Hg Hgood Hnd H3 HF Hdr Hload Hev Hout Hcert Hfresh. set (c := NewCouncil (map member_of sel)).
  assert (Hst : storable t) by (eapply built_storable; try done; by eapply encodes_length).
  assert (Htst : tstart t <> None).
  { destruct (new_origin priv algoSHA256 t0 Hpriv Hnew) as (Hw0 & Hst0 & _). by destruct (steps_writable _ _ Hreach Hw0 Hst0). }
  pose proof (loaded_quorum n gp F 3 sel Hg Hgood Hnd ltac:(lia) HF) as Hq. fold c in Hq.
  assert (Hw : wanted (map fsID (holders (members c))) (members c) = sel) by (unfold c; cbn [NewCouncil members]; by rewrite wanted_all, holders_of).
  assert (Hbz : 0 <= badIdx < 2 ^ 62) by lia.
  assert (Hca' : NewIdentityCA (Some (ed_keygen seed)) ("to root epoch " ++ of_bytes (dec_Z (wrap64 (cEpoch c + 1)))) now (AddYears now 10) = Ret (ca, der)).
  { rewrite <- Hca. reflexivity. }
  destruct (Recover_run priv t0 t badIdx gp F c 3 o seed now draw ca der) with (ev := detected badIdx)
    as (c' & rep & certs' & ids' & Er & Ei & (Hv & Ee & _) & Hpre & Hlive & Hsp & Hpub & Hf & Hr); try done.
  { unfold first_rotation. rewrite Hrot. lia. }
  { by rewrite Hw. }
  { by apply detected_decodes. }
  rewrite Hcert in Ei. injection Ei as <- <-.
  pose proof (HoIds (elements ids)) as Hoi. pose proof (HoAff (elements certs)) as Hoa.
  assert (Hreal : real_key (ed_keygen seed)) by (by exists seed).
  assert (Hkeys : keys_ok t) by (destruct Hst as (_ & Hs & _); unfold keys_ok, startPub; by destruct (tstart t)).
  assert (Hgl : length gp = PublicKeySize) by (by eapply encodes_length).
  pose proof (detected_decodes badIdx Hbz) as Hdec.
  destruct (Recover_storable _ _ _ _ _ _ _ _ _ _ _ Hdec (proj1 Hbad) Er Hreal Hkeys) as (Hstr & Har & Hcr); [by rewrite Hanchor|done|].
  destruct (Recover_inv _ _ _ _ _ _ _ _ _ _ _ Hdec (proj1 Hbad) Er) as
    (e & f & c1 & np & pl & fc & re & Ebad & Ef & Es & _ & Hbranch & Hre & _ & Efc & ce & Hlast & Hce & Hcp).
  assert (Hfc : fc_unmarshal (print (fc_json fc)) = Some fc).
  { refine (proj2 (SignCommit_inv _ _ _ _ _ _ _ _ _ _ _ _ Hsign (wrap64_range _) _ _ Es)); [cbn; split; lia|].
    unfold c. cbn [NewCouncil members]. rewrite holders_of. intros s Hs. rewrite Forall_forall in Hgood.
    destruct (Hgood s Hs) as (_ & _ & _ & x & _ & -> & _). apply member_id_valid. }
  assert (Hpass : Pass (Some (rrVerify rep)) = true).
  { rewrite Hr. destruct (Fold (rrTimeline rep)) as [m] eqn:Em. cbn [Certs] in Hf. rewrite Hf.
    destruct (recovered_checks 0 pre _ _ certs ids Hoi Hoa Hfresh) as [H1 H2]. by apply VerifyRecovery_pass. }
  eexists. split; [eapply recover_steps; try done; clear -Hbz; unfold in_int64; lia|].
  eexists _, fc, _, _. split.
  { unfold WriteFile. etrans; [apply lookup_insert_ne|apply lookup_insert_eq].
    intros E1. apply (f_equal to_bytes) in E1. rewrite !to_bytes_app in E1. apply app_inv_head in E1. discriminate E1. }
  split; [by apply keyless_reads|]. split; [apply lookup_insert_eq|].
  assert (Hfe : fcEpoch fc = 1) by (by rewrite <- Efc, Ee).
  destruct (keyless_same (rrTimeline rep)) as (Hsv & Hsf & Hss).
  assert (Hadopt : Adoptable gp t (keyless (rrTimeline rep)) fc (TimelineFile.Marshal (rrTimeline rep) false)).
  { split; [done|by rewrite <- Efc|by apply keyless_reads| | |].
    - apply Verify_good; [unfold keys_ok; rewrite Hss; apply Hlive|]. rewrite Hsv. by apply live_verifies.
    - by apply (branch_here f re e).
    - change (events (keyless (rrTimeline rep))) with (events (rrTimeline rep)).
      pose proof (lastEpoch_last _ _ 1 Hlast Hce) as Hle. rewrite Hcp in Hle. cbn [sb default from_option Datatypes.id] in Hle.
      rewrite commit_epoch, Hfe in Hle by (rewrite Hfe; split; lia). specialize (Hle eq_refl). lia. }
  rewrite commit_reads, Efc. split; [done|]. split; [exact Hadopt|]. split; [exact Hfe|]. rewrite Hsf, Hss.
  split; [exact Hpre|]. split; [exact Hsp|]. split; [exact Hpub|]. split; [done|]. rewrite Hf.
  split; [intros x y; by eapply recovered_revoked|].
  intros i Hi. eexists. by eapply recovered_new.
Qed.

End offline.

(** ** A run *)

Definition dkg_words : gmap string string :=
  list_to_map [("members", "3"); ("threshold", "2"); ("out", "keys")]%string.
Definition recover_line : list string :=
  ["--evidence"; "evidence.json"; "--shares"; "keys/share-M3.json"; "keys/share-M1.json"; "keys/share-M2.json"; "--out"; "post"]%string.

