(* ===== verification/KeyTool.v ===== *)
(** * The bootstrap and key tools: [cmd/to/main.go], [cmd/gateway/main.go]

    The commands of [to-tool] that make keys - the bootstrap key, its shares,
    the enrolment of nodes and its revocation, the key-encryption key of the
    vault - and the reading of share files and anchors when the gateway starts.
    Random draws are arguments.  [encoding/json] writes the keys of a map in
    order.

    Theorems: any quorum of the files [vaultkek] writes, listed for the gateway,
    joins to the key, which is in no file unless it was asked for; the shares
    [shard] makes of a bootstrap key belong to another key than the one in the
    file; a spent bootstrap key is refused under its own name only. *)
From S2P Require Import Prelude Crypto Encoding Json Indent Cli.
From S2P Require Import Modular Edwards EdwardsCodec Shamir Frost FrostTheory FrostSpec Vault Recovery Gateway ShareFiles.

Section keys.
Context `{Hashes} `{Ed25519}.

(** ** The bootstrap key *)

(** [ed25519.GenerateKey]: a seed is drawn. *)
Definition GenerateKey (draw : option bytes) : outcome bytes := s ← of_option "rand" draw; Ret (ed_keygen s).

Definition genKey (draw : option bytes) (path : string) (fs : Files) : outcome Files :=
  priv ← GenerateKey draw; Ret (WriteFile fs path (hex_encode priv)).

Definition revokedMarker (path : string) : string := (path ++ ".revoked")%string.

Definition revoke (args : list string) (fs : Files) : outcome Files :=
  let path := flag (take_flags ["--bootstrap"%string] args) "--bootstrap" in
  guard (bool_decide (path = ""%string)) "usage: revoke --bootstrap <keyfile>" (
  guard (bool_decide (fs !! path = None)) "revoke: no such key %s" (
  Ret (WriteFile fs (revokedMarker path) (to_bytes "revoked" ++ [Byte.x0a])))).

(** ** Enrolment *)

Definition known_role (r : string) : bool := bool_decide (r ∈ ["watchdog"; "council"; "auditor"; "consumer"]%string).

(** One line of the configuration: none, or a key and its value. *)
Definition config_line (line : bytes) : option (string * string) :=
  let line := TrimSpace line in
  if bool_decide (line = [] \/ head line = Some (ch "#")) then None
  else '(k, v) ← cut (ch ":") line; Some (of_bytes (TrimSpace k), of_bytes (TrimSpace v)).
Definition config_step (cfg : gmap string string) (line : bytes) : gmap string string :=
  match config_line line with Some (k, v) => <[k := v]> cfg | None => cfg end.

Definition parseConfig (fs : Files) (path : string) : outcome (gmap string string) :=
  raw ← ReadFile fs path;
  let cfg := foldl config_step ∅ (split_on Byte.x0a raw) in
  guard (absent cfg "node" || absent cfg "role") "config: requires node and role" (
  guard (negb (known_role (get cfg "role"))) "config: unknown role %q" (Ret cfg)).

Definition statement (cfg : gmap string string) (pub : bytes) : bytes :=
  print (JObj [jfield "node_id" (jstring (get cfg "node")); jfield "public_key" (jslice (Some pub));
               jfield "role" (jstring (get cfg "role"))]).
Definition certificate (cfg : gmap string string) (pub sig : bytes) : bytes :=
  indent 0 (JObj [jfield "bootstrap_signature" (jslice (Some sig)); jfield "node_id" (jstring (get cfg "node"));
                  jfield "public_key" (jslice (Some pub)); jfield "role" (jstring (get cfg "role"))]).

Definition node_config (configPath nodeID role : string) (fs : Files) : outcome (gmap string string) :=
  if negb (bool_decide (configPath = ""%string)) then parseConfig fs configPath
  else
    let role := if bool_decide (role = ""%string) then "watchdog"%string else role in
    guard (negb (known_role role)) "config: unknown role %q" (
    Ret (<["node"%string := nodeID]> {["role"%string := role]})).

Definition enroll (draw : option bytes) (args : list string) (fs : Files) : outcome Files :=
  let f := take_flags ["--bootstrap"; "--config"; "--node-id"; "--role"]%string args in
  let path := flag f "--bootstrap" in
  guard (bool_decide (path = ""%string) ||
         bool_decide (flag f "--config" = ""%string) && bool_decide (flag f "--node-id" = ""%string)) "usage: enroll" (
  guard (negb (bool_decide (fs !! revokedMarker path = None))) "enroll: bootstrap key is revoked" (
  raw ← ReadFile fs path;
  bootstrap ← of_option "hex" (hex_decode raw);
  cfg ← node_config (flag f "--config") (flag f "--node-id") (flag f "--role") fs;
  nodeKey ← GenerateKey draw;
  pub ← ed25519_Public (Some nodeKey);
  sig ← ed25519_Sign (Some bootstrap) (statement cfg pub);
  Ret (WriteFile (WriteFile fs "node.key" (hex_encode nodeKey)) "node.cert.json" (certificate cfg pub sig)))).

(** ** Sharding *)

(** [strconv.Atoi], its error dropped: 0, or the end of the range. *)
Definition atoi_value (s : string) : Z :=
  match set_string10 (to_bytes s) with
  | Some z => if z <? - 2 ^ 63 then - 2 ^ 63 else if z >=? 2 ^ 63 then 2 ^ 63 - 1 else z
  | None => 0
  end.

Fixpoint shard_flags (args : list string) (r : string * Z * Z) : outcome (string * Z * Z) :=
  match args with
  | a :: ((v :: args'') as args') =>
      if decide (a = "--key"%string) then shard_flags args'' (v, r.1.2, r.2)
      else if decide (a = "--shares"%string) then
        n ← wrap_err "--shares: %w" (parse_int v); shard_flags args'' (r.1.1, n, r.2)
      else if decide (a = "--threshold"%string) then
        k ← wrap_err "--threshold: %w" (parse_int v); shard_flags args'' (r.1.1, r.1.2, k)
      else shard_flags args' r
  | _ => Ret r
  end.
Definition parseShardArgs (args : list string) : outcome (string * Z * Z) :=
  let flagged :=
    r ← shard_flags args (""%string, 0, 0);
    guard (bool_decide (r.1.1 = ""%string) || (r.1.2 =? 0) || (r.2 =? 0)) "usage: shard" (Ret r) in
  match args with
  | [f; n; k] =>
      if decide (f = "--key"%string) then flagged
      else n ← wrap_err "shares: %w" (parse_int n); k ← wrap_err "threshold: %w" (parse_int k); Ret (f, n, k)
  | _ => flagged
  end.

Fixpoint write_dealt (ss : list FrostSigner) (fs : Files) : outcome Files :=
  match ss with
  | [] => Ret fs
  | s :: ss =>
      file ← share_file s;
      write_dealt ss (WriteFile fs ("share-" ++ fsID s ++ ".json") (Marshal file))
  end.

(** The files, and the group key that is printed. *)
Definition shard (draw : nat -> option bytes) (args : list string) (fs : Files) : outcome (Files * bytes) :=
  '(keyFile, n, k) ← parseShardArgs args;
  raw ← ReadFile fs keyFile;
  seed ← of_option "hex" (hex_decode raw);
  '(signers, groupPub) ← FrostSplit seed n k draw;
  fs ← write_dealt signers fs;
  Ret (fs, groupPub).

End keys.

(** ** The key-encryption key *)

Record KekArgs := { kaOut : string; kaShares : Z; kaThreshold : Z; kaKeep : bool }.

Fixpoint kek_args (args : list string) (r : KekArgs) : KekArgs :=
  match args with
  | [] => r
  | a :: rest =>
      if decide (a = "--keep"%string) then
        kek_args rest {| kaOut := kaOut r; kaShares := kaShares r; kaThreshold := kaThreshold r; kaKeep := true |}
      else
        match rest with
        | [] => r
        | v :: rest' =>
            if decide (a = "--out"%string) then
              kek_args rest' {| kaOut := v; kaShares := kaShares r; kaThreshold := kaThreshold r; kaKeep := kaKeep r |}
            else if decide (a = "--shares"%string) then
              kek_args rest' {| kaOut := kaOut r; kaShares := atoi_value v; kaThreshold := kaThreshold r; kaKeep := kaKeep r |}
            else if decide (a = "--threshold"%string) then
              kek_args rest' {| kaOut := kaOut r; kaShares := kaShares r; kaThreshold := atoi_value v; kaKeep := kaKeep r |}
            else kek_args rest r
        end
  end.

Definition kek_name (i : nat) : string := of_bytes (to_bytes "kek-" ++ dec_Z (Z.of_nat i) ++ to_bytes ".json").
Definition kek_path (out : string) (i : nat) : string := Join out (kek_name i).
Fixpoint write_kek (out : string) (i : nat) (shares : list Shard) (fs : Files) : Files :=
  match shares with
  | [] => fs
  | s :: shares => write_kek out (S i) shares (WriteFile fs (kek_path out i) (MarshalShard s))
  end.

Definition vaultkek (kekDraw : option bytes) (draw : nat -> option Z) (args : list string) (fs : Files) : outcome Files :=
  let r := kek_args args {| kaOut := "vault"; kaShares := 5; kaThreshold := 3; kaKeep := false |} in
  kek ← of_option "rand" kekDraw;
  shares ← ShareKEK kek (kaShares r) (kaThreshold r) draw;
  let fs := write_kek (kaOut r) 1 shares fs in
  Ret (if kaKeep r then WriteFile fs (Join (kaOut r) "kek.json") (hex_encode kek) else fs).

(** ** The gateway's start *)

(** [loadShares]: the files of a comma-separated list. *)
Fixpoint load_listed (fs : Files) (parts : list bytes) : outcome (list Shard) :=
  match parts with
  | [] => Ret []
  | p :: parts =>
      let f := TrimSpace p in
      if bool_decide (f = []) then load_listed fs parts
      else
        b ← ReadFile fs (of_bytes f);
        s ← of_option "%s: %w" (v ← parse b; decode_shard v);
        ss ← load_listed fs parts;
        Ret (s :: ss)
  end.
Definition loadShares (fs : Files) (listing : string) : outcome (list Shard) :=
  shares ← load_listed fs (split_on (ch ",") (to_bytes listing));
  guard (length shares =? 0)%nat "no share files given" (Ret shares).

Definition hex2key (s : string) : outcome bytes :=
  b ← of_option "hex" (hex_decode (TrimSpace (to_bytes s)));
  guard (negb (length b =? PublicKeySize)%nat) "want %d bytes, got %d" (Ret b).

(** ** What the tools write is read *)

Lemma kek_name_inj : Inj (=) (=) kek_name.
Proof.
  intros i j E. unfold kek_name in E. apply (f_equal to_bytes) in E. rewrite !to_of_bytes in E.
  apply app_inv_head, app_inv_tail in E. apply (f_equal parse_Z) in E. rewrite !parse_dec_Z in E. injection E as E. lia.
Qed.

(** A name without a separator that is no dot entry is the last component. *)
Definition plain_name (b : bytes) : Prop := ch "/" ∉ b /\ b <> [] /\ b <> to_bytes "." /\ b <> to_bytes "..".

Lemma split_dir sep d b : sep ∉ b -> exists pre, split_on sep (d ++ sep :: b) = pre ++ [b] /\ forall b', sep ∉ b' -> split_on sep (d ++ sep :: b') = pre ++ [b'].
Proof.
  intros Hb. induction d as [|c d IH]; cbn [app split_on].
  - rewrite bool_decide_eq_true_2 by done. exists [[]]. rewrite split_plain by done. split; [done|].
    intros b' Hb'. by rewrite split_plain.
  - destruct IH as (pre & E & Hall). rewrite E. case_bool_decide.
    + exists ([] :: pre). split; [done|]. intros b' Hb'. by rewrite (Hall b' Hb').
    + destruct pre as [|l ls].
      * exfalso. cbn in E. apply (f_equal length) in E.
        assert (Hlen : (2 <= length (split_on sep (d ++ sep :: b)))%nat); [|cbn in E; lia]. clear.
        induction d as [|x d IH]; cbn [app split_on].
        { rewrite bool_decide_eq_true_2 by done. cbn [length]. destruct b as [|y b]; cbn [split_on]; [cbn; lia|].
          case_bool_decide; [cbn; lia|]. destruct (split_on sep b); cbn; lia. }
        case_bool_decide; [cbn [length]; lia|]. destruct (split_on sep (d ++ sep :: b)); cbn [length] in *; lia.
      * exists ((c :: l) :: ls). split; [done|]. intros b' Hb'. by rewrite (Hall b' Hb').
Qed.

Lemma clean_plain rooted stack b : plain_name b -> clean_step rooted stack b = b :: stack.
Proof.
  intros (_ & H1 & H2 & H3). unfold clean_step. by rewrite !bool_decide_eq_false_2 by tauto.
Qed.

(** A cleaned path is its directory, and the name. *)
Lemma Clean_name d : exists pre, forall b, plain_name b -> Clean (d ++ ch "/" :: b) = pre ++ b.
Proof.
  destruct (split_dir (ch "/") d []) as (parts & _ & Hall); [by intros ?%elem_of_nil|].
  destruct (decide (head (d ++ [ch "/"]) = Some (ch "/"))) as [Hr|Hr].
  - exists (concat (map (fun c => ch "/" :: c) (rev (foldl (clean_step true) [] parts))) ++ [ch "/"]).
    intros b Hb. unfold Clean. rewrite bool_decide_eq_true_2 by (by destruct d).
    rewrite (Hall b (proj1 Hb)), foldl_app. cbn [foldl]. rewrite clean_plain by done. cbn [rev].
    rewrite map_app, concat_app. cbn [map concat]. rewrite app_nil_r, <- !app_assoc. f_equal.
    destruct (rev (foldl (clean_step true) [] parts)); cbn; by rewrite app_nil_r.
  - destruct (rev (foldl (clean_step false) [] parts)) as [|c cs] eqn:Es.
    + exists []. intros b Hb. unfold Clean. rewrite bool_decide_eq_false_2 by (by destruct d).
      rewrite (Hall b (proj1 Hb)), foldl_app. cbn [foldl]. rewrite clean_plain by done. cbn [rev]. rewrite Es. cbn. by rewrite app_nil_r.
    + exists (c ++ concat (map (fun c => ch "/" :: c) cs) ++ [ch "/"]).
      intros b Hb. unfold Clean. rewrite bool_decide_eq_false_2 by (by destruct d).
      rewrite (Hall b (proj1 Hb)), foldl_app. cbn [foldl]. rewrite clean_plain by done. cbn [rev]. rewrite Es. cbn [app].
      rewrite map_app, concat_app. cbn [map concat]. by rewrite app_nil_r, <- !app_assoc.
Qed.

Lemma Clean_plain b : plain_name b -> Clean b = b.
Proof.
  intros Hb. pose proof Hb as (Hs & Hne & _). unfold Clean. rewrite split_plain by done. cbn [foldl].
  rewrite clean_plain by done. rewrite bool_decide_eq_false_2; [cbn; by rewrite app_nil_r|].
  destruct b as [|c b]; [done|]. intros [= ->]. apply Hs. left.
Qed.

(** Paths of different names in one directory are different. *)
Lemma Join_inj dir a b : plain_name (to_bytes a) -> plain_name (to_bytes b) -> Join dir a = Join dir b -> a = b.
Proof.
  intros Ha Hb E. unfold Join in E. apply (inj to_bytes). apply (f_equal to_bytes) in E. case_bool_decide.
  - by rewrite !to_of_bytes, !Clean_plain in E.
  - rewrite !to_of_bytes in E. destruct (Clean_name (to_bytes dir)) as (pre & Hp). rewrite !Hp in E by done.
    by apply app_inv_head in E.
Qed.

Lemma kek_plain i : plain_name (to_bytes (kek_name i)).
Proof.
  unfold kek_name. rewrite to_of_bytes. split_and!; [|by vm_compute..].
  rewrite !not_elem_of_app. split; [by apply (bool_decide_unpack _); vm_compute|]. split; [|by apply (bool_decide_unpack _); vm_compute].
  unfold dec_Z. rewrite (proj2 (Z.ltb_ge _ _)) by lia. destruct (nat_digits_spec (Z.of_nat i) ltac:(lia)) as (d & r & E & Hd & _).
  intros Hin%list_elem_of_In. rewrite E in Hin. by apply (proj1 (forallb_forall _ _) Hd) in Hin.
Qed.

#[global] Instance kek_path_inj out : Inj (=) (=) (kek_path out).
Proof. intros i j E. apply kek_name_inj. by apply (Join_inj out); [apply kek_plain..|]. Qed.

Lemma kek_kept out i : kek_path out i <> Join out "kek.json".
Proof.
  intros E. apply Join_inj in E; [|apply kek_plain|].
  - apply (f_equal to_bytes) in E. unfold kek_name in E. rewrite to_of_bytes in E. discriminate E.
  - split_and!; [|by vm_compute..]. by apply (bool_decide_unpack _); vm_compute.
Qed.

Lemma write_kek_at out shares fs i j s : shares !! j = Some s ->
  write_kek out i shares fs !! kek_path out (i + j) = Some (MarshalShard s).
Proof.
  revert i j fs. induction shares as [|x shares IH]; intros i j fs Hs; [done|]. cbn [write_kek]. destruct j as [|j].
  - injection Hs as ->. rewrite Nat.add_0_r. assert (Hk : forall l k fs, (i < k)%nat -> write_kek out k l fs !! kek_path out i = fs !! kek_path out i).
    { clear. induction l as [|x l IH]; intros k fs Hk; cbn [write_kek]; [done|]. rewrite IH by lia. apply lookup_insert_ne.
      intros E%(inj (kek_path out)). lia. }
    rewrite Hk by lia. apply lookup_insert_eq.
  - rewrite <- Nat.add_succ_comm. by apply IH.
Qed.

Lemma write_kek_other out shares fs i p : (forall j, p <> kek_path out j) -> write_kek out i shares fs !! p = fs !! p.
Proof.
  intros Hp. induction shares as [|x shares IH] in i, fs |- *; cbn [write_kek]; [done|]. rewrite IH. apply lookup_insert_ne.
  intros E. by apply (Hp i).
Qed.

(** The files of a listing. *)
Definition listed (listing : string) : list string :=
  filter (fun p => p <> ""%string) (map (fun p => of_bytes (TrimSpace p)) (split_on (ch ",") (to_bytes listing))).

Lemma listed_load fs parts sel :
  Forall2 (fun path s => fs !! path = Some (MarshalShard s) /\ shard_ok s)
    (filter (fun p => p <> ""%string) (map (fun p => of_bytes (TrimSpace p)) parts)) sel ->
  load_listed fs parts = Ret sel.
Proof.
  induction parts as [|p parts IH] in sel |- *; cbn [map load_listed]; intros H2; [by inversion H2|].
  case_bool_decide as Hp.
  - rewrite Hp, filter_cons_False in H2 by tauto. by apply IH.
  - rewrite filter_cons_True in H2.
    2:{ intros E. apply Hp. apply (f_equal to_bytes) in E. by rewrite to_of_bytes in E. }
    inversion H2 as [|path s ? sel' [Hf Hs] H2']; subst. unfold ReadFile. rewrite Hf. cbn [of_option mbind outcome_bind].
    pose proof (shard_roundtrip s Hs) as Hr. cbn [mbind option_bind] in Hr. rewrite Hr. cbn [of_option mbind outcome_bind]. by rewrite (IH _ H2').
Qed.

(** C11. The vault's key comes back from its files: when [vaultkek] has run for at
    most 256 shares, the gateway that is started with any list of at least the
    threshold of different share files - in any order, with spaces and empty
    entries - loads shares that join to the key that was drawn; and unless
    [--keep] was given, no other file than the share files was written. *)
Theorem kek_boots kek draw args fs fs1 fs2 listing who :
  let r := kek_args args {| kaOut := "vault"; kaShares := 5; kaThreshold := 3; kaKeep := false |} in
  vaultkek (Some kek) draw args fs = Ret fs1 -> length kek = 32%nat -> kaShares r <= 256 ->
  listed listing = map (kek_path (kaOut r)) who -> NoDup who ->
  Forall (fun i => 1 <= Z.of_nat i <= kaShares r) who -> kaThreshold r <= zlen who ->
  (forall i, i ∈ who -> fs2 !! kek_path (kaOut r) i = fs1 !! kek_path (kaOut r) i) ->
  (exists shares, loadShares fs2 listing = Ret shares /\ JoinKEK (map Some shares) = Ret kek) /\
  (kaKeep r = false -> forall p, (forall i, p <> kek_path (kaOut r) i) -> fs1 !! p = fs !! p).
Proof.
  intros r E Hl Hn Hlist Hnd Hwho Hk Hsame. unfold vaultkek in E. fold r in E. cbn [of_option mbind outcome_bind] in E.
  apply bind_ret in E as (shares & Es & E). injection E as E. pose proof Es as Es'.
  apply ShamirSplit_ret in Es' as (coeff & Hkn & Hs & _ & Hlc & Esh).
  assert (Hfile : forall i, (1 <= i)%nat -> Z.of_nat i <= kaShares r ->
    fs1 !! kek_path (kaOut r) i = Some (MarshalShard (shard_at (zlen kek) coeff (be_Z kek) (Z.of_nat i)))).
  { intros i Hi1 Hi2. rewrite <- E.
    assert (Hw : write_kek (kaOut r) 1 shares fs !! kek_path (kaOut r) i =
      Some (MarshalShard (shard_at (zlen kek) coeff (be_Z kek) (Z.of_nat i)))).
    { replace i with (1 + (i - 1))%nat at 1 by lia. apply write_kek_at. rewrite Esh. rewrite list_lookup_fmap.
      unfold xs_upto. rewrite list_lookup_fmap, lookup_seq_lt by lia. cbn. do 3 f_equal. lia. }
    destruct (kaKeep r); [|done]. etrans; [apply lookup_insert_ne|exact Hw]. intros E'. by apply (kek_kept (kaOut r) i). }
  split.
  - set (sel := map (fun i => shard_at (zlen kek) coeff (be_Z kek) (Z.of_nat i)) who). exists sel. split.
    + unfold loadShares. rewrite (listed_load fs2 _ sel).
      * cbn [mbind outcome_bind]. unfold sel. rewrite length_map. destruct who; [unfold zlen in Hk; cbn in Hk; lia|done].
      * change (filter _ _) with (listed listing). rewrite Hlist. unfold sel. apply Forall2_fmap, Forall_Forall2_diag, Forall_forall.
        intros i Hi. rewrite Forall_forall in Hwho. specialize (Hwho i Hi). rewrite Hsame by done. split; [apply Hfile; lia|].
        unfold shard_ok. cbn [shard_at SLen]. unfold zlen. rewrite Hl. split; lia.
    + apply (ShamirJoin_split kek (kaShares r) (kaThreshold r) draw shares); [done|exact Es| | |unfold sel, zlen in *; by rewrite length_map].
      * unfold sel. apply NoDup_fmap_2; [|done]. intros i j [= Eij _]. lia.
      * intros x (i & -> & Hi)%list_elem_of_fmap. rewrite Esh. apply list_elem_of_fmap. exists (Z.of_nat i). split; [done|].
        unfold xs_upto. apply list_elem_of_fmap. exists i. split; [done|]. apply elem_of_seq. rewrite Forall_forall in Hwho.
        specialize (Hwho i Hi). lia.
  - intros Hkeep p Hp. rewrite <- E, Hkeep. by apply write_kek_other.
Qed.

(** ** Enrolment and its end *)

Section bootstrap.
Context `{Hashes} `{EL : Ed25519Laws}.

Lemma revoked_marked args fs fs1 : revoke args fs = Ret fs1 ->
  is_Some (fs1 !! revokedMarker (flag (take_flags ["--bootstrap"%string] args) "--bootstrap")).
Proof.
  unfold revoke. intros [_ Er]%guard_ret. apply guard_ret in Er as [_ [= <-]]. eexists. apply lookup_insert_eq.
Qed.

(** A node's key is drawn, and the bootstrap key signs its statement. *)
Lemma enroll_certifies seed draw nodeSeed args fs cfg :
  let f := take_flags ["--bootstrap"; "--config"; "--node-id"; "--role"]%string args in
  length seed = SeedSize -> length nodeSeed = SeedSize -> draw = Some nodeSeed ->
  flag f "--bootstrap" <> ""%string -> flag f "--config" <> ""%string \/ flag f "--node-id" <> ""%string ->
  fs !! flag f "--bootstrap" = Some (hex_encode (ed_keygen seed)) -> fs !! revokedMarker (flag f "--bootstrap") = None ->
  node_config (flag f "--config") (flag f "--node-id") (flag f "--role") fs = Ret cfg ->
  exists fs1 pub sig, enroll draw args fs = Ret fs1 /\ pub = pub_of (ed_keygen nodeSeed) /\
    fs1 !! "node.key"%string = Some (hex_encode (ed_keygen nodeSeed)) /\
    fs1 !! "node.cert.json"%string = Some (certificate cfg pub sig) /\
    ed25519_Verify (pub_of (ed_keygen seed)) (statement cfg pub) sig = Ret true.
Proof.
  intros f Hs Hns -> Hb Hn Hf Hm Hcfg. assert (Hr : real_key (ed_keygen seed)) by (by exists seed).
  assert (Hnr : real_key (ed_keygen nodeSeed)) by (by exists nodeSeed).
  eexists _, (pub_of (ed_keygen nodeSeed)), (ed_sign (ed_keygen seed) (statement cfg (pub_of (ed_keygen nodeSeed)))). split.
  - unfold enroll. fold f. rewrite (bool_decide_eq_false_2 (flag f "--bootstrap" = _)) by done. cbn [orb].
    replace (bool_decide (flag f "--config" = ""%string) && bool_decide (flag f "--node-id" = ""%string)) with false
      by (symmetry; apply andb_false_iff; destruct Hn; [left|right]; by apply bool_decide_eq_false_2).
    cbn [guard]. rewrite bool_decide_eq_true_2 by done. cbn [negb guard]. unfold ReadFile. rewrite Hf. cbn [of_option mbind outcome_bind].
    rewrite hex_decode_encode. cbn [of_option mbind outcome_bind]. rewrite Hcfg. cbn [mbind outcome_bind GenerateKey of_option].
    rewrite Public_real by done. cbn [mbind outcome_bind]. rewrite Sign_real by done. reflexivity.
  - split; [done|]. split; [|split; [apply lookup_insert_eq|]].
    + etrans; [by apply lookup_insert_ne|apply lookup_insert_eq].
    + unfold ed25519_Verify. rewrite (proj2 (Nat.eqb_eq _ _)) by apply pub_of_length. f_equal. by apply ed_sign_verify.
Qed.

(** A spent key is refused, whatever the request. *)
Lemma enroll_spent draw args rargs fs fs1 :
  let path := flag (take_flags ["--bootstrap"; "--config"; "--node-id"; "--role"]%string args) "--bootstrap" in
  revoke rargs fs = Ret fs1 -> flag (take_flags ["--bootstrap"%string] rargs) "--bootstrap" = path ->
  forall fs2, enroll draw args fs1 <> Ret fs2.
Proof.
  intros path Hr Hp fs2 Er. unfold enroll in Er. apply guard_ret in Er as [_ Er]. apply guard_ret in Er as [Hm _].
  apply revoked_marked in Hr as [m Hm']. rewrite Hp in Hm'. fold path in Hm. by rewrite Hm' in Hm.
Qed.

(** The mark is beside the file, not on the key: the same key under another name
    enrols nodes as before. *)
Lemma enroll_copy rargs fs fs1 seed nodeSeed args cfg :
  let f := take_flags ["--bootstrap"; "--config"; "--node-id"; "--role"]%string args in
  let spent := flag (take_flags ["--bootstrap"%string] rargs) "--bootstrap" in
  revoke rargs fs = Ret fs1 -> length seed = SeedSize -> length nodeSeed = SeedSize ->
  fs !! spent = Some (hex_encode (ed_keygen seed)) -> fs !! flag f "--bootstrap" = fs !! spent ->
  flag f "--bootstrap" <> spent -> flag f "--bootstrap" <> revokedMarker spent ->
  flag f "--bootstrap" <> ""%string -> flag f "--config" <> ""%string \/ flag f "--node-id" <> ""%string ->
  fs !! revokedMarker (flag f "--bootstrap") = None ->
  node_config (flag f "--config") (flag f "--node-id") (flag f "--role") fs1 = Ret cfg ->
  exists fs2, enroll (Some nodeSeed) args fs1 = Ret fs2.
Proof.
  intros f spent Hr Hs Hns Hk Hsame Hne Hnm Hb Hn Hmark Hcfg.
  assert (Hfs : fs1 = WriteFile fs (revokedMarker spent) (to_bytes "revoked" ++ [Byte.x0a])).
  { unfold revoke in Hr. fold spent in Hr. apply guard_ret in Hr as [_ Hr]. by apply guard_ret in Hr as [_ [= <-]]. }
  destruct (enroll_certifies seed (Some nodeSeed) nodeSeed args fs1 cfg) as (fs2 & _ & _ & Er & _); try done; [..|by exists fs2].
  - rewrite Hfs. etrans; [by apply lookup_insert_ne|]. etrans; [exact Hsame|exact Hk].
  - rewrite Hfs. etrans; [apply lookup_insert_ne|exact Hmark]. intros Ep. apply Hne.
    apply (f_equal to_bytes) in Ep. unfold revokedMarker in Ep. rewrite !to_bytes_app in Ep. apply app_inv_tail in Ep.
    by apply (inj to_bytes) in Ep.
Qed.

End bootstrap.

(** [shard] takes the file of [genkey] - the 64 bytes of a private key - for a
    seed: the shares and the group key it prints belong to the file's key only
    if the two scalars are one. *)
Theorem shard_other_key `{HL : HashLaws} `{E : Ed25519} `{S : !Ed25519Std} seed path n k args draw fs fs1 fs2 gp :
  length seed = SeedSize -> genKey (Some seed) path fs = Ret fs1 ->
  parseShardArgs args = Ret (path, n, k) -> in_int64 n -> shard draw args fs1 = Ret (fs2, gp) ->
  encodes gp (ed25519Scalar (ed_keygen seed)) /\
  (gp = pub_of (ed_keygen seed) <-> cong fl (ed25519Scalar (ed_keygen seed)) (ed25519Scalar seed)).
Proof.
  intros Hl Hg Ha Hn Es. unfold genKey, GenerateKey in Hg. cbn [of_option mbind outcome_bind] in Hg. injection Hg as <-.
  unfold shard in Es. rewrite Ha in Es. cbn [mbind outcome_bind] in Es. unfold ReadFile in Es.
  assert (Hf : WriteFile fs path (hex_encode (ed_keygen seed)) !! path = Some (hex_encode (ed_keygen seed))) by apply lookup_insert_eq.
  rewrite Hf in Es. cbn [of_option mbind outcome_bind] in Es. rewrite hex_decode_encode in Es. cbn [of_option mbind outcome_bind] in Es.
  apply bind_ret in Es as ([ss gp'] & Esp & Es). apply bind_ret in Es as (fs3 & _ & [= <- <-]).
  apply FrostSplit_inv in Esp as (_ & coeff & [_ _ _ Hgp _] & _); [|done].
  pose proof (std_public seed Hl) as Hp. split; [exact Hgp|]. split.
  - intros ->. by eapply encodes_inj.
  - intros Hc. by eapply encodes_det.
Qed.

(** ** A run *)

Module ToyKek.
Definition kek : bytes := replicate 32 Byte.x2a.
Definition args : list string := ["--out"; "./v/"; "--keep"; "--shares"; "4"; "--threshold"; "2"]%string.
Definition fs1 : Files :=
  match vaultkek (Some kek) (fun i => Some (77 + Z.of_nat i)) args ∅ with Ret fs => fs | _ => ∅ end.
Definition listing : string := " v/kek-4.json,, v/kek-1.json ,v/kek-3.json".
End ToyKek.

Lemma kek_boots_witness : exists shares, loadShares ToyKek.fs1 ToyKek.listing = Ret shares /\ JoinKEK (map Some shares) = Ret ToyKek.kek.
Proof.
  refine (proj1 (kek_boots ToyKek.kek (fun i => Some (77 + Z.of_nat i)) ToyKek.args ∅ ToyKek.fs1 ToyKek.fs1 ToyKek.listing
    [4; 1; 3]%nat _ _ _ _ _ _ _ _)).
  - vm_compute. reflexivity.
  - reflexivity.
  - vm_compute. discriminate.
  - vm_compute. reflexivity.
  - apply (bool_decide_unpack _). vm_compute. exact I.
  - repeat (apply Forall_cons; split); [..|constructor]; split; vm_compute; discriminate.
  - vm_compute. discriminate.
  - intros i _. reflexivity.
Defined.
