(* ===== verification/Client.v ===== *)
(** * The Go client of the gateway: [client.go]

    [Client] puts one request on the network and reads one answer, cut at
    [maxBody].  The network is a parameter: a function of the request and of the
    world it changes, with no answer when the connection, the address or the
    thirty seconds fail.  [gateway_net] is the network that ends at the gateway
    of Gateway.v: it takes the target apart, finds the route in the table and
    serves it; targets that [net/http] rewrites (percent escapes, empty or dotted
    segments) or whose path is in no pattern are a parameter.

    The maps of request bodies are written with their keys in order.  An [any]
    is its JSON value, an empty list of strings that is passed is nil.  What is
    returned beside an error is left out, and so is the order in which Go
    evaluates [return out.X, c.json(..., &out)], which the language leaves open:
    here the call comes first.

    Theorem: what [Issue] is answered for is what [State] shows next; lemmas: the
    trust state arrives as it is, a backup over one mebibyte does not. *)
From Stdlib Require Import SpecFloat.
From S2P Require Import Prelude Crypto Encoding Json Indent Float Cli Timeline TimelineTheory TimelineFile Graph TrustState.
From S2P Require Import Watchdog Merkle Gossip Shamir Frost FrostTheory Council Pq Vault Auth Ratelimit Transport CouncilNet Fleet.
From S2P Require Import Store StoreTheory Webhooks Gateway GatewayTheory GatewayFlaws.

(** ** Calls *)

Record Client := { cBase : string; cToken : string }.
Definition NewClient (base token : string) : Client := {| cBase := base; cToken := token |}.

Record HttpReq := { hqMethod : string; hqURL : string; hqAuth : string; hqType : option string; hqBody : bytes }.

(** What a call returns: a value, an [APIError], or another error. *)
Inductive reply (A : Type) :=
| Done (a : A)
| APIError (status : Z) (body : bytes)
| Failed (e : error).
Arguments Done {A} _.
Arguments APIError {A} _ _.
Arguments Failed {A} _.

Definition and_then {A B} (r : reply A) (k : A -> reply B) : reply B :=
  match r with Done a => k a | APIError s b => APIError s b | Failed e => Failed e end.
Definition or_failed {A} (e : error) (o : option A) : reply A := match o with Some a => Done a | None => Failed e end.

Section client.
Context {W : Type} `{FloatText}.
Variable net : HttpReq -> W -> W * option Response.

Definition Client_send (c : Client) (method path : string) (type : option string) (body : bytes) (w : W) : W * reply bytes :=
  let '(w, r) := net {| hqMethod := method; hqURL := cBase c ++ path; hqAuth := "Bearer " ++ cToken c; hqType := type;
                        hqBody := body |} w in
  (w, match r with
      | None => Failed "http"
      | Some r =>
          let b := take maxBody (rsBody r) in
          if rsStatus r >=? 400 then APIError (rsStatus r) b else Done b
      end).

Definition Client_do (c : Client) (method path : string) (body : option json) : W -> W * reply bytes :=
  match body with
  | None => Client_send c method path None []
  | Some v => Client_send c method path (Some "application/json"%string) (print v)
  end.

(** [Client.json] with [out]: its value, read by [dec]. *)
Definition Client_json {A} (c : Client) (method path : string) (body : option json) (dec : json -> option A) (w : W) : W * reply A :=
  let '(w, r) := Client_do c method path body w in
  (w, and_then r (fun b => or_failed "json" (v ← parse b; dec v))).
(** ... and without. *)
Definition Client_call (c : Client) (method path : string) (body : option json) (w : W) : W * reply unit :=
  let '(w, r) := Client_do c method path body w in (w, and_then r (fun _ => Done tt)).

(** One field of an answer. *)
Definition field {A} (n : string) (dec : A -> json -> option A) (z : A) : json -> option A :=
  decode_struct [n] (fun _ v a => dec a v) z.
Definition text_field (n : string) : json -> option string := field n decode_string ""%string.
Definition list_field {A} (n : string) (dec : json -> option A) : json -> option (list A) :=
  field n (fun _ => decode_list dec) [].

(** ** Organisations *)

Record OrgInfo := { oiID : string; oiName : string; oiCreated : Z; oiEvents : Z; oiDetected : bool }.
Definition org_set (n : string) (v : json) (o : OrgInfo) : option OrgInfo :=
  let '{| oiID := i; oiName := m; oiCreated := c; oiEvents := e; oiDetected := d |} := o in
  let mk i m c e d := Some {| oiID := i; oiName := m; oiCreated := c; oiEvents := e; oiDetected := d |} in
  if decide (n = "id"%string) then i ← decode_string i v; mk i m c e d
  else if decide (n = "name"%string) then m ← decode_string m v; mk i m c e d
  else if decide (n = "created"%string) then c ← decode_int64 c v; mk i m c e d
  else if decide (n = "events"%string) then e ← decode_int64 e v; mk i m c e d
  else d ← decode_bool d v; mk i m c e d.
Definition decode_org : json -> option OrgInfo :=
  decode_struct ["id"; "name"; "created"; "events"; "detected"]%string org_set
    {| oiID := ""; oiName := ""; oiCreated := 0; oiEvents := 0; oiDetected := false |}.

Definition Client_Orgs (c : Client) : W -> W * reply (list OrgInfo) :=
  Client_json c "GET" "/v1/orgs" None (list_field "orgs" decode_org).
Definition Client_CreateOrg (c : Client) (name id : string) : W -> W * reply OrgInfo :=
  Client_json c "POST" "/v1/orgs" (Some (JObj [jfield "id" (jstring id); jfield "name" (jstring name)])) decode_org.
Definition Client_DeleteOrg (c : Client) (id : string) : W -> W * reply unit := Client_call c "DELETE" ("/v1/orgs/" ++ id) None.

(** ** The timeline of an organisation *)

Definition Client_Issue (c : Client) (org certID identity via : string) : W -> W * reply string :=
  Client_json c "POST" ("/v1/orgs/" ++ org ++ "/issue")
    (Some (JObj [jfield "cert_id" (jstring certID); jfield "identity" (jstring identity); jfield "via" (jstring via)]))
    (text_field "hash").
Definition Client_Revoke (c : Client) (org certID : string) : W -> W * reply string :=
  Client_json c "POST" ("/v1/orgs/" ++ org ++ "/revoke") (Some (JObj [jfield "cert_id" (jstring certID)])) (text_field "hash").

(** A map keyed by strings. *)
Definition map_step {A} (dec : json -> option A) (m : option (gmap string A)) (kv : bytes * json) : option (gmap string A) :=
  m ← m; x ← dec kv.2; Some (<[of_bytes kv.1 := x]> m).
Definition decode_map {A} (dec : json -> option A) (v : json) : option (gmap string A) :=
  match v with
  | JNull => Some ∅
  | JObj l => foldl (map_step dec) (Some ∅) l
  | _ => None
  end.
Definition cert_set (n : string) (v : json) (c : Cert) : option Cert :=
  if decide (n = "Identity"%string) then i ← decode_string (Identity c) v; Some {| Identity := i; Revoked := Revoked c |}
  else r ← decode_bool (Revoked c) v; Some {| Identity := Identity c; Revoked := r |}.
Definition decode_cert : json -> option Cert :=
  decode_struct ["Identity"; "Revoked"]%string cert_set {| Identity := ""; Revoked := false |}.

Definition Client_State (c : Client) (org : string) : W -> W * reply (gmap string Cert) :=
  Client_json c "GET" ("/v1/orgs/" ++ org ++ "/state") None (field "certs" (fun _ => decode_map decode_cert) ∅).

Record Event := { ceType : string; ceTs : Z; ceCertID : string; ceIdentity : string; ceVia : string; ceHash : string; ceParent : string }.
Definition client_event_set (n : string) (v : json) (e : Event) : option Event :=
  let '{| ceType := t; ceTs := s; ceCertID := c; ceIdentity := i; ceVia := a; ceHash := h; ceParent := p |} := e in
  let mk t s c i a h p :=
    Some {| ceType := t; ceTs := s; ceCertID := c; ceIdentity := i; ceVia := a; ceHash := h; ceParent := p |} in
  if decide (n = "type"%string) then t ← decode_string t v; mk t s c i a h p
  else if decide (n = "ts"%string) then s ← decode_int64 s v; mk t s c i a h p
  else if decide (n = "cert_id"%string) then c ← decode_string c v; mk t s c i a h p
  else if decide (n = "identity"%string) then i ← decode_string i v; mk t s c i a h p
  else if decide (n = "via"%string) then a ← decode_string a v; mk t s c i a h p
  else if decide (n = "hash"%string) then h ← decode_string h v; mk t s c i a h p
  else p ← decode_string p v; mk t s c i a h p.
Definition decode_client_event : json -> option Event :=
  decode_struct ["type"; "ts"; "cert_id"; "identity"; "via"; "hash"; "parent_hash"]%string client_event_set
    {| ceType := ""; ceTs := 0; ceCertID := ""; ceIdentity := ""; ceVia := ""; ceHash := ""; ceParent := "" |}.

(** [%d] *)
Definition dec_text (z : Z) : string := of_bytes (dec_Z z).
(** A parameter of a query that is left out when it is empty. *)
Definition and_param (name v : string) : string := if bool_decide (v = ""%string) then "" else ("&" ++ name ++ "=" ++ v)%string.

Definition Client_Timeline (c : Client) (org typ : string) (limit : Z) : W -> W * reply (list Event) :=
  Client_json c "GET" ("/v1/orgs/" ++ org ++ "/timeline?limit=" ++ dec_text limit ++ and_param "type" typ) None
    (list_field "events" decode_client_event).

(** A score that is no number does not marshal. *)
Definition Client_Scores (c : Client) (org nodeID : string) (score : f64) (badIndex : Z) (w : W) : W * reply unit :=
  let ev := if badIndex >=? 0 then JObj [jfield "bad_index" (jint badIndex)] else JNull in
  match print_f64 score, print_f64 (flit 1 2) with
  | Some s, Some p =>
      Client_call c "POST" ("/v1/orgs/" ++ org ++ "/scores")
        (Some (JObj [jfield "evidence" ev; jfield "node_id" (jstring nodeID); jfield "p_value" (JNum p); jfield "score" (JNum s)])) w
  | _, _ => (w, Failed "json: unsupported value")
  end.

(** The timeline is JSON text, or nil. *)
Definition Client_Recover (c : Client) (org : string) (timeline : slice) (commit : option FrostCommit) (w : W) : W * reply unit :=
  match (match timeline with None => Some JNull | Some b => parse b end) with
  | None => (w, Failed "json: error calling MarshalJSON")
  | Some tl =>
      Client_call c "POST" ("/v1/orgs/" ++ org ++ "/recover")
        (Some (JObj [jfield "commit" (match commit with Some fc => fc_json fc | None => JNull end); jfield "timeline" tl])) w
  end.

Definition Client_Audit (c : Client) (org typ identity cert : string) (limit : Z) : W -> W * reply (list Event) :=
  Client_json c "GET" ("/v1/audit?limit=" ++ dec_text limit ++ and_param "org" org ++ and_param "type" typ ++
                       and_param "identity" identity ++ and_param "cert" cert) None
    (list_field "events" decode_client_event).

(** ** The store *)

Definition Client_Metrics (c : Client) (w : W) : W * reply string :=
  let '(w, r) := Client_do c "GET" "/v1/metrics" None w in (w, and_then r (fun b => Done (of_bytes b))).
Definition Client_Backup (c : Client) : W -> W * reply string := Client_json c "POST" "/v1/backup" None (text_field "id").
Definition Client_DownloadBackup (c : Client) (id : string) : W -> W * reply bytes :=
  Client_do c "GET" ("/v1/backup/" ++ id ++ "/download") None.
(** The bundle is the body. *)
Definition Client_Restore (c : Client) (bundle : bytes) (w : W) : W * reply unit :=
  let '(w, r) := Client_send c "POST" "/v1/restore" (Some "application/json"%string) bundle w in (w, and_then r (fun _ => Done tt)).

Definition Client_CreateUser (c : Client) (id role : string) (orgs : list string) : W -> W * reply string :=
  Client_json c "POST" "/v1/users" (Some (JObj [jfield "id" (jstring id); jfield "orgs" (jnil orgs); jfield "role" (jstring role)]))
    (text_field "token").
Definition Client_Users (c : Client) : W -> W * reply (list (gmap string json)) :=
  Client_json c "GET" "/v1/users" None (list_field "users" (decode_map Some)).

Record WebhookInfo := { wiID : string; wiURL : string; wiEvents : list string; wiActive : bool }.
Definition webhook_set (n : string) (v : json) (h : WebhookInfo) : option WebhookInfo :=
  let '{| wiID := i; wiURL := u; wiEvents := e; wiActive := a |} := h in
  let mk i u e a := Some {| wiID := i; wiURL := u; wiEvents := e; wiActive := a |} in
  if decide (n = "id"%string) then i ← decode_string i v; mk i u e a
  else if decide (n = "url"%string) then u ← decode_string u v; mk i u e a
  else if decide (n = "events"%string) then e ← decode_strings v; mk i u e a
  else a ← decode_bool a v; mk i u e a.
Definition decode_hook : json -> option WebhookInfo :=
  decode_struct ["id"; "url"; "events"; "active"]%string webhook_set {| wiID := ""; wiURL := ""; wiEvents := []; wiActive := false |}.

Definition Client_Webhooks (c : Client) : W -> W * reply (list WebhookInfo) :=
  Client_json c "GET" "/v1/webhooks" None (list_field "webhooks" decode_hook).
Definition Client_CreateWebhook (c : Client) (url secret : string) (events : list string) : W -> W * reply unit :=
  Client_call c "POST" "/v1/webhooks"
    (Some (JObj [jfield "events" (jnil events); jfield "secret" (jstring secret); jfield "url" (jstring url)])).
Definition Client_DeleteWebhook (c : Client) (id : string) : W -> W * reply unit := Client_call c "DELETE" ("/v1/webhooks/" ++ id) None.

(** ** The transparency log *)

Record STH := { chOrg : string; chLogKey : string; chTreeSize : Z; chTimestamp : Z; chRoot : string; chSignature : string }.
Definition sth_set (n : string) (v : json) (s : STH) : option STH :=
  let '{| chOrg := o; chLogKey := k; chTreeSize := z; chTimestamp := t; chRoot := r; chSignature := g |} := s in
  let mk o k z t r g := Some {| chOrg := o; chLogKey := k; chTreeSize := z; chTimestamp := t; chRoot := r; chSignature := g |} in
  if decide (n = "org"%string) then o ← decode_string o v; mk o k z t r g
  else if decide (n = "log_key_hex"%string) then k ← decode_string k v; mk o k z t r g
  else if decide (n = "tree_size"%string) then z ← decode_int64 z v; mk o k z t r g
  else if decide (n = "timestamp"%string) then t ← decode_int64 t v; mk o k z t r g
  else if decide (n = "root_hex"%string) then r ← decode_string r v; mk o k z t r g
  else g ← decode_string g v; mk o k z t r g.
Definition decode_sth : json -> option STH :=
  decode_struct ["org"; "log_key_hex"; "tree_size"; "timestamp"; "root_hex"; "signature_hex"]%string sth_set
    {| chOrg := ""; chLogKey := ""; chTreeSize := 0; chTimestamp := 0; chRoot := ""; chSignature := "" |}.

Definition Client_CTSTH (c : Client) (org : string) : W -> W * reply STH :=
  Client_json c "GET" ("/v1/orgs/" ++ org ++ "/ct/sth") None decode_sth.

(** Two hashes and a proof, under the names of the two. *)
Definition decode_proof (first second : string) : json -> option (string * string * list string) :=
  decode_struct [first; second; "proof"%string] (fun n v r =>
    if decide (n = first) then a ← decode_string r.1.1 v; Some (a, r.1.2, r.2)
    else if decide (n = second) then b ← decode_string r.1.2 v; Some (r.1.1, b, r.2)
    else p ← decode_strings v; Some (r.1.1, r.1.2, p)) (""%string, ""%string, []).
Definition Client_CTInclusionProof (c : Client) (org : string) (idx size : Z) : W -> W * reply (string * string * list string) :=
  Client_json c "GET" ("/v1/orgs/" ++ org ++ "/ct/proof?index=" ++ dec_text idx ++ "&size=" ++ dec_text size) None
    (decode_proof "leaf_hash_hex" "root_hex").
Definition Client_CTConsistencyProof (c : Client) (org : string) (from to : Z) : W -> W * reply (string * string * list string) :=
  Client_json c "GET" ("/v1/orgs/" ++ org ++ "/ct/proof?from=" ++ dec_text from ++ "&to=" ++ dec_text to) None
    (decode_proof "old_root_hex" "new_root_hex").

(** Garbage is nil. *)
Definition hexDecode (s : string) : slice := hex_decode (to_bytes s).

Record GossipOut := { goAccepted : bool; goAlarm : string; goSize : Z; goRoot : string }.
Definition gossip_out_set (n : string) (v : json) (g : GossipOut) : option GossipOut :=
  let '{| goAccepted := a; goAlarm := m; goSize := z; goRoot := r |} := g in
  let mk a m z r := Some {| goAccepted := a; goAlarm := m; goSize := z; goRoot := r |} in
  if decide (n = "accepted"%string) then a ← decode_bool a v; mk a m z r
  else if decide (n = "alarm"%string) then m ← decode_string m v; mk a m z r
  else if decide (n = "trusted_tree_size"%string) then z ← decode_int64 z v; mk a m z r
  else r ← decode_string r v; mk a m z r.
Definition decode_gossip_out : json -> option GossipOut :=
  decode_struct ["accepted"; "alarm"; "trusted_tree_size"; "trusted_root_hex"]%string gossip_out_set
    {| goAccepted := false; goAlarm := ""; goSize := 0; goRoot := "" |}.

Definition Client_CTGossip (c : Client) (org : string) (sth : STH) (proofFrom : Z) (proof : list string) : W -> W * reply GossipOut :=
  Client_json c "POST" ("/v1/orgs/" ++ org ++ "/ct/gossip")
    (Some (JObj [jfield "proof_from" (jint proofFrom); jfield "proof_hex" (jnil proof);
                 jfield "root_b64" (jslice (hexDecode (chRoot sth))); jfield "signature_b64" (jslice (hexDecode (chSignature sth)));
                 jfield "timestamp" (jint (chTimestamp sth)); jfield "tree_size" (jint (chTreeSize sth))])) decode_gossip_out.

End client.

(** ** The network that ends at the gateway *)

(** Bytes of a target that stand for themselves. *)
Definition plain_byte (b : byte) : bool :=
  is_digit b || in_range b 65 90 || in_range b 97 122 || bool_decide (b ∈ [ch "-"; ch "_"; ch "."; ch "~"]).
Definition plain_text (b : bytes) : bool := forallb plain_byte b.
Definition plain_segment (b : bytes) : bool :=
  negb (bool_decide (b ∈ [[]; to_bytes "."; to_bytes ".."])) && plain_text b.

(** The segments of the path and the parameters of the query. *)
Definition parse_path (b : bytes) : option (list bytes) :=
  match split_on (ch "/") b with
  | [] :: segs => if forallb plain_segment segs then Some segs else None
  | _ => None
  end.
Definition parse_param (b : bytes) : option (string * string) :=
  '(k, v) ← cut (ch "=") b; if plain_text k && plain_text v then Some (of_bytes k, of_bytes v) else None.
Definition parse_query (b : bytes) : option (list (string * string)) :=
  match b with [] => Some [] | _ => mapM parse_param (split_on (ch "&") b) end.
Definition split_target (b : bytes) : bytes * bytes := default (b, []) (cut (ch "?") b).

(** A pattern's method and segments, and what a path binds of them: [{org}] and [{id}]. *)
Definition pattern (r : Route) : bytes * list bytes :=
  let '(m, p) := default ([], []) (cut (ch " ") (to_bytes (spec_of r).1.1)) in (m, tail (split_on (ch "/") p)).
Fixpoint match_path (pat segs : list bytes) (b : string * string) : option (string * string) :=
  match pat, segs with
  | [], [] => Some b
  | p :: pat, s :: segs =>
      if bool_decide (p = to_bytes "{org}") then match_path pat segs (of_bytes s, b.2)
      else if bool_decide (p = to_bytes "{id}") then match_path pat segs (b.1, of_bytes s)
      else if bool_decide (p = s) then match_path pat segs b else None
  | _, _ => None
  end.
Definition routes : list Route :=
  [RHealth; RCreateUser; RListUsers; RUserToken; RCreateOrg; RListOrgs; ROrgDetail; RDeleteOrg; RTimeline; RIssue; RRevoke;
   RState; RGraph; RScores; RRecover; RPubKey; RCTSTH; RCTProof; RCTGossip; RAudit; RListWebhooks; RCreateWebhook;
   RDeleteWebhook; RBackup; RDownload; RRestore; RRotate].
Definition find_route (method : bytes) (segs : list bytes) : option (Route * (string * string)) :=
  head (omap (fun r => let '(m, p) := pattern r in
                       if bool_decide (m = method) then pair r <$> match_path p segs (""%string, ""%string) else None) routes).

Section gateway.
Context `{Hashes} `{Ed25519} `{Symmetric} `{MetaText} `{FloatText} `{UrlText}.
Variable other : HttpReq -> World -> World * option Response.

(** The request a target stands for. *)
Definition read_target (q : HttpReq) (target : bytes) : option (Route * Request) :=
  let '(path, query) := split_target target in
  segs ← parse_path path;
  params ← parse_query query;
  '(r, (org, id)) ← find_route (to_bytes (hqMethod q)) segs;
  Some (r, {| rqMethod := hqMethod q; rqPath := of_bytes path; rqAuth := hqAuth q; rqIdem := ""; rqOrg := org; rqID := id;
              rqQuery := params; rqBody := hqBody q |}).

Definition gateway_net (base : string) (e : Env) (q : HttpReq) (w : World) : World * option Response :=
  match strip (to_bytes base) (to_bytes (hqURL q)) ≫= read_target q with
  | None => other q w
  | Some (r, rq) =>
      match serve_request r rq e w with
      | (w, ROk resp) => (w, Some resp)
      | (w, _) => (w, None)
      end
  end.

End gateway.

(** ** Targets of one organisation or backup *)

Lemma strip_app p s : strip p (p ++ s) = Some s.
Proof. induction p as [|a p IH]; [done|]. cbn. by rewrite decide_True. Qed.

Lemma plain_not_in c b : plain_byte c = false -> plain_text b = true -> c ∉ b.
Proof.
  intros Hc Hb Hi. apply list_elem_of_In in Hi. unfold plain_text in Hb. rewrite forallb_forall in Hb. by rewrite (Hb c Hi) in Hc.
Qed.
Lemma segment_text b : plain_segment b = true -> plain_text b = true.
Proof. by intros [_ ?]%andb_true_iff. Qed.

(** [/v1/<collection>/<name>/<operation>] *)
Definition item_path (coll name op : string) : string := ("/v1/" ++ coll ++ "/" ++ name ++ "/" ++ op)%string.

Lemma item_target coll name op :
  Forall (fun s => plain_segment (to_bytes s) = true) [coll; name; op] ->
  split_target (to_bytes (item_path coll name op)) = (to_bytes (item_path coll name op), []) /\
  parse_path (to_bytes (item_path coll name op)) = Some [to_bytes "v1"; to_bytes coll; to_bytes name; to_bytes op].
Proof.
  intros (Hc & (Hn & (Ho & _)%Forall_cons)%Forall_cons)%Forall_cons.
  assert (E : to_bytes (item_path coll name op) =
    ch "/" :: to_bytes "v1" ++ ch "/" :: to_bytes coll ++ ch "/" :: to_bytes name ++ ch "/" :: to_bytes op).
  { unfold item_path. rewrite !to_bytes_app. cbn. by rewrite <- ?app_assoc. }
  rewrite E. apply segment_text in Hc as Tc, Hn as Tn, Ho as To. split.
  - unfold split_target. rewrite cut_none; [done|]. intros Hi.
    repeat (apply elem_of_cons in Hi as [Hi|Hi]; [discriminate Hi|]). cbn [to_bytes app] in Hi.
    repeat first [apply elem_of_cons in Hi as [Hi|Hi]; [discriminate Hi|] | apply elem_of_app in Hi as [Hi|Hi]];
      by (eapply plain_not_in in Hi; [..|eassumption]).
  - unfold parse_path. cbn [split_on]. rewrite bool_decide_eq_true_2 by done.
    rewrite split_app by (by apply (bool_decide_unpack _); vm_compute).
    rewrite split_app by by apply plain_not_in. rewrite split_app by by apply plain_not_in.
    rewrite split_plain by by apply plain_not_in. cbn [forallb]. by rewrite Hc, Hn, Ho.
Qed.

(** Routes with one name in the third segment. *)
Definition item_route (method coll op : string) (name : string) : option (Route * (string * string)) :=
  find_route (to_bytes method) [to_bytes "v1"; to_bytes coll; to_bytes name; to_bytes op].
Lemma route_issue org : item_route "POST" "orgs" "issue" org = Some (RIssue, (org, ""%string)).
Proof. unfold item_route. rewrite <- (of_to_bytes org) at 2. generalize (to_bytes org). intros b. vm_compute. reflexivity. Qed.
Lemma route_state org : item_route "GET" "orgs" "state" org = Some (RState, (org, ""%string)).
Proof. unfold item_route. rewrite <- (of_to_bytes org) at 2. generalize (to_bytes org). intros b. vm_compute. reflexivity. Qed.
Lemma route_download id : item_route "GET" "backup" "download" id = Some (RDownload, (""%string, id)).
Proof. unfold item_route. rewrite <- (of_to_bytes id) at 2. generalize (to_bytes id). intros b. vm_compute. reflexivity. Qed.

(** Every route is the first its own pattern matches. *)
Example routes_found : forallb (fun r => let '(m, p) := pattern r in
  bool_decide (fst <$> find_route m p = Some r)) routes = true.
Proof. vm_compute. reflexivity. Qed.

(** What the gateway makes of a client's request for one of them. *)
Definition sent (c : Client) (method coll name op : string) (bind : string * string) (body : bytes) : Request :=
  {| rqMethod := method; rqPath := item_path coll name op; rqAuth := "Bearer " ++ cToken c; rqIdem := ""; rqOrg := bind.1;
     rqID := bind.2; rqQuery := []; rqBody := body |}.

Section served.
Context `{Hashes} `{Ed25519} `{Symmetric} `{MetaText} `{FloatText} `{UrlText}.
Variable other : HttpReq -> World -> World * option Response.

#[local] Opaque find_route parse_path split_target.
Lemma obind {A B} (x : A) (k : A -> option B) : (Some x ≫= k) = k x.
Proof. done. Qed.

Lemma item_served c method coll name op r bind type body :
  Forall (fun s => plain_segment (to_bytes s) = true) [coll; name; op] -> item_route method coll op name = Some (r, bind) ->
  read_target {| hqMethod := method; hqURL := cBase c ++ item_path coll name op; hqAuth := "Bearer " ++ cToken c; hqType := type;
                 hqBody := body |} (to_bytes (item_path coll name op)) = Some (r, sent c method coll name op bind body).
Proof.
  intros Hp Hr. unfold item_route in Hr. unfold read_target. destruct (item_target coll name op Hp) as [-> Hpath]. rewrite Hpath, obind.
  change (parse_query []) with (Some (@nil (string * string))). rewrite obind. cbv beta iota delta [hqMethod hqAuth hqBody].
  rewrite Hr, obind. destruct bind as [org id]. cbv beta iota. by rewrite of_to_bytes.
Qed.

Lemma send_served c method coll name op r bind type body e w w' resp :
  Forall (fun s => plain_segment (to_bytes s) = true) [coll; name; op] -> item_route method coll op name = Some (r, bind) ->
  serve_request r (sent c method coll name op bind body) e w = (w', ROk resp) ->
  Client_send (gateway_net other (cBase c) e) c method (item_path coll name op) type body w =
    (w', if rsStatus resp >=? 400 then APIError (rsStatus resp) (take maxBody (rsBody resp)) else Done (take maxBody (rsBody resp))).
Proof.
  intros Hp Hr E. pose proof (item_served c method coll name op r bind type body Hp Hr) as Et.
  unfold Client_send, gateway_net. cbv beta iota delta [hqURL]. rewrite to_bytes_app, strip_app, obind, Et, E. done.
Qed.

(** A request without an idempotency key runs its handler and is recorded. *)
Lemma respond_run r rq u e h w w1 resp : rqIdem rq = ""%string -> h w = (w1, ROk resp) -> locked w1 = false ->
  exists a, respond r rq u e h w = (with_mem (set_audit a (mem w1)) w1, ROk resp).
Proof.
  intros Hi E Hl. unfold respond, idemKey. rewrite Hi. rewrite bool_decide_true by done. cbn [orb]. cbv zeta. rewrite bool_decide_true by done.
  rewrite (bind_run _ _ w w None) by done. rewrite (bind_run _ _ w w1 resp) by (unfold recovered; by rewrite E).
  unfold idemStore. rewrite bool_decide_true by done. rewrite (bind_run _ _ w1 w1 tt) by done.
  rewrite (bind_run _ _ _ _ _ (audit_run _ w1 Hl)). by eexists.
Qed.

(** Authentication looks at the users only. *)
Lemma authenticate_same order auth w w' x : locked w = false -> locked w' = false -> sUsers (mem w') = sUsers (mem w) ->
  authenticate order auth w = (w, ROk x) -> authenticate order auth w' = (w', ROk x).
Proof.
  intros Hl Hl' Hu. unfold authenticate. unfold mbind at 1 3, M_bind at 1 2, lift. destruct (BearerToken auth) as [raw| |]; [|done|done].
  unfold with_lock, lock, get, mbind, M_bind. rewrite Hl, Hl'. cbn [mem set_locked]. rewrite Hu.
  destruct (List.find _ _) as [u|]; cbn; [|done]. intros [= _ <-]. by destruct w'; cbn in *; subst.
Qed.

(** ** The trust state, sent and read *)

Definition state_json (org : string) (certs : gmap string Cert) : json :=
  JObj [jfield "certs" (JObj (omap (fun id => c ← certs !! id; Some (jfield id (cert_json c))) (sorted_keys certs)));
        jfield "org" (jstring org)].
(** The answer is no longer than the client reads, and its names are text. *)
Record readable (org : string) (certs : gmap string Cert) : Prop := {
  rd_names : map_Forall (fun id c => valid_string id /\ valid_string (Identity c)) certs;
  rd_size : (length (indent 0 (state_json org certs)) <= maxBody)%nat;
}.

Lemma decode_cert_json c : decode_cert (cert_json c) = Some c.
Proof. destruct c as [i r]. unfold decode_cert, cert_json. rewrite decode_struct_obj. struct_step cert_set. by struct_step cert_set. Qed.

Definition cert_members (certs : gmap string Cert) (ids : list string) : list (bytes * json) :=
  omap (fun id => c ← certs !! id; Some (jfield id (cert_json c))) ids.

Definition insert_from (certs : gmap string Cert) (m : gmap string Cert) (id : string) : gmap string Cert :=
  match certs !! id with Some c => <[id := c]> m | None => m end.

Lemma decode_members certs ids : forall m,
  foldl (map_step decode_cert) (Some m) (cert_members certs ids) = Some (foldl (insert_from certs) m ids).
Proof.
  induction ids as [|id ids IH]; intros m; [done|]. cbn [foldl]. unfold cert_members. cbn [omap list_omap]. fold (cert_members certs ids).
  unfold insert_from at 2. destruct (certs !! id) as [c|]; cbn [mbind option_bind]; [|apply IH]. cbn [foldl].
  assert (map_step decode_cert (Some m) (jfield id (cert_json c)) = Some (<[id := c]> m)) as ->; [|apply IH].
  unfold map_step. cbn [jfield fst snd mbind option_bind]. by rewrite decode_cert_json, of_to_bytes.
Qed.

Lemma fold_inserts (certs : gmap string Cert) ids : forall m k,
  foldl (insert_from certs) m ids !! k =
  if decide (k ∈ ids) then match certs !! k with Some c => Some c | None => m !! k end else m !! k.
Proof.
  induction ids as [|id ids IH]; intros m k; cbn [foldl]; [done|]. rewrite IH. unfold insert_from.
  destruct (decide (k = id)) as [->|Hne].
  - rewrite (decide_True (P := id ∈ id :: ids)) by left. destruct (certs !! id); [rewrite lookup_insert_eq|]; by destruct (decide _).
  - rewrite (decide_ext (k ∈ id :: ids) (k ∈ ids)) by (rewrite elem_of_cons; naive_solver).
    destruct (certs !! id); [|done]. by rewrite lookup_insert_ne.
Qed.

Lemma decode_certs certs : decode_map decode_cert (JObj (cert_members certs (sorted_keys certs))) = Some certs.
Proof.
  unfold decode_map. rewrite decode_members. f_equal. apply map_eq. intros k. rewrite fold_inserts, lookup_empty.
  destruct (certs !! k) as [c|] eqn:E; [|by destruct (decide _)].
  rewrite decide_True; [done|]. rewrite sorted_keys_perm. apply elem_of_keys. by exists c.
Qed.

Lemma cert_members_ok certs ids : map_Forall (fun id c => valid_string id /\ valid_string (Identity c)) certs ->
  let l := cert_members certs ids in
  wf (JObj l) /\ norm (JObj l) = JObj l /\ (depth (JObj l) <= 3)%nat.
Proof.
  intros Hv l. assert (Hl : Forall (fun kv => coerce kv.1 = kv.1 /\ wf kv.2 /\ norm kv.2 = kv.2 /\ (depth kv.2 <= 2)%nat) l).
  { apply Forall_forall. intros kv (id & _ & E)%list_elem_of_omap. destruct (certs !! id) as [c|] eqn:Ec; [|done]. injection E as <-.
    destruct (Hv _ _ Ec) as [Vi Vc]. cbn [jfield fst snd]. split; [by apply coerce_id|]. unfold cert_json. split; [done|]. split; [|cbn; lia].
    cbn [norm map fst snd jfield]. rewrite norm_jstring by done. by rewrite !coerce_name. }
  clearbody l. split_and!.
  - cbn [wf]. apply all_of_Forall. eapply Forall_impl; [exact Hl|]. by intros kv (_ & ? & _).
  - cbn [norm]. f_equal. induction Hl as [|[k v] l (Ek & _ & Ev & _) _ IH]; [done|]. cbn [map fst snd] in *. by rewrite Ek, Ev, IH.
  - cbn [depth]. apply le_n_S, list_max_le, Forall_map. eapply Forall_impl; [exact Hl|]. by intros kv (_ & _ & _ & ?).
Qed.

Lemma state_reads org certs : readable org certs -> valid_string org ->
  (v ← parse (take maxBody (indent 0 (state_json org certs))); field "certs" (fun _ => decode_map decode_cert) ∅ v) = Some certs.
Proof.
  intros [Hn Hs] Ho. rewrite take_ge by done. destruct (cert_members_ok certs (sorted_keys certs) Hn) as (Hw & Hnorm & Hd).
  unfold state_json. fold (cert_members certs (sorted_keys certs)). pose proof (decode_certs certs) as Hdec.
  set (m := JObj (cert_members _ _)) in *. clearbody m.
  rewrite parse_indent; [|by split_and!|cbn [depth map snd jfield list_max]; pose proof nesting_room; cbn; lia].
  cbn [mbind option_bind norm map fst snd jfield]. rewrite Hnorm, norm_jstring, !coerce_name by done.
  unfold field. rewrite decode_struct_obj.
  change (to_bytes "certs", m) with (jfield "certs" m). rewrite decode_member_cons by left. by rewrite Hdec.
Qed.

Lemma plain_ascii s : plain_text s = true -> forallb (fun b => byte_Z b <? 128) s = true.
Proof.
  intros Hp. apply forallb_forall. intros b Hb. unfold plain_text in Hp. rewrite forallb_forall in Hp. specialize (Hp b Hb).
  revert Hp. by destruct b.
Qed.
Lemma plain_text_valid s : plain_text (to_bytes s) = true -> valid_string s.
Proof. intros Hp. by apply ascii_valid, plain_ascii. Qed.

(** The world after a request that only paid and was recorded. *)
Definition noted (hash : string) (t : Z) (a : list AuditEntry) (w : World) : World :=
  with_mem (set_audit a (mem (paid hash t w))) w.
Lemma noted_beside hash t a w : locked w = false -> beside w (noted hash t a w).
Proof. intros Hl. split; try done. intros id t' Et. by exists t'. Qed.

Lemma state_served c org t tl e w u hash :
  plain_segment (to_bytes org) = true -> admitted RState (sent c "GET" "orgs" org "state" (org, ""%string) []) e w u hash ->
  sTenants (mem w) !! org = Some t -> tID t = org -> tTl t = Some tl -> readable org (Certs (Fold tl)) ->
  exists a, Client_State (gateway_net other (cBase c) e) c org w = (noted hash (nowLimit e) a w, Done (Certs (Fold tl))).
Proof.
  intros Hp Ha Et Hid Htl Hr. pose proof (ad_free _ _ _ _ _ _ Ha) as Hl.
  pose proof (serve_admitted _ _ _ _ _ _ Ha) as E. unfold handler_of in E. cbn [scoped spec_of snd sent rqOrg fst] in E. rewrite Et in E.
  set (rq := sent c "GET" "orgs" org "state" (org, ""%string) []) in *. set (w0 := paid hash (nowLimit e) w) in *.
  destruct (respond_run RState rq u e (on_org RState rq t e) w0 w0 (writeJSON 200 (state_json org (Certs (Fold tl))))) as [a Ea];
    [done| |exact Hl|].
  { cbn [on_org]. unfold handleState, deref. rewrite Htl. rewrite (bind_run _ _ _ _ tl eq_refl). by rewrite Hid. }
  rewrite Ea in E.
  exists a. unfold Client_State, Client_json, Client_do.
  erewrite (send_served c "GET" "orgs" org "state" RState (org, ""%string));
    [|by repeat constructor|apply route_state|exact E].
  cbn [writeJSON rsStatus rsBody and_then]. change (200 >=? 400) with false. cbv iota. unfold and_then.
  rewrite state_reads; [done|done|]. by apply plain_text_valid, segment_text.
Qed.

(** A bundle arrives up to [maxBody]: one that is longer arrives without its end,
    and without an error. *)
Theorem download_cut c id b e w u hash :
  plain_segment (to_bytes id) = true -> admitted RDownload (sent c "GET" "backup" id "download" (""%string, id) []) e w u hash ->
  dBackups (disk w) !! id = Some b ->
  exists w', Client_DownloadBackup (gateway_net other (cBase c) e) c id w = (w', Done (take maxBody b)) /\
    ((maxBody < length b)%nat -> take maxBody b <> b).
Proof.
  intros Hp Ha Eb. pose proof (ad_free _ _ _ _ _ _ Ha) as Hl.
  pose proof (serve_admitted _ _ _ _ _ _ Ha) as E. unfold handler_of in E. cbn [scoped spec_of snd] in E.
  set (rq := sent c "GET" "backup" id "download" (""%string, id) []) in *. set (w0 := paid hash (nowLimit e) w) in *.
  destruct (respond_run RDownload rq u e (on_user RDownload rq u e) w0 w0 {| rsStatus := 200; rsBody := b |}) as [a Ea];
    [done| |exact Hl|].
  { cbn [on_user]. unfold handleBackupDownload. rewrite (bind_run _ _ w0 w0 (disk w)) by done. unfold rq. cbn [sent rqID snd]. by rewrite Eb. }
  rewrite Ea in E. eexists. split.
  - unfold Client_DownloadBackup, Client_do.
    erewrite (send_served c "GET" "backup" id "download" RDownload (""%string, id));
      [|by repeat constructor|apply route_download|exact E]. reflexivity.
  - intros Hlen Et. apply (f_equal length) in Et. rewrite length_take in Et. lia.
Qed.

End served.

(** ** An issuance, and what is read after it *)

Section issue.
Context `{HashLaws} {ED : Ed25519} {EL : Ed25519Laws} `{SymmetricLaws} `{MetaTextLaws} `{FloatText} `{UrlText}.
Variable other : HttpReq -> World -> World * option Response.

Definition issue_body (p : issuePayload) : bytes :=
  print (JObj [jfield "cert_id" (jstring (pCertID p)); jfield "identity" (jstring (pIdentity p)); jfield "via" (jstring (pVia p))]).
Definition issue_sent (c : Client) (org : string) (p : issuePayload) : Request :=
  sent c "POST" "orgs" org "issue" (org, ""%string) (issue_body p).

(** The certificates after an issuance: one that was revoked stays so. *)
Definition with_issued (p : issuePayload) (certs : gmap string Cert) : gmap string Cert :=
  match after_issue p (certs !! pCertID p) with Some x => <[pCertID p := x]> certs | None => certs end.

Record well_named (p : issuePayload) : Prop := {
  wn_cert : pCertID p <> ""%string;
  wn_identity : pIdentity p <> ""%string;
  wn_valid : valid_string (pCertID p) /\ valid_string (pIdentity p) /\ valid_string (pVia p);
  wn_size : (length (issue_body p) <= maxBody)%nat;
}.

Lemma issue_reads c org p : well_named p -> readJSON decode_issue (issue_sent c org p) = Ret p.
Proof.
  destruct p as [k i v]. intros [_ _ (Vc & Vi & Vv) Hs]. cbn [pCertID pIdentity pVia] in *. unfold readJSON, read_body, issue_sent, sent.
  cbn [rqBody]. rewrite take_ge by done. unfold issue_body. cbn [pCertID pIdentity pVia].
  set (j := JObj _). assert (Hj : norm j = j) by (unfold j, jfield; cbn [norm map fst snd]; by rewrite !coerce_name, !norm_jstring by done).
  assert (Hp : parse (print j) = Some j) by (rewrite parse_print; [by rewrite Hj|done|vm_compute; lia]).
  destruct (print j) as [|x l] eqn:E; [done|]. rewrite Hp. cbn [mbind option_bind].
  unfold decode_issue, j. rewrite decode_struct_obj. do 3 struct_step issue_set. done.
Qed.

Lemma fold_issue tl ev p : issued ev = Some p -> fold_certs (events tl ++ [ev]) = with_issued p (fold_certs (events tl)).
Proof.
  intros Hi. rewrite fold_certs_snoc. apply map_eq. intros k. rewrite fold_event_lookup, Hi. unfold with_issued, after_issue.
  destruct (fold_certs (events tl) !! pCertID p) as [x|] eqn:Ex.
  - destruct (decide (pCertID p = k)) as [<-|Hne]; destruct (Revoked x) eqn:Er;
      first [by rewrite lookup_insert_eq, Ex, ?Er | by rewrite lookup_insert_ne].
  - destruct (decide (pCertID p = k)) as [<-|Hne]; [by rewrite lookup_insert_eq, Ex|by rewrite lookup_insert_ne].
Qed.

Lemma operators_read x : x ∈ roles_of RIssue -> x ∈ roles_of RState.
Proof. cbn. set_solver. Qed.

Lemma paid_beside hash t w : locked w = false -> beside w (paid hash t w).
Proof. intros Hl. split; try done. intros id t' Et. by exists t'. Qed.
Lemma audit_beside a w : locked w = false -> beside w (with_mem (set_audit a (mem w)) w).
Proof. intros Hl. split; try done. intros id t' Et. by exists t'. Qed.

(** Plain text and hex are printed as they are. *)
Lemma print_plain s : plain_text s = true -> print_str s = dquote :: s ++ [dquote].
Proof.
  intros Hp. unfold print_str. rewrite ascii_runes by by apply plain_ascii. do 2 f_equal.
  induction s as [|b s IH]; [done|]. cbn in Hp. apply andb_true_iff in Hp as [Hb Hp]. cbn [map concat]. rewrite IH by done.
  revert Hb. by destruct b.
Qed.
Lemma hex_plain b : plain_text (hex_encode b) = true.
Proof.
  unfold hex_encode. induction b as [|x b IH]; [done|]. cbn [map concat]. unfold plain_text. rewrite forallb_app. fold (plain_text (concat (map hex_byte b))).
  rewrite IH. by destruct x.
Qed.

Definition hash_json (h : bytes) (org : string) : json := JObj [jfield "hash" (jhex h); jfield "org" (jstring org)].

Lemma hash_reads h org : plain_text (to_bytes org) = true -> (2 * length h + length (to_bytes org) + 40 <= maxBody)%nat ->
  (v ← parse (take maxBody (indent 0 (hash_json h org))); text_field "hash" v) = Some (of_bytes (hex_encode h)).
Proof.
  intros Hp Hl. rewrite take_ge.
  - rewrite parse_indent; [|done|cbn; pose proof nesting_room; lia]. unfold hash_json, jhex. cbn [mbind option_bind norm map fst snd jfield].
    rewrite !norm_jstring, !coerce_name; [|done|done|by apply plain_text_valid|apply plain_text_valid; rewrite to_of_bytes; apply hex_plain].
    unfold text_field, field. rewrite decode_struct_obj.
    change (to_bytes "hash", jstring (of_bytes (hex_encode h))) with (jfield "hash" (jstring (of_bytes (hex_encode h)))).
    rewrite decode_member_cons by left. by rewrite decode_jstring.
  - unfold hash_json. cbn [indent map join fst snd jfield print jhex jstring]. rewrite to_of_bytes.
    rewrite (print_plain (hex_encode h)) by apply hex_plain. rewrite (print_plain (to_bytes org)) by done.
    rewrite !print_plain by done. repeat (rewrite ?length_app, ?hex_encode_length; cbn [length app newline to_bytes]). cbn. lia.
Qed.

(** What the client is answered. *)
Lemma issue_served kek c org p t w w0 e u hash h w1 :
  plain_segment (to_bytes org) = true -> admitted RIssue (issue_sent c org p) e w u hash -> sTenants (mem w) !! org = Some t ->
  w0 = paid hash (nowLimit e) w ->
  handleIssue t (issue_sent c org p) e w0 = (w1, ROk (writeJSON 201 (JObj [jfield "hash" (jhex h); jfield "org" (jstring org)]))) ->
  Ran kek w1 -> (2 * length h + length (to_bytes org) + 40 <= maxBody)%nat ->
  exists a, serve_request RIssue (issue_sent c org p) e w =
      (with_mem (set_audit a (mem w1)) w1, ROk (writeJSON 201 (JObj [jfield "hash" (jhex h); jfield "org" (jstring org)]))) /\
    Client_Issue (gateway_net other (cBase c) e) c org (pCertID p) (pIdentity p) (pVia p) w =
      (with_mem (set_audit a (mem w1)) w1, Done (of_bytes (hex_encode h))).
Proof.
  intros Hpl Ha Et -> Eh Hr1 Hfit. pose proof (pe_locked _ _ (run_persists _ _ Hr1)) as Hl1.
  pose proof (serve_admitted _ _ _ _ _ _ Ha) as E. unfold handler_of in E. cbn [scoped spec_of snd issue_sent sent rqOrg fst] in E.
  rewrite Et in E.
  destruct (respond_run RIssue (issue_sent c org p) u e (on_org RIssue (issue_sent c org p) t e) (paid hash (nowLimit e) w) w1 _
    eq_refl Eh Hl1) as [a Ea]. unfold issue_sent in Ea at 1, E at 2. rewrite Ea in E. exists a. split; [exact E|].
  unfold Client_Issue, Client_json, Client_do.
  erewrite (send_served other c "POST" "orgs" org "issue" RIssue (org, ""%string));
    [|by repeat constructor|apply route_issue|exact E].
  cbn [writeJSON rsStatus rsBody and_then]. change (201 >=? 400) with false. cbv iota. unfold and_then.
  change (JObj _) with (hash_json h org) at 1. rewrite hash_reads; [done|by apply segment_text|exact Hfit].
Qed.


End issue.

(** ** Witness *)

(** The store of [ToyStore] with the operator Ann, and her client. *)
Module ToyClient.
Definition accounts : M unit := modify (fun s => set_webhooks [] (set_users {["ann"%string := ToyGateway.ann]} s));; saveMeta.
Definition world : World := fst (accounts ToyStore.w1).
Lemma ran : Ran wkek world.
Proof.
  apply (ran_accounts wkek ToyStore.w1 {["ann"%string := ToyGateway.ann]} []); [apply ToyStore.w1_ran| |reflexivity].
  pose proof (pe_text _ _ (run_persists _ _ (ToyStore.w1_ran wkek))) as [_ _ Ht Hc Hg]. split; [|constructor|exact Ht|exact Hc|exact Hg].
  cbn [meta_of set_webhooks set_users mUsers sUsers]. apply map_Forall_singleton. split; [reflexivity|].
  split; [reflexivity|]. split; [reflexivity|]. split; [by repeat constructor|]. split; [by repeat constructor|apply map_Forall_empty].
Qed.
Definition client : Client := NewClient "http://localhost:8080" (ToyGateway.raw Byte.x01).
Definition nowhere (q : HttpReq) (w : World) : World * option Response := (w, None).

Definition users_only : World :=
  {| mem := set_users {["ann"%string := ToyGateway.ann]} emptyStore; disk := emptyDisk; past := []; locked := false |}.
Lemma known : authenticate (fun l => l) ("Bearer " ++ cToken client) world =
  (world, ROk (ToyGateway.ann, tokenHash (ToyGateway.raw Byte.x01))).
Proof. apply (authenticate_same _ _ users_only); [reflexivity|vm_compute; reflexivity|reflexivity|vm_compute; reflexivity]. Qed.

Lemma small n : (n <=? 1000)%nat = true -> (n <= maxBody)%nat.
Proof. intros Hn%Nat.leb_le. unfold maxBody. lia. Qed.
End ToyClient.

